(* ===== verification/_CoqProject ===== *)
-Q . S2P
Prelude.v
Words.v
Values.v
Queue.v
Sync.v
Executor.v
Combinators.v
Path.v
Log.v
Config.v
Factory.v
Component.v
Objection.v
Channel.v
Tlm.v
Sequence.v
Rng.v
Time.v
PhaseHub.v
Runner.v
Callback.v
Signals.v
Handles.v
Triggers.v
Cycle.v
Alu.v
Tinyalu.v
TinyaluRun.v
Stream.v
Testing.v
Trace.v
Macros.v
Env.v
Errors.v
Async.v
Host.v
Kit.v
Bench.v
Tree.v
Probe.v
AsyncInv.v
Wakeups.v
FrameworkTests.v
Chapters.v
AluHost.v
AluChapters.v
TreeChapters.v
AluTree.v
TlmKit.v
TlmChapters.v
AluSeq.v
TinyaluTb.v
CycleVpi.v
VpiStubs.v
UnitKit.v
UnitSim.v
UnitTlm.v
UnitNodes.v
UnitGpi.v
UnitTests.v
