(* ===== verification/Prelude.v ===== *)
(** * A verified model of rustdv

    rustdv is a hardware verification framework: test benches are Rust code
    that a Verilog simulator loads, written as cooperative tasks over the
    simulator's callbacks, with a component methodology on top.  The crates
    under src/rustdv, bottom up, and how they call each other:

      - rustdv-gpi wraps the simulator's C interface (VPI): values, signal
        handles, callbacks.  The simulator calls back into it.
      - rustdv-sim has the executor, the triggers (timer, edge, phase), the
        write buffer, events, locks, queues, paths, logging.  A callback fires
        a trigger's cell, which wakes a task, and drains the executor.
      - rustdv-methodology has components and their phases, the factory and
        the derive macro of rustdv-macros, the configuration database,
        objections, ports, FIFOs, analysis buses, channels, sequences.  It is
        built on the events, locks and queues of rustdv-sim.
      - rustdv-runner selects, runs, scores and reports the tests.
      - rustdv-cycle runs value models cycle by cycle, through a C interface
        or, in the facade crate, over VPI.
      - rustdv-macros expands the test attribute and the component derive.
      - tinyalu_tb is the worked test bench, for the design in
        src/sim/hdl/tinyalu.sv; benchmarks/stream-* is a checker that runs over
        VPI and over the cycle interface.

    ** Files and what they model

      - [Prelude]: polls, results, panics, wakers, shared lemmas and tactics.
      - [Words]: machine-width integers and lists of 32-bit words.
      - [Values]: rustdv-gpi/src/value.rs, four-state bits and vectors
        ([Logic], [LogicArray]), every conversion.
      - [Signals]: rustdv-gpi/src/rustdv_gpi.rs and util.rs, the reads
        ([get_u64], ...) and writes ([set_vector_words], ...) of a signal.
      - [Handles]: rustdv_gpi.rs (classification, lookup, typed reads and
        writes) and rustdv-sim/src/handle.rs with handle/*.rs over the write
        buffer of phase.rs; the simulator is the class [Vpi].
      - [Callback]: rustdv_gpi.rs, [register], [trampoline], [CallbackHandle]:
        reference counts, release, nesting.
      - [Executor]: rustdv-sim/src/executor.rs: [ExecInner] and its operations,
        tasks as programs of calls on the executor.
      - [Testing]: testing.rs, [block_on] and [assert_pending], with the
        measure under which the executor comes to rest.
      - [Trace]: simulator_trace.rs, the client of the trace host.
      - [Queue], [Sync], [Combinators], [Path], [Log], [Rng]: queue.rs, sync.rs
        (event and lock), combinators.rs, path.rs, log.rs, rng.rs of
        rustdv-sim.
      - [Time], [Triggers], [PhaseHub]: time.rs, clock.rs, triggers.rs and
        phase.rs: durations, [Timer], [Edge], [NullTrigger], the phase hub with
        the write buffer.
      - [Config], [Factory], [Component], [Objection], [Channel], [Tlm],
        [Sequence]: config.rs, factory.rs (with the code the macro crate
        derives), component.rs, objection.rs, channel.rs, port.rs with fifo.rs,
        analysis.rs and shared.rs, and sequence.rs of rustdv-methodology.
      - [Runner]: rustdv-runner/src/rustdv_runner.rs.
      - [Cycle]: rustdv-cycle/src/rustdv_cycle.rs and src/cycle_vpi.rs of the
        facade crate: the C interface of a cycle model and the VPI adapter.
      - [Macros]: rustdv-macros/src/rustdv_macros.rs: the options of the test
        attribute, the registration it makes, what the derive accepts and the
        methods it generates, run on struct values.
      - [Errors]: error.rs and the conversions into it, with the errors of
        config.rs and sequence.rs.
      - [Alu]: alu_item.rs, sequences.rs and the checks of components.rs of
        tinyalu_tb; [Tinyalu]: alu_bfm.rs and the design, edge by edge;
        [TinyaluRun]: what the bench observes and when it is idle; [Env]:
        env.rs, the components' build and tinyalu_tb.rs.
      - [Stream]: benchmarks/stream-model, stream-vpi and stream-cycle.

    Those files model one component each, for every user of it.  The following
    put them together and run whole programs:

      - [Async]: asynchronous code over executor, triggers and phase hub: what
        the compiler makes of an async block ([Code], suspended [Fut]) and how
        it is polled and dropped, with the futures of queue.rs, sync.rs,
        objection.rs and combinators.rs polled by their own models.
      - [Host]: the closures the triggers register with the simulator, a step
        relation for any simulator that keeps to VPI, and the event loop of
        src/sim/verilator_main.cpp.
      - [AsyncInv], [Wakeups]: the invariant of the composed system and its
        theorems.
      - [Kit]: the async functions of the framework written in [Code]: clock,
        timeouts, the read-only service, one test, the regression.  [Bench]: a
        regression from start-up to the lines on the console.  [Tree]: the
        phases of a component test, run bodies joined and raced against the
        drained objections.  [TlmKit]: ports, FIFOs, analysis buses and
        sequencers by address, called from [Code].
      - [Probe], [FrameworkTests]: rustdv/framework-tests, design and tests.
      - [Chapters], [AluChapters], [TreeChapters], [AluTree], [TlmChapters],
        [AluSeq]: the benches of the book, output/examples/ch15 to ch39 with
        tinyalu-utils; [AluHost]: the TinyALU as a host evaluates it.
      - [TinyaluTb]: the shipped bench rustdv/tinyalu_tb end to end.
      - [CycleVpi]: the cycle adapter of src/cycle_vpi.rs as asynchronous code
        and the benchmark stream-vpi run with it on its design.
      - [VpiStubs]: rustdv-vpi-stubs, the simulator double of the unit tests,
        as a simulator for the handles and under the callback cells.
      - [UnitKit]: how a unit test comes to an outcome; [UnitSim], [UnitTlm],
        [UnitNodes], [UnitGpi]: the unit tests inside the crates, a module per
        source file and a definition per test; [UnitTests]: all of them.

    ** How the code is rendered

    A [RefCell] behind an [Rc] is a record passed through the operations; where
    several owners hold cells of their own (lock waiters, trigger cells, item
    slots, callback cells, ports) the cells live in a map by address, so
    sharing is visible.  A future is its state and a [poll] that takes the
    waker of the polling task and answers [Ready] or [Pending]; an async
    function is a state per await.  Waking returns the wakers woken, in order.
    A panic is the [Panic] outcome of [Exec]; [Result] is [Result].  Dropping
    is an operation, so cancellation is a step like the others.  Integers keep
    their width where it matters (values, signals, times, random numbers);
    indices and counts are natural numbers, task ids too (u64 in the code, one
    per spawn).  [slice::sort_by] is the stable insertion sort it is on slices of
    up to twenty elements ([Config.sort_by]); where the comparator is a total
    preorder, as for the tests' places in their files, any stable sort gives the
    same list, and for the configuration's patterns, where it need not be one,
    the model speaks of databases with so few matching patterns.  What is foreign is an argument:
    user code (tasks, phase methods, run bodies), the simulator, big integers
    (class [BigUint] with its documented laws), file opening, hash-map order.

    Components that call each other do so through interfaces: [BigUint] with
    [BigUintLaws] (values, signals), [Vpi] with [VpiLaws] (handles over a
    simulator), [HandleChildren] (lookups through modules and aggregates),
    [QueueLike] (the FIFO and its taps over the queue), [Future] (combinators
    over any future), [Typed] (the values a configuration database holds),
    [SynExpr] (the expression parser under the test attribute), [Operands] (the
    sequences' choice of operands).

    ** What the theorems show

      - Executor: its tables agree in every reachable state, an outcome is
        final, [run_until_idle] stops only when nothing can run, scheduling is
        first-in first-out and a turn polls the task it serves, cancellation
        touches exactly its tasks.  It comes to
        rest when every future has a budget of polls and spawns, and then
        [block_on] answers.
      - Callbacks: no use after free, no double release, one-shots run at most
        once, dropping a handle unregisters, aborting only by re-entry.  The
        simulator double takes them through the same operations and counts as
        live exactly the registrations they hold.
      - Triggers: a timer is ready at its time and not before, an edge exactly
        when seen, a phase wait is never lost; registrations do not outlive
        their futures; writes are coalesced and never applied while reading.
      - Signals and values: integer reads on raw words agree with the
        four-state value, writes come back reduced to the width, text and word
        round trips, X and Z are refused.
      - Handles: a typed handle stands for an object of its kind, lookups fail
        in the documented ways only, and scheduled writes land in the
        simulator, each handle with its last value.
      - Queue, channel, FIFO, bus: every item once, in order, within the depth;
        the queue refines an abstract bounded FIFO, answer by answer; taps and subscribers see
        exactly what passed.
      - Lock, event, objections: one owner, fair hand-over, safe cancellation;
        the drained state is what the guards alive say.
      - Sequences: an item is granted, filled and released once, to the driver
        that took it.
      - Components: phases visit the whole tree in their order, children are
        restored when a run fails, and the error reported is the first one, in
        the order in which results are joined; overrides are resolved once.
      - Configuration: globs mean their language; precedence, recency and
        specificity decide a lookup as far as the comparator orders patterns.
      - Macros: the derived methods are those of the component node with the
        declared fields; an attribute registers what it says.
      - Runner: every selected test is reported once and in order, with the
        outcome its run came to, scored by what it declares, in a clean
        environment.
      - Cycle models: the C interface and the VPI adapter drive the same
        outputs and reach the same status, error or panic; the adapter with its
        clock task, on the host, comes to what the model stepped directly comes
        to, on the plans run.
      - Tracing: the host is called once, in its phase, and its answer reported.
      - TinyALU: the environment wires up in every configuration, the tests
        start, the bench observes every command with its predicted result,
        waiting for idle ends, and each of the three sequences passes the
        scoreboard and coverage against the design (two of them are sent by
        registered tests).
      - Stream: the checker passes only when the prescribed transfers took
        place, and says the same over both backends.
      - The composed system: for every program of tasks and every simulator
        that keeps to VPI, a sleeping task is owed a callback by each trigger it
        waits for, the callback ends the wait, and the event loop of the shipped
        host is such a simulator.
      - Whole runs: the framework's suite passes on the model (for every seed
        but for the one test that looks at it); the benches of the book print
        the transcripts of their READMEs; the shipped bench passes with its
        README's transcript whatever the regression's seed, which never reaches
        the sequences, and fails, result by result, against a design with a
        narrow result bus, which is a fault made up for the purpose.
        Of the 147 unit tests of the crates 145 pass on the models of what they
        test.  Where the order of one edge's callbacks matters both orders are run,
        and where it decides what a scoreboard compares a theorem says so.

    Reachability theorems quantify over every finite sequence of steps of the
    component's users.  Witness modules at the end of the files apply the
    theorems to concrete inputs.

    ** Bounds and fuel

    [Executor.loop] takes fuel because user tasks may wake each other for ever;
    the quiescence theorem says that it returns as soon as a turn finds no task
    to poll, the scheduling theorem gives the exact number of turns after which
    a queued task is polled, and the termination theorem gives fuel that is
    enough whenever the tasks are bounded ([Testing.Bounded]).  The component
    walks take the depth of the tree: every finite tree has one
    ([depth_le_height]), and the theorems are about any bound that is at least
    that.  Parsing the test attribute takes one more than its tokens, decoding
    a text its bytes, flushing a FIFO one more than the items it has, trimming a
    text its length; each is proved enough.  Everything else is structurally
    recursive.

    The composed system takes bounds as parameters: how often a loop starts over
    within one poll (exceeding it is a panic with a message of its own), how
    many turns a drain has (a drain that exceeds them has no result) and how
    many turns the event loop has.  The theorems of [Wakeups] hold for all of
    them and speak of the drains that end; [Testing] says when they do.  Whole
    runs fix them ([Bench.turns], [Bench.fuel], trees at most 8 deep), and their
    theorems state that the run ended, without trouble, in the outcomes and
    lines they give: for these programs the bounds are enough.

    ** What is assumed of what is not under src/

    VPI calls back as its standard documents: once per one-shot registration,
    value callbacks once per change; the order among the callbacks of one change
    is a parameter.  In [Host.step], as in the shipped host, callbacks come from
    the event loop only, never while one of the bench's calls into the simulator
    (a put, a registration) or a drain is under way; a simulator that calls back
    from inside such a call is treated in [Callback], which allows nesting, but
    the executor's guard against it (executor.rs, [run_until_idle] on a running
    executor) is only a branch of [Executor.run_until_idle].  Verilator's evaluation of a design is a function of its
    signals; the TinyALU is evaluated with its registers unknown at the start.
    Log files can be opened.  Big integers have the documented laws.

    ** What is not modelled

    Printing, file contents and the process environment beyond the variables
    read; tokenising and parsing of Rust by syn, and names outside ASCII in the
    derived constants; plusargs, simulator control and printing of rustdv-gpi;
    the destructors of what a callback's closure captures and of what a block
    captures that is never polled, and a registration the simulator refuses; the
    raw bindings (declarations only); simulation time as a float and the elapsed
    wall-clock time; borrow errors of [RustdvShared]; of the framework's tests
    those that use raw callbacks, the end of the simulation, trace files, real
    and string objects or the process's memory; the look at the link-time
    registries; the figures of the book's chapters 1 to 14, 21 and 35, which
    teach the language; output/sequences-aspirational.rs, which no build
    compiles. *)
From stdpp Require Export base list strings gmap relations.
From Stdlib Require Export ZArith Lia.

Create HintDb rustdv discriminated.
Create Rewrite HintDb rustdv.

(** ** Rust's two-way outcomes *)

(** [std::task::Poll]: what one [poll] of a future answers. *)
Inductive Poll (A : Type) : Type :=
| Ready (a : A)
| Pending.
Arguments Ready {A} _.
Arguments Pending {A}.

(** [std::result::Result]. *)
Inductive Result (A E : Type) : Type :=
| Ok (a : A)
| Err (e : E).
Arguments Ok {A E} _.
Arguments Err {A E} _.

(** A computation that may panic: [assert!], [expect], [unreachable!] and
    indexing out of range unwind with a message. *)
Inductive Exec (A : Type) : Type :=
| Done (a : A)
| Panic (msg : string).
Arguments Done {A} _.
Arguments Panic {A} _.

Definition exec_bind {A B} (c : Exec A) (k : A → Exec B) : Exec B :=
  match c with
  | Done a => k a
  | Panic m => Panic m
  end.

Definition result_bind {A B E} (c : Result A E) (k : A → Result B E) : Result B E :=
  match c with
  | Ok a => k a
  | Err e => Err e
  end.

Declare Scope rustdv_scope.
Delimit Scope rustdv_scope with rustdv.
Notation "x <-! c ;; k" := (exec_bind c (λ x, k))
  (at level 100, c at next level, right associativity) : rustdv_scope.
Notation "x <-? c ;; k" := (result_bind c (λ x, k))
  (at level 100, c at next level, right associativity) : rustdv_scope.

(** [Result::ok]. *)
Definition result_ok {A E} (r : Result A E) : option A :=
  match r with Ok a => Some a | Err _ => None end.

(** ** Wakers
    A [std::task::Waker] made by the executor only carries a task id
    ([TaskWaker] of executor.rs); waking it pushes that id on the woken queue.
    The id is a [u64] counter that is never reused, kept as a [nat]. *)
Abbreviation TaskId := nat (only parsing).
Abbreviation Waker := nat (only parsing).

(** ** Tactics of the development *)

(** Case analysis on an innermost [match] or [if] of the goal. *)
Ltac case_goal :=
  match goal with
  | |- context [ match ?x with _ => _ end ] =>
      lazymatch x with
      | context [ match _ with _ => _ end ] => fail
      | _ => destruct x eqn:?
      end
  end.

(** The same for a hypothesis. *)
Ltac case_hyp :=
  match goal with
  | H : context [ match ?x with _ => _ end ] |- _ =>
      lazymatch x with
      | context [ match _ with _ => _ end ] => fail
      | _ => destruct x eqn:?
      end
  end.

(** Splits records and products out of the context and computes. *)
Ltac crush :=
  repeat (simplify_eq/=; try case_hyp; try done).

Ltac split_and_all := repeat match goal with |- _ ∧ _ => split end.

(** ** Reachability *)

(** An invariant of a step relation holds along every sequence of steps. *)
Lemma rtc_preserves {S : Type} (step : S → S → Prop) (I : S → Prop) :
  (∀ s s', step s s' → I s → I s') → ∀ s s', rtc step s s' → I s → I s'.
Proof. intros Hp s s'. induction 1; eauto. Qed.

(** ** Lists *)

(** [iter().position(p)] followed by [remove(i)]: drop the first match. *)
Fixpoint remove_first {A} (p : A → bool) (l : list A) : list A :=
  match l with
  | [] => []
  | x :: r => if p x then r else x :: remove_first p r
  end.

(** [iter().find(p)] / [iter().position(p)] read back as the element. *)
Fixpoint find_first {A} (p : A → bool) (l : list A) : option A :=
  match l with
  | [] => None
  | x :: r => if p x then Some x else find_first p r
  end.

(** [last_mut()] through which the element is rewritten. *)
Fixpoint update_last {A} (f : A → A) (l : list A) : list A :=
  match l with
  | [] => []
  | [x] => [f x]
  | x :: r => x :: update_last f r
  end.

Lemma find_first_None {A} (p : A → bool) l :
  find_first p l = None ↔ Forall (λ x, p x = false) l.
Proof.
  induction l as [|x r IH]; simpl; [by split|].
  rewrite Forall_cons, <- IH. destruct (p x) eqn:E; split; try done; by intros [].
Qed.

Lemma find_first_Some {A} (p : A → bool) l x :
  find_first p l = Some x →
  p x = true ∧ ∃ l1 l2, l = l1 ++ x :: l2 ∧ remove_first p l = l1 ++ l2 ∧
    Forall (λ y, p y = false) l1.
Proof.
  induction l as [|y r IH]; simpl; [done|].
  destruct (p y) eqn:E; intros H.
  - simplify_eq. split; [done|]. by exists [], r.
  - destruct (IH H) as (Hx & l1 & l2 & -> & Hr & Hf). split; [done|].
    exists (y :: l1), l2. rewrite Hr. split_and_all; [done..|by constructor].
Qed.

Lemma remove_first_none {A} (p : A → bool) l :
  find_first p l = None → remove_first p l = l.
Proof.
  induction l as [|y r IH]; simpl; [done|]. destruct (p y); [done|].
  intros H. by rewrite IH.
Qed.

Lemma update_last_snoc {A} (f : A → A) l x : update_last f (l ++ [x]) = l ++ [f x].
Proof.
  induction l as [|y r IH]; [done|]. simpl. rewrite IH. by destruct r.
Qed.

Lemma length_update_last {A} (f : A → A) l : length (update_last f l) = length l.
Proof.
  induction l as [|y r IH]; [done|]. simpl in *. destruct r; simpl in *; lia.
Qed.

Lemma filter_all {A} (P : A → Prop) `{∀ x, Decision (P x)} l : Forall P l → filter P l = l.
Proof. induction 1; [done|]. rewrite filter_cons_True by done. by f_equal. Qed.

(** ** Strings *)

(** [str::join]: the parts with a separator between consecutive ones. *)
Fixpoint join_with (sep : string) (parts : list string) : string :=
  match parts with
  | [] => EmptyString
  | [p] => p
  | p :: r => p +:+ sep +:+ join_with sep r
  end.

Lemma string_app_assoc (a b c : string) : (a +:+ b) +:+ c = a +:+ (b +:+ c).
Proof. induction a as [|x a IH]; [done|]. exact (f_equal (String x) IH). Qed.

Lemma string_app_nil_r (a : string) : a +:+ EmptyString = a.
Proof. induction a as [|x a IH]; [done|]. exact (f_equal (String x) IH). Qed.

(** [str::to_owned] of a [char] sequence. *)
Fixpoint string_of_list (l : list Ascii.ascii) : string :=
  match l with
  | [] => EmptyString
  | c :: r => String c (string_of_list r)
  end.

Fixpoint list_of_string (s : string) : list Ascii.ascii :=
  match s with
  | EmptyString => []
  | String c r => c :: list_of_string r
  end.

(** A line feed. *)
Definition nl : string := String (Ascii.ascii_of_nat 10) EmptyString.

(** [CString::new] refuses a NUL byte, [str::contains('\0')] looks for one. *)
Definition nul : Ascii.ascii := Ascii.Ascii false false false false false false false false.
Fixpoint has_nul (s : string) : bool :=
  match s with EmptyString => false | String c r => bool_decide (c = nul) || has_nul r end.

Lemma has_nul_app a b : has_nul (a +:+ b) = has_nul a || has_nul b.
Proof.
  induction a as [|c a IH]; [done|]. change (String c a +:+ b) with (String c (a +:+ b)). simpl.
  rewrite IH. by rewrite orb_assoc.
Qed.

Lemma string_of_list_of_string s : string_of_list (list_of_string s) = s.
Proof. induction s; simpl; congruence. Qed.

Lemma list_of_string_of_list l : list_of_string (string_of_list l) = l.
Proof. induction l; simpl; congruence. Qed.

(** [str::trim], of ASCII whitespace. *)
Definition is_space (c : Ascii.ascii) : bool :=
  let n := Ascii.nat_of_ascii c in bool_decide (n = 32 ∨ 9 ≤ n ≤ 13).
Fixpoint drop_spaces (l : list Ascii.ascii) : list Ascii.ascii :=
  match l with c :: r => if is_space c then drop_spaces r else l | [] => [] end.
Definition str_trim (s : string) : string :=
  string_of_list (reverse (drop_spaces (reverse (drop_spaces (list_of_string s))))).

Lemma has_nul_elem s : has_nul s = false ↔ nul ∉ list_of_string s.
Proof.
  induction s as [|c s IH]; simpl; [split; [intros _; apply not_elem_of_nil|done]|].
  rewrite orb_false_iff, bool_decide_eq_false, IH, not_elem_of_cons. naive_solver.
Qed.

Lemma elem_of_drop_spaces c l : c ∈ drop_spaces l → c ∈ l.
Proof. induction l as [|x l IH]; simpl; [done|]. case_match; [|done]. intros Hc. right. auto. Qed.

Lemma has_nul_trim s : has_nul s = false → has_nul (str_trim s) = false.
Proof.
  rewrite !has_nul_elem. unfold str_trim. rewrite list_of_string_of_list. intros Hs Hn. apply Hs.
  apply elem_of_reverse, elem_of_drop_spaces, elem_of_reverse, elem_of_drop_spaces in Hn. done.
Qed.

#[export] Hint Rewrite @update_last_snoc @length_update_last string_of_list_of_string
  list_of_string_of_list string_app_assoc string_app_nil_r : rustdv.
