(* ===== verification/Words.v ===== *)
(** * Words: machine-width integers and little-endian digit lists.

    A [u32], [u64] or [u128] is a [Z] in range; [wrap w] is the reduction that
    [as uN] casts and the [wrapping_*] methods perform.  [le_val] reads a list
    of 32-bit digits in least-significant-first order, which is the order of
    VPI vector words and of [BigUint] digits. *)
From S2P Require Import Prelude.
Local Open Scope Z_scope.

Definition wrap (w z : Z) : Z := z mod 2 ^ w.

Definition u32_max : Z := 2 ^ 32 - 1.

(** A value of width [w]. *)
Definition fits (w z : Z) : Prop := 0 ≤ z < 2 ^ w.

#[export] Instance fits_dec w z : Decision (fits w z).
Proof. unfold fits. apply _. Defined.

(** [usize::div_ceil]. *)
Definition div_ceil (a b : nat) : nat := ((a + (b - 1)) / b)%nat.

Fixpoint le_val (ds : list Z) : Z :=
  match ds with
  | [] => 0
  | d :: r => d + 2 ^ 32 * le_val r
  end.

(** The first [n] digits, zero-extended: an iterator's [next().unwrap_or(0)]
    taken [n] times. *)
Fixpoint pad_digits (n : nat) (ds : list Z) : list Z :=
  match n with
  | O => []
  | S m => match ds with [] => 0 :: pad_digits m [] | d :: r => d :: pad_digits m r end
  end.

Lemma wrap_fits w z : 0 ≤ w → fits w (wrap w z).
Proof. intros. unfold fits, wrap. apply Z.mod_pos_bound. lia. Qed.

Lemma wrap_id w z : fits w z → wrap w z = z.
Proof. intros. by apply Z.mod_small. Qed.

Lemma land_ones_wrap w z : 0 ≤ w → Z.land z (2 ^ w - 1) = wrap w z.
Proof.
  intros. unfold wrap. rewrite <- Z.land_ones by done.
  by rewrite Z.ones_equiv, Z.sub_1_r.
Qed.

Lemma wrap_spec w z i : 0 ≤ w → Z.testbit (wrap w z) i = (if decide (i < w) then Z.testbit z i else false).
Proof.
  intros. unfold wrap. case_decide.
  - destruct (decide (0 ≤ i)); [by rewrite Z.mod_pow2_bits_low|].
    by rewrite !Z.testbit_neg_r by lia.
  - rewrite Z.mod_pow2_bits_high; [done|lia].
Qed.

(** A value below [2 ^ w] has no bit at [w] or above. *)
Lemma fits_bits w z i : fits w z → w ≤ i → Z.testbit z i = false.
Proof.
  intros [? ?] ?. destruct (decide (z = 0)) as [->|]; [apply Z.testbit_0_l|].
  apply Z.bits_above_log2; [done|].
  assert (Z.log2 z < w) by (apply Z.log2_lt_pow2; lia). lia.
Qed.

Lemma fits_of_bits w z : 0 ≤ w → 0 ≤ z → (∀ i, w ≤ i → Z.testbit z i = false) → fits w z.
Proof.
  intros ?? Hb. split; [done|]. destruct (decide (z = 0)) as [->|]; [apply Z.pow_pos_nonneg; lia|].
  apply Z.log2_lt_pow2; [lia|]. destruct (decide (Z.log2 z < w)); [done|].
  specialize (Hb (Z.log2 z) ltac:(lia)). rewrite Z.bit_log2 in Hb by lia. done.
Qed.

Lemma fits_lor w a b : 0 ≤ w → fits w a → fits w b → fits w (Z.lor a b).
Proof.
  intros ? Ha Hb. apply fits_of_bits; [done|rewrite Z.lor_nonneg; unfold fits in *; lia|].
  intros i ?. rewrite Z.lor_spec, !(fits_bits w) by done. done.
Qed.

Lemma fits_lxor w a b : 0 ≤ w → fits w a → fits w b → fits w (Z.lxor a b).
Proof.
  intros ? Ha Hb. apply fits_of_bits; [done|rewrite Z.lxor_nonneg; unfold fits in *; lia|].
  intros i ?. rewrite Z.lxor_spec, !(fits_bits w) by done. done.
Qed.

Lemma fits_land w a b : 0 ≤ w → fits w a → fits w b → fits w (Z.land a b).
Proof.
  intros Hw Ha Hb. apply fits_of_bits; [done|apply Z.land_nonneg; left; apply Ha|].
  intros i Hi. by rewrite Z.land_spec, (fits_bits w a) by done.
Qed.

Lemma fits_shiftr w a k : 0 ≤ k → fits w a → fits w (Z.shiftr a k).
Proof.
  unfold fits. intros ? [? ?]. rewrite Z.shiftr_div_pow2 by done.
  assert (1 ≤ 2 ^ k) by (assert (0 < 2 ^ k) by (apply Z.pow_pos_nonneg; lia); lia).
  split; [apply Z.div_pos; lia|].
  apply Z.le_lt_trans with a; [apply Z.div_le_upper_bound; nia|done].
Qed.

#[export] Hint Resolve wrap_fits fits_lor fits_lxor fits_shiftr : rustdv.

(** ** Digit lists *)

Lemma le_val_app a b : le_val (a ++ b) = le_val a + 2 ^ (32 * Z.of_nat (length a)) * le_val b.
Proof.
  induction a as [|d r IH]; [cbn [app length le_val]; change (2 ^ (32 * Z.of_nat 0)) with 1; lia|].
  simpl app. simpl length. cbn [le_val]. rewrite IH, Nat2Z.inj_succ.
  replace (32 * Z.succ (Z.of_nat (length r))) with (32 + 32 * Z.of_nat (length r)) by lia.
  rewrite Z.pow_add_r by lia. rewrite ?Z.add_0_l. ring.
Qed.

Lemma le_val_fits ds : Forall (fits 32) ds → fits (32 * Z.of_nat (length ds)) (le_val ds).
Proof.
  induction 1 as [|d r Hd _ IH]; [done|]. simpl length. cbn [le_val]. unfold fits in *.
  rewrite Nat2Z.inj_succ.
  replace (32 * Z.succ (Z.of_nat (length r))) with (32 + 32 * Z.of_nat (length r)) by lia.
  rewrite Z.pow_add_r by lia. nia.
Qed.

Lemma le_val_nonneg ds : Forall (fits 32) ds → 0 ≤ le_val ds.
Proof. intros H. apply le_val_fits in H. unfold fits in H. lia. Qed.

Lemma le_val_zeros n : le_val (pad_digits n []) = 0.
Proof. induction n; [done|]. cbn [pad_digits le_val]. lia. Qed.

Lemma length_pad_digits n ds : length (pad_digits n ds) = n.
Proof. revert ds; induction n; intros [|??]; simpl; auto. Qed.

Lemma pad_digits_fits n ds : Forall (fits 32) ds → Forall (fits 32) (pad_digits n ds).
Proof.
  revert ds; induction n; intros ds H; [constructor|]. destruct H; simpl; constructor; auto.
  done.
Qed.

(** Reading [n] digits of a number is reducing it modulo [2 ^ (32 n)]. *)
Lemma le_val_pad n ds :
  Forall (fits 32) ds → le_val (pad_digits n ds) = wrap (32 * Z.of_nat n) (le_val ds).
Proof.
  revert ds. induction n as [|n IH]; intros ds H.
  - unfold wrap. simpl. by rewrite Z.mod_1_r.
  - destruct H as [|d r Hd Hr].
    + cbn [pad_digits le_val]. rewrite le_val_zeros. unfold wrap. by rewrite Z.mod_0_l by (apply Z.pow_nonzero; lia).
    + cbn [pad_digits le_val]. rewrite IH by done. unfold wrap.
      replace (32 * Z.of_nat (S n)) with (32 + 32 * Z.of_nat n) by lia.
      rewrite Z.pow_add_r by lia. unfold fits in Hd.
      set (m := 2 ^ (32 * Z.of_nat n)). assert (0 < m) by (apply Z.pow_pos_nonneg; lia).
      rewrite Z.rem_mul_r by lia.
      replace (d + 2 ^ 32 * le_val r) with (d + le_val r * 2 ^ 32) by ring.
      rewrite Z.mod_add, Z.div_add by lia.
      rewrite (Z.mod_small d), (Z.div_small d) by lia. rewrite ?Z.add_0_l. ring.
Qed.

(** Digit lists of one length are determined by their value. *)
Lemma le_val_inj a b :
  length a = length b → Forall (fits 32) a → Forall (fits 32) b → le_val a = le_val b → a = b.
Proof.
  revert b. induction a as [|d r IH]; intros [|e s] Hlen Ha Hb Hv; try done.
  inversion Ha; inversion Hb; subst. cbn [le_val] in Hv. simpl in Hlen. unfold fits in *.
  assert (d = e ∧ le_val r = le_val s) as [-> ?] by lia.
  f_equal. apply IH; auto.
Qed.

Lemma div_ceil_32 n : (n ≤ 32 * div_ceil n 32)%nat ∧ (32 * div_ceil n 32 < n + 32)%nat.
Proof.
  unfold div_ceil. replace (32 - 1)%nat with 31%nat by lia.
  pose proof (Nat.div_mod_eq (n + 31) 32). pose proof (Nat.mod_upper_bound (n + 31) 32). lia.
Qed.

(** Masking the final word of a [div_ceil width 32]-word list to the bits in
    use is reducing the whole value to [width] bits. *)
Lemma le_val_mask_last (width : nat) (f : Z → Z) ds :
  Forall (fits 32) ds →
  length ds = div_ceil width 32 →
  (width mod 32)%nat ≠ 0%nat →
  (∀ d, f d = Z.land d (2 ^ Z.of_nat (width mod 32) - 1)) →
  le_val (update_last f ds) = wrap (Z.of_nat width) (le_val ds).
Proof.
  intros Hds Hlen Hmod Hf. pose proof (div_ceil_32 width) as [Hc1 Hc2].
  destruct ds as [|x ds0 _] using rev_ind.
  { cbn [length] in Hlen. assert (width = 0)%nat as -> by lia. done. }
  rewrite update_last_snoc, !le_val_app. cbn [le_val]. rewrite !Z.mul_0_r, !Z.add_0_r.
  apply Forall_app in Hds as [H0 Hx]. inversion Hx as [|?? Hx' _]; subst.
  pose proof (le_val_fits _ H0) as Hv. set (L := length ds0) in *.
  rewrite length_app in Hlen. cbn [length] in Hlen. fold L in Hlen.
  assert (width = 32 * L + width mod 32)%nat as Hw.
  { pose proof (Nat.div_mod_eq width 32). pose proof (Nat.mod_upper_bound width 32 ltac:(lia)). lia. }
  set (m := (width mod 32)%nat) in *.
  rewrite Hf, land_ones_wrap by lia. unfold wrap. rewrite Hw.
  replace (Z.of_nat (32 * L + m)) with (32 * Z.of_nat L + Z.of_nat m) by lia.
  rewrite Z.pow_add_r by lia. unfold fits in *.
  assert (0 < 2 ^ (32 * Z.of_nat L)) by (apply Z.pow_pos_nonneg; lia).
  assert (0 < 2 ^ Z.of_nat m) by (apply Z.pow_pos_nonneg; lia).
  rewrite Z.rem_mul_r by lia.
  rewrite (Z.mul_comm (2 ^ (32 * Z.of_nat L)) x), Z.mod_add, Z.div_add by lia.
  rewrite (Z.mod_small (le_val ds0)), (Z.div_small (le_val ds0)) by lia. rewrite ?Z.add_0_l. ring.
Qed.

(** ** The bits of a width *)

(** Masks the final word to the bits in use. *)
Definition trim (n : nat) (ws : list Z) : list Z :=
  if decide ((n mod 32)%nat = 0%nat) then ws
  else update_last (λ x, Z.land x (Z.shiftl 1 (Z.of_nat (n mod 32)) - 1)) ws.

Lemma trim_fits n ws : Forall (fits 32) ws → Forall (fits 32) (trim n ws).
Proof.
  intros Hws. unfold trim. case_decide as Hn; [done|].
  destruct ws as [|x ws _] using rev_ind; [done|]. rewrite update_last_snoc.
  apply Forall_app in Hws as [? Hx]. apply Forall_app. split; [done|].
  inversion Hx as [|?? [??] ?]; subst. constructor; [|done].
  pose proof (Nat.mod_upper_bound n 32 ltac:(lia)).
  rewrite Z.shiftl_1_l, land_ones_wrap by lia. split; [apply Z.mod_pos_bound; lia|].
  unfold wrap. apply Z.lt_trans with (2 ^ Z.of_nat (n mod 32)); [apply Z.mod_pos_bound; lia|].
  apply Z.pow_lt_mono_r; lia.
Qed.

Lemma le_val_trim n ws :
  Forall (fits 32) ws → length ws = div_ceil n 32 → le_val (trim n ws) = wrap (Z.of_nat n) (le_val ws).
Proof.
  intros Hws Hlen. pose proof (div_ceil_32 n). unfold trim. case_decide as Hn.
  - assert (n = 32 * length ws)%nat as -> by (pose proof (Nat.div_mod_eq n 32); lia).
    rewrite wrap_id; [done|]. replace (Z.of_nat (32 * length ws)) with (32 * Z.of_nat (length ws)) by lia.
    by apply le_val_fits.
  - apply le_val_mask_last; [done..|]. intros d. by rewrite Z.shiftl_1_l.
Qed.

(** Digits are zero exactly when their value is. *)
Lemma le_val_zero ds : Forall (fits 32) ds → forallb (Z.eqb 0) ds = (le_val ds =? 0).
Proof.
  induction 1 as [|d r Hd Hr IH]; [done|]. cbn [forallb le_val]. rewrite IH.
  pose proof (le_val_nonneg r Hr). unfold fits in *.
  destruct (Z.eqb_spec 0 d), (Z.eqb_spec (le_val r) 0), (Z.eqb_spec (d + 2 ^ 32 * le_val r) 0); simpl; lia.
Qed.

(** Adding a digit above the bits in use is setting it there. *)
Lemma lor_shiftl_add a x k : 0 ≤ k → fits k a → Z.lor a (Z.shiftl x k) = a + 2 ^ k * x.
Proof.
  intros Hk Ha. assert (Z.land a (Z.shiftl x k) = 0) as Hz.
  { apply Z.bits_inj_0. intros i. rewrite Z.land_spec. destruct (decide (i < k)).
    - destruct (decide (0 ≤ i)); [by rewrite Z.shiftl_spec_low, andb_false_r|by rewrite Z.testbit_neg_r by lia].
    - by rewrite (fits_bits k) by (done || lia). }
  rewrite <- Z.lxor_lor, <- Z.add_nocarry_lxor by done. by rewrite Z.shiftl_mul_pow2, (Z.mul_comm x).
Qed.

Lemma fits_mono m n z : 0 ≤ m ≤ n → fits m z → fits n z.
Proof.
  intros Hmn [??]. split; [done|]. apply Z.lt_le_trans with (2 ^ m); [done|]. apply Z.pow_le_mono_r; lia.
Qed.
