(* ===== verification/Values.v ===== *)
(** * Values: the four-state value types (rustdv-gpi/src/value.rs).

    [Logic] is one four-state bit, [LogicArray] a fixed-width vector of them in
    VPI's [a_val]/[b_val] encoding.  The two words of the encoding are
    [num_bigint::BigUint]s, a third-party type: the class [BigUint] lists the
    operations value.rs calls and [BigUintLaws] what their documentation says,
    in terms of the natural number a value stands for.  Every theorem of this
    file is proved against the class; [BigUint_N] discharges it. *)
From Stdlib Require Import Ascii.
From S2P Require Import Prelude Words.
Local Open Scope Z_scope.
Local Open Scope rustdv_scope.

(** ** The big-integer interface *)

Class BigUint (B : Type) := {
  bu_ZERO : B;                      (* BigUint::ZERO *)
  bu_one : B;                       (* BigUint::from(1u8) *)
  bu_set_bit : B → nat → B;         (* set_bit(i, true) *)
  bu_bit : B → nat → bool;          (* bit(i) *)
  bu_from_slice : list Z → B;       (* from_slice of u32 digits *)
  bu_iter_u32_digits : B → list Z;
  bu_iter_u64_digits : B → list Z;
  bu_and : B → B → B;
  bu_shl : B → nat → B;
  bu_sub : B → B → B;
  bu_eq : B → B → bool;
}.

Class BigUintLaws (B : Type) `{BigUint B} := {
  bu_val : B → Z;
  bu_val_nonneg b : 0 ≤ bu_val b;
  bu_val_ZERO : bu_val bu_ZERO = 0;
  bu_val_one : bu_val bu_one = 1;
  bu_val_set_bit b i : bu_val (bu_set_bit b i) = Z.lor (bu_val b) (2 ^ Z.of_nat i);
  bu_bit_spec b i : bu_bit b i = Z.testbit (bu_val b) (Z.of_nat i);
  bu_val_from_slice ds : Forall (fits 32) ds → bu_val (bu_from_slice ds) = le_val ds;
  bu_u32_fits b : Forall (fits 32) (bu_iter_u32_digits b);
  bu_u32_val b : le_val (bu_iter_u32_digits b) = bu_val b;
  bu_u64_digit b i : default 0 (bu_iter_u64_digits b !! i)
    = wrap 64 (Z.shiftr (bu_val b) (64 * Z.of_nat i));
  bu_val_and a b : bu_val (bu_and a b) = Z.land (bu_val a) (bu_val b);
  bu_val_shl a n : bu_val (bu_shl a n) = Z.shiftl (bu_val a) (Z.of_nat n);
  bu_val_sub a b : bu_val b ≤ bu_val a → bu_val (bu_sub a b) = bu_val a - bu_val b;
  bu_eq_spec a b : bu_eq a b = (bu_val a =? bu_val b);
}.

(** ** One four-state bit *)

Module Logic.

Inductive Logic := Zero | One | X | Z.

#[export] Instance Logic_eq_dec : EqDecision Logic.
Proof. solve_decision. Defined.

Definition from_char (c : Ascii.ascii) : Logic :=
  if decide (c = "0"%char) then Zero
  else if decide (c = "1"%char) then One
  else if decide (c = "z"%char ∨ c = "Z"%char) then Z
  else X.

Definition to_char (l : Logic) : Ascii.ascii :=
  match l with
  | Zero => "0"%char
  | One => "1"%char
  | X => "x"%char
  | Z => "z"%char
  end.

Definition is_resolvable (l : Logic) : bool :=
  match l with Zero | One => true | _ => false end.

Definition from_bool (b : bool) : Logic := if b then One else Zero.

End Logic.

(** ** Errors of a value conversion (rustdv-gpi/src/rustdv_gpi.rs) *)

Inductive ValueError :=
| FourState (s : string)
| Unavailable
| InteriorNul
| Width (want : Z) (have : nat).

#[export] Instance ValueError_eq_dec : EqDecision ValueError.
Proof. solve_decision. Defined.

Module LogicArray.

Record LogicArray (B : Type) := {
  a_val : B;
  b_val : B;
  width : nat;
}.
Arguments a_val {B} _.
Arguments b_val {B} _.
Arguments width {B} _.

Section Ops.
Context {B : Type} `{BigUint B}.

Definition from_vpi_words (words : list (Z * Z)) (width : nat) : Exec (LogicArray B) :=
  let word_count := div_ceil width 32 in
  if decide (length words = word_count) then
    let a_words := map fst words in
    let b_words := map snd words in
    let mask := Z.shiftl 1 (Z.of_nat (width mod 32)) - 1 in
    let trim ws :=
      if decide ((width mod 32)%nat = 0%nat) then ws
      else update_last (λ w, Z.land w mask) ws in
    Done {| a_val := bu_from_slice (trim a_words);
            b_val := bu_from_slice (trim b_words);
            width := width |}
  else Panic "LogicArray needs VPI word(s)".

(** One iteration of the loop over [s.chars().rev().enumerate()]. *)
Definition set_char (bit : nat) (c : Ascii.ascii) (ab : B * B) : B * B :=
  let '(a, b) := ab in
  match Logic.from_char c with
  | Logic.Zero => (a, b)
  | Logic.One => (bu_set_bit a bit, b)
  | Logic.X => (bu_set_bit a bit, bu_set_bit b bit)
  | Logic.Z => (a, bu_set_bit b bit)
  end.

Fixpoint scan_chars (bit : nat) (cs : list Ascii.ascii) (ab : B * B) : B * B :=
  match cs with
  | [] => ab
  | c :: r => scan_chars (S bit) r (set_char bit c ab)
  end.

Definition from_binstr (s : string) : LogicArray B :=
  let cs := list_of_string s in
  let '(a, b) := scan_chars 0 (rev cs) (bu_ZERO, bu_ZERO) in
  {| a_val := a; b_val := b; width := length cs |}.

(** The loop [for bit in 0..n { if v & (1 << bit) != 0 { set_bit } }]. *)
Fixpoint copy_bits (v : Z) (bit n : nat) (a : B) : B :=
  match n with
  | O => a
  | S m =>
      copy_bits v (S bit) m
        (if decide (Z.land v (Z.shiftl 1 (Z.of_nat bit)) = 0) then a else bu_set_bit a bit)
  end.

Definition from_u128 (v : Z) (width : nat) : LogicArray B :=
  {| a_val := copy_bits v 0 (Nat.min width 128) bu_ZERO;
     b_val := bu_ZERO; width := width |}.

Definition from_bool (v : bool) (width : nat) : LogicArray B := from_u128 (if v then 1 else 0) width.
Definition from_u8 (v : Z) (width : nat) : LogicArray B := from_u128 v width.
Definition from_u16 (v : Z) (width : nat) : LogicArray B := from_u128 v width.
Definition from_u32 (v : Z) (width : nat) : LogicArray B := from_u128 v width.
Definition from_u64 (v : Z) (width : nat) : LogicArray B := from_u128 v width.

Definition from_bigint (v : B) (width : nat) : LogicArray B :=
  let mask := bu_sub (bu_shl bu_one width) bu_one in
  {| a_val := bu_and v mask; b_val := bu_ZERO; width := width |}.

Definition to_vpi_words (v : LogicArray B) : list (Z * Z) :=
  let word_count := div_ceil (width v) 32 in
  zip (pad_digits word_count (bu_iter_u32_digits (a_val v)))
      (pad_digits word_count (bu_iter_u32_digits (b_val v))).

(** [Index<usize>]: bits least significant first, [None] out of bounds. *)
Definition index (v : LogicArray B) (i : nat) : option Logic.Logic :=
  if decide (width v ≤ i)%nat then None
  else Some match bu_bit (a_val v) i, bu_bit (b_val v) i with
    | false, false => Logic.Zero
    | true, false => Logic.One
    | true, true => Logic.X
    | false, true => Logic.Z
    end.

(** Indices below the width always decode, so the [expect] never fires; the
    default is the unreachable arm. *)
Definition to_binstr (v : LogicArray B) : string :=
  string_of_list
    (map (λ i, Logic.to_char (default Logic.X (index v i))) (rev (seq 0 (width v)))).

Definition len (v : LogicArray B) : nat := width v.
Definition is_empty (v : LogicArray B) : bool := bool_decide (width v = 0%nat).
Definition is_resolvable (v : LogicArray B) : bool := bu_eq (b_val v) bu_ZERO.

(** The derived [PartialEq]. *)
Definition eqb (v w : LogicArray B) : bool :=
  bu_eq (a_val v) (a_val w) && bu_eq (b_val v) (b_val w) && bool_decide (width v = width w).

Definition guard_resolvable {A} (v : LogicArray B) (k : A) : Result A ValueError :=
  if is_resolvable v then Ok k else Err (FourState (to_binstr v)).

Definition u32_digit0 (b : B) : Z := default 0 (head (bu_iter_u32_digits b)).
Definition u64_digit (b : B) (i : nat) : Z := default 0 (bu_iter_u64_digits b !! i).

Definition try_bool (v : LogicArray B) : Result bool ValueError :=
  guard_resolvable v (negb (bu_eq (a_val v) bu_ZERO)).
Definition try_u8 (v : LogicArray B) : Result Z ValueError :=
  guard_resolvable v (wrap 8 (u32_digit0 (a_val v))).
Definition try_u16 (v : LogicArray B) : Result Z ValueError :=
  guard_resolvable v (wrap 16 (u32_digit0 (a_val v))).
Definition try_u32 (v : LogicArray B) : Result Z ValueError :=
  guard_resolvable v (u32_digit0 (a_val v)).
Definition try_u64 (v : LogicArray B) : Result Z ValueError :=
  guard_resolvable v (u64_digit (a_val v) 0).
Definition try_u128 (v : LogicArray B) : Result Z ValueError :=
  guard_resolvable v
    (Z.lor (u64_digit (a_val v) 0) (wrap 128 (Z.shiftl (u64_digit (a_val v) 1) 64))).
Definition try_bigint (v : LogicArray B) : Result B ValueError :=
  guard_resolvable v (a_val v).

End Ops.

(** ** Well-formed values
    No bit is stored at or above the width: the invariant every constructor
    establishes and every conversion relies on. *)
Section Laws.
Context {B : Type} `{BigUintLaws B}.
Implicit Types v w : LogicArray B.

Definition wf v : Prop :=
  fits (Z.of_nat (width v)) (bu_val (a_val v)) ∧ fits (Z.of_nat (width v)) (bu_val (b_val v)).

(** The two encoding bits of a character. *)
Definition char_a (c : ascii) : bool :=
  match Logic.from_char c with Logic.One | Logic.X => true | _ => false end.
Definition char_b (c : ascii) : bool :=
  match Logic.from_char c with Logic.X | Logic.Z => true | _ => false end.

(** The bit a scanned character leaves at position [i]. *)
Definition scanned (f : ascii → bool) (bit : nat) (cs : list ascii) (i : nat) : bool :=
  bool_decide (bit ≤ i)%nat && default false (f <$> cs !! (i - bit)%nat).

Lemma set_bit_testbit (b : B) k i :
  Z.testbit (bu_val (bu_set_bit b k)) (Z.of_nat i)
  = Z.testbit (bu_val b) (Z.of_nat i) || bool_decide (i = k).
Proof.
  rewrite bu_val_set_bit, Z.lor_spec. f_equal. rewrite Z.pow2_bits_eqb by lia.
  apply eq_bool_prop_intro. rewrite Is_true_true, bool_decide_spec, Z.eqb_eq. lia.
Qed.

Lemma scanned_cons f bit c cs i :
  scanned f bit (c :: cs) i = bool_decide (i = bit) && f c || scanned f (S bit) cs i.
Proof.
  unfold scanned. destruct (decide (i = bit)) as [->|Hne].
  - rewrite Nat.sub_diag. rewrite !bool_decide_true by done. rewrite bool_decide_false by lia.
    simpl. by rewrite orb_false_r.
  - rewrite (bool_decide_false (i = bit)) by done. simpl.
    destruct (decide (S bit ≤ i)%nat).
    + rewrite !bool_decide_true by lia. by replace (i - bit)%nat with (S (i - S bit)) by lia.
    + by rewrite !bool_decide_false by lia.
Qed.

Lemma set_char_testbit bit c (ab : B * B) i :
  Z.testbit (bu_val (fst (set_char bit c ab))) (Z.of_nat i)
    = Z.testbit (bu_val (fst ab)) (Z.of_nat i) || bool_decide (i = bit) && char_a c ∧
  Z.testbit (bu_val (snd (set_char bit c ab))) (Z.of_nat i)
    = Z.testbit (bu_val (snd ab)) (Z.of_nat i) || bool_decide (i = bit) && char_b c.
Proof.
  destruct ab as [a b]. unfold set_char, char_a, char_b.
  destruct (Logic.from_char c); simpl; rewrite ?set_bit_testbit, ?andb_true_r, ?andb_false_r, ?orb_false_r; done.
Qed.

Lemma scan_chars_testbit cs bit (ab : B * B) i :
  Z.testbit (bu_val (fst (scan_chars bit cs ab))) (Z.of_nat i)
    = Z.testbit (bu_val (fst ab)) (Z.of_nat i) || scanned char_a bit cs i ∧
  Z.testbit (bu_val (snd (scan_chars bit cs ab))) (Z.of_nat i)
    = Z.testbit (bu_val (snd ab)) (Z.of_nat i) || scanned char_b bit cs i.
Proof.
  revert bit ab. induction cs as [|c cs IH]; intros bit ab; simpl.
  - unfold scanned. simpl. by rewrite !andb_false_r, !orb_false_r.
  - destruct (IH (S bit) (set_char bit c ab)) as [-> ->].
    destruct (set_char_testbit bit c ab i) as [-> ->].
    by rewrite !scanned_cons, !orb_assoc.
Qed.

(** Bits of a parsed string: character [i] from the right. *)
Lemma from_binstr_testbit s i :
  Z.testbit (bu_val (a_val (from_binstr (B:=B) s))) (Z.of_nat i)
    = default false (char_a <$> rev (list_of_string s) !! i) ∧
  Z.testbit (bu_val (b_val (from_binstr (B:=B) s))) (Z.of_nat i)
    = default false (char_b <$> rev (list_of_string s) !! i).
Proof.
  unfold from_binstr.
  pose proof (scan_chars_testbit (rev (list_of_string s)) 0 (bu_ZERO (B:=B), bu_ZERO) i) as [Ha Hb].
  destruct (scan_chars _ _ _) as [a b]. simpl in *. rewrite Ha, Hb, bu_val_ZERO, Z.testbit_0_l.
  unfold scanned. rewrite Nat.sub_0_r, bool_decide_true by lia. done.
Qed.

Lemma width_from_binstr s : width (from_binstr (B:=B) s) = length (list_of_string s).
Proof. unfold from_binstr. by destruct (scan_chars _ _ _). Qed.

Lemma bu_fits_of_bits (n : nat) (b : B) :
  (∀ i, (n ≤ i)%nat → Z.testbit (bu_val b) (Z.of_nat i) = false) → fits (Z.of_nat n) (bu_val b).
Proof.
  intros Hb. apply fits_of_bits; [lia|apply bu_val_nonneg|]. intros i ?.
  rewrite <- (Z2Nat.id i) by lia. apply Hb. lia.
Qed.

(** Values agreeing on every natural bit position are equal. *)
Lemma bits_inj_nat (x y : Z) :
  (∀ i, Z.testbit x (Z.of_nat i) = Z.testbit y (Z.of_nat i)) → x = y.
Proof.
  intros Hb. apply Z.bits_inj'. intros n Hn. rewrite <- (Z2Nat.id n) by done. apply Hb.
Qed.

Lemma eqb_spec v w :
  eqb v w = true ↔
  bu_val (a_val v) = bu_val (a_val w) ∧ bu_val (b_val v) = bu_val (b_val w) ∧ width v = width w.
Proof.
  unfold eqb. rewrite !andb_true_iff, !bu_eq_spec, !Z.eqb_eq, bool_decide_eq_true. tauto.
Qed.

(** ** Text round trips *)

Lemma decode_char c :
  match char_a c, char_b c with
  | false, false => Logic.Zero | true, false => Logic.One
  | true, true => Logic.X | false, true => Logic.Z end = Logic.from_char c.
Proof. unfold char_a, char_b. by destruct (Logic.from_char c). Qed.

Lemma index_from_binstr s i c :
  rev (list_of_string s) !! i = Some c →
  index (from_binstr (B:=B) s) i = Some (Logic.from_char c).
Proof.
  intros Hc. unfold index. rewrite width_from_binstr.
  rewrite decide_False by (apply lookup_lt_Some in Hc; rewrite length_rev in Hc; lia).
  rewrite !bu_bit_spec. destruct (from_binstr_testbit s i) as [-> ->].
  rewrite Hc. simpl. by rewrite decode_char.
Qed.

Lemma map_rev_seq {A C} (f : nat → A) (g : C → A) (cs : list C) :
  (∀ i c, rev cs !! i = Some c → f i = g c) → map f (rev (seq 0 (length cs))) = map g cs.
Proof.
  intros Hf. rewrite map_rev. rewrite <- (rev_involutive cs) at 2. rewrite map_rev. f_equal.
  apply list_eq. intros i. rewrite !list_lookup_fmap.
  destruct (decide (i < length cs)%nat) as [Hi|Hi].
  - rewrite lookup_seq_lt by done. simpl.
    destruct (lookup_lt_is_Some_2 (rev cs) i) as [c Hc]; [by rewrite length_rev|].
    rewrite Hc. simpl. f_equal. by apply Hf.
  - rewrite lookup_seq_ge by lia. rewrite lookup_ge_None_2; [done|]. rewrite length_rev. lia.
Qed.

(** Printing what was parsed normalises each character ([Z] to [z], every
    unknown character to [x]) and changes nothing else, whatever the length. *)
Theorem to_binstr_from_binstr s :
  to_binstr (from_binstr (B:=B) s)
  = string_of_list (map (λ c, Logic.to_char (Logic.from_char c)) (list_of_string s)).
Proof.
  unfold to_binstr. f_equal. rewrite width_from_binstr. apply map_rev_seq.
  intros i c Hc. by rewrite (index_from_binstr s i c).
Qed.

Lemma from_to_char l : Logic.from_char (Logic.to_char l) = l.
Proof. by destruct l. Qed.

(** The encoding bits of the character printed at position [i]. *)
Lemma printed_bits v i :
  (i < width v)%nat →
  char_a (Logic.to_char (default Logic.X (index v i))) = Z.testbit (bu_val (a_val v)) (Z.of_nat i) ∧
  char_b (Logic.to_char (default Logic.X (index v i))) = Z.testbit (bu_val (b_val v)) (Z.of_nat i).
Proof.
  intros Hi. unfold index, char_a, char_b. rewrite decide_False by lia. simpl.
  rewrite from_to_char, !bu_bit_spec.
  by destruct (Z.testbit (bu_val (a_val v)) _), (Z.testbit (bu_val (b_val v)) _).
Qed.

Lemma rev_to_binstr v :
  rev (list_of_string (to_binstr v))
  = map (λ i, Logic.to_char (default Logic.X (index v i))) (seq 0 (width v)).
Proof. unfold to_binstr. rewrite list_of_string_of_list, map_rev, rev_involutive. done. Qed.

Lemma to_binstr_lookup (f : ascii → bool) v i :
  default false (f <$> rev (list_of_string (to_binstr v)) !! i)
  = if decide (i < width v)%nat then f (Logic.to_char (default Logic.X (index v i))) else false.
Proof.
  rewrite rev_to_binstr, list_lookup_fmap. case_decide.
  - by rewrite lookup_seq_lt by done.
  - by rewrite lookup_seq_ge by lia.
Qed.

(** A well-formed value is recovered from its printed form, X and Z bits
    included. *)
Theorem from_binstr_to_binstr v : wf v → eqb (from_binstr (to_binstr v)) v = true.
Proof.
  intros [Ha Hb]. apply eqb_spec. split_and_all.
  - apply bits_inj_nat. intros i. rewrite (proj1 (from_binstr_testbit _ i)), to_binstr_lookup.
    case_decide; [by rewrite (proj1 (printed_bits v i ltac:(done)))|]. symmetry. eapply fits_bits; [done|lia].
  - apply bits_inj_nat. intros i. rewrite (proj2 (from_binstr_testbit _ i)), to_binstr_lookup.
    case_decide; [by rewrite (proj2 (printed_bits v i ltac:(done)))|]. symmetry. eapply fits_bits; [done|lia].
  - rewrite width_from_binstr, <- length_rev, rev_to_binstr, length_map, length_seq. done.
Qed.

(** ** VPI words *)

Definition words_fit (ws : list (Z * Z)) : Prop :=
  Forall (fits 32) (map fst ws) ∧ Forall (fits 32) (map snd ws).

(** [trim] reduces a word list to the bits in use. *)
Lemma trimmed_val n ws :
  Forall (fits 32) ws → length ws = div_ceil n 32 →
  bu_val (bu_from_slice (B:=B) (if decide ((n mod 32)%nat = 0%nat) then ws
    else update_last (λ x, Z.land x (Z.shiftl 1 (Z.of_nat (n mod 32)) - 1)) ws))
  = wrap (Z.of_nat n) (le_val ws).
Proof.
  intros Hws Hlen. change (bu_val (bu_from_slice (B:=B) (trim n ws)) = wrap (Z.of_nat n) (le_val ws)).
  rewrite bu_val_from_slice by by apply trim_fits. by apply le_val_trim.
Qed.

(** Decoding VPI words keeps exactly the low [width] bits of each plane,
    clears the unused bits of the final word, and yields a well-formed value;
    a word count that does not match the width is refused by the assertion. *)
Theorem from_vpi_words_spec ws n :
  words_fit ws →
  if decide (length ws = div_ceil n 32) then
    ∃ v, from_vpi_words ws n = Done v ∧ width v = n ∧ wf v ∧
      bu_val (a_val v) = wrap (Z.of_nat n) (le_val (map fst ws)) ∧
      bu_val (b_val v) = wrap (Z.of_nat n) (le_val (map snd ws))
  else ∃ m, from_vpi_words (B:=B) ws n = Panic m.
Proof.
  intros [Ha Hb]. unfold from_vpi_words. case_decide as Hlen; [|by eexists].
  eexists. split; [done|]. cbn [width a_val b_val]. unfold wf. cbn [width a_val b_val].
  rewrite !trimmed_val by (rewrite ?length_map; done).
  split_and_all; auto with rustdv lia.
Qed.

Lemma map_fst_to_vpi_words v :
  map fst (to_vpi_words v) = pad_digits (div_ceil (width v) 32) (bu_iter_u32_digits (a_val v)).
Proof. unfold to_vpi_words. apply fst_zip. by rewrite !length_pad_digits. Qed.

Lemma map_snd_to_vpi_words v :
  map snd (to_vpi_words v) = pad_digits (div_ceil (width v) 32) (bu_iter_u32_digits (b_val v)).
Proof. unfold to_vpi_words. apply snd_zip. by rewrite !length_pad_digits. Qed.

Lemma to_vpi_words_fit v : words_fit (to_vpi_words v).
Proof.
  unfold words_fit. rewrite map_fst_to_vpi_words, map_snd_to_vpi_words.
  split; apply pad_digits_fits, bu_u32_fits.
Qed.

Lemma length_to_vpi_words v : length (to_vpi_words v) = div_ceil (width v) 32.
Proof. rewrite <- (length_map fst), map_fst_to_vpi_words. apply length_pad_digits. Qed.

(** Truncating to a whole number of words loses nothing below the width. *)
Lemma wrap_words n x : fits (Z.of_nat n) x → wrap (Z.of_nat n) (wrap (32 * Z.of_nat (div_ceil n 32)) x) = x.
Proof.
  intros [??]. pose proof (div_ceil_32 n). rewrite (wrap_id (32 * _)); [by apply wrap_id|].
  split; [done|]. apply Z.lt_le_trans with (2 ^ Z.of_nat n); [done|]. apply Z.pow_le_mono_r; lia.
Qed.

(** A well-formed value survives the trip through VPI vector words, both
    planes and the exact width. *)
Theorem vpi_words_roundtrip v :
  wf v → ∃ v', from_vpi_words (to_vpi_words v) (width v) = Done v' ∧ eqb v' v = true.
Proof.
  intros [Ha Hb]. pose proof (from_vpi_words_spec (to_vpi_words v) (width v) (to_vpi_words_fit v)) as Hs.
  rewrite decide_True in Hs by apply length_to_vpi_words.
  destruct Hs as (v' & Hv' & Hw & _ & Ea & Eb). exists v'. split; [done|]. apply eqb_spec.
  rewrite map_fst_to_vpi_words, le_val_pad, bu_u32_val in Ea by apply bu_u32_fits.
  rewrite map_snd_to_vpi_words, le_val_pad, bu_u32_val in Eb by apply bu_u32_fits.
  rewrite wrap_words in Ea, Eb by done. done.
Qed.

(** ** Two-state integers *)

Lemma copy_bits_testbit x bit n (a : B) i :
  Z.testbit (bu_val (copy_bits x bit n a)) (Z.of_nat i)
  = Z.testbit (bu_val a) (Z.of_nat i)
    || (bool_decide (bit ≤ i < bit + n)%nat && Z.testbit x (Z.of_nat i)).
Proof.
  revert bit a. induction n as [|n IH]; intros bit a; simpl.
  - rewrite bool_decide_false by lia. by rewrite orb_false_r.
  - rewrite IH. clear IH.
    assert (Z.land x (Z.shiftl 1 (Z.of_nat bit)) = 0 ↔ Z.testbit x (Z.of_nat bit) = false) as Hbit.
    { rewrite Z.shiftl_1_l. split; intros Hx.
      - apply (f_equal (λ z, Z.testbit z (Z.of_nat bit))) in Hx.
        rewrite Z.land_spec, Z.pow2_bits_true, andb_true_r, Z.testbit_0_l in Hx by lia. done.
      - apply Z.bits_inj_0. intros k. rewrite Z.land_spec. destruct (decide (k = Z.of_nat bit)) as [->|].
        + by rewrite Hx.
        + rewrite Z.pow2_bits_false by lia. apply andb_false_r. }
    assert (∀ b : bool, (if b then bu_val a else bu_val (bu_set_bit a bit)) = bu_val (if b then a else bu_set_bit a bit)) by by intros [].
    destruct (decide (i = bit)) as [->|Hne].
    + rewrite (bool_decide_false (S bit ≤ _ < _)%nat), (bool_decide_true (bit ≤ _ < _)%nat) by lia.
      simpl. rewrite orb_false_r. case_decide as Hd.
      * apply Hbit in Hd. by rewrite Hd, orb_false_r.
      * rewrite set_bit_testbit, bool_decide_true, orb_true_r by done.
        destruct (Z.testbit x (Z.of_nat bit)) eqn:E; [by rewrite orb_true_r|]. by destruct Hd; apply Hbit.
    + rewrite (bool_decide_ext (S bit ≤ i < S bit + n)%nat (bit ≤ i < bit + S n)%nat) by lia.
      case_decide; [done|]. rewrite set_bit_testbit, (bool_decide_false (i = bit)) by done.
      by rewrite orb_false_r.
Qed.

Lemma from_u128_val x n :
  fits 128 x → bu_val (a_val (from_u128 (B:=B) x n)) = wrap (Z.of_nat n) x.
Proof.
  intros Hx. apply bits_inj_nat. intros i. cbn [from_u128 a_val].
  rewrite copy_bits_testbit, bu_val_ZERO, Z.testbit_0_l, wrap_spec by lia. simpl.
  destruct (decide (Z.of_nat i < Z.of_nat n)); [|by rewrite bool_decide_false by lia].
  destruct (decide (i < 128)%nat); [by rewrite bool_decide_true by lia|].
  rewrite (fits_bits 128 x) by (done || lia). apply andb_false_r.
Qed.

Lemma from_bigint_val x n : bu_val (a_val (from_bigint (B:=B) x n)) = wrap (Z.of_nat n) (bu_val x).
Proof.
  assert (0 < 2 ^ Z.of_nat n) by (apply Z.pow_pos_nonneg; lia).
  cbn [from_bigint a_val]. rewrite bu_val_and, bu_val_sub, bu_val_shl, bu_val_one, Z.shiftl_1_l.
  - by rewrite land_ones_wrap by lia.
  - rewrite bu_val_shl, bu_val_one, Z.shiftl_1_l. lia.
Qed.

Lemma is_resolvable_zero v : bu_val (b_val v) = 0 → is_resolvable v = true.
Proof. intros Hv. unfold is_resolvable. by rewrite bu_eq_spec, Hv, bu_val_ZERO. Qed.

Lemma u32_digit0_val b : u32_digit0 b = wrap 32 (bu_val (B:=B) b).
Proof.
  unfold u32_digit0, wrap. rewrite <- bu_u32_val. pose proof (bu_u32_fits b) as Hf.
  destruct (bu_iter_u32_digits b) as [|d r]; [done|]. inversion Hf; subst. unfold fits in *.
  cbn [head le_val default]. rewrite Z.add_comm, Z.mul_comm, Z.add_comm, Z.mod_add by lia.
  by rewrite Z.mod_small.
Qed.

Lemma u64_digit_val b i : u64_digit b i = wrap 64 (Z.shiftr (bu_val (B:=B) b) (64 * Z.of_nat i)).
Proof. apply bu_u64_digit. Qed.

Lemma wrap_wrap_le m n x : 0 ≤ m ≤ n → wrap m (wrap n x) = wrap m x.
Proof.
  intros. apply Z.bits_inj'. intros i ?. rewrite !wrap_spec by lia.
  case_decide; [|done]. by rewrite decide_True by lia.
Qed.

Lemma wrap_128_split x :
  Z.lor (wrap 64 x) (wrap 128 (Z.shiftl (wrap 64 (Z.shiftr x 64)) 64)) = wrap 128 x.
Proof.
  apply Z.bits_inj'. intros i ?. rewrite Z.lor_spec, !wrap_spec by lia.
  destruct (decide (i < 64)).
  - rewrite !(decide_True (P := i < 128)) by lia. rewrite Z.shiftl_spec_low by lia. apply orb_false_r.
  - rewrite orb_false_l. case_decide; [|done]. rewrite Z.shiftl_spec, wrap_spec by lia.
    rewrite decide_True by lia. rewrite Z.shiftr_spec by lia. f_equal. lia.
Qed.

(** What every conversion to a two-state integer answers on a value without
    X or Z bits: the low bits of its number. *)
Lemma try_values v :
  is_resolvable v = true →
  let x := bu_val (a_val v) in
  try_bool v = Ok (negb (x =? 0)) ∧ try_u8 v = Ok (wrap 8 x) ∧ try_u16 v = Ok (wrap 16 x) ∧
  try_u32 v = Ok (wrap 32 x) ∧ try_u64 v = Ok (wrap 64 x) ∧ try_u128 v = Ok (wrap 128 x) ∧
  try_bigint v = Ok (a_val v).
Proof.
  intros Hr x. unfold try_bool, try_u8, try_u16, try_u32, try_u64, try_u128, try_bigint, guard_resolvable.
  rewrite Hr, !u32_digit0_val, !u64_digit_val, bu_eq_spec, bu_val_ZERO. fold x.
  change (Z.of_nat 0) with 0. change (64 * Z.of_nat 1) with 64. rewrite Z.mul_0_r, Z.shiftr_0_r.
  by rewrite wrap_128_split, !wrap_wrap_le by lia.
Qed.

(** C37: building a vector of [n] bits from an integer and reading it back at
    any width gives the integer reduced to [n] bits and then to the width
    read; a big integer comes back reduced to [n] bits. *)
Theorem integer_roundtrip x n :
  fits 128 x →
  let v := from_u128 (B:=B) x n in
  let y := wrap (Z.of_nat n) x in
  wf v ∧
  try_bool v = Ok (negb (y =? 0)) ∧ try_u8 v = Ok (wrap 8 y) ∧ try_u16 v = Ok (wrap 16 y) ∧
  try_u32 v = Ok (wrap 32 y) ∧ try_u64 v = Ok (wrap 64 y) ∧ try_u128 v = Ok (wrap 128 y) ∧
  ∀ b : B, ∃ r, try_bigint (from_bigint b n) = Ok r ∧ bu_val r = wrap (Z.of_nat n) (bu_val b).
Proof.
  intros Hx v y. assert (bu_val (a_val v) = y) as Hy by by apply from_u128_val.
  assert (is_resolvable v = true) as Hr by apply is_resolvable_zero, bu_val_ZERO.
  pose proof (try_values v Hr) as Ht. cbv zeta in Ht. rewrite Hy in Ht.
  destruct Ht as (?&?&?&?&?&?&?). split.
  { unfold wf. rewrite Hy. cbn [v from_u128 b_val width]. rewrite bu_val_ZERO.
    split; [apply wrap_fits; lia|]. split; [done|apply Z.pow_pos_nonneg; lia]. }
  split_and_all; try done. intros b. exists (a_val (from_bigint b n)).
  split; [apply try_values, is_resolvable_zero, bu_val_ZERO|apply from_bigint_val].
Qed.

(** Every conversion to a two-state integer fails, carrying the printed
    value, exactly when some bit of the vector reads X or Z. *)
Theorem four_state_rejected v :
  wf v →
  let e := FourState (to_binstr v) in
  ((∃ i l, index v i = Some l ∧ Logic.is_resolvable l = false) →
    try_bool v = Err e ∧ try_u8 v = Err e ∧ try_u16 v = Err e ∧ try_u32 v = Err e ∧
    try_u64 v = Err e ∧ try_u128 v = Err e ∧ try_bigint v = Err e) ∧
  ((∀ i l, index v i = Some l → Logic.is_resolvable l = true) →
    try_u64 v = Ok (wrap 64 (bu_val (a_val v))) ∧ try_u128 v = Ok (wrap 128 (bu_val (a_val v))) ∧
    try_bigint v = Ok (a_val v)).
Proof.
  intros [_ Hb] e. split.
  - intros (i & l & Hi & Hl).
    assert (is_resolvable v = false) as Hr.
    { unfold is_resolvable. rewrite bu_eq_spec, bu_val_ZERO. apply Z.eqb_neq. intros Hz.
      unfold index in Hi. case_decide; [done|]. rewrite !bu_bit_spec, Hz, Z.testbit_0_l in Hi.
      by destruct (Z.testbit _ _); simplify_eq. }
    unfold try_bool, try_u8, try_u16, try_u32, try_u64, try_u128, try_bigint, guard_resolvable.
    by rewrite Hr.
  - intros Hall. assert (is_resolvable v = true) as Hr.
    { apply is_resolvable_zero, bits_inj_nat. intros i. rewrite Z.testbit_0_l.
      destruct (decide (width v ≤ i)%nat) as [|Hw]; [eapply fits_bits; [done|lia]|].
      specialize (Hall i). unfold index in Hall. rewrite decide_False in Hall by done.
      specialize (Hall _ eq_refl). rewrite !bu_bit_spec in Hall.
      by destruct (Z.testbit (bu_val (a_val v)) _), (Z.testbit (bu_val (b_val v)) _). }
    pose proof (try_values v Hr) as (?&?&?&?&?&?&?). done.
Qed.
End Laws.
End LogicArray.

(** ** The interface is inhabited: natural numbers in binary *)

Fixpoint digits (w : Z) (fuel : nat) (n : Z) : list Z :=
  match fuel with
  | O => []
  | S f => if decide (n = 0) then [] else n mod 2 ^ w :: digits w f (n / 2 ^ w)
  end.

Lemma digits_lookup w fuel n i :
  0 < w → fits (w * Z.of_nat fuel) n →
  default 0 (digits w fuel n !! i) = wrap w (Z.shiftr n (w * Z.of_nat i)).
Proof.
  intros Hw. revert n i. induction fuel as [|fuel IH]; intros n i [Hn0 Hn].
  - rewrite Z.mul_0_r in Hn. change (2 ^ 0) with 1 in Hn. assert (n = 0) as -> by lia.
    rewrite Z.shiftr_0_l. unfold wrap. rewrite Z.mod_0_l; [done|apply Z.pow_nonzero; lia].
  - cbn [digits]. assert (0 < 2 ^ w) by (apply Z.pow_pos_nonneg; lia). case_decide as Hz.
    + subst. rewrite Z.shiftr_0_l. unfold wrap. rewrite Z.mod_0_l; [done|lia].
    + destruct i as [|i]; [by rewrite Z.mul_0_r, Z.shiftr_0_r|].
      cbn [lookup list_lookup]. rewrite IH.
      * f_equal. rewrite !Z.shiftr_div_pow2 by lia. rewrite Z.div_div; [|lia|apply Z.pow_pos_nonneg; lia].
        rewrite <- Z.pow_add_r by lia. f_equal. f_equal. lia.
      * split; [apply Z.div_pos; lia|]. apply Z.div_lt_upper_bound; [lia|].
        rewrite <- Z.pow_add_r by lia. replace (w + w * Z.of_nat fuel) with (w * Z.of_nat (S fuel)) by lia. done.
Qed.

Lemma digits_fits w fuel n : 0 < w → Forall (fits w) (digits w fuel n).
Proof.
  intros Hw. revert n. induction fuel; intros n; cbn [digits]; [constructor|].
  case_decide; [constructor|]. constructor; [|done]. apply Z.mod_pos_bound, Z.pow_pos_nonneg; lia.
Qed.

Lemma le_val_digits fuel n : fits (32 * Z.of_nat fuel) n → le_val (digits 32 fuel n) = n.
Proof.
  revert n. induction fuel as [|fuel IH]; intros n [??].
  - rewrite Z.mul_0_r in *. change (2 ^ 0) with 1 in *. simpl. lia.
  - cbn [digits]. case_decide; [simpl; lia|]. cbn [le_val]. rewrite IH.
    + rewrite Z.add_comm. symmetry. apply Z.div_mod. lia.
    + split; [apply Z.div_pos; lia|]. apply Z.div_lt_upper_bound; [lia|].
      rewrite <- Z.pow_add_r by lia. replace (32 + 32 * Z.of_nat fuel) with (32 * Z.of_nat (S fuel)) by lia. done.
Qed.

#[export] Instance BigUint_N : BigUint N := {|
  bu_ZERO := 0%N; bu_one := 1%N;
  bu_set_bit b i := N.lor b (2 ^ N.of_nat i);
  bu_bit b i := N.testbit b (N.of_nat i);
  bu_from_slice ds := Z.to_N (le_val ds);
  bu_iter_u32_digits b := digits 32 (N.size_nat b) (Z.of_N b);
  bu_iter_u64_digits b := digits 64 (N.size_nat b) (Z.of_N b);
  bu_and := N.land; bu_shl b n := N.shiftl b (N.of_nat n); bu_sub := N.sub; bu_eq := N.eqb |}.

Lemma size_nat_fits w b : 1 ≤ w → fits (w * Z.of_nat (N.size_nat b)) (Z.of_N b).
Proof.
  intros. split; [lia|]. apply Z.lt_le_trans with (2 ^ Z.of_nat (N.size_nat b)); [|apply Z.pow_le_mono_r; nia].
  destruct b as [|p]; [done|]. simpl.
  induction p as [p IH|p IH|]; cbn [Pos.size_nat]; rewrite ?Nat2Z.inj_succ, ?Z.pow_succ_r by lia; lia.
Qed.

#[export] Instance BigUintLaws_N : BigUintLaws N.
Proof.
  refine {| bu_val := Z.of_N |}; simpl; intros.
  - lia.
  - done.
  - done.
  - by rewrite N2Z.inj_lor, N2Z.inj_pow, nat_N_Z.
  - by rewrite <- N2Z.inj_testbit, nat_N_Z.
  - rewrite Z2N.id; [done|by apply le_val_nonneg].
  - apply digits_fits. lia.
  - apply le_val_digits, size_nat_fits. lia.
  - apply digits_lookup; [lia|apply size_nat_fits; lia].
  - apply N2Z.inj_land.
  - by rewrite N2Z.inj_shiftl, nat_N_Z.
  - lia.
  - apply eq_bool_prop_intro. rewrite !Is_true_true, N.eqb_eq, Z.eqb_eq. lia.
Defined.

(** ** The properties at concrete values *)

Module ValuesWitnesses.
Import LogicArray.

Lemma wf_from_binstr_N : wf (from_binstr (B:=N) "01xz").
Proof. by vm_compute. Defined.

Lemma to_binstr_from_binstr_witness :
  to_binstr (from_binstr (B:=N) "1Zq0") = "1zx0"%string.
Proof. rewrite to_binstr_from_binstr. reflexivity. Defined.

Lemma from_binstr_to_binstr_witness :
  eqb (from_binstr (to_binstr (from_binstr (B:=N) "01xz"))) (from_binstr "01xz") = true.
Proof. apply from_binstr_to_binstr. exact wf_from_binstr_N. Defined.

Lemma from_vpi_words_spec_witness :
  ∃ v, from_vpi_words (B:=N) [(0xffffffff, 0); (0xfffffff5, 0xffffffe0)] 37 = Done v ∧ bu_val (a_val v) = 0x15ffffffff.
Proof.
  assert (words_fit [(0xffffffff, 0); (0xfffffff5, 0xffffffe0)]) as Hf by (split; repeat constructor; done).
  destruct (from_vpi_words_spec (B:=N) _ 37 Hf) as (v & Hv & _ & _ & Ha & _).
  exists v. split; [exact Hv|]. rewrite Ha. reflexivity.
Defined.

Lemma vpi_words_roundtrip_witness :
  ∃ v', from_vpi_words (to_vpi_words (from_binstr (B:=N) "01xz")) 4 = Done v' ∧
        eqb v' (from_binstr "01xz") = true.
Proof. apply (vpi_words_roundtrip (from_binstr (B:=N) "01xz")). exact wf_from_binstr_N. Defined.

Lemma integer_roundtrip_witness : try_u8 (from_u128 (B:=N) 0xa5 4) = Ok 5.
Proof. apply (integer_roundtrip (B:=N) 0xa5 4). done. Defined.

Lemma four_state_rejected_witness :
  try_u64 (from_binstr (B:=N) "01xz") = Err (FourState "01xz").
Proof.
  apply (four_state_rejected (from_binstr (B:=N) "01xz") wf_from_binstr_N).
  exists 0%nat, Logic.Z. split; reflexivity.
Defined.

End ValuesWitnesses.
