(* ===== verification/Queue.v ===== *)
(** * Queue: the sim-aware FIFO queue (rustdv-sim/src/queue.rs).

    [QInner] is the shared cell behind every handle of one queue.  Each
    operation returns the new cell, the wakers it woke in order, and its
    answer; a poll takes the waker of the task that polls.  [Spec] is the
    abstract bounded FIFO the queue promises; the history theorem at the end is
    the refinement, and [QueueLike] is the interface the TLM layer builds on. *)
From S2P Require Import Prelude.

Module Queue.

Record QInner (T : Type) := {
  buf : list T;
  cap : option nat;           (* None = unbounded *)
  get_waiters : list Waker;
  put_waiters : list Waker;
}.
Arguments Build_QInner {T} _ _ _ _.
Arguments buf {T} _.
Arguments cap {T} _.
Arguments get_waiters {T} _.
Arguments put_waiters {T} _.

(** The state of a [Put] future: the item until it is handed over. *)
Record Put (T : Type) := { item : option T }.
Arguments item {T} _.
Arguments Build_Put {T} _.

Section Ops.
Context {T : Type}.
Implicit Types q : QInner T.

Definition has_space q : bool :=
  match cap q with
  | None => true
  | Some c => bool_decide (length (buf q) < c)
  end.

Definition wake_getters q : QInner T * list Waker :=
  (Build_QInner (buf q) (cap q) [] (put_waiters q), get_waiters q).

Definition wake_putters q : QInner T * list Waker :=
  (Build_QInner (buf q) (cap q) (get_waiters q) [], put_waiters q).

Definition new (c : option nat) : QInner T := Build_QInner [] c [] [].
Definition unbounded : QInner T := new None.

Definition len q : nat := length (buf q).
Definition is_empty q : bool := match buf q with [] => true | _ => false end.

Definition push_back q (x : T) : QInner T :=
  Build_QInner (buf q ++ [x]) (cap q) (get_waiters q) (put_waiters q).

(** [buf.borrow_mut().pop_front()]. *)
Definition pop_front q : QInner T * option T :=
  match buf q with
  | [] => (q, None)
  | x :: r => (Build_QInner r (cap q) (get_waiters q) (put_waiters q), Some x)
  end.

Definition try_put q (x : T) : QInner T * list Waker * Result unit T :=
  if has_space q then
    let '(q', w) := wake_getters (push_back q x) in (q', w, Ok tt)
  else (q, [], Err x).

Definition try_get q : QInner T * list Waker * option T :=
  let '(q', o) := pop_front q in
  match o with
  | Some x => let '(q'', w) := wake_putters q' in (q'', w, Some x)
  | None => (q', [], None)
  end.

Definition put (x : T) : Put T := Build_Put (Some x).

Definition poll_space q (cx : Waker) : QInner T * list Waker * Poll unit :=
  if has_space q then (q, [], Ready tt)
  else (Build_QInner (buf q) (cap q) (get_waiters q) (put_waiters q ++ [cx]), [], Pending).

Definition try_peek q : option T := head (buf q).

Definition poll_peek q (cx : Waker) : QInner T * list Waker * Poll T :=
  match head (buf q) with
  | Some v => (q, [], Ready v)
  | None => (Build_QInner (buf q) (cap q) (get_waiters q ++ [cx]) (put_waiters q), [], Pending)
  end.

Definition poll_put q (p : Put T) (cx : Waker) : Exec (QInner T * Put T * list Waker * Poll unit) :=
  if has_space q then
    match item p with
    | Some x =>
        let '(q', w) := wake_getters (push_back q x) in
        Done (q', Build_Put None, w, Ready tt)
    | None => Panic "Put polled after completion"
    end
  else
    Done (Build_QInner (buf q) (cap q) (get_waiters q) (put_waiters q ++ [cx]), p, [], Pending).

Definition poll_get q (cx : Waker) : QInner T * list Waker * Poll T :=
  let '(q', o) := pop_front q in
  match o with
  | Some v => let '(q'', w) := wake_putters q' in (q'', w, Ready v)
  | None => (Build_QInner (buf q') (cap q') (get_waiters q' ++ [cx]) (put_waiters q'), [], Pending)
  end.

End Ops.

(** ** Calls and their answers *)

(** One call on one queue, by whichever task holds a handle. *)
Inductive Op (T : Type) :=
| TryPut (x : T)
| TryGet
| TryPeek
| PollPut (x : T) (cx : Waker)
| PollGet (cx : Waker)
| PollPeek (cx : Waker)
| PollSpace (cx : Waker).
Arguments TryPut {T} _.
Arguments TryGet {T}.
Arguments TryPeek {T}.
Arguments PollPut {T} _ _.
Arguments PollGet {T} _.
Arguments PollPeek {T} _.
Arguments PollSpace {T} _.

(** What the caller got. *)
Inductive Event (T : Type) :=
| Accepted (x : T)        (* the item went in, and the future let go of it *)
| Refused (x : T)         (* the item is back with the caller, or still with its future *)
| Delivered (x : T)
| Shown (x : T)           (* a copy of the item at the front *)
| Vacant                  (* there is room *)
| Nothing                 (* no item, or no room *)
| Broken.                 (* a panic, or an item kept by a future that handed it over *)
Arguments Accepted {T} _.
Arguments Refused {T} _.
Arguments Delivered {T} _.
Arguments Shown {T} _.
Arguments Vacant {T}.
Arguments Nothing {T}.
Arguments Broken {T}.

(** ** The abstract bounded FIFO *)

Module Spec.
Section Spec.
Context {T : Type}.
(** Items from the oldest to the newest, and the depth. *)
Definition fifo : Type := list T * option nat.
Definition room (s : fifo) : bool :=
  match snd s with None => true | Some c => bool_decide (length (fst s) < c) end.
Definition step (s : fifo) (o : Op T) : fifo * Event T :=
  match o with
  | TryPut x | PollPut x _ => if room s then ((fst s ++ [x], snd s), Accepted x) else (s, Refused x)
  | TryGet | PollGet _ => match fst s with [] => (s, Nothing) | x :: r => ((r, snd s), Delivered x) end
  | TryPeek | PollPeek _ => match fst s with [] => (s, Nothing) | x :: _ => (s, Shown x) end
  | PollSpace _ => (s, if room s then Vacant else Nothing)
  end.
Fixpoint run (s : fifo) (os : list (Op T)) : fifo * list (Event T) :=
  match os with
  | [] => (s, [])
  | o :: r => let '(s', e) := step s o in let '(s'', es) := run s' r in (s'', e :: es)
  end.
End Spec.
Arguments fifo T : clear implicits.
End Spec.

Definition abs {T} (q : QInner T) : Spec.fifo T := (buf q, cap q).

(** ** Histories *)

Section History.
Context {T : Type}.
Implicit Types q : QInner T.

Definition exec q (o : Op T) : QInner T * list Waker * Event T :=
  match o with
  | TryPut x =>
      match try_put q x with
      | (q', w, Ok _) => (q', w, Accepted x)
      | (q', w, Err y) => (q', w, Refused y)
      end
  | TryGet =>
      match try_get q with
      | (q', w, Some x) => (q', w, Delivered x)
      | (q', w, None) => (q', w, Nothing)
      end
  | TryPeek => (q, [], match try_peek q with Some x => Shown x | None => Nothing end)
  | PollPut x cx =>
      match poll_put q (put x) cx with
      | Done (q', p, w, r) =>
          (q', w, match r, item p with
                  | Ready _, None => Accepted x
                  | Pending, Some y => Refused y
                  | _, _ => Broken
                  end)
      | Panic _ => (q, [], Broken)
      end
  | PollGet cx =>
      match poll_get q cx with
      | (q', w, Ready x) => (q', w, Delivered x)
      | (q', w, Pending) => (q', w, Nothing)
      end
  | PollPeek cx =>
      match poll_peek q cx with
      | (q', w, Ready x) => (q', w, Shown x)
      | (q', w, Pending) => (q', w, Nothing)
      end
  | PollSpace cx =>
      match poll_space q cx with
      | (q', w, Ready _) => (q', w, Vacant)
      | (q', w, Pending) => (q', w, Nothing)
      end
  end.

Fixpoint run q (os : list (Op T)) : QInner T * list (Event T) :=
  match os with
  | [] => (q, [])
  | o :: r => let '(q', _, e) := exec q o in let '(q'', es) := run q' r in (q'', e :: es)
  end.

(** The task a call suspends, and on which side it then waits. *)
Definition suspends (o : Op T) (e : Event T) : option (Waker + Waker) :=
  match o, e with
  | PollPut _ cx, Refused _ | PollSpace cx, Nothing => Some (inr cx)
  | (PollGet cx | PollPeek cx), Nothing => Some (inl cx)
  | _, _ => None
  end.

Definition accepted (es : list (Event T)) : list T :=
  omap (λ e, match e with Accepted x => Some x | _ => None end) es.
Definition delivered (es : list (Event T)) : list T :=
  omap (λ e, match e with Delivered x => Some x | _ => None end) es.

(** ** Invariant *)

(** No task waits for a condition that already holds, and the depth is
    respected. *)
Definition wf q : Prop :=
  (buf q ≠ [] → get_waiters q = []) ∧
  (has_space q = true → put_waiters q = []) ∧
  (∀ c, cap q = Some c → length (buf q) ≤ c).

Lemma new_wf c : wf (new c).
Proof. repeat split; simpl; intros; lia || done. Qed.

Lemma has_space_spec q : has_space q = true ↔ ∀ c, cap q = Some c → length (buf q) < c.
Proof.
  unfold has_space. destruct (cap q); [|naive_solver]. rewrite bool_decide_eq_true. naive_solver.
Qed.

Ltac queue_cases :=
  unfold exec, try_put, try_get, poll_put, poll_get, poll_peek, poll_space, pop_front, put,
    wake_getters, wake_putters, push_back in *; simpl in *;
  repeat (case_goal; simplify_eq/=).

Lemma pushed_wf q x :
  wf q → has_space q = true → wf (fst (wake_getters (push_back q x))).
Proof.
  intros (Hg & Hp & Hc) Hs. unfold wf, wake_getters, push_back. simpl. split_and_all; simpl.
  - done.
  - intros Hs'. apply Hp, has_space_spec. intros c Hcap. rewrite has_space_spec in Hs. by apply Hs.
  - intros c Hcap. rewrite has_space_spec in Hs. specialize (Hs c Hcap). rewrite length_app. simpl. lia.
Qed.

Lemma popped_wf q x r :
  wf q → buf q = x :: r → wf (Build_QInner r (cap q) (get_waiters q) []).
Proof.
  intros (Hg & Hp & Hc) Hb. rewrite Hb in *. unfold wf. split_and_all; simpl.
  - intros _. by apply Hg.
  - done.
  - intros c Hcap. specialize (Hc c Hcap). simpl in *. lia.
Qed.

(** A blocked poll registers its waker and leaves the contents alone. *)
Lemma wait_get_wf q cx :
  wf q → buf q = [] → wf (Build_QInner (buf q) (cap q) (get_waiters q ++ [cx]) (put_waiters q)).
Proof. intros (Hg & Hp & Hc) Hb. destruct q; simpl in *; subst. by split_and_all. Qed.

Lemma wait_put_wf q cx :
  wf q → has_space q = false → wf (Build_QInner (buf q) (cap q) (get_waiters q) (put_waiters q ++ [cx])).
Proof. intros (Hg & Hp & Hc) Hs. unfold wf. split_and_all; simpl; try done. unfold has_space in *. simpl. by rewrite Hs. Qed.

Lemma exec_wf q o : wf q → wf (fst (fst (exec q o))).
Proof.
  intros Hwf. destruct o; simpl.
  - unfold try_put. destruct (has_space q) eqn:E; [by apply (pushed_wf q)|done].
  - unfold try_get, pop_front. destruct (buf q) eqn:E; simpl; [done|]. by eapply popped_wf.
  - done.
  - unfold poll_put. destruct (has_space q) eqn:E; [by apply pushed_wf|by apply wait_put_wf].
  - unfold poll_get, pop_front. destruct (buf q) eqn:E; simpl; [|by eapply popped_wf].
    rewrite E, <- E. by apply wait_get_wf.
  - unfold poll_peek. destruct (buf q) eqn:E; simpl; [|done]. rewrite <- E. by apply wait_get_wf.
  - unfold poll_space. destruct (has_space q) eqn:E; [done|by apply wait_put_wf].
Qed.

Lemma run_wf q os : wf q → wf (fst (run q os)).
Proof.
  revert q. induction os as [|o os IH]; intros q Hwf; [done|]. simpl.
  pose proof (exec_wf q o Hwf) as Ho. destruct (exec q o) as [[q' w] e]. simpl in Ho.
  specialize (IH q' Ho). by destruct (run q' os).
Qed.

(** One call is a step of the abstract queue with the same answer. *)
Lemma queue_exec_step q o : Spec.step (abs q) o = (abs (fst (fst (exec q o))), snd (exec q o)).
Proof.
  destruct q as [b c gw pw].
  assert (∀ gw' pw', Spec.room (b, c) = has_space (Build_QInner b c gw' pw')) as Hr by done.
  destruct o; unfold Spec.step, abs, exec, try_put, poll_put, poll_space, wake_getters; simpl; rewrite ?(Hr gw pw);
    try (destruct (has_space _); done); by destruct b.
Qed.

Lemma queue_run_steps q os : Spec.run (abs q) os = (abs (fst (run q os)), snd (run q os)).
Proof.
  revert q. induction os as [|o os IH]; intros q; simpl; [done|]. rewrite queue_exec_step.
  destruct (exec q o) as [[q' w] e]. simpl. rewrite IH. by destruct (run q' os).
Qed.

(** In every history of a queue, by any number of tasks, the items
    delivered followed by the items still queued are exactly the items
    accepted, in order: nothing is lost, duplicated or reordered. *)
Theorem fifo_exactly_once q os :
  let '(q', es) := run q os in
  buf q ++ accepted es = delivered es ++ buf q'.
Proof.
  revert q. induction os as [|o os IH]; intros q; simpl; [by rewrite app_nil_r|].
  pose proof (queue_exec_step q o) as He. destruct (exec q o) as [[q' w] e]. simpl in He.
  specialize (IH q'). destruct (run q' os) as [q'' es].
  unfold Spec.step, abs in He. simpl in He.
  destruct o; repeat case_hyp; injection He as Hb _ <-; simpl; rewrite <- Hb in IH; rewrite <- ?app_assoc in IH; simpl in IH; congruence.
Qed.

(** In every reachable state of a queue the depth is respected, a getter
    is registered only while the queue is empty, and a putter only while it is
    full: no wake-up is lost. *)
Theorem reachable_wf c os : wf (fst (run (new c) os)).
Proof. apply run_wf, new_wf. Qed.

(** What a call does to the tasks that wait: an accepted item wakes every
    getter, a delivered one every putter, a suspended call joins its side. *)
Lemma exec_waiters q o :
  let '(q', w, e) := exec q o in
  match e with
  | Accepted _ => w = get_waiters q ∧ get_waiters q' = [] ∧ put_waiters q' = put_waiters q
  | Delivered _ => w = put_waiters q ∧ put_waiters q' = [] ∧ get_waiters q' = get_waiters q
  | _ => w = [] ∧
      get_waiters q' = get_waiters q ++ match suspends o e with Some (inl cx) => [cx] | _ => [] end ∧
      put_waiters q' = put_waiters q ++ match suspends o e with Some (inr cx) => [cx] | _ => [] end
  end.
Proof. destruct o; queue_cases; rewrite ?app_nil_r; done. Qed.

(** C16: the queue is the abstract bounded FIFO: in every history of calls by any
    number of tasks each call gets the answer the FIFO gives it (accepted, refused
    with the item back, delivered, shown, vacant, or nothing) and leaves the FIFO's
    contents; no future panics or keeps an item it handed over.  A call that
    cannot be served leaves its waker on its side, an accepted item wakes every
    task that waits for one and a delivered item every task that waits for room,
    and nobody waits for what there already is. *)
Theorem exec_refines c os o :
  let '(q, es) := run (new c) os in
  let '(q', w, e) := exec q o in
  Spec.run ([], c) os = (abs q, es) ∧ Spec.step (abs q) o = (abs q', e) ∧ e ≠ Broken ∧
  (buf q ≠ [] → get_waiters q = []) ∧ (has_space q = true → put_waiters q = []) ∧
  match e with
  | Accepted _ => w = get_waiters q ∧ get_waiters q' = [] ∧ put_waiters q' = put_waiters q
  | Delivered _ => w = put_waiters q ∧ put_waiters q' = [] ∧ get_waiters q' = get_waiters q
  | _ => w = [] ∧
      get_waiters q' = get_waiters q ++ match suspends o e with Some (inl cx) => [cx] | _ => [] end ∧
      put_waiters q' = put_waiters q ++ match suspends o e with Some (inr cx) => [cx] | _ => [] end
  end.
Proof.
  pose proof (queue_run_steps (new c) os) as Hrun. pose proof (reachable_wf c os) as (Hg & Hp & _).
  destruct (run (new c) os) as [q es]. simpl in *.
  pose proof (queue_exec_step q o) as He. pose proof (exec_waiters q o) as Hw. destruct (exec q o) as [[q' w] e]. simpl in *.
  split_and!; try done. intros ->. unfold Spec.step in He. destruct o; repeat (case_hyp; simplify_eq/=).
Qed.

End History.
End Queue.

(** ** The interface the TLM layer builds on *)

(** What a client may call on a queue. *)
Class QueueOps (Q T : Type) := {
  q_space : Q → bool;
  q_len : Q → nat;
  q_is_empty : Q → bool;
  q_try_put : Q → T → Q * list Waker * Result unit T;
  q_try_get : Q → Q * list Waker * option T;
  q_try_peek : Q → option T;
  q_poll_space : Q → Waker → Q * list Waker * Poll unit;
  q_poll_get : Q → Waker → Q * list Waker * Poll T;
  q_poll_peek : Q → Waker → Q * list Waker * Poll T;
}.

(** What the client may rely on: the queue holds items in order, up to a depth
    that never changes. *)
Class QueueLike (Q T : Type) {O : QueueOps Q T} := {
  q_items : Q → list T;
  q_cap : Q → option nat;
  q_space_spec q : q_space q = match q_cap q with None => true | Some c => bool_decide (length (q_items q) < c) end;
  q_len_spec q : q_len q = length (q_items q);
  q_empty_spec q : q_is_empty q = bool_decide (q_items q = []);
  q_put_spec q x q' w r : q_try_put q x = (q', w, r) →
    q_cap q' = q_cap q ∧
    if q_space q then r = Ok tt ∧ q_items q' = q_items q ++ [x] else r = Err x ∧ q_items q' = q_items q;
  q_get_spec q q' w r : q_try_get q = (q', w, r) →
    q_cap q' = q_cap q ∧ r = head (q_items q) ∧ q_items q' = tail (q_items q);
  q_try_peek_spec q : q_try_peek q = head (q_items q);
  q_wait_space_spec q cx q' w r : q_poll_space q cx = (q', w, r) →
    q_cap q' = q_cap q ∧ q_items q' = q_items q ∧ r = if q_space q then Ready tt else Pending;
  q_wait_get_spec q cx q' w r : q_poll_get q cx = (q', w, r) →
    q_cap q' = q_cap q ∧ q_items q' = tail (q_items q) ∧
    r = match q_items q with [] => Pending | x :: _ => Ready x end;
  q_wait_peek_spec q cx q' w r : q_poll_peek q cx = (q', w, r) →
    q_cap q' = q_cap q ∧ q_items q' = q_items q ∧
    r = match q_items q with [] => Pending | x :: _ => Ready x end;
}.

#[export] Instance queue_ops T : QueueOps (Queue.QInner T) T := {|
  q_space := Queue.has_space; q_len := Queue.len; q_is_empty := Queue.is_empty;
  q_try_put := Queue.try_put; q_try_get := Queue.try_get; q_try_peek := Queue.try_peek;
  q_poll_space := Queue.poll_space; q_poll_get := Queue.poll_get; q_poll_peek := Queue.poll_peek |}.

#[export] Program Instance queue_like T : QueueLike (Queue.QInner T) T :=
  {| q_items := Queue.buf; q_cap := Queue.cap |}.
Solve Obligations with
  (simpl; unfold Queue.has_space, Queue.len, Queue.is_empty, Queue.try_put, Queue.try_get, Queue.try_peek,
    Queue.poll_space, Queue.poll_get, Queue.poll_peek, Queue.pop_front, Queue.wake_getters, Queue.wake_putters,
    Queue.push_back in *; intros; repeat case_goal; repeat case_hyp; simplify_eq/=; done).
Next Obligation.
  simpl. intros T q x q' w r. unfold Queue.try_put, Queue.wake_getters, Queue.push_back.
  destruct (Queue.has_space q); intros; by simplify_eq/=.
Qed.
Next Obligation.
  simpl. intros T q cx q' w r. unfold Queue.poll_space.
  destruct (Queue.has_space q); intros; by simplify_eq/=.
Qed.
