(* ===== verification/Sync.v ===== *)
(** * Sync: the manual-reset event and the FIFO-fair lock
    (rustdv-sim/src/sync.rs).

    [Event] is a flag and the wakers of the tasks waiting for it.  The lock's
    waiters are [Rc<LockWaiter>] cells shared between the queue and the
    [Acquire] future that registered them, so the model keeps them in a heap
    and the queue holds their addresses.  [Sys] closes the lock over every
    live future and guard; [step] is what tasks may do to it, in any order. *)
From S2P Require Import Prelude.

Module Event.

Record Event := { is_set : bool; waiters : list Waker }.

Definition new : Event := {| is_set := false; waiters := [] |}.
Definition set (e : Event) : Event * list Waker :=
  ({| is_set := true; waiters := [] |}, waiters e).
Definition clear (e : Event) : Event := {| is_set := false; waiters := waiters e |}.
Definition poll_wait (e : Event) (cx : Waker) : Event * Poll unit :=
  if is_set e then (e, Ready tt)
  else ({| is_set := is_set e; waiters := waiters e ++ [cx] |}, Pending).

Inductive Op := Set_ | Clear | PollWait (cx : Waker).

Definition exec (e : Event) (o : Op) : Event * list Waker :=
  match o with
  | Set_ => set e
  | Clear => (clear e, [])
  | PollWait cx => (fst (poll_wait e cx), [])
  end.

Fixpoint run (e : Event) (os : list Op) : Event * list Waker :=
  match os with
  | [] => (e, [])
  | o :: r => let '(e', w) := exec e o in let '(e'', w') := run e' r in (e'', w ++ w')
  end.

(** Nobody waits on an event that is set. *)
Definition wf (e : Event) : Prop := is_set e = true → waiters e = [].

Lemma event_exec_wf e o : wf e → wf (fst (exec e o)).
Proof.
  unfold wf. destruct o; simpl; [done..|]. unfold poll_wait.
  destruct (is_set e) eqn:E; simpl; rewrite ?E; done.
Qed.

(** The tasks a history registered while the event was clear. *)
Fixpoint registered (e : Event) (os : list Op) : list Waker :=
  match os with
  | [] => []
  | o :: r =>
      match o with
      | PollWait cx => if is_set e then [] else [cx]
      | _ => []
      end ++ registered (fst (exec e o)) r
  end.

(** Wakers are never dropped: those woken, then those still waiting, are the
    ones registered, in order. *)
Lemma run_wakers e os :
  let '(e', w) := run e os in waiters e ++ registered e os = w ++ waiters e'.
Proof.
  revert e. induction os as [|o os IH]; intros e; simpl; [by rewrite app_nil_r|].
  destruct (exec e o) as [e' w] eqn:E. specialize (IH e').
  destruct (run e' os) as [e'' w']. simpl. rewrite <- app_assoc, <- IH. clear IH.
  destruct o; unfold exec, set, clear in E; simplify_eq/=; [done..|].
  unfold poll_wait. destruct (is_set e); simpl; by rewrite <- ?app_assoc.
Qed.

Lemma event_run_wf e os : wf e → wf (fst (run e os)).
Proof.
  revert e. induction os as [|o os IH]; intros e He; [done|]. simpl.
  pose proof (event_exec_wf e o He) as Ho. destruct (exec e o) as [e' w]. simpl in Ho.
  specialize (IH e' Ho). by destruct (run e' os).
Qed.

(** An event never loses a waiter: in every history the wakers woken
    followed by those still waiting are the registered ones in order, and once
    the event is set nobody is left waiting (the set is sticky: a later wait
    returns at once until [clear]). *)
Theorem event_no_lost_wakeup os :
  let '(e', w) := run new os in
  registered new os = w ++ waiters e' ∧
  (is_set e' = true → waiters e' = [] ∧ w = registered new os ∧ ∀ cx, poll_wait e' cx = (e', Ready tt)).
Proof.
  pose proof (run_wakers new os) as Hw. pose proof (event_run_wf new os ltac:(done)) as Hwf.
  destruct (run new os) as [e' w]. simpl in *. split; [done|]. intros Hs. specialize (Hwf Hs).
  rewrite Hwf, app_nil_r in Hw. unfold poll_wait. by rewrite Hs.
Qed.

End Event.

Module Lock.

(** Addresses of [LockWaiter] cells. *)
Abbreviation Addr := nat (only parsing).

Record LockWaiter := { granted : bool; waker : option Waker }.

Record LockInner := {
  locked : bool;
  waiters : list Addr;
  heap : gmap Addr LockWaiter;
  next : Addr;                 (* the next free address *)
}.

(** The state of an [Acquire] future. *)
Record Acquire := { waiter : option Addr; acquired : bool }.

Definition new : LockInner := {| locked := false; waiters := []; heap := ∅; next := 0 |}.
Definition acquire : Acquire := {| waiter := None; acquired := false |}.

(** Pass ownership to the next waiter, or unlock. *)
Definition release (l : LockInner) : LockInner * list Waker :=
  match waiters l with
  | w :: r =>
      let woken := match heap l !! w with Some c => option_list (waker c) | None => [] end in
      ({| locked := locked l; waiters := r;
          heap := <[w := {| granted := true; waker := None |}]> (heap l); next := next l |}, woken)
  | [] => ({| locked := false; waiters := []; heap := heap l; next := next l |}, [])
  end.

Definition poll_acquire (l : LockInner) (a : Acquire) (cx : Waker) : LockInner * Acquire * Poll unit :=
  match waiter a with
  | None =>
      if negb (locked l) then
        ({| locked := true; waiters := waiters l; heap := heap l; next := next l |},
         {| waiter := None; acquired := true |}, Ready tt)
      else
        let w := next l in
        ({| locked := locked l; waiters := waiters l ++ [w];
            heap := <[w := {| granted := false; waker := Some cx |}]> (heap l); next := S w |},
         {| waiter := Some w; acquired := acquired a |}, Pending)
  | Some w =>
      match heap l !! w with
      | Some c =>
          if granted c then (l, {| waiter := Some w; acquired := true |}, Ready tt)
          else
            ({| locked := locked l; waiters := waiters l;
                heap := <[w := {| granted := granted c; waker := Some cx |}]> (heap l);
                next := next l |}, a, Pending)
      | None => (l, a, Pending)    (* an address is never freed while a future holds it *)
      end
  end.

Definition drop_acquire (l : LockInner) (a : Acquire) : LockInner * list Waker :=
  if acquired a then (l, [])
  else match waiter a with
    | None => (l, [])
    | Some w =>
        if match heap l !! w with Some c => granted c | None => false end then release l
        else ({| locked := locked l; waiters := filter (λ x, x ≠ w) (waiters l);
                 heap := heap l; next := next l |}, [])
    end.

Definition drop_guard (l : LockInner) : LockInner * list Waker := release l.

(** ** The closed system *)

Record Sys := {
  inner : LockInner;
  acqs : gmap nat Acquire;     (* live Acquire futures *)
  guards : nat;                (* live LockGuards *)
}.

Definition init : Sys := {| inner := new; acqs := ∅; guards := 0 |}.

Inductive step : Sys → Sys → Prop :=
| s_acquire s a :
    acqs s !! a = None →
    step s {| inner := inner s; acqs := <[a := acquire]> (acqs s); guards := guards s |}
| s_poll s a q cx l' q' r :
    acqs s !! a = Some q → acquired q = false →
    poll_acquire (inner s) q cx = (l', q', r) →
    step s {| inner := l'; acqs := <[a := q']> (acqs s);
              guards := match r with Ready _ => S (guards s) | Pending => guards s end |}
| s_drop_acquire s a q :
    acqs s !! a = Some q →
    step s {| inner := fst (drop_acquire (inner s) q); acqs := delete a (acqs s); guards := guards s |}
| s_drop_guard s n :
    guards s = S n →
    step s {| inner := fst (drop_guard (inner s)); acqs := acqs s; guards := n |}.

(** Future [a] was granted the lock and has not been polled since. *)
Definition holds (s : Sys) (a : nat) : Prop :=
  ∃ q w c, acqs s !! a = Some q ∧ acquired q = false ∧ waiter q = Some w ∧
    heap (inner s) !! w = Some c ∧ granted c = true.

(** Structure: queue entries are the ungranted waiters of live futures. *)
Record wf (s : Sys) : Prop := {
  wf_nodup : NoDup (waiters (inner s));
  wf_queued w : w ∈ waiters (inner s) → ∃ a q k,
    acqs s !! a = Some q ∧ acquired q = false ∧ waiter q = Some w ∧
    heap (inner s) !! w = Some {| granted := false; waker := Some k |};
  wf_waiter a q w : acqs s !! a = Some q → waiter q = Some w → ∃ c,
    heap (inner s) !! w = Some c ∧ w < next (inner s) ∧
    (acquired q = true → granted c = true) ∧
    (granted c = false → w ∈ waiters (inner s));
  wf_inj a b q r w : acqs s !! a = Some q → acqs s !! b = Some r →
    waiter q = Some w → waiter r = Some w → a = b;
}.

(** Ownership: an unlocked lock has no owner and no queue; a locked one has
    exactly one owner, a guard or a granted future. *)
Definition owned (s : Sys) : Prop :=
  if locked (inner s) then
    (guards s = 1 ∧ ∀ a, ¬ holds s a) ∨
    (guards s = 0 ∧ ∃ a, holds s a ∧ ∀ b, holds s b → b = a)
  else guards s = 0 ∧ waiters (inner s) = [] ∧ ∀ a, ¬ holds s a.

Definition inv (s : Sys) : Prop := wf s ∧ owned s.

(** ** Preservation *)

Lemma lock_init_inv : inv init.
Proof.
  split; [split; simpl; try set_solver; constructor|]. repeat split. intros a (q & w & c & H & _). done.
Qed.

(** A future whose waiter is not queued can go without disturbing the queue. *)
Lemma delete_wf s a q :
  wf s → acqs s !! a = Some q → (∀ w, waiter q = Some w → w ∉ waiters (inner s)) →
  wf {| inner := inner s; acqs := delete a (acqs s); guards := guards s |}.
Proof.
  intros [Hnd Hq Hw Hi] Ha Hnot. split; simpl; [done|..].
  - intros w Hin. destruct (Hq w Hin) as (b & r & k & Hb & ? & ? & ?). exists b, r, k.
    rewrite lookup_delete_ne; [done|]. intros ->. simplify_eq. by eapply Hnot.
  - intros b r w [_ Hb]%lookup_delete_Some. by apply Hw with b.
  - intros b c r r' w [_ Hb]%lookup_delete_Some [_ Hc]%lookup_delete_Some. by eapply Hi.
Qed.

Lemma holds_delete s a b :
  holds {| inner := inner s; acqs := delete a (acqs s); guards := guards s |} b → holds s b ∧ b ≠ a.
Proof.
  intros (q & w & c & Hb & H). simpl in *. apply lookup_delete_Some in Hb as [? Hb].
  split; [|done]. by exists q, w, c.
Qed.

(** Granting the head of the queue: its future, and no other, becomes the owner. *)
Lemma release_inv s :
  wf s → locked (inner s) = true → (∀ a, ¬ holds s a) →
  inv {| inner := fst (release (inner s)); acqs := acqs s; guards := 0 |}.
Proof.
  intros Hwf Hl Hno. pose proof Hwf as [Hnd Hq Hw Hi].
  unfold release. destruct (waiters (inner s)) as [|w r] eqn:E; simpl.
  - split.
    + split; simpl; [constructor|set_solver| |done].
      intros a q w Ha Hqw. destruct (Hw a q w Ha Hqw) as (c & ? & ? & ? & Hin). exists c. naive_solver.
    + unfold owned. simpl. split_and_all; [done..|]. intros a (q & w & c & H). simpl in H.
      apply (Hno a). by exists q, w, c.
  - apply NoDup_cons in Hnd as [Hnin Hnd].
    destruct (Hq w) as (a & q & k & Ha & Hacq & Hqw & Hh); [set_solver|]. split.
    + split; simpl; [done|..].
      * intros v Hv. destruct (Hq v) as (b & p & j & ? & ? & ? & ?); [set_solver|]. exists b, p, j.
        rewrite lookup_insert_ne by set_solver. done.
      * intros b p v Hb Hpv. destruct (Hw b p v Hb Hpv) as (c & Hc & Hlt & Hg & Hin).
        destruct (decide (v = w)) as [->|].
        -- rewrite lookup_insert_eq. eexists. split; [done|]. simpl. done.
        -- rewrite lookup_insert_ne by done. exists c. split_and_all; [done..|]. set_solver.
      * done.
    + unfold owned. simpl. rewrite Hl. right. split; [done|]. exists a. split.
      * exists q, w, {| granted := true; waker := None |}. simpl. rewrite lookup_insert_eq. done.
      * intros b (p & v & c & Hb & Hp & Hpv & Hc & Hg). simpl in *.
        destruct (decide (v = w)) as [->|]; [by eapply Hi|].
        rewrite lookup_insert_ne in Hc by done. destruct (Hno b). by exists p, v, c.
Qed.

(** Replacing a future's state without touching the lock. *)
Lemma holds_other s l a q g b :
  b ≠ a → heap l = heap (inner s) →
  holds {| inner := l; acqs := <[a := q]> (acqs s); guards := g |} b → holds s b.
Proof.
  intros Hne Hh (p & v & c & Hb & H). simpl in *. rewrite lookup_insert_ne in Hb by done.
  rewrite Hh in H. by exists p, v, c.
Qed.

(** Ownership only depends on the lock bit, the guards and the granted futures. *)
Lemma owned_ext s s' :
  locked (inner s') = locked (inner s) → guards s' = guards s →
  (waiters (inner s) = [] → waiters (inner s') = []) →
  (∀ b, holds s' b ↔ holds s b) → owned s → owned s'.
Proof.
  unfold owned. intros -> -> Hw Heq Ho. destruct (locked (inner s)).
  - destruct Ho as [[? Hno]|[? (a & Ha & Hu)]]; [left|right]; split; [done| |done|].
    + intros a ?%Heq. by apply (Hno a).
    + exists a. split; [by apply Heq|]. intros b ?%Heq. by apply Hu.
  - destruct Ho as (? & ? & Hno). split_and!; [done|by apply Hw|]. intros a ?%Heq. by apply (Hno a).
Qed.

Lemma step_acquire_inv s a :
  inv s → acqs s !! a = None →
  inv {| inner := inner s; acqs := <[a := acquire]> (acqs s); guards := guards s |}.
Proof.
  intros [[Hnd Hq Hw Hi] Ho] Ha.
  assert (∀ b, holds {| inner := inner s; acqs := <[a := acquire]> (acqs s); guards := guards s |} b ↔ holds s b) as Heq.
  { intros b. split; intros (q & w & c & Hb & H); exists q, w, c; simpl in *.
    - apply lookup_insert_Some in Hb as [[<- <-]|[? Hb]]; [|done]. naive_solver.
    - rewrite lookup_insert_ne by congruence. done. }
  split.
  - split; simpl; [done|..].
    + intros w Hin. destruct (Hq w Hin) as (b & q & k & ? & H). exists b, q, k.
      rewrite lookup_insert_ne by congruence. done.
    + intros b q w [[<- <-]|[? Hb]]%lookup_insert_Some ?; [done|]. by apply Hw with b.
    + intros b c q r w [[<- <-]|[? Hb]]%lookup_insert_Some [[<- <-]|[? Hc]]%lookup_insert_Some ? ?; try done.
      by eapply Hi.
  - by apply (owned_ext s).
Qed.

(** A waiter of another future than the one that changes keeps its cell. *)
Lemma wf_other_waiter s a q b r w v :
  wf s → acqs s !! a = Some q → acqs s !! b = Some r → b ≠ a →
  waiter q = Some w → waiter r = Some v → v ≠ w.
Proof. intros Hwf Ha Hb Hne Hq Hr ->. by apply Hne, (wf_inj _ Hwf b a r q w). Qed.

(** Taking the free lock. *)
Lemma poll_free_inv s a q l' :
  inv s → acqs s !! a = Some q → waiter q = None → locked (inner s) = false →
  l' = {| locked := true; waiters := waiters (inner s); heap := heap (inner s); next := next (inner s) |} →
  inv {| inner := l'; acqs := <[a := {| waiter := None; acquired := true |}]> (acqs s); guards := S (guards s) |}.
Proof.
  intros [[Hnd Hq Hw Hi] Ho] Ha Hqw Hl ->. unfold owned in Ho. rewrite Hl in Ho.
  destruct Ho as (Hg & Hnil & Hno). split.
  - split; simpl; [done|rewrite Hnil; set_solver|..].
    + intros b r v [[<- <-]|[? Hb]]%lookup_insert_Some ?; [done|]. by apply Hw with b.
    + intros b c r r' v [[<- <-]|[? Hb]]%lookup_insert_Some [[<- <-]|[? Hc]]%lookup_insert_Some ? ?; try done.
      by eapply Hi.
  - left. simpl. split; [by rewrite Hg|]. intros b Hb.
    destruct (decide (b = a)) as [->|Hne].
    + destruct Hb as (r & v & c & Hb & ? & ? & _). simpl in *. rewrite lookup_insert_eq in Hb. by simplify_eq/=.
    + apply (Hno b). by apply (holds_other s _ _ _ _ _ Hne) in Hb.
Qed.

(** Joining the queue behind everybody else. *)
Lemma poll_enqueue_inv s a q cx :
  inv s → acqs s !! a = Some q → acquired q = false → waiter q = None → locked (inner s) = true →
  inv {| inner := {| locked := true; waiters := waiters (inner s) ++ [next (inner s)];
                     heap := <[next (inner s) := {| granted := false; waker := Some cx |}]> (heap (inner s));
                     next := S (next (inner s)) |};
         acqs := <[a := {| waiter := Some (next (inner s)); acquired := false |}]> (acqs s);
         guards := guards s |}.
Proof.
  intros [[Hnd Hq Hw Hi] Ho] Ha Hacq Hqw Hl. set (n := next (inner s)).
  assert (∀ b r v, acqs s !! b = Some r → waiter r = Some v → v < n) as Hlt.
  { intros b r v Hb Hr. by destruct (Hw b r v Hb Hr) as (c & _ & ? & _). }
  assert (n ∉ waiters (inner s)) as Hn.
  { intros Hin. destruct (Hq n Hin) as (b & r & k & Hb & _ & Hr & _). specialize (Hlt b r n Hb Hr). lia. }
  assert (∀ b, holds {| inner := {| locked := true; waiters := waiters (inner s) ++ [n];
                     heap := <[n := {| granted := false; waker := Some cx |}]> (heap (inner s)); next := S n |};
         acqs := <[a := {| waiter := Some n; acquired := false |}]> (acqs s); guards := guards s |} b ↔ holds s b) as Heq.
  { intros b. split; intros (r & v & c & Hb & Hr & Hrv & Hc & Hg); simpl in *.
    - apply lookup_insert_Some in Hb as [[<- <-]|[? Hb]]; simplify_eq/=.
      + by rewrite lookup_insert_eq in Hc; simplify_eq/=.
      + specialize (Hlt b r v Hb Hrv). rewrite lookup_insert_ne in Hc by lia. by exists r, v, c.
    - exists r, v, c. simpl. specialize (Hlt b r v Hb Hrv).
      rewrite !lookup_insert_ne by (lia || congruence). done. }
  split.
  - split; simpl.
    + apply NoDup_app. split_and!; [done| |apply NoDup_singleton]. set_solver.
    + intros w [Hin|Hin%list_elem_of_singleton]%elem_of_app; [|subst w].
      * destruct (Hq w Hin) as (b & r & k & Hb & ? & Hr & ?). exists b, r, k.
        specialize (Hlt b r w Hb Hr). rewrite !lookup_insert_ne by (lia || congruence). done.
      * exists a. do 2 eexists. rewrite !lookup_insert_eq. done.
    + intros b r v [[<- <-]|[? Hb]]%lookup_insert_Some Hr; simplify_eq/=.
      * rewrite lookup_insert_eq. eexists. split_and!; [done|lia|done|set_solver].
      * specialize (Hlt b r v Hb Hr). destruct (Hw b r v Hb Hr) as (c & ? & ? & ? & ?). exists c.
        rewrite lookup_insert_ne by lia. split_and!; [done|lia|done|set_solver].
    + intros b c r r' v [[<- <-]|[? Hb]]%lookup_insert_Some [[<- <-]|[? Hc]]%lookup_insert_Some Hr Hr'; simplify_eq/=; try done.
      * specialize (Hlt c r' _ Hc Hr'). lia.
      * specialize (Hlt b r _ Hb Hr). lia.
      * by eapply Hi.
  - unfold owned in *. simpl. rewrite Hl in Ho. repeat setoid_rewrite Heq. done.
Qed.

(** Redeeming a grant: the future's ownership becomes a guard's. *)
Lemma poll_granted_inv s a q w c :
  inv s → acqs s !! a = Some q → acquired q = false → waiter q = Some w →
  heap (inner s) !! w = Some c → granted c = true →
  inv {| inner := inner s; acqs := <[a := {| waiter := Some w; acquired := true |}]> (acqs s);
         guards := S (guards s) |}.
Proof.
  intros [Hwf Ho] Ha Hacq Hqw Hc Hg. pose proof Hwf as [Hnd Hq Hw Hi].
  assert (holds s a) as Hold by (by exists q, w, c). split.
  - split; simpl; [done|..].
    + intros v Hin. destruct (Hq v Hin) as (b & r & k & Hb & ? & ? & Hv). exists b, r, k.
      rewrite lookup_insert_ne; [done|]. intros ->. simplify_eq/=.
    + intros b r v [[<- <-]|[? Hb]]%lookup_insert_Some Hr; simplify_eq/=; [|by apply Hw with b].
      destruct (Hw a q v Ha Hqw) as (c' & ? & ? & ? & ?). by exists c'; simplify_eq.
    + intros b d r r' v [[<- <-]|[? Hb]]%lookup_insert_Some [[<- <-]|[? Hd]]%lookup_insert_Some Hr Hr';
        simplify_eq/=; try done; [by apply (Hi a d q r' v)|by apply (Hi b a r q v)|by eapply Hi].
  - unfold owned in *. simpl. destruct (locked (inner s)).
    + destruct Ho as [[_ Hno]|[Hz (a' & Ha' & Hu)]]; [by destruct (Hno a)|]. left. split; [by rewrite Hz|].
      intros b Hb. destruct (decide (b = a)) as [->|Hne].
      * destruct Hb as (r & v & d & Hb & ? & _). simpl in *. rewrite lookup_insert_eq in Hb. by simplify_eq/=.
      * apply (holds_other s _ _ _ _ _ Hne) in Hb; [|done]. apply Hne. rewrite (Hu b Hb). by rewrite (Hu a Hold).
    + destruct Ho as (_ & _ & Hno). by destruct (Hno a).
Qed.

(** A waiting future that is polled again only refreshes its waker. *)
Lemma poll_waiting_inv s a q w c cx :
  inv s → acqs s !! a = Some q → acquired q = false → waiter q = Some w →
  heap (inner s) !! w = Some c → granted c = false →
  inv {| inner := {| locked := locked (inner s); waiters := waiters (inner s);
                     heap := <[w := {| granted := granted c; waker := Some cx |}]> (heap (inner s));
                     next := next (inner s) |};
         acqs := <[a := q]> (acqs s); guards := guards s |}.
Proof.
  intros [Hwf Ho] Ha Hacq Hqw Hc Hg. pose proof Hwf as [Hnd Hq Hw Hi].
  rewrite (insert_id _ _ _ Ha), Hg.
  assert (∀ b, holds {| inner := {| locked := locked (inner s); waiters := waiters (inner s);
                     heap := <[w := {| granted := false; waker := Some cx |}]> (heap (inner s));
                     next := next (inner s) |}; acqs := acqs s; guards := guards s |} b ↔ holds s b) as Heq.
  { intros b. split; intros (r & v & d & Hb & Hr & Hrv & Hd & Hgd); simpl in *.
    - apply lookup_insert_Some in Hd as [[<- <-]|[? Hd]]; [done|]. by exists r, v, d.
    - exists r, v, d. simpl. rewrite lookup_insert_ne; [done|]. intros ->. congruence. }
  split.
  - split; simpl; [done|..].
    + intros v Hin. destruct (Hq v Hin) as (b & r & k & Hb & ? & ? & Hv).
      destruct (decide (v = w)) as [->|]; [|exists b, r, k; by rewrite lookup_insert_ne].
      exists b, r, cx. by rewrite lookup_insert_eq.
    + intros b r v Hb Hr. destruct (Hw b r v Hb Hr) as (d & Hd & ? & ? & ?).
      destruct (decide (v = w)) as [->|]; [|exists d; by rewrite lookup_insert_ne].
      rewrite lookup_insert_eq. simplify_eq. eexists. split_and!; [done|done|naive_solver..].
    + done.
  - by apply (owned_ext s).
Qed.

Lemma step_poll_inv s a q cx l' q' r :
  inv s → acqs s !! a = Some q → acquired q = false →
  poll_acquire (inner s) q cx = (l', q', r) →
  inv {| inner := l'; acqs := <[a := q']> (acqs s);
         guards := match r with Ready _ => S (guards s) | Pending => guards s end |}.
Proof.
  intros Hinv Ha Hacq. unfold poll_acquire. destruct (waiter q) as [w|] eqn:Hqw.
  - destruct (wf_waiter _ (proj1 Hinv) a q w Ha Hqw) as (c & Hc & _). rewrite Hc.
    destruct (granted c) eqn:Hg; intros ?; simplify_eq/=.
    + by eapply poll_granted_inv.
    + rewrite <- Hg. by eapply poll_waiting_inv.
  - destruct (locked (inner s)) eqn:Hl; intros ?; simplify_eq/=.
    + rewrite Hacq. by eapply poll_enqueue_inv.
    + by eapply poll_free_inv.
Qed.

(** A future that never queued, or already handed its grant to a guard. *)
Lemma drop_idle_inv s a q :
  inv s → acqs s !! a = Some q →
  (∀ w, waiter q = Some w → w ∉ waiters (inner s)) → ¬ holds s a →
  inv {| inner := inner s; acqs := delete a (acqs s); guards := guards s |}.
Proof.
  intros [Hwf Ho] Ha Hnin Hna. split; [by eapply delete_wf|].
  assert (∀ b, holds {| inner := inner s; acqs := delete a (acqs s); guards := guards s |} b ↔ holds s b) as Heq.
  { intros b. split; [by intros []%holds_delete|]. intros Hb.
    assert (b ≠ a) as Hne by (intros ->; done). destruct Hb as (r & v & c & Hb & H).
    exists r, v, c. simpl. by rewrite lookup_delete_ne. }
  by apply (owned_ext s).
Qed.

(** Leaving the queue. *)
Lemma drop_queued_inv s a q w c :
  inv s → acqs s !! a = Some q → waiter q = Some w →
  heap (inner s) !! w = Some c → granted c = false →
  inv {| inner := {| locked := locked (inner s); waiters := filter (λ x, x ≠ w) (waiters (inner s));
                     heap := heap (inner s); next := next (inner s) |};
         acqs := delete a (acqs s); guards := guards s |}.
Proof.
  intros [Hwf Ho] Ha Hqw Hc Hg. pose proof Hwf as [Hnd Hq Hw Hi].
  assert (¬ holds s a) as Hna by (intros (r & v & d & ? & ? & ? & ? & ?); congruence).
  assert (∀ l, heap l = heap (inner s) → ∀ b, holds {| inner := l; acqs := delete a (acqs s); guards := guards s |} b ↔ holds s b) as Heq.
  { intros l Hl b. split; intros (r & v & d & Hb & H); exists r, v, d; simpl in *; rewrite Hl in *.
    - by apply lookup_delete_Some in Hb as [_ Hb].
    - rewrite lookup_delete_ne; [done|]. intros ->. apply Hna. by exists r, v, d. }
  split.
  - split; simpl; [by apply NoDup_filter|..].
    + intros v [Hne Hin]%list_elem_of_filter. destruct (Hq v Hin) as (b & r & k & Hb & ? & Hr & ?). exists b, r, k.
      rewrite lookup_delete_ne; [done|]. intros ->. simplify_eq/=.
    + intros b r v [Hne Hb]%lookup_delete_Some Hr. destruct (Hw b r v Hb Hr) as (d & ? & ? & ? & Hin). exists d.
      split_and!; [done..|]. intros ?. apply list_elem_of_filter. split; [|by apply Hin].
      by apply (wf_other_waiter s a q b r w v).
    + intros b d r r' v [_ Hb]%lookup_delete_Some [_ Hd]%lookup_delete_Some. by eapply Hi.
  - apply (owned_ext s); simpl; [done..| | |done]; [by intros ->|]. by apply Heq.
Qed.

Lemma step_drop_acquire_inv s a q :
  inv s → acqs s !! a = Some q →
  inv {| inner := fst (drop_acquire (inner s) q); acqs := delete a (acqs s); guards := guards s |}.
Proof.
  intros Hinv Ha. pose proof Hinv as [Hwf Ho]. unfold drop_acquire.
  destruct (acquired q) eqn:Hacq; [|destruct (waiter q) as [w|] eqn:Hqw]; simpl.
  - apply (drop_idle_inv s a q); [done..| |].
    + intros w Hqw Hin. destruct (wf_waiter _ Hwf a q w Ha Hqw) as (c & Hc & _ & Hg & _).
      destruct (wf_queued _ Hwf w Hin) as (_ & _ & k & _ & _ & _ & Hk). specialize (Hg Hacq). rewrite Hc in Hk. by simplify_eq/=.
    + intros (r & w & c & ? & ? & _). congruence.
  - destruct (wf_waiter _ Hwf a q w Ha Hqw) as (c & Hc & _). rewrite Hc.
    destruct (granted c) eqn:Hg; [|by eapply drop_queued_inv].
    assert (holds s a) as Hold by (by exists q, w, c). unfold owned in Ho.
    destruct (locked (inner s)) eqn:Hl; [|by destruct Ho as (_ & _ & Hno); destruct (Hno a)].
    destruct Ho as [[_ Hno]|[-> (a' & Ha' & Hu)]]; [by destruct (Hno a)|].
    pose proof (release_inv {| inner := inner s; acqs := delete a (acqs s); guards := guards s |}) as Hrel.
    simpl in Hrel. apply Hrel; [|done|].
    + apply (delete_wf s a q Hwf Ha). intros v Hv Hin. assert (v = w) as -> by congruence.
      destruct (wf_queued _ Hwf w Hin) as (_ & _ & k & _ & _ & _ & Hk). rewrite Hc in Hk. by simplify_eq/=.
    + intros b [Hb Hne]%holds_delete. apply Hne. by rewrite (Hu b Hb), (Hu a Hold).
  - apply (drop_idle_inv s a q); [done..|by rewrite Hqw|]. intros (r & w & c & ? & ? & ? & _). simplify_eq/=.
Qed.

Lemma step_drop_guard_inv s n :
  inv s → guards s = S n →
  inv {| inner := fst (drop_guard (inner s)); acqs := acqs s; guards := n |}.
Proof.
  intros [Hwf Ho] Hg. unfold owned in Ho. destruct (locked (inner s)) eqn:Hl; [|lia].
  destruct Ho as [[H1 Hno]|[? _]]; [|lia]. assert (n = 0) as -> by lia.
  by apply release_inv.
Qed.

Lemma step_inv s s' : step s s' → inv s → inv s'.
Proof.
  intros [s0 a Ha|s0 a q cx l' q' r Ha Hacq Hp|s0 a q Ha|s0 n Hn] Hinv.
  - by apply step_acquire_inv.
  - by eapply step_poll_inv.
  - by apply step_drop_acquire_inv.
  - by apply step_drop_guard_inv.
Qed.

Lemma reachable_inv s : rtc step init s → inv s.
Proof. intros H. apply (rtc_preserves step inv step_inv _ _ H), lock_init_inv. Qed.

(** C19: however tasks acquire, poll, cancel and drop, at most one guard is
    alive, and a locked lock always has exactly one owner (one guard, or one
    future that was granted the lock and has not been polled since), so the
    lock is never held by two tasks and never stays locked without an owner. *)
Theorem lock_single_owner s :
  rtc step init s →
  guards s ≤ 1 ∧
  (locked (inner s) = false → guards s = 0 ∧ waiters (inner s) = []) ∧
  (locked (inner s) = true →
     (guards s = 1 ∧ ∀ a, ¬ holds s a) ∨ (guards s = 0 ∧ ∃ a, holds s a ∧ ∀ b, holds s b → b = a)).
Proof.
  intros [_ Ho]%reachable_inv. unfold owned in Ho. destruct (locked (inner s)) eqn:E; simpl in *.
  - split_and!; [|done|done]. destruct Ho as [[-> _]|[-> _]]; lia.
  - destruct Ho as (-> & ? & _). split_and!; [lia|done|done].
Qed.


(** Cancelling a waiting task in any reachable state never disturbs the
    others: if it was still queued the queue loses only its entry and nobody
    is woken; if it had been granted the lock but never ran, the lock passes
    on exactly as a release does. *)
Theorem lock_cancellation s a q w :
  rtc step init s → acqs s !! a = Some q → acquired q = false → waiter q = Some w →
  let '(l', woken) := drop_acquire (inner s) q in
  if decide (w ∈ waiters (inner s)) then
    woken = [] ∧ locked l' = locked (inner s) ∧ heap l' = heap (inner s) ∧
    ∃ r1 r2, waiters (inner s) = r1 ++ w :: r2 ∧ waiters l' = r1 ++ r2
  else holds s a ∧ (l', woken) = release (inner s) ∧ guards s = 0.
Proof.
  intros [Hwf Ho]%reachable_inv Ha Hacq Hqw. unfold drop_acquire. rewrite Hacq, Hqw.
  destruct (wf_waiter _ Hwf a q w Ha Hqw) as (c & Hc & _ & _ & Hin). rewrite Hc.
  destruct (decide (w ∈ waiters (inner s))) as [Hw|Hw].
  - destruct (wf_queued _ Hwf w Hw) as (_ & _ & k & _ & _ & _ & Hk). simplify_eq/=.
    split_and!; [done..|]. apply list_elem_of_split in Hw as (r1 & r2 & Hw). exists r1, r2. split; [done|].
    pose proof (wf_nodup _ Hwf) as Hnd. rewrite Hw in Hnd |- *. apply NoDup_app in Hnd as (_ & Hd & [Hn _]%NoDup_cons).
    rewrite filter_app, filter_cons_False by (intros []; done).
    f_equal; apply filter_all; apply Forall_forall; intros x Hx ->; set_solver.
  - destruct (granted c) eqn:Hg; [|by destruct Hw; apply Hin]. destruct (release (inner s)) as [l' k].
    assert (holds s a) as Hold by (by exists q, w, c). split_and!; [done|done|].
    unfold owned in Ho. destruct (locked (inner s)); [|by destruct Ho].
    destruct Ho as [[_ Hno]|[? _]]; [by destruct (Hno a)|done].
Qed.

End Lock.

Module SyncWitnesses.
Import Lock.

(** Task 1 holds the lock through a guard; task 2 queued behind it (waker 22). *)
Definition busy : Sys :=
  {| inner := {| locked := true; waiters := [0]; heap := {[ 0 := {| granted := false; waker := Some 22 |} ]}; next := 1 |};
     acqs := <[2 := {| waiter := Some 0; acquired := false |}]> {[ 1 := {| waiter := None; acquired := true |} ]};
     guards := 1 |}.

Lemma busy_reachable : rtc step init busy.
Proof.
  eapply rtc_l; [apply (s_acquire init 1); reflexivity|].
  eapply rtc_l; [eapply (s_poll _ 1 _ 11); reflexivity|].
  eapply rtc_l; [eapply (s_acquire _ 2); reflexivity|].
  eapply rtc_l; [eapply (s_poll _ 2 _ 22); reflexivity|].
  replace busy with (Build_Sys (inner busy) (acqs busy) (guards busy)) by reflexivity. apply rtc_refl.
Qed.

Lemma lock_single_owner_witness : rtc step init busy ∧ guards busy ≤ 1.
Proof. split; [apply busy_reachable|]. exact (proj1 (lock_single_owner busy busy_reachable)). Defined.


Lemma lock_cancellation_witness :
  rtc step init busy ∧ acqs busy !! 2 = Some {| waiter := Some 0; acquired := false |} ∧
  snd (drop_acquire (inner busy) {| waiter := Some 0; acquired := false |}) = [].
Proof.
  split; [apply busy_reachable|]. split; [reflexivity|].
  exact (proj1 (lock_cancellation busy 2 {| waiter := Some 0; acquired := false |} 0 busy_reachable eq_refl eq_refl eq_refl)).
Defined.

End SyncWitnesses.
