(* ===== verification/Executor.v ===== *)
(** * Executor: the single-threaded task executor (rustdv-sim/src/executor.rs).

    A task's future is foreign code: the model takes a type [Fut] of futures, a
    [World] that the futures share, and what one [poll] does as a program
    [Prog] of calls on the executor and accesses to the world that ends by
    returning, suspending or panicking.  A [Prog] is a finite tree, so a poll
    always returns and running it needs no fuel; only the outer loop of
    [run_until_idle] does.  Dropping a future may change the world and wake
    tasks ([drop_fut]).

    [TaskShared] cells outlive the executor's entry (handles own them), so they
    are kept in a map of their own, [shared]; [TaskEntry] keeps the mirror of
    the state the code keeps.  [tasks] is a [HashMap], whose iteration order is
    unspecified: [key_order] stands for it. *)
From stdpp Require Import pretty.
From S2P Require Import Prelude.
Open Scope rustdv_scope.

Module Executor.

Inductive TaskState :=
| Unstarted | Scheduled | Running | Pending_ | Finished | Cancelled | Failed.

#[export] Instance TaskState_eq_dec : EqDecision TaskState.
Proof. solve_decision. Defined.

Inductive TaskError :=
| ECancelled
| EPanicked (m : string)
| EInvalidState.

(** [TaskHandle::done]. *)
Definition is_done (st : TaskState) : bool :=
  match st with Finished | Cancelled | Failed => true | _ => false end.

(** [fmt::Display for TaskError]. *)
Definition display_error (e : TaskError) : string :=
  match e with
  | ECancelled => "task was cancelled"
  | EPanicked m => "task panicked: " +:+ m
  | EInvalidState => "task result not available"
  end.

Section Exec.
Context {Fut World V : Type}.

(** What a [poll] of a user future does, in order. *)
Inductive Prog :=
| PGet (k : World → Prog)                                    (* read shared state *)
| PSet (w : World) (k : Prog)                                (* write shared state *)
| PWake (id : TaskId) (k : Prog)                             (* waker.wake() *)
| PSpawn (f : Fut) (name : option string) (k : TaskId → Prog)  (* spawn / spawn_named *)
| PCancel (id : TaskId) (k : Prog)                           (* handle.cancel() *)
| PCancelAfter (watermark : TaskId) (k : Prog)
| PWatermark (k : TaskId → Prog)
| PState (id : TaskId) (k : TaskState → Prog)                (* handle.state() *)
| PResult (id : TaskId) (k : Result V TaskError → Prog)      (* handle.result() *)
| PJoin (id : TaskId) (k : Poll (Result V TaskError) → Prog) (* polling a handle *)
| PRunIdle (k : Prog)                                        (* re-entrant run_until_idle *)
| PReported (k : list (bool * string) → Prog)                (* reading what the failure sink was given *)
| PReady (v : V)
| PPending (f : Fut)                                         (* the suspended future *)
| PPanic (msg : string).

Record TaskShared := {
  sstate : TaskState;
  result : option (Result V TaskError);
  joiners : list Waker;
}.

(** [fut = None] is the [async {}] placeholder left while the task is polled. *)
Record TaskEntry := {
  fut : option Fut;
  name : string;
  state : TaskState;
}.

Record ExecInner := {
  tasks : gmap TaskId TaskEntry;
  shared : gmap TaskId TaskShared;
  next_id : TaskId;
  run_queue : list TaskId;
  woken : list TaskId;
  running : bool;
  currently_polling : option TaskId;
  cancel_pending : list TaskId;
  failure_sink : bool;              (* a sink is installed *)
  reported : list (bool * string);  (* messages sent to the sink (true) or stderr *)
  world : World;
}.

Implicit Types s : ExecInner.

Definition set_tasks m s := Build_ExecInner m (shared s) (next_id s) (run_queue s) (woken s)
  (running s) (currently_polling s) (cancel_pending s) (failure_sink s) (reported s) (world s).
Definition set_shared m s := Build_ExecInner (tasks s) m (next_id s) (run_queue s) (woken s)
  (running s) (currently_polling s) (cancel_pending s) (failure_sink s) (reported s) (world s).
Definition set_run_queue q s := Build_ExecInner (tasks s) (shared s) (next_id s) q (woken s)
  (running s) (currently_polling s) (cancel_pending s) (failure_sink s) (reported s) (world s).
Definition set_woken q s := Build_ExecInner (tasks s) (shared s) (next_id s) (run_queue s) q
  (running s) (currently_polling s) (cancel_pending s) (failure_sink s) (reported s) (world s).
Definition set_running b s := Build_ExecInner (tasks s) (shared s) (next_id s) (run_queue s) (woken s)
  b (currently_polling s) (cancel_pending s) (failure_sink s) (reported s) (world s).
Definition set_polling p s := Build_ExecInner (tasks s) (shared s) (next_id s) (run_queue s) (woken s)
  (running s) p (cancel_pending s) (failure_sink s) (reported s) (world s).
Definition set_cancel_pending l s := Build_ExecInner (tasks s) (shared s) (next_id s) (run_queue s) (woken s)
  (running s) (currently_polling s) l (failure_sink s) (reported s) (world s).
Definition set_world w s := Build_ExecInner (tasks s) (shared s) (next_id s) (run_queue s) (woken s)
  (running s) (currently_polling s) (cancel_pending s) (failure_sink s) (reported s) w.
Definition report b m s := Build_ExecInner (tasks s) (shared s) (next_id s) (run_queue s) (woken s)
  (running s) (currently_polling s) (cancel_pending s) (failure_sink s) (reported s ++ [(b, m)]) (world s).
Definition set_failure_sink s := Build_ExecInner (tasks s) (shared s) (next_id s) (run_queue s) (woken s)
  (running s) (currently_polling s) (cancel_pending s) true (reported s) (world s).

(** The foreign code: what polling and dropping a future does, and the
    unspecified order in which a [HashMap] lists its keys. *)
Variable poll : Fut → Waker → Prog.
Variable drop_fut : Fut → World → World * list Waker.
Variable key_order : list TaskId → list TaskId.

Definition init (w : World) : ExecInner :=
  Build_ExecInner ∅ ∅ 1 [] [] false None [] false [] w.

(** [Wake for TaskWaker]. *)
Definition wake (id : TaskId) s : ExecInner := set_woken (woken s ++ [id]) s.
Definition wake_all (ids : list TaskId) s : ExecInner := foldl (λ s id, wake id s) s ids.

(** [state_cell]: mirror a state into the shared cell. *)
Definition state_cell (id : TaskId) (st : TaskState) s : ExecInner :=
  match shared s !! id with
  | Some sh => set_shared (<[id := Build_TaskShared st (result sh) (joiners sh)]> (shared s)) s
  | None => s
  end.

(** [TaskShared::complete]: store the result, wake every joiner. *)
Definition complete (id : TaskId) (r : Result V TaskError) s : ExecInner :=
  match shared s !! id with
  | Some sh =>
      wake_all (joiners sh) (set_shared (<[id := Build_TaskShared (sstate sh) (Some r) []]> (shared s)) s)
  | None => s
  end.

Definition on_abort (id : TaskId) (e : TaskError) s : ExecInner :=
  complete id (Err e)
    (state_cell id (match e with ECancelled => Cancelled | _ => Failed end) s).

(** A decimal rendering of a task id, for the default name. *)
Definition default_name (id : TaskId) : string := "task_" +:+ pretty (N.of_nat id).

Definition spawn_named (f : Fut) (nm : option string) s : ExecInner * TaskId :=
  let id := next_id s in
  let n := match nm with Some n => n | None => default_name id end in
  (Build_ExecInner
     (<[id := Build_TaskEntry (Some f) n Scheduled]> (tasks s))
     (<[id := Build_TaskShared Scheduled None []]> (shared s))
     (S id) (run_queue s ++ [id]) (woken s)
     (running s) (currently_polling s) (cancel_pending s) (failure_sink s) (reported s) (world s), id).

(** Dropping a future runs its destructors. *)
Definition drop_future (o : option Fut) s : ExecInner :=
  match o with
  | Some f => let '(w, ids) := drop_fut f (world s) in wake_all ids (set_world w s)
  | None => s
  end.

Definition cancel (id : TaskId) s : ExecInner :=
  if decide (currently_polling s = Some id) then set_cancel_pending (cancel_pending s ++ [id]) s
  else match tasks s !! id with
    | Some t => drop_future (fut t) (on_abort id ECancelled (set_tasks (delete id (tasks s)) s))
    | None => s
    end.

Definition cancel_list (ids : list TaskId) s : ExecInner := foldl (λ s id, cancel id s) s ids.

Definition keys s : list TaskId := (map_to_list (tasks s)).*1.

Definition cancel_after (w : TaskId) s : ExecInner :=
  cancel_list (filter (λ id, w ≤ id) (key_order (keys s))) s.

Definition watermark s : TaskId := next_id s.
Definition live_tasks s : nat := size (tasks s).

(** [TaskHandle::state]; a handle exists only for a spawned task. *)
Definition handle_state (id : TaskId) s : TaskState :=
  match shared s !! id with Some sh => sstate sh | None => Unstarted end.

(** [TaskHandle::result]: take the stored value. *)
Definition handle_result (id : TaskId) s : ExecInner * Result V TaskError :=
  match shared s !! id with
  | Some sh =>
      match result sh with
      | Some r => (set_shared (<[id := Build_TaskShared (sstate sh) None (joiners sh)]> (shared s)) s, r)
      | None => (s, Err EInvalidState)
      end
  | None => (s, Err EInvalidState)
  end.

(** [Future for TaskHandle]. *)
Definition handle_poll (id : TaskId) (cx : Waker) s : ExecInner * Poll (Result V TaskError) :=
  if is_done (handle_state id s) then
    let '(s', r) := handle_result id s in (s', Ready r)
  else match shared s !! id with
    | Some sh => (set_shared (<[id := Build_TaskShared (sstate sh) (result sh) (joiners sh ++ [cx])]> (shared s)) s, Pending)
    | None => (s, Pending)
    end.

(** How a poll ended. *)
Inductive Polled := PolledReady | PolledPending (f : Fut) | PolledPanic (msg : string).

(** One poll of the wrapper future [async { let out = fut.await; ... }] of task
    [me]: run the program; on completion the wrapper stores the value. *)
Fixpoint run_prog (me : TaskId) (p : Prog) s : ExecInner * Polled :=
  match p with
  | PGet k => run_prog me (k (world s)) s
  | PSet w k => run_prog me k (set_world w s)
  | PWake id k => run_prog me k (wake id s)
  | PSpawn f n k => let '(s', id) := spawn_named f n s in run_prog me (k id) s'
  | PCancel id k => run_prog me k (cancel id s)
  | PCancelAfter w k => run_prog me k (cancel_after w s)
  | PWatermark k => run_prog me (k (watermark s)) s
  | PState id k => run_prog me (k (handle_state id s)) s
  | PResult id k => let '(s', r) := handle_result id s in run_prog me (k r) s'
  | PJoin id k => let '(s', r) := handle_poll id me s in run_prog me (k r) s'
  | PRunIdle k => run_prog me k s        (* [running] is set: returns at once *)
  | PReported k => run_prog me (k (reported s)) s
  | PReady v => (complete me (Ok v) (state_cell me Finished s), PolledReady)
  | PPending f => (s, PolledPending f)
  | PPanic m => (s, PolledPanic m)
  end.

(** The placeholder [async {}] is ready at once. *)
Definition poll_fut (me : TaskId) (o : option Fut) s : ExecInner * Polled :=
  match o with
  | Some f => run_prog me (poll f me) s
  | None => (s, PolledReady)
  end.

Definition drain_one s (id : TaskId) : ExecInner :=
  match tasks s !! id with
  | Some t =>
      if decide (state t = Pending_) then
        let s1 := set_tasks (<[id := Build_TaskEntry (fut t) (name t) Scheduled]> (tasks s)) s in
        let s2 := state_cell id Scheduled s1 in
        set_run_queue (run_queue s2 ++ [id]) s2
      else s
  | None => s
  end.

Definition drain_woken s : ExecInner := foldl drain_one (set_woken [] s) (woken s).

(** Poll begins: the future is taken out of the entry. *)
Definition begin_poll (id : TaskId) (t : TaskEntry) s : ExecInner :=
  set_polling (Some id)
    (state_cell id Running
       (set_tasks (<[id := Build_TaskEntry None (name t) Running]> (tasks s)) s)).

(** The three ways a poll ends. *)
Definition end_poll (id : TaskId) (s : ExecInner) (r : Polled) : ExecInner :=
  match r with
  | PolledReady => set_tasks (delete id (tasks s)) s
  | PolledPending f =>
      let s1 := match tasks s !! id with
        | Some t => state_cell id Pending_
                      (set_tasks (<[id := Build_TaskEntry (Some f) (name t) Pending_]> (tasks s)) s)
        | None => s
        end in
      cancel_list (cancel_pending s1) (set_cancel_pending [] s1)
  | PolledPanic msg =>
      let nm := match tasks s !! id with Some t => name t | None => EmptyString end in
      let s1 := set_tasks (delete id (tasks s)) s in
      let s2 := on_abort id (EPanicked msg) (state_cell id Failed s1) in
      if failure_sink s2 then report true ("task '" +:+ nm +:+ "' panicked: " +:+ msg) s2
      else report false ("rustdv: unhandled task panic in '" +:+ nm +:+ "': " +:+ msg) s2
  end.

Definition poll_task (id : TaskId) s : ExecInner :=
  match tasks s !! id with
  | Some t =>
      if decide (state t = Scheduled) then
        let '(s', r) := poll_fut id (fut t) (begin_poll id t s) in
        end_poll id (set_polling None s') r
      else s                       (* stale duplicate wake *)
  | None => s
  end.

(** One turn of the loop of [run_until_idle]; [None] when it breaks. *)
Definition turn s : ExecInner * bool :=
  let s1 := drain_woken s in
  match run_queue s1 with
  | [] => (s1, false)
  | id :: q => (poll_task id (set_run_queue q s1), true)
  end.

Fixpoint loop (fuel : nat) s : option ExecInner :=
  match fuel with
  | 0 => None
  | S n => match turn s with
           | (s', true) => loop n s'
           | (s', false) => Some s'
           end
  end.

Definition run_until_idle (fuel : nat) s : option ExecInner :=
  if running s then Some s
  else match loop fuel (set_running true s) with
       | Some s' => Some (set_running false s')
       | None => None
       end.

(** ** Invariant *)

(** A live task is Scheduled (and queued once), Pending, or Running (and then
    being polled, its future taken out); its handle sees the same state and no
    result yet.  A task with no entry is done and nobody waits for it. *)
Record inv s : Prop := {
  i_next : 1 ≤ next_id s;
  i_ids id : is_Some (shared s !! id) ↔ 1 ≤ id < next_id s;
  i_entry id t : tasks s !! id = Some t → ∃ js,
    shared s !! id = Some (Build_TaskShared (state t) None js) ∧
    match state t with
    | Scheduled => id ∈ run_queue s ∧ is_Some (fut t) ∧ currently_polling s ≠ Some id
    | Pending_ => id ∉ run_queue s ∧ is_Some (fut t) ∧ currently_polling s ≠ Some id
    | Running => id ∉ run_queue s ∧ fut t = None ∧ currently_polling s = Some id
    | _ => False
    end;
  i_polling id : currently_polling s = Some id → is_Some (tasks s !! id);
  i_dead id sh : shared s !! id = Some sh → tasks s !! id = None → is_done (sstate sh) = true ∧ joiners sh = [];
  i_nodup : NoDup (run_queue s);
  i_queued id : id ∈ run_queue s → id < next_id s;
  i_pending id : id ∈ cancel_pending s →
    id < next_id s ∧ (currently_polling s = Some id ∨ tasks s !! id = None);
}.

(** Ids are never reused, and a task that is gone stays gone with the outcome
    it had: its state is final and its result can only be taken. *)
Definition evolves s s' : Prop :=
  next_id s ≤ next_id s' ∧
  ∀ id sh, shared s !! id = Some sh → tasks s !! id = None →
    tasks s' !! id = None ∧ ∃ sh', shared s' !! id = Some sh' ∧ sstate sh' = sstate sh ∧
      (result sh' = result sh ∨ result sh' = None).

#[local] Instance evolves_preorder : PreOrder evolves.
Proof.
  split.
  - intros s. split; [done|]. naive_solver.
  - intros s1 s2 s3 [Hn H] [Hn' H']. split; [lia|]. intros id sh Hs Ht.
    destruct (H id sh Hs Ht) as (Ht2 & sh2 & Hs2 & Hst2 & Hr2).
    destruct (H' id sh2 Hs2 Ht2) as (Ht3 & sh3 & Hs3 & Hst3 & Hr3).
    split; [done|]. exists sh3. split_and!; [done|congruence|]. destruct Hr2, Hr3; naive_solver congruence.
Qed.

(** States that differ only in what the invariant does not read. *)
Definition same_core s s' : Prop :=
  tasks s' = tasks s ∧ shared s' = shared s ∧ next_id s' = next_id s ∧ run_queue s' = run_queue s ∧
  currently_polling s' = currently_polling s ∧ cancel_pending s' = cancel_pending s.

(** During a poll the run queue only grows at its tail, and an entry is left
    alone or removed; the polled task's is left alone. *)
Definition keeps s s' : Prop :=
  run_queue s `prefix_of` run_queue s' ∧
  ∀ id t, tasks s !! id = Some t →
    tasks s' !! id = Some t ∨
    currently_polling s ≠ Some id ∧ tasks s' !! id = None ∧ is_Some (shared s' !! id).

(** What an operation that leaves the polled task alone promises. *)
Definition ok s s' : Prop :=
  inv s' ∧ evolves s s' ∧ currently_polling s' = currently_polling s ∧ keeps s s'.

Lemma ok_trans s1 s2 s3 : ok s1 s2 → ok s2 s3 → ok s1 s3.
Proof.
  intros (? & ? & E & [Hp1 Hk1]) (? & He & ? & [Hp2 Hk2]). split_and!; [done|by etrans|congruence|].
  split; [by etrans|]. intros id t Ht. destruct (Hk1 id t Ht) as [Ht2|[Hne Ht2]].
  - destruct (Hk2 id t Ht2) as [|[]]; [by left|right]. by rewrite <- E.
  - destruct Ht2 as [Ht2 [sh Hsh]]. right. split; [done|].
    destruct He as [_ He]. destruct (He id sh Hsh Ht2) as (? & sh' & ? & _). by split; [|exists sh'].
Qed.

Lemma core_ok s s' : inv s → same_core s s' → ok s s'.
Proof.
  intros [] (E1 & E2 & E3 & E4 & E5 & E6). split_and!; [| |done|].
  - split; rewrite ?E1, ?E2, ?E3, ?E4, ?E5, ?E6; done.
  - split; [by rewrite E3|]. rewrite E1, E2. naive_solver.
  - split; [by rewrite E4|]. rewrite E1. naive_solver.
Qed.

Lemma wake_all_eq ids s : wake_all ids s = set_woken (woken s ++ ids) s.
Proof.
  unfold wake_all. revert s. induction ids as [|i ids IH]; intros s; simpl.
  - rewrite app_nil_r. by destruct s.
  - rewrite IH. unfold wake. simpl. by rewrite <- app_assoc.
Qed.

Lemma inv_entry_shared s id t : inv s → tasks s !! id = Some t →
  ∃ js, shared s !! id = Some (Build_TaskShared (state t) None js).
Proof. intros Hi Ht. destruct (i_entry _ Hi id t Ht) as (js & H & _). by exists js. Qed.

Lemma inv_entry_lt s id t : inv s → tasks s !! id = Some t → 1 ≤ id < next_id s.
Proof. intros Hi Ht. apply (i_ids _ Hi). destruct (inv_entry_shared s id t Hi Ht) as [js ->]. done. Qed.

Lemma init_inv w : inv (init w).
Proof.
  split; simpl; try done; try set_solver.
  - intros id. rewrite lookup_empty. split; [by intros []|lia].
  - apply NoDup_nil_2.
Qed.

Lemma spawn_ok f n s : inv s → ok s (fst (spawn_named f n s)).
Proof.
  intros Hi. pose proof Hi as [H0 H1 H2 H3 H4 H5 H6 H7]. unfold spawn_named. set (i := next_id s).
  assert (shared s !! i = None) as Hf.
  { destruct (shared s !! i) eqn:E; [|done]. assert (1 ≤ i < next_id s) by (by apply H1). lia. }
  assert (tasks s !! i = None) as Hft.
  { destruct (tasks s !! i) as [t|] eqn:E; [|done]. destruct (inv_entry_lt s i t Hi E). lia. }
  assert (i ∉ run_queue s) as Hq by (intros ?%H6; lia).
  split_and!; [|split; simpl; [lia|]|done|split; simpl; [by apply prefix_app_r|]].
  - split; simpl.
    + lia.
    + intros id. rewrite lookup_insert_is_Some, H1. lia.
    + intros id t [[<- <-]|[Hne Ht]]%lookup_insert_Some.
      * exists []. rewrite lookup_insert_eq. simpl. split_and!; [done|set_solver|done|].
        intros Hp. destruct (H3 _ Hp) as [t Ht]. by simplify_eq.
      * rewrite lookup_insert_ne by done. destruct (H2 id t Ht) as (js & Hs & Hst). exists js. split; [done|].
        destruct (state t); set_solver.
    + intros id Hp. rewrite lookup_insert_is_Some. destruct (decide (i = id)); [by left|]. right. split; [done|by apply H3].
    + intros id sh [[<- <-]|[Hne Hs]]%lookup_insert_Some; [by rewrite lookup_insert_eq|].
      rewrite lookup_insert_ne by done. by apply H4.
    + apply NoDup_app. split_and!; [done|set_solver|apply NoDup_singleton].
    + intros id [?%H6|?%list_elem_of_singleton]%elem_of_app; lia.
    + intros id Hin. destruct (H7 id Hin) as [Hlt Hor]. split; [lia|].
      rewrite lookup_insert_ne by lia. done.
  - intros id sh Hs Ht. assert (i ≠ id) by congruence. rewrite !lookup_insert_ne by done. naive_solver.
  - intros id t Ht. left. rewrite lookup_insert_ne by congruence. done.
Qed.

(** Removing a live task with its final state and result. *)
Definition kill (id : TaskId) (st : TaskState) (r : Result V TaskError) s : ExecInner :=
  let js := match shared s !! id with Some sh => joiners sh | None => [] end in
  set_woken (woken s ++ js)
    (set_shared (<[id := Build_TaskShared st (Some r) []]> (shared s))
       (set_tasks (delete id (tasks s)) s)).

Lemma kill_inv id st r p s :
  inv s → is_Some (tasks s !! id) → is_done st = true →
  (currently_polling s = Some id ∧ p = None ∨ currently_polling s ≠ Some id ∧ p = currently_polling s) →
  inv (set_polling p (kill id st r s)) ∧ evolves s (set_polling p (kill id st r s)).
Proof.
  intros Hi [t Hlive] Hdone Hp. pose proof Hi as [H0 H1 H2 H3 H4 H5 H6 H7].
  destruct (inv_entry_shared s id t Hi Hlive) as [js Hsh]. pose proof (inv_entry_lt s id t Hi Hlive) as Hlt.
  assert (∀ j, j ≠ id → currently_polling s = Some j → p = Some j) as Hpj by naive_solver congruence.
  assert (∀ j, p = Some j → currently_polling s = Some j ∧ j ≠ id) as Hjp by naive_solver congruence.
  split; [|split; simpl; [done|]].
  - split; simpl.
    + done.
    + intros j. rewrite lookup_insert_is_Some, H1. destruct (decide (id = j)); naive_solver.
    + intros j u [Hne Hu]%lookup_delete_Some. rewrite lookup_insert_ne by done.
      destruct (H2 j u Hu) as (ks & Hs & Hst). exists ks. split; [done|].
      destruct (state u); try done; naive_solver.
    + intros j [Hj Hne]%Hjp. rewrite lookup_delete_ne by done. by apply H3.
    + intros j sh [[<- <-]|[Hne Hs]]%lookup_insert_Some; [done|].
      rewrite lookup_delete_ne by done. by apply H4.
    + done.
    + done.
    + intros j Hin. destruct (H7 j Hin) as [? Hor]. split; [done|]. rewrite lookup_delete_None.
      destruct (decide (id = j)); naive_solver.
  - intros j sh Hs Ht. assert (id ≠ j) by congruence.
    rewrite lookup_delete_ne, lookup_insert_ne by done. naive_solver.
Qed.

Lemma on_abort_kill id e s sh :
  shared s !! id = Some sh →
  on_abort id e (set_tasks (delete id (tasks s)) s) =
  kill id (match e with ECancelled => Cancelled | _ => Failed end) (Err e) s.
Proof.
  intros Hs. unfold on_abort, complete, state_cell, kill. simpl. rewrite Hs. simpl.
  rewrite lookup_insert_eq, insert_insert_eq, wake_all_eq. by destruct s.
Qed.

Lemma drop_future_core o s : same_core s (drop_future o s).
Proof.
  unfold drop_future. destruct o as [f|]; [|done]. destruct (drop_fut f (world s)) as [w ids].
  by rewrite wake_all_eq.
Qed.

Lemma set_polling_id s : set_polling (currently_polling s) s = s.
Proof. by destruct s. Qed.

Lemma cancel_pending_ok id s :
  inv s → currently_polling s = Some id → ok s (set_cancel_pending (cancel_pending s ++ [id]) s).
Proof.
  intros Hi Hp. destruct (i_polling _ Hi id Hp) as [t Ht]. pose proof (inv_entry_lt s id t Hi Ht).
  pose proof Hi as [H0 H1 H2 H3 H4 H5 H6 H7].
  split_and!; [|split; simpl; naive_solver|done|split; simpl; naive_solver].
  split; simpl; try done. intros j [Hj|Hj%list_elem_of_singleton]%elem_of_app; [by apply H7|subst j]. split; [lia|by left].
Qed.

Lemma cancel_ok id s : inv s → ok s (cancel id s).
Proof.
  intros Hi. unfold cancel. destruct (decide (currently_polling s = Some id)) as [Hp|Hp].
  - by apply cancel_pending_ok.
  - destruct (tasks s !! id) as [t|] eqn:Ht; [|by apply core_ok].
    destruct (inv_entry_shared s id t Hi Ht) as [js Hs]. rewrite (on_abort_kill id ECancelled s _ Hs).
    destruct (kill_inv id Cancelled (Err ECancelled) (currently_polling s) s) as [Hk He]; [done|by eexists|done|by right|].
    assert (ok s (kill id Cancelled (Err ECancelled) s)) as Hok.
    { split_and!; [done..|]. split; simpl; [done|]. intros j u Hu. destruct (decide (j = id)) as [->|].
      - right. rewrite lookup_delete_eq, lookup_insert_eq. by split_and!.
      - left. by rewrite lookup_delete_ne. }
    eapply ok_trans; [exact Hok|]. apply core_ok; [apply Hok|apply drop_future_core].
Qed.

Lemma cancel_list_ok ids s : inv s → ok s (cancel_list ids s).
Proof.
  unfold cancel_list. revert s. induction ids as [|i ids IH]; intros s Hi; simpl; [by apply core_ok|].
  eapply ok_trans; [by apply (cancel_ok i)|]. apply IH, cancel_ok, Hi.
Qed.

Lemma cancel_after_ok w s : inv s → ok s (cancel_after w s).
Proof. apply cancel_list_ok. Qed.

(** Rewriting a cell's result or joiners, not its state. *)
Lemma cell_ok id sh sh' s :
  inv s → shared s !! id = Some sh → sstate sh' = sstate sh →
  (is_Some (tasks s !! id) → result sh' = result sh) →
  (tasks s !! id = None → joiners sh' = joiners sh ∧ (result sh' = result sh ∨ result sh' = None)) →
  ok s (set_shared (<[id := sh']> (shared s)) s).
Proof.
  intros Hi Hs Hst Hlive Hdead. pose proof Hi as [H0 H1 H2 H3 H4 H5 H6 H7].
  split_and!; [|split; simpl; [done|]|done|split; simpl; naive_solver].
  - split; simpl; try done.
    + intros j. rewrite lookup_insert_is_Some, <- H1. destruct (decide (id = j)) as [->|]; [|naive_solver].
      rewrite Hs. naive_solver.
    + intros j u Hu. destruct (H2 j u Hu) as (ks & Hks & Hm).
      destruct (decide (id = j)) as [->|]; [|exists ks; by rewrite lookup_insert_ne].
      exists (joiners sh'). rewrite lookup_insert_eq. split; [|done]. f_equal. simplify_eq.
      destruct sh'; simpl in *. f_equal; [done|]. apply Hlive. by eexists.
    + intros j sh0 [[<- <-]|[Hne Hj]]%lookup_insert_Some Ht; [|by apply (H4 j)].
      destruct (Hdead Ht) as [-> _]. rewrite Hst. by apply (H4 id).
  - intros j sh0 Hj Ht. destruct (decide (id = j)) as [->|].
    + rewrite lookup_insert_eq. simplify_eq. split; [done|]. exists sh'. destruct (Hdead Ht) as [_ ?]. done.
    + rewrite lookup_insert_ne by done. naive_solver.
Qed.

Lemma handle_result_ok id s : inv s → ok s (fst (handle_result id s)).
Proof.
  intros Hi. unfold handle_result. destruct (shared s !! id) as [sh|] eqn:Hs; [|by apply core_ok].
  destruct (result sh) as [r|] eqn:Hr; [|by apply core_ok]. simpl. apply (cell_ok _ sh); try done.
  - intros [t Ht]. destruct (inv_entry_shared s id t Hi Ht) as [js Hjs]. by simplify_eq/=.
  - intros _. simpl. naive_solver.
Qed.

Lemma handle_poll_ok id cx s : inv s → ok s (fst (handle_poll id cx s)).
Proof.
  intros Hi. unfold handle_poll. destruct (is_done (handle_state id s)) eqn:Hd.
  - pose proof (handle_result_ok id s Hi) as H. by destruct (handle_result id s).
  - unfold handle_state in Hd. destruct (shared s !! id) as [sh|] eqn:Hs; [|by apply core_ok]. simpl.
    apply (cell_ok _ sh); try done. intros Ht. destruct (i_dead _ Hi id sh Hs Ht) as [Hdn _]. congruence.
Qed.

(** Storing a completed task's value, then dropping its entry. *)
Lemma finish_kill me v s sh :
  shared s !! me = Some sh →
  let s' := complete me (Ok v) (state_cell me Finished s) in
  set_tasks (delete me (tasks s')) (set_polling None s') = set_polling None (kill me Finished (Ok v) s).
Proof.
  intros Hs. unfold complete, state_cell, kill. simpl. rewrite Hs. simpl.
  rewrite lookup_insert_eq, insert_insert_eq, wake_all_eq. by destruct s.
Qed.

(** What one poll of task [me] promises: only its own completion is left to
    be finished by the executor. *)
Definition poll_post me s (x : ExecInner * Polled) : Prop :=
  match x with
  | (s', PolledReady) => ∃ s1 v, ok s s1 ∧ s' = complete me (Ok v) (state_cell me Finished s1)
  | (s', _) => ok s s'
  end.

Lemma poll_post_trans me s s1 x : ok s s1 → poll_post me s1 x → poll_post me s x.
Proof.
  destruct x as [s' []]; simpl; intros Hok; try by apply ok_trans.
  intros (s2 & v & Hok2 & ->). exists s2, v. split; [by eapply ok_trans|done].
Qed.

Lemma run_prog_ok me p s :
  inv s → currently_polling s = Some me → poll_post me s (run_prog me p s).
Proof.
  assert (∀ s s1 q, ok s s1 → currently_polling s = Some me →
    (inv s1 → currently_polling s1 = Some me → poll_post me s1 (run_prog me q s1)) →
    poll_post me s (run_prog me q s1)) as Hstep.
  { intros s0 s1 q Hok Hp IH. apply (poll_post_trans me s0 s1); [done|].
    destruct Hok as (? & _ & Hp1 & _). apply IH; congruence. }
  revert s. induction p as [k IH|w p IH|id p IH|f n k IH|id p IH|w p IH|k IH|id k IH|id k IH|id k IH|p IH|k IH|v|f|m];
    intros s Hi Hp; simpl.
  - by apply IH.
  - apply Hstep; auto. by apply core_ok.
  - apply Hstep; auto. by apply core_ok.
  - pose proof (spawn_ok f n s Hi) as Hok. unfold spawn_named in *. apply Hstep; auto.
  - apply Hstep; auto. by apply cancel_ok.
  - apply Hstep; auto. by apply cancel_after_ok.
  - by apply IH.
  - by apply IH.
  - pose proof (handle_result_ok id s Hi). destruct (handle_result id s). apply Hstep; auto.
  - pose proof (handle_poll_ok id me s Hi). destruct (handle_poll id me s). apply Hstep; auto.
  - by apply IH.
  - by apply IH.
  - exists s, v. split; [by apply core_ok|done].
  - by apply core_ok.
  - by apply core_ok.
Qed.

(** Moving a live task to another live state, with the queue, the polled task
    and the deferred cancellations that go with it. *)
Definition restate id (t : TaskEntry) q p c s : ExecInner :=
  set_cancel_pending c (set_polling p (set_run_queue q
    (state_cell id (state t) (set_tasks (<[id := t]> (tasks s)) s)))).

Lemma restate_inv id t0 t q p c s :
  inv s → tasks s !! id = Some t0 →
  match state t with
  | Scheduled => id ∈ q ∧ is_Some (fut t) ∧ p ≠ Some id
  | Pending_ => id ∉ q ∧ is_Some (fut t) ∧ p ≠ Some id
  | Running => id ∉ q ∧ fut t = None ∧ p = Some id
  | _ => False
  end →
  NoDup q → (∀ j, j ≠ id → j ∈ q ↔ j ∈ run_queue s) →
  (∀ j, j ≠ id → p = Some j ↔ currently_polling s = Some j) →
  (∀ j, j ∈ c → j ∈ cancel_pending s ∧ (j = id → p = Some id)) →
  inv (restate id t q p c s) ∧ evolves s (restate id t q p c s).
Proof.
  clear key_order. intros Hi Ht0 Hst Hnd Hq Hp Hc. pose proof Hi as [H0 H1 H2 H3 H4 H5 H6 H7].
  destruct (inv_entry_shared s id t0 Hi Ht0) as [js Hs]. pose proof (inv_entry_lt s id t0 Hi Ht0).
  unfold restate, state_cell. simpl. rewrite Hs. simpl. split; [|split; simpl; [done|]].
  - split; simpl; [done|..].
    + intros j. rewrite lookup_insert_is_Some, H1. destruct (decide (id = j)); naive_solver.
    + intros j u [[<- <-]|[Hne Hu]]%lookup_insert_Some.
      * exists js. by rewrite lookup_insert_eq.
      * rewrite lookup_insert_ne by done. destruct (H2 j u Hu) as (ks & Hks & Hm). exists ks. split; [done|].
        destruct (state u); try done; rewrite Hq, Hp by done; done.
    + intros j Hj. rewrite lookup_insert_is_Some. destruct (decide (id = j)); [by left|right].
      split; [done|]. apply H3, Hp; [by apply not_eq_sym|done].
    + intros j sh [[<- <-]|[Hne Hj]]%lookup_insert_Some; [by rewrite lookup_insert_eq|].
      rewrite lookup_insert_ne by done. by apply H4.
    + done.
    + intros j Hj. destruct (decide (j = id)) as [->|]; [lia|]. by apply H6, Hq.
    + intros j [Hj Hjp]%Hc. destruct (H7 j Hj) as [? Hor]. split; [done|].
      destruct (decide (j = id)) as [->|Hne]; [left; by apply Hjp|]. rewrite lookup_insert_ne by done.
      rewrite Hp by done. done.
  - intros j sh Hj Ht. assert (id ≠ j) by congruence. rewrite !lookup_insert_ne by done. naive_solver.
Qed.

Lemma drain_one_eq id t s :
  inv s → tasks s !! id = Some t → state t = Pending_ →
  drain_one s id = restate id (Build_TaskEntry (fut t) (name t) Scheduled) (run_queue s ++ [id])
    (currently_polling s) (cancel_pending s) s.
Proof.
  intros Hi Ht Hst. destruct (inv_entry_shared s id t Hi Ht) as [js Hs].
  unfold drain_one, restate, state_cell. rewrite Ht, decide_True by done. simpl. rewrite Hs. by destruct s.
Qed.

Lemma drain_one_inv id s : inv s → inv (drain_one s id) ∧ evolves s (drain_one s id).
Proof.
  clear key_order. intros Hi. unfold drain_one at 1 2. destruct (tasks s !! id) as [t|] eqn:Ht; [|done].
  destruct (decide (state t = Pending_)) as [Hst|]; [|done].
  pose proof (drain_one_eq id t s Hi Ht Hst) as E. unfold drain_one in E. rewrite Ht, decide_True in E by done.
  rewrite E. destruct (i_entry _ Hi id t Ht) as (js & _ & Hm). rewrite Hst in Hm. destruct Hm as (Hq & Hf & Hp).
  apply (restate_inv id t); simpl; try done.
  - set_solver.
  - apply NoDup_app. split_and!; [apply Hi|set_solver|apply NoDup_singleton].
  - set_solver.
  - intros j Hj. split; [done|]. intros ->. destruct (i_pending _ Hi id Hj) as [_ []]; congruence.
Qed.

Lemma drain_woken_inv s : inv s → inv (drain_woken s) ∧ evolves s (drain_woken s).
Proof.
  intros Hi. unfold drain_woken. destruct (core_ok s (set_woken [] s) Hi) as (Hi0 & He0 & _); [done|].
  generalize (woken s). intros ids. revert Hi0 He0. generalize (set_woken [] s). induction ids as [|j ids IH]; intros s1 H1 E1; [done|].
  simpl. destruct (drain_one_inv j s1 H1) as [H2 E2]. apply IH; [done|by etrans].
Qed.

(** Popping an id whose task is gone. *)
Lemma pop_dead_inv id q s :
  inv s → run_queue s = id :: q → tasks s !! id = None →
  inv (set_run_queue q s) ∧ evolves s (set_run_queue q s).
Proof.
  intros Hi Hq Ht. pose proof Hi as [H0 H1 H2 H3 H4 H5 H6 H7]. rewrite Hq in *. split; [|split; simpl; naive_solver].
  split; simpl; try done.
  - intros j t Hj. assert (j ≠ id) by congruence. destruct (H2 j t Hj) as (js & ? & Hm). exists js. split; [done|].
    destruct (state t); try done; set_solver.
  - by apply NoDup_cons in H5 as [].
  - intros j Hj. apply H6. set_solver.
Qed.

Lemma begin_poll_inv id q t s :
  inv s → currently_polling s = None → run_queue s = id :: q → tasks s !! id = Some t →
  let s1 := begin_poll id t (set_run_queue q s) in
  inv s1 ∧ evolves s s1 ∧ currently_polling s1 = Some id ∧ run_queue s1 = q.
Proof.
  intros Hi Hp Hq Ht. destruct (inv_entry_shared s id t Hi Ht) as [js Hs].
  pose proof (i_nodup _ Hi) as Hnd. rewrite Hq in Hnd. apply NoDup_cons in Hnd as [Hnin Hnd].
  assert (begin_poll id t (set_run_queue q s) =
    restate id (Build_TaskEntry None (name t) Running) q (Some id) (cancel_pending s) s) as E.
  { unfold begin_poll, restate, state_cell. simpl. by rewrite Hs. }
  assert (run_queue (begin_poll id t (set_run_queue q s)) = q) as Eq.
  { rewrite E. unfold restate, state_cell. done. }
  cbv zeta. rewrite Eq, E.
  destruct (restate_inv id t (Build_TaskEntry None (name t) Running) q (Some id) (cancel_pending s) s) as [??];
    simpl; try done.
  - intros j Hne. rewrite Hq. set_solver.
  - intros j Hne. rewrite Hp. split; congruence.
Qed.

(** A poll that suspends puts the future back, then runs the deferred
    cancellations. *)
Lemma end_pending_eq id f t s :
  inv s → currently_polling s = Some id → tasks s !! id = Some t →
  let r := restate id (Build_TaskEntry (Some f) (name t) Pending_) (run_queue s) None [] s in
  end_poll id (set_polling None s) (PolledPending f) = cancel_list (cancel_pending s) r ∧
  inv r ∧ evolves s r.
Proof.
  intros Hi Hp Ht. destruct (i_entry _ Hi id t Ht) as (js & Hs & Hm).
  assert (id ∉ run_queue s) as Hnq by (destruct (state t); naive_solver).
  cbv zeta. split.
  - simpl. rewrite Ht. unfold restate, state_cell. simpl. by rewrite Hs.
  - apply (restate_inv id t); simpl; try done; [apply Hi| |set_solver].
    intros j Hne. rewrite Hp. split; congruence.
Qed.

Lemma end_pending_inv id f t s :
  inv s → currently_polling s = Some id → tasks s !! id = Some t →
  let s' := end_poll id (set_polling None s) (PolledPending f) in
  inv s' ∧ evolves s s' ∧ currently_polling s' = None ∧ run_queue s `prefix_of` run_queue s'.
Proof.
  intros Hi Hp Ht. destruct (end_pending_eq id f t s Hi Hp Ht) as (E & Hr & He). cbv zeta. rewrite E.
  destruct (cancel_list_ok (cancel_pending s) _ Hr) as (? & ? & Hc & Hk & _). split_and!; [done|by etrans| |].
  - by rewrite Hc.
  - exact Hk.
Qed.

(** The panic path is the removal of the task plus a report. *)
Lemma end_panic_core id msg s t :
  inv s → tasks s !! id = Some t →
  same_core (set_polling None (kill id Failed (Err (EPanicked msg)) s))
    (end_poll id (set_polling None s) (PolledPanic msg)).
Proof.
  intros Hi Ht. destruct (inv_entry_shared s id t Hi Ht) as [js Hs].
  unfold end_poll. simpl. unfold on_abort, complete, state_cell, kill. simpl. rewrite Hs. simpl.
  rewrite lookup_insert_eq. simpl. rewrite lookup_insert_eq, !insert_insert_eq, wake_all_eq. simpl.
  by destruct (failure_sink s).
Qed.

Lemma end_poll_inv id s x :
  inv s → currently_polling s = Some id → poll_post id s x →
  let s' := end_poll id (set_polling None (fst x)) (snd x) in
  inv s' ∧ evolves s s' ∧ currently_polling s' = None ∧ run_queue s `prefix_of` run_queue s'.
Proof.
  intros Hi Hp. destruct x as [s1 r]. simpl. intros Hpost.
  assert (∀ s2, ok s s2 → is_Some (tasks s2 !! id) ∧ currently_polling s2 = Some id) as Hlive.
  { intros s2 (Hi2 & _ & Hp2 & _). rewrite Hp in Hp2. split; [|done]. by apply (i_polling _ Hi2). }
  destruct r as [|f|msg]; simpl in Hpost.
  - destruct Hpost as (s2 & v & Hok & ->). pose proof (Hlive s2 Hok) as [[t Ht] Hp2].
    destruct Hok as (Hi2 & He2 & _ & Hk2 & _).
    destruct (inv_entry_shared s2 id t Hi2 Ht) as [js Hs].
    unfold end_poll. pose proof (finish_kill id v s2 _ Hs) as Hfin. cbv zeta in Hfin.
    change (tasks (set_polling None ?y)) with (tasks y). rewrite Hfin.
    destruct (kill_inv id Finished (Ok v) None s2) as [Hki Hke]; [done|by eexists|done|by left|].
    split_and!; [done|by etrans|done|done].
  - pose proof (Hlive s1 Hpost) as [[t Ht] Hp1]. destruct Hpost as (Hi1 & He1 & _ & Hk1 & _).
    destruct (end_pending_inv id f t s1 Hi1 Hp1 Ht) as (? & ? & ? & ?). split_and!; [done|by etrans|done|by etrans].
  - pose proof (Hlive s1 Hpost) as [[t Ht] Hp1]. destruct Hpost as (Hi1 & He1 & _ & Hk1 & _).
    pose proof (end_panic_core id msg s1 t Hi1 Ht) as Hc.
    destruct (kill_inv id Failed (Err (EPanicked msg)) None s1) as [Hki Hke]; [done|by eexists|done|by left|].
    destruct (core_ok _ _ Hki Hc) as (? & ? & -> & Hk & _). split_and!; [done|by do 2 etrans|done|by etrans].
Qed.

Lemma poll_task_inv id q s :
  inv s → currently_polling s = None → run_queue s = id :: q →
  let s' := poll_task id (set_run_queue q s) in
  inv s' ∧ evolves s s' ∧ currently_polling s' = None ∧ q `prefix_of` run_queue s'.
Proof.
  intros Hi Hp Hq. unfold poll_task. change (tasks (set_run_queue q s)) with (tasks s).
  destruct (tasks s !! id) as [t|] eqn:Ht; [|by destruct (pop_dead_inv id q s)].
  destruct (i_entry _ Hi id t Ht) as (js & Hs & Hm).
  destruct (begin_poll_inv id q t s Hi Hp Hq Ht) as (Hb & He & Hpb & Hqb).
  assert (state t = Scheduled) as Hst by (destruct (state t); try done; rewrite Hq in Hm; set_solver).
  rewrite Hst in Hm. destruct Hm as (_ & [f Hf] & _). rewrite decide_True, Hf by done. cbn [poll_fut].
  pose proof (run_prog_ok id (poll f id) _ Hb Hpb) as Hpost.
  pose proof (end_poll_inv id _ _ Hb Hpb Hpost) as (? & ? & ? & Hk). rewrite Hqb in Hk.
  destruct (run_prog id (poll f id) _) as [s' r]. simpl in *. split_and!; [done|by etrans|done|done].
Qed.

(** ** What operations leave alone *)

Lemma complete_tasks id r s : tasks (complete id r s) = tasks s.
Proof. unfold complete. destruct (shared s !! id); [|done]. by rewrite wake_all_eq. Qed.

Lemma state_cell_tasks id st s : tasks (state_cell id st s) = tasks s.
Proof. unfold state_cell. by destruct (shared s !! id). Qed.

Lemma drop_future_fields o s :
  tasks (drop_future o s) = tasks s ∧ shared (drop_future o s) = shared s.
Proof. by destruct (drop_future_core o s) as (? & ? & _). Qed.

(** Cancelling a task other than the one being polled. *)
Lemma cancel_spec id t s :
  inv s → currently_polling s ≠ Some id → tasks s !! id = Some t →
  tasks (cancel id s) = delete id (tasks s) ∧
  shared (cancel id s) = <[id := Build_TaskShared Cancelled (Some (Err ECancelled)) []]> (shared s).
Proof.
  intros Hi Hp Ht. destruct (inv_entry_shared s id t Hi Ht) as [js Hs].
  unfold cancel. rewrite decide_False, Ht, (on_abort_kill id ECancelled s _ Hs) by done.
  destruct (drop_future_fields (fut t) (kill id Cancelled (Err ECancelled) s)) as [-> ->]. done.
Qed.

Lemma cancel_other id j s :
  inv s → j ≠ id → tasks (cancel id s) !! j = tasks s !! j ∧ shared (cancel id s) !! j = shared s !! j.
Proof.
  intros Hi Hne. destruct (decide (currently_polling s = Some id)) as [Hp|Hp].
  - unfold cancel. by rewrite decide_True.
  - destruct (tasks s !! id) as [t|] eqn:Ht.
    + destruct (cancel_spec id t s Hi Hp Ht) as [-> ->]. by rewrite lookup_delete_ne, lookup_insert_ne.
    + unfold cancel. by rewrite decide_False, Ht.
Qed.

Lemma cancel_list_other ids j s :
  inv s → j ∉ ids →
  tasks (cancel_list ids s) !! j = tasks s !! j ∧ shared (cancel_list ids s) !! j = shared s !! j.
Proof.
  unfold cancel_list. revert s. induction ids as [|i ids IH]; intros s Hi Hnin; [done|]. simpl.
  apply not_elem_of_cons in Hnin as [Hne Hnin].
  destruct (IH (cancel i s)) as [-> ->]; [by apply cancel_ok|done|]. by apply cancel_other.
Qed.

(** Once cancelled, cancelled for good. *)
Lemma cancel_list_in ids j t s :
  inv s → currently_polling s ≠ Some j → j ∈ ids → tasks s !! j = Some t →
  tasks (cancel_list ids s) !! j = None ∧ handle_state j (cancel_list ids s) = Cancelled.
Proof.
  unfold cancel_list. revert s. induction ids as [|i ids IH]; intros s Hi Hp Hin Ht; [by apply elem_of_nil in Hin|].
  simpl. destruct (cancel_ok i s Hi) as (Hi' & _ & Hp' & _). destruct (decide (i = j)) as [->|Hne].
  - destruct (cancel_spec j t s Hi Hp Ht) as [Ht' Hs'].
    destruct (cancel_list_ok ids (cancel j s) Hi') as (_ & [_ He] & _).
    destruct (He j (Build_TaskShared Cancelled (Some (Err ECancelled)) [])) as (? & sh & Hsh & Hst & _).
    + by rewrite Hs', lookup_insert_eq.
    + by rewrite Ht', lookup_delete_eq.
    + split; [done|]. unfold handle_state, cancel_list in *. by rewrite Hsh.
  - apply elem_of_cons in Hin as [|Hin]; [done|]. apply IH; [done|congruence|done|].
    destruct (cancel_other i j s) as [-> _]; [done..|]. done.
Qed.

(** ** Turns and runs *)

Lemma drain_woken_fields s :
  currently_polling (drain_woken s) = currently_polling s ∧ woken (drain_woken s) = [].
Proof.
  unfold drain_woken.
  assert (currently_polling (set_woken [] s) = currently_polling s ∧ woken (set_woken [] s) = []) as H0 by done.
  revert H0. generalize (set_woken [] s). induction (woken s) as [|j ids IH]; intros s1 H1; [done|]. simpl.
  apply IH. unfold drain_one. destruct (tasks s1 !! j); [|done]. destruct (decide _); [|done].
  unfold state_cell. simpl. by destruct (shared s1 !! j).
Qed.

Lemma turn_inv s :
  inv s → currently_polling s = None →
  let '(s', b) := turn s in
  inv s' ∧ evolves s s' ∧ currently_polling s' = None ∧ (b = false → run_queue s' = [] ∧ woken s' = []).
Proof.
  intros Hi Hp. unfold turn. destruct (drain_woken_inv s Hi) as [Hd He].
  destruct (drain_woken_fields s) as [Hpd Hw]. rewrite Hp in Hpd.
  destruct (run_queue (drain_woken s)) as [|id q] eqn:Hq; [done|].
  destruct (poll_task_inv id q _ Hd Hpd Hq) as (? & ? & ? & _). split_and!; [done|by etrans|done|done].
Qed.

Lemma loop_inv fuel s s' :
  inv s → currently_polling s = None → loop fuel s = Some s' →
  inv s' ∧ evolves s s' ∧ currently_polling s' = None ∧ run_queue s' = [] ∧ woken s' = [].
Proof.
  revert s. induction fuel as [|n IH]; intros s Hi Hp; simpl; [done|].
  pose proof (turn_inv s Hi Hp) as Ht. destruct (turn s) as [s1 [|]]; destruct Ht as (Hi1 & He1 & Hp1 & Hq1).
  - intros Hl. destruct (IH s1 Hi1 Hp1 Hl) as (? & ? & ?). split_and!; [done|by etrans|naive_solver..].
  - intros [= <-]. naive_solver.
Qed.

(** What the code outside polls (simulator callbacks, the runner) does. *)
Inductive step : ExecInner → ExecInner → Prop :=
| st_wake id s : step s (wake id s)
| st_world w s : step s (set_world w s)
| st_spawn f n s : step s (fst (spawn_named f n s))
| st_cancel id s : step s (cancel id s)
| st_cancel_after w s : step s (cancel_after w s)
| st_result id s : step s (fst (handle_result id s))
| st_sink s : step s (set_failure_sink s)
| st_run fuel s s' : run_until_idle fuel s = Some s' → step s s'.

Definition idle s : Prop := inv s ∧ currently_polling s = None.

Lemma step_idle s s' : step s s' → idle s → idle s' ∧ evolves s s'.
Proof.
  assert (∀ s1 s2, ok s1 s2 → idle s1 → idle s2 ∧ evolves s1 s2) as Hok.
  { intros s1 s2 (? & ? & E & _) [? Hp]. split; [split|]; congruence. }
  intros Hstep Hid. pose proof Hid as [Hi Hp]. destruct Hstep as [id s|w s|f n s|id s|w s|id s|s|fuel s s' Hr].
  - apply Hok; [by apply core_ok|done].
  - apply Hok; [by apply core_ok|done].
  - apply Hok; [by apply spawn_ok|done].
  - apply Hok; [by apply cancel_ok|done].
  - apply Hok; [by apply cancel_after_ok|done].
  - apply Hok; [by apply handle_result_ok|done].
  - apply Hok; [by apply core_ok|done].
  - unfold run_until_idle in Hr. destruct (running s); [by simplify_eq|].
    destruct (loop fuel (set_running true s)) as [s1|] eqn:Hl; simplify_eq.
    destruct (core_ok s (set_running true s) Hi ltac:(done)) as (Hi0 & He0 & Hp0 & _).
    rewrite Hp in Hp0. destruct (loop_inv _ _ _ Hi0 Hp0 Hl) as (Hi1 & He1 & Hp1 & _).
    destruct (core_ok s1 (set_running false s1) Hi1 ltac:(done)) as (? & ? & Hp2 & _).
    split; [split; [done|congruence]|]. by do 2 etrans.
Qed.

Lemma reachable_idle w s : rtc step (init w) s → idle s.
Proof.
  intros H. apply (rtc_preserves step idle (λ s s' Hs Hi, proj1 (step_idle s s' Hs Hi)) _ _ H).
  split; [apply init_inv|done].
Qed.

Lemma idle_evolves s s' : idle s → rtc step s s' → evolves s s'.
Proof.
  intros Hi H. induction H as [s|s1 s2 s3 H12 _ IH]; [reflexivity|].
  destruct (step_idle s1 s2 H12 Hi) as [Hi2 He]. etrans; [exact He|by apply IH].
Qed.

(** ** Fairness: the queue is served in order *)

(** A scheduled task keeps its future until its turn, or is removed. *)
Definition waits s' id t : Prop := tasks s' !! id = Some t ∨ tasks s' !! id = None.

Lemma cancel_shrinks id j s : tasks s !! j = None → tasks (cancel id s) !! j = None.
Proof.
  intros Hj. unfold cancel. destruct (decide _); [done|]. destruct (tasks s !! id) as [t|]; [|done].
  destruct (drop_future_fields (fut t) (on_abort id ECancelled (set_tasks (delete id (tasks s)) s))) as [-> _].
  unfold on_abort. rewrite complete_tasks, state_cell_tasks. simpl. rewrite lookup_delete_None. by right.
Qed.

Lemma cancel_list_shrinks ids j s : tasks s !! j = None → tasks (cancel_list ids s) !! j = None.
Proof.
  unfold cancel_list. revert s. induction ids as [|i ids IH]; intros s Hj; [done|]. by apply IH, cancel_shrinks.
Qed.

Lemma end_poll_others id s x j t :
  inv s → currently_polling s = Some id → poll_post id s x → j ≠ id → tasks s !! j = Some t →
  waits (end_poll id (set_polling None (fst x)) (snd x)) j t.
Proof.
  intros Hi Hp Hpost Hne Hj. destruct x as [s1 r]. unfold waits. cbn [fst snd].
  assert (∀ s2, ok s s2 → tasks s2 !! j = Some t ∨ tasks s2 !! j = None) as Hkeep.
  { intros s2 (_ & _ & _ & _ & Hk). destruct (Hk j t Hj) as [|(? & ? & _)]; naive_solver. }
  assert (∀ s2, ok s s2 → inv s2 ∧ currently_polling s2 = Some id ∧ is_Some (tasks s2 !! id)) as Hlive.
  { intros s2 (Hi2 & _ & Hp2 & _). rewrite Hp in Hp2. split_and!; [done..|]. by apply (i_polling _ Hi2). }
  destruct r as [|f|msg]; simpl in Hpost.
  - destruct Hpost as (s2 & v & Hok & ->). simpl.
    rewrite complete_tasks, state_cell_tasks, lookup_delete_ne by done. by apply Hkeep.
  - destruct (Hlive s1 Hpost) as (Hi1 & Hp1 & [u Hu]).
    destruct (end_pending_eq id f u s1 Hi1 Hp1 Hu) as (-> & Hr & _).
    assert (∀ o, tasks s1 !! j = o → tasks (restate id (Build_TaskEntry (Some f) (name u) Pending_) (run_queue s1) None [] s1) !! j = o) as Hsame.
    { intros o <-. unfold restate, state_cell. simpl. destruct (shared s1 !! id); simpl; by rewrite lookup_insert_ne. }
    destruct (cancel_list_ok (cancel_pending s1) _ Hr) as (_ & _ & _ & _ & Hk).
    destruct (Hkeep s1 Hpost) as [Hj1|Hj1]; apply Hsame in Hj1.
    + destruct (Hk j t Hj1) as [|(_ & ? & _)]; [by left|by right].
    + right. by apply cancel_list_shrinks.
  - destruct (Hlive s1 Hpost) as (Hi1 & Hp1 & [u Hu]).
    destruct (end_panic_core id msg s1 u Hi1 Hu) as (E & _). rewrite E. simpl.
    rewrite lookup_delete_ne by done. by apply Hkeep.
Qed.

Lemma poll_task_others id q s j t :
  inv s → currently_polling s = None → run_queue s = id :: q → j ≠ id → tasks s !! j = Some t →
  waits (poll_task id (set_run_queue q s)) j t.
Proof.
  intros Hi Hp Hq Hne Hj. unfold poll_task. change (tasks (set_run_queue q s)) with (tasks s).
  destruct (tasks s !! id) as [u|] eqn:Hu; [|by left]. destruct (decide (state u = Scheduled)); [|by left].
  destruct (begin_poll_inv id q u s Hi Hp Hq Hu) as (Hb & He & Hpb & Hqb).
  destruct (i_entry _ Hi id u Hu) as (js & Hs & Hm). rewrite e in Hm. destruct Hm as (_ & [f Hf] & _).
  rewrite Hf. cbn [poll_fut]. pose proof (run_prog_ok id (poll f id) _ Hb Hpb) as Hpost.
  pose proof (end_poll_others id _ _ j t Hb Hpb Hpost Hne) as H.
  destruct (run_prog id (poll f id) _) as [s' r]. apply H. unfold begin_poll. simpl.
  rewrite state_cell_tasks. simpl. by rewrite lookup_insert_ne.
Qed.

(** Waking appends to the queue and moves Pending tasks only. *)
Lemma drain_one_keeps i s :
  run_queue s `prefix_of` run_queue (drain_one s i) ∧
  ∀ j t, tasks s !! j = Some t → state t = Scheduled → tasks (drain_one s i) !! j = Some t.
Proof.
  unfold drain_one. destruct (tasks s !! i) as [u|] eqn:Hu; [|done]. destruct (decide _) as [Hst|]; [|done]. simpl.
  rewrite state_cell_tasks. unfold state_cell. simpl. split.
  - destruct (shared s !! i); simpl; by apply prefix_app_r.
  - intros j t Hj Hsch. assert (i ≠ j) by congruence. by rewrite lookup_insert_ne.
Qed.

Lemma drain_woken_keeps s :
  run_queue s `prefix_of` run_queue (drain_woken s) ∧
  ∀ j t, tasks s !! j = Some t → state t = Scheduled → tasks (drain_woken s) !! j = Some t.
Proof.
  unfold drain_woken. change (run_queue s) with (run_queue (set_woken [] s)).
  change (tasks s) with (tasks (set_woken [] s)). generalize (set_woken [] s).
  induction (woken s) as [|i ids IH]; intros s1; [done|]. simpl.
  destruct (drain_one_keeps i s1) as [Hp Hk]. destruct (IH (drain_one s1 i)) as [Hp' Hk'].
  split; [by etrans|]. intros j t Hj Hst. apply Hk'; [by apply Hk|done].
Qed.

(** [n] turns of the loop; [None] if it went idle before. *)
Fixpoint turns (n : nat) s : option ExecInner :=
  match n with
  | 0 => Some s
  | S m => match turn s with (s', true) => turns m s' | (_, false) => None end
  end.

Lemma turn_queue id q s :
  inv s → currently_polling s = None → run_queue s = id :: q →
  ∃ s', turn s = (s', true) ∧ inv s' ∧ evolves s s' ∧ currently_polling s' = None ∧
    q `prefix_of` run_queue s' ∧ ∀ j t, j ∈ q → tasks s !! j = Some t → waits s' j t.
Proof.
  intros Hi Hp Hq. pose proof (turn_inv s Hi Hp) as Hinv. unfold turn in *.
  destruct (drain_woken_inv s Hi) as [Hd _]. destruct (drain_woken_keeps s) as [[k Hk] Hsame].
  rewrite Hq in Hk. simpl in Hk. rewrite Hk in *. destruct Hinv as (Hi' & He' & Hp' & _).
  destruct (drain_woken_fields s) as [Hpd _]. rewrite Hp in Hpd.
  destruct (poll_task_inv id (q ++ k) _ Hd Hpd Hk) as (_ & _ & _ & Hpre).
  eexists. split_and!; [done|done|done|done|etrans; [by apply prefix_app_r|exact Hpre]|].
  intros j t Hj Ht. pose proof (i_nodup _ Hi) as Hnd. rewrite Hq in Hnd. apply NoDup_cons in Hnd as [Hnin _].
  assert (j ≠ id) by congruence. destruct (i_entry _ Hi j t Ht) as (? & _ & Hm). rewrite Hq in Hm.
  apply (poll_task_others id (q ++ k) _ j t Hd Hpd Hk); [done|]. apply Hsame; [done|].
  destruct (state t); set_solver.
Qed.

(** ** Claims *)

(** C4: in every state the executor reaches, whatever the tasks and the
    simulator do, the bookkeeping is consistent: ids are unique, a live task is
    scheduled (queued exactly once) or waiting, with the state its handle
    reports and no result, and a task without an entry is done with nobody
    left waiting on it. *)
Theorem exec_consistent w s :
  rtc step (init w) s →
  currently_polling s = None ∧ NoDup (run_queue s) ∧
  (∀ id t, tasks s !! id = Some t →
     handle_state id s = state t ∧ id < next_id s ∧ is_Some (fut t) ∧
     (state t = Scheduled ∧ id ∈ run_queue s ∨ state t = Pending_ ∧ id ∉ run_queue s)) ∧
  (∀ id sh, shared s !! id = Some sh → tasks s !! id = None → is_done (sstate sh) = true ∧ joiners sh = []).
Proof.
  intros [Hi Hp]%reachable_idle. split_and!; [done|apply Hi| |apply Hi].
  intros id t Ht. pose proof (inv_entry_lt s id t Hi Ht). destruct (i_entry _ Hi id t Ht) as (js & Hs & Hm).
  unfold handle_state. rewrite Hs. split_and!; [done|lia|..]; destruct (state t); naive_solver congruence.
Qed.

(** C5: a finished, failed or cancelled task stays that way: no later
    operation brings its entry back, reuses its id or changes the outcome its
    handle reports (the stored result can only be taken). *)
Theorem outcome_is_final w s s' id sh :
  rtc step (init w) s → rtc step s s' →
  shared s !! id = Some sh → is_done (sstate sh) = true →
  tasks s' !! id = None ∧ handle_state id s' = sstate sh ∧
  ∀ sh', shared s' !! id = Some sh' → result sh' = result sh ∨ result sh' = None.
Proof.
  intros Hid%reachable_idle Hss Hs Hd. destruct (idle_evolves s s' Hid Hss) as [_ He].
  destruct (tasks s !! id) as [t|] eqn:Ht.
  - destruct Hid as [Hi _]. destruct (i_entry _ Hi id t Ht) as (js & Hs' & Hm). simplify_eq/=. by destruct (state t).
  - destruct (He id sh Hs Ht) as (? & sh1 & Hs1 & Hst1 & Hr1). unfold handle_state. rewrite Hs1.
    split_and!; [done|done|]. intros sh' [= <-]. done.
Qed.

(** The loop gives up for want of fuel only after as many productive turns. *)
Lemma loop_turns fuel s : loop fuel s = None ↔ is_Some (turns fuel s).
Proof.
  revert s. induction fuel as [|n IH]; intros s; simpl; [by split|]. destruct (turn s) as [s' [|]]; [apply IH|].
  split; [done|]. by intros [? ?].
Qed.

(** C18: [run_until_idle] returns as soon as a turn finds no task to poll (when
    the fuel is spent, every turn did poll one), and then nothing is left to do:
    no wake-up and no queued task remain, and every live task is suspended,
    waiting to be woken. *)
Theorem run_until_idle_quiescent w s fuel :
  rtc step (init w) s → running s = false →
  match run_until_idle fuel s with
  | Some s' =>
      run_queue s' = [] ∧ woken s' = [] ∧ running s' = false ∧
      ∀ id t, tasks s' !! id = Some t → state t = Pending_ ∧ handle_state id s' = Pending_
  | None => is_Some (turns fuel (set_running true s))
  end.
Proof.
  intros [Hi Hp]%reachable_idle Hrun. unfold run_until_idle. rewrite Hrun.
  destruct (loop fuel (set_running true s)) as [s1|] eqn:Hl; [|by apply loop_turns]. simpl.
  destruct (core_ok s (set_running true s) Hi ltac:(done)) as (Hi0 & _ & Hp0 & _). rewrite Hp in Hp0.
  destruct (loop_inv _ _ _ Hi0 Hp0 Hl) as (Hi1 & _ & Hp1 & Hq & Hw). split_and!; [done..|].
  intros id t Ht. destruct (i_entry _ Hi1 id t Ht) as (js & Hs & Hm). unfold handle_state. simpl. rewrite Hs, Hq in *.
  destruct (state t); try done; naive_solver congruence || set_solver.
Qed.

(** A queued task comes to the head of the queue after as many turns as there
    are tasks before it, with the future it had, unless it was cancelled. *)
Lemma served_in_order l1 id l2 t s :
  inv s → currently_polling s = None → run_queue s = l1 ++ id :: l2 → tasks s !! id = Some t →
  ∃ s' q, turns (length l1) s = Some s' ∧ run_queue s' = id :: q ∧ l2 `prefix_of` q ∧ waits s' id t ∧
    inv s' ∧ currently_polling s' = None ∧ 1 ≤ id < next_id s'.
Proof.
  intros Hi Hp Hq Ht. pose proof (inv_entry_lt s id t Hi Ht) as Hlt.
  assert (waits s id t) as Hw by (by left). clear Ht.
  assert (∃ q, run_queue s = l1 ++ id :: q ∧ l2 `prefix_of` q) as Hq' by (by exists l2). clear Hq.
  revert s Hi Hp Hlt Hw Hq'. induction l1 as [|j l1 IH]; intros s Hi Hp Hlt Hw (q & Hq & Hpre); simpl.
  - exists s, q. split_and!; try done; lia.
  - destruct (turn_queue j (l1 ++ id :: q) s Hi Hp Hq) as (s1 & -> & Hi1 & [Hn He] & Hp1 & [k Hk] & Hothers).
    apply IH; [done|done|lia| |].
    + destruct Hw as [Ht|Ht]; [apply Hothers; [set_solver|done]|]. apply (i_ids _ Hi) in Hlt as [sh Hsh].
      right. by destruct (He id sh Hsh Ht).
    + exists (q ++ k). rewrite Hk, <- app_assoc. split; [done|]. by apply prefix_app_r.
Qed.

(** A turn polls the task at the head of the queue. *)
Lemma turn_polls id q t s :
  inv s → currently_polling s = None → run_queue s = id :: q → tasks s !! id = Some t →
  ∃ f q', fut t = Some f ∧
    let '(s1, r) := run_prog id (poll f id) (begin_poll id t (set_run_queue q' (drain_woken s))) in
    turn s = (end_poll id (set_polling None s1) r, true).
Proof.
  intros Hi Hp Hq Ht. destruct (i_entry _ Hi id t Ht) as (js & _ & Hm).
  assert (state t = Scheduled) as Hst by (destruct (state t); try done; rewrite Hq in Hm; set_solver).
  rewrite Hst in Hm. destruct Hm as (_ & [f Hf] & _). destruct (drain_woken_keeps s) as [[k Hk] Hsame]. rewrite Hq in Hk. simpl in Hk.
  exists f, (q ++ k). split; [done|]. unfold turn. rewrite Hk. unfold poll_task.
  change (tasks (set_run_queue (q ++ k) (drain_woken s))) with (tasks (drain_woken s)).
  rewrite (Hsame id t Ht Hst), decide_True, Hf by done. cbn [poll_fut]. by destruct (run_prog id (poll f id) _).
Qed.

(** C17: scheduling is first come, first served: a task with [n] tasks before it
    in the queue is at the head after exactly [n] turns, tasks spawned or woken
    meanwhile being behind it.  If it is still there it has the future it had, and
    the next turn polls it: the turn is that future's program, run from the state
    in which the woken tasks have been queued, and what its poll comes to.
    Otherwise it was cancelled meanwhile: its handle says that it is done. *)
Theorem fair_scheduling l1 id l2 t s :
  inv s → currently_polling s = None → run_queue s = l1 ++ id :: l2 → tasks s !! id = Some t →
  ∃ s' q, turns (length l1) s = Some s' ∧ run_queue s' = id :: q ∧ l2 `prefix_of` q ∧
    match tasks s' !! id with
    | Some t' => t' = t ∧ ∃ f q', fut t = Some f ∧
        let '(s1, r) := run_prog id (poll f id) (begin_poll id t (set_run_queue q' (drain_woken s'))) in
        turn s' = (end_poll id (set_polling None s1) r, true)
    | None => is_done (handle_state id s') = true
    end.
Proof.
  intros Hi Hp Hq Ht. destruct (served_in_order l1 id l2 t s Hi Hp Hq Ht) as (s' & q & Hn & Hq' & Hl & Hw & Hi' & Hp' & Hlt).
  exists s', q. split_and!; try done. destruct Hw as [Hw|Hw]; rewrite Hw.
  - split; [done|]. by apply (turn_polls id q t s').
  - apply (i_ids _ Hi') in Hlt as [sh Hsh]. unfold handle_state. rewrite Hsh. apply (i_dead _ Hi' id sh Hsh Hw).
Qed.

(** Cancelling a task that is not being polled drops it at once: its entry
    is gone, its handle reports [Cancelled] with the cancellation error, its
    joiners are woken, and every other task is untouched; a task that cancels
    itself is only marked. *)
Theorem cancel_effect id s :
  inv s →
  if decide (currently_polling s = Some id) then
    cancel id s = set_cancel_pending (cancel_pending s ++ [id]) s
  else
    tasks (cancel id s) = delete id (tasks s) ∧
    (∀ t, tasks s !! id = Some t → ∃ js dropped,
       shared s !! id = Some (Build_TaskShared (state t) None js) ∧
       shared (cancel id s) = <[id := Build_TaskShared Cancelled (Some (Err ECancelled)) []]> (shared s) ∧
       woken (cancel id s) = woken s ++ js ++ dropped) ∧
    (tasks s !! id = None → cancel id s = s).
Proof.
  intros Hi. destruct (decide (currently_polling s = Some id)) as [Hp|Hp].
  - unfold cancel. by rewrite decide_True.
  - destruct (tasks s !! id) as [t|] eqn:Ht.
    + destruct (cancel_spec id t s Hi Hp Ht) as [Hct Hcs]. split_and!; [done| |done]. intros u [= <-].
      destruct (inv_entry_shared s id t Hi Ht) as [js Hs].
      exists js. unfold cancel. rewrite decide_False, Ht, (on_abort_kill id ECancelled s _ Hs) by done.
      unfold cancel in Hcs. rewrite decide_False, Ht, (on_abort_kill id ECancelled s _ Hs) in Hcs by done.
      unfold drop_future in *. destruct (fut t) as [f|].
      * destruct (drop_fut f _) as [w ids]. exists ids. rewrite wake_all_eq in *. simpl in *. rewrite Hs, <- app_assoc. done.
      * exists []. simpl in *. rewrite Hs, app_nil_r. done.
    + unfold cancel. rewrite decide_False, Ht by done. split_and!; [|done|done]. by rewrite delete_id.
Qed.

(** The three endings of a poll, from the state the future left. *)
Lemma ready_outcome id v s t :
  inv s → tasks s !! id = Some t →
  let s' := end_poll id (set_polling None (complete id (Ok v) (state_cell id Finished s))) PolledReady in
  tasks s' !! id = None ∧ shared s' !! id = Some (Build_TaskShared Finished (Some (Ok v)) []).
Proof.
  intros Hi Ht. destruct (inv_entry_shared s id t Hi Ht) as [js Hs].
  pose proof (finish_kill id v s _ Hs) as Hfin. cbv zeta in *. unfold end_poll.
  change (tasks (set_polling None ?y)) with (tasks y). rewrite Hfin. simpl.
  by rewrite lookup_delete_eq, lookup_insert_eq.
Qed.

Lemma pending_outcome id f t s :
  inv s → currently_polling s = Some id → tasks s !! id = Some t →
  let s' := end_poll id (set_polling None s) (PolledPending f) in
  if decide (id ∈ cancel_pending s) then tasks s' !! id = None ∧ handle_state id s' = Cancelled
  else tasks s' !! id = Some (Build_TaskEntry (Some f) (name t) Pending_) ∧ handle_state id s' = Pending_.
Proof.
  intros Hi Hp Ht. destruct (end_pending_eq id f t s Hi Hp Ht) as (E & Hr & _). cbv zeta. rewrite E.
  set (r := restate _ _ _ _ _ _) in *.
  assert (tasks r !! id = Some (Build_TaskEntry (Some f) (name t) Pending_)) as Hrt.
  { unfold r, restate. simpl. rewrite state_cell_tasks. simpl. by rewrite lookup_insert_eq. }
  destruct (decide (id ∈ cancel_pending s)) as [Hin|Hnin].
  - by apply (cancel_list_in (cancel_pending s) id _ r Hr) in Hrt.
  - destruct (cancel_list_other (cancel_pending s) id r Hr Hnin) as [E1 E2].
    destruct (inv_entry_shared r id _ Hr Hrt) as [ks Hks]. unfold handle_state. by rewrite E1, E2, Hrt, Hks.
Qed.

Lemma panic_outcome id m t s :
  inv s → tasks s !! id = Some t →
  let s' := end_poll id (set_polling None s) (PolledPanic m) in
  tasks s' !! id = None ∧ shared s' !! id = Some (Build_TaskShared Failed (Some (Err (EPanicked m))) []) ∧
  ∃ msg, reported s' = reported s ++ [(failure_sink s, msg)].
Proof.
  intros Hi Ht. destruct (end_panic_core id m s t Hi Ht) as (E1 & E2 & _). cbv zeta.
  rewrite E1, E2. simpl. rewrite lookup_delete_eq, lookup_insert_eq. split_and!; [done..|].
  destruct (inv_entry_shared s id t Hi Ht) as [js Hs].
  unfold on_abort, complete, state_cell. simpl. rewrite Hs. simpl. rewrite lookup_insert_eq. simpl.
  rewrite lookup_insert_eq, wake_all_eq. simpl. destruct (failure_sink s); simpl; by eexists.
Qed.

(** One poll of a scheduled task ends in exactly one of four ways: it
    completes (its handle has the value), it panics (its handle has the
    message, which is also reported), it suspends after having cancelled
    itself (it is cancelled now, not before), or it suspends and waits with
    the new future. *)
Theorem poll_outcome id q t f s :
  inv s → currently_polling s = None → run_queue s = id :: q →
  tasks s !! id = Some t → fut t = Some f →
  let '(s1, r) := run_prog id (poll f id) (begin_poll id t (set_run_queue q s)) in
  let s' := poll_task id (set_run_queue q s) in
  match r with
  | PolledReady => tasks s' !! id = None ∧ ∃ v, shared s' !! id = Some (Build_TaskShared Finished (Some (Ok v)) [])
  | PolledPanic m =>
      tasks s' !! id = None ∧ shared s' !! id = Some (Build_TaskShared Failed (Some (Err (EPanicked m))) []) ∧
      ∃ msg, reported s' = reported s1 ++ [(failure_sink s1, msg)]
  | PolledPending f' =>
      if decide (id ∈ cancel_pending s1) then tasks s' !! id = None ∧ handle_state id s' = Cancelled
      else tasks s' !! id = Some (Build_TaskEntry (Some f') (name t) Pending_) ∧ handle_state id s' = Pending_
  end.
Proof.
  intros Hi Hp Hq Ht Hf. destruct (begin_poll_inv id q t s Hi Hp Hq Ht) as (Hb & He & Hpb & Hqb).
  destruct (i_entry _ Hi id t Ht) as (js & Hs & Hm).
  assert (state t = Scheduled) as Hst by (destruct (state t); try done; rewrite Hq in Hm; set_solver).
  pose proof (run_prog_ok id (poll f id) _ Hb Hpb) as Hpost.
  assert (tasks (begin_poll id t (set_run_queue q s)) !! id = Some (Build_TaskEntry None (name t) Running)) as Hbt.
  { unfold begin_poll. simpl. rewrite state_cell_tasks. simpl. by rewrite lookup_insert_eq. }
  unfold poll_task. change (tasks (set_run_queue q s)) with (tasks s). rewrite Ht, decide_True, Hf by done.
  cbn [poll_fut]. destruct (run_prog id (poll f id) _) as [s1 r].
  assert (∀ s2, ok (begin_poll id t (set_run_queue q s)) s2 →
    inv s2 ∧ currently_polling s2 = Some id ∧ tasks s2 !! id = Some (Build_TaskEntry None (name t) Running)) as Hlive.
  { intros s2 (? & _ & Hp2 & _ & Hk). split_and!; [done|congruence|]. destruct (Hk _ _ Hbt) as [|[]]; done. }
  destruct r as [|f'|m]; simpl in Hpost.
  - destruct Hpost as (s2 & v & (Hi2 & _ & Hl2)%Hlive & ->).
    destruct (ready_outcome id v s2 _ Hi2 Hl2) as [H1 H2]. split; [exact H1|]. exists v. exact H2.
  - destruct (Hlive s1 Hpost) as (Hi1 & Hp1 & Hl1). exact (pending_outcome id f' _ s1 Hi1 Hp1 Hl1).
  - destruct (Hlive s1 Hpost) as (Hi1 & Hp1 & Hl1). exact (panic_outcome id m _ s1 Hi1 Hl1).
Qed.

Lemma cancel_marks id x s : x ∈ cancel_pending s → x ∈ cancel_pending (cancel id s).
Proof.
  intros Hx. unfold cancel. case_decide; [simpl; set_solver|]. destruct (tasks s !! id) as [t|]; [|done].
  assert (∀ l s0, x ∈ cancel_pending s0 → x ∈ cancel_pending (wake_all l s0)) as Hw
    by (induction l as [|i l IH]; intros s0; [done|]; intros; by apply IH).
  assert (x ∈ cancel_pending (on_abort id ECancelled (set_tasks (delete id (tasks s)) s))) as Ha.
  { unfold on_abort, complete. assert (x ∈ cancel_pending (state_cell id Cancelled (set_tasks (delete id (tasks s)) s))) as Hc
      by (unfold state_cell; by case_match). case_match; [|done]. by apply Hw. }
  unfold drop_future. destruct (fut t) as [f|]; [|done]. destruct (drop_fut _ _). by apply Hw.
Qed.

(** The task being polled is only marked. *)
Lemma cancel_list_polled ids id t s :
  inv s → currently_polling s = Some id → id ∈ ids → tasks s !! id = Some t →
  tasks (cancel_list ids s) !! id = Some t ∧ id ∈ cancel_pending (cancel_list ids s).
Proof.
  unfold cancel_list. revert s. induction ids as [|i ids IH]; intros s Hi Hp Hin Ht; [by apply elem_of_nil in Hin|].
  simpl. destruct (cancel_ok i s Hi) as (Hi' & _ & Hp' & _ & Hk).
  assert (tasks (cancel i s) !! id = Some t) as Ht' by (destruct (Hk id t Ht) as [|[[] _]]; done).
  apply elem_of_cons in Hin as [<-|Hin]; [|apply IH; [done|congruence|done|done]].
  destruct (cancel_list_ok ids (cancel id s) Hi') as (_ & _ & _ & _ & Hk'). unfold cancel_list in *. split.
  - destruct (Hk' id t Ht') as [|[[] _]]; [done|]. congruence.
  - assert (id ∈ cancel_pending (cancel id s)) as Hm by (unfold cancel; rewrite decide_True by done; simpl; set_solver).
    clear -Hm. revert Hm. generalize (cancel id s) as s1. induction ids as [|i ids IH]; intros s1 Hm; [done|]. by apply IH, cancel_marks.
Qed.

(** C38: Ending a test kills exactly its own tasks: after [cancel_after] no task
    with an id at or above the watermark is left (except one that is being
    polled, which stays until its poll ends and is marked for it), each of them
    is reported [Cancelled], and every older task and its handle are untouched,
    in whatever order the map lists its keys. *)
Theorem cancel_after_scope wm s :
  (∀ l, key_order l ≡ₚ l) → inv s →
  let s' := cancel_after wm s in
  (∀ id t, wm ≤ id → currently_polling s ≠ Some id → tasks s !! id = Some t →
     tasks s' !! id = None ∧ handle_state id s' = Cancelled) ∧
  (∀ id, id < wm → tasks s' !! id = tasks s !! id ∧ shared s' !! id = shared s !! id) ∧
  (∀ id, wm ≤ id → currently_polling s ≠ Some id → tasks s' !! id = None) ∧
  (∀ id t, wm ≤ id → currently_polling s = Some id → tasks s !! id = Some t →
     tasks s' !! id = Some t ∧ id ∈ cancel_pending s').
Proof.
  intros Hperm Hi. cbv zeta. unfold cancel_after. set (ids := filter _ _).
  assert (∀ id, id ∈ ids ↔ wm ≤ id ∧ is_Some (tasks s !! id)) as Hids.
  { intros id. unfold ids. rewrite list_elem_of_filter, (Hperm (keys s)). f_equiv. unfold keys.
    rewrite list_elem_of_fmap. split.
    - intros ([i t] & -> & Hin%elem_of_map_to_list). by exists t.
    - intros [t Ht]. exists (id, t). split; [done|]. by apply elem_of_map_to_list. }
  assert (∀ id t, wm ≤ id → currently_polling s ≠ Some id → tasks s !! id = Some t →
     tasks (cancel_list ids s) !! id = None ∧ handle_state id (cancel_list ids s) = Cancelled) as Hkill.
  { intros id t Hle Hp Ht. apply (cancel_list_in ids id t); [done|done| |done]. apply Hids. by split; [|exists t]. }
  split_and!; [done| | |].
  - intros id Hlt. apply cancel_list_other; [done|]. rewrite Hids. lia.
  - intros id Hle Hp. destruct (tasks s !! id) as [t|] eqn:Ht; [by apply (Hkill id t)|].
    by apply cancel_list_shrinks.
  - intros id t Hle Hp Ht. apply cancel_list_polled; [done|done| |done]. apply Hids. by split; [|exists t].
Qed.

Lemma drain_one_other i j s : i ≠ j → tasks (drain_one s i) !! j = tasks s !! j.
Proof.
  intros Hne. unfold drain_one. destruct (tasks s !! i); [|done]. destruct (decide _); [|done]. simpl.
  rewrite state_cell_tasks. simpl. by rewrite lookup_insert_ne.
Qed.

Lemma drain_one_self id t s :
  inv s → currently_polling s ≠ Some id → tasks s !! id = Some t →
  tasks (drain_one s id) !! id = Some (Build_TaskEntry (fut t) (name t) Scheduled).
Proof.
  clear key_order. intros Hi Hp Ht. destruct (i_entry _ Hi id t Ht) as (js & _ & Hm). unfold drain_one. rewrite Ht.
  destruct (decide (state t = Pending_)).
  - simpl. rewrite state_cell_tasks. simpl. by rewrite lookup_insert_eq.
  - rewrite Ht. destruct t as [? ? []]; naive_solver.
Qed.

Lemma drain_list_schedules ids id t s :
  inv s → currently_polling s = None → tasks s !! id = Some t → (id ∈ ids ∨ state t = Scheduled) →
  tasks (foldl drain_one s ids) !! id = Some (Build_TaskEntry (fut t) (name t) Scheduled).
Proof.
  clear key_order. revert s t. induction ids as [|j ids IH]; intros s t Hi Hp Ht Hor; simpl.
  - destruct Hor as [?%elem_of_nil|]; [done|]. rewrite Ht. destruct t; simpl in *. congruence.
  - destruct (drain_one_inv j s Hi) as [Hi' _].
    assert (currently_polling (drain_one s j) = None) as Hp'.
    { unfold drain_one, state_cell. repeat case_goal; done. }
    destruct (decide (j = id)) as [->|Hne].
    + pose proof (drain_one_self id t s Hi ltac:(congruence) Ht) as Ht'.
      by rewrite (IH _ _ Hi' Hp' Ht'); [|right].
    + apply IH; [done|done|by rewrite drain_one_other|]. set_solver.
Qed.

(** A wake-up is never lost: a live task that was woken since the last turn
    is in the run queue after the wake-ups are drained, once, however often it
    was woken and whatever it was doing when it happened. *)
Theorem wake_schedules id t s :
  inv s → currently_polling s = None → id ∈ woken s → tasks s !! id = Some t →
  let s' := drain_woken s in
  id ∈ run_queue s' ∧ NoDup (run_queue s') ∧ handle_state id s' = Scheduled ∧
  tasks s' !! id = Some (Build_TaskEntry (fut t) (name t) Scheduled).
Proof.
  intros Hi Hp Hin Ht. cbv zeta. destruct (drain_woken_inv s Hi) as [Hd _].
  assert (tasks (drain_woken s) !! id = Some (Build_TaskEntry (fut t) (name t) Scheduled)) as Hres.
  { apply drain_list_schedules; [|done|done|by left].
    by destruct (core_ok s (set_woken [] s) Hi). }
  destruct (i_entry _ Hd id _ Hres) as (js & Hs & Hm). simpl in *. unfold handle_state. rewrite Hs.
  split_and!; [apply Hm|apply Hd|done|done].
Qed.

End Exec.
Arguments Prog : clear implicits.
Arguments ExecInner : clear implicits.
End Executor.

Module ExecutorWitnesses.
Import Executor.

(** Futures by number: 0 completes, 1 suspends once, 2 cancels itself and
    suspends, any other panics. *)
Definition wpoll (f : nat) (me : TaskId) : Prog nat unit nat :=
  match f with
  | 0 => PReady 7
  | 1 => PPending 0
  | 2 => PCancel me (PPending 0)
  | _ => PPanic "boom"
  end.
Definition wdrop (f : nat) (w : unit) : unit * list TaskId := (w, []).
Definition worder (l : list TaskId) : list TaskId := l.
Abbreviation wstep := (step wpoll wdrop worder).
Abbreviation winit := (init (Fut := nat) (V := nat) tt).

(** A task that suspends and one that completes, spawned in that order. *)
Definition queued : ExecInner nat unit nat := fst (spawn_named 0 None (fst (spawn_named 1 None winit))).
Definition settled : ExecInner nat unit nat := default winit (run_until_idle wpoll wdrop worder 10 queued).

Lemma queued_reachable : rtc wstep winit queued.
Proof. eapply rtc_l; [apply (st_spawn _ _ _ 1 None)|]. eapply rtc_l; [apply (st_spawn _ _ _ 0 None)|]. apply rtc_refl. Qed.

Lemma queued_runs : run_until_idle wpoll wdrop worder 10 queued = Some settled.
Proof. vm_compute. reflexivity. Qed.

Lemma settled_reachable : rtc wstep winit settled.
Proof. eapply rtc_r; [apply queued_reachable|]. apply (st_run _ _ _ 10). apply queued_runs. Qed.

Lemma exec_consistent_witness :
  rtc wstep winit settled ∧ handle_state 1 settled = Pending_.
Proof.
  split; [apply settled_reachable|].
  destruct (exec_consistent wpoll wdrop worder tt settled settled_reachable) as (_ & _ & H & _).
  exact (proj1 (H 1 (Build_TaskEntry (Some 0) "task_1" Pending_) eq_refl)).
Defined.

Lemma outcome_is_final_witness :
  rtc wstep winit settled ∧ tasks (wake 2 settled) !! 2 = None.
Proof.
  split; [apply settled_reachable|].
  exact (proj1 (outcome_is_final wpoll wdrop worder tt settled (wake 2 settled) 2
    (Build_TaskShared Finished (Some (Ok 7)) []) settled_reachable
    (rtc_once _ _ (st_wake _ _ _ 2 settled)) eq_refl eq_refl)).
Defined.

Lemma run_until_idle_quiescent_witness :
  run_until_idle wpoll wdrop worder 10 queued = Some settled ∧ woken settled = [].
Proof.
  split; [apply queued_runs|].
  pose proof (run_until_idle_quiescent wpoll wdrop worder tt queued 10 queued_reachable eq_refl) as Hq.
  rewrite queued_runs in Hq. exact (proj1 (proj2 Hq)).
Defined.

Lemma queued_inv : inv queued.
Proof. exact (proj1 (reachable_idle _ _ _ _ _ queued_reachable)). Qed.

Lemma fair_scheduling_witness :
  run_queue queued = [1; 2] ∧
  ∃ s' q, turns wpoll wdrop worder 1 queued = Some s' ∧ run_queue s' = 2 :: q.
Proof.
  split; [reflexivity|].
  destruct (fair_scheduling wpoll wdrop worder [1] 2 [] (Build_TaskEntry (Some 0) "task_2" Scheduled) queued
    queued_inv eq_refl eq_refl eq_refl) as (s' & q & H & Hq & _).
  exists s', q. split; [exact H|exact Hq].
Defined.

Lemma cancel_effect_witness : inv queued ∧ tasks (cancel wdrop 1 queued) = delete 1 (tasks queued).
Proof.
  split; [apply queued_inv|]. exact (proj1 (cancel_effect wdrop 1 queued queued_inv)).
Defined.

Lemma poll_outcome_witness :
  inv queued ∧ tasks (poll_task wpoll wdrop worder 1 (set_run_queue [2] queued)) !! 1
    = Some (Build_TaskEntry (Some 0) "task_1" Pending_).
Proof.
  split; [apply queued_inv|].
  exact (proj1 (poll_outcome wpoll wdrop worder 1 [2] (Build_TaskEntry (Some 1) "task_1" Scheduled) 1 queued
    queued_inv eq_refl eq_refl eq_refl eq_refl)).
Defined.

Lemma cancel_after_scope_witness :
  inv queued ∧ tasks (cancel_after wdrop worder 2 queued) !! 2 = None.
Proof.
  split; [apply queued_inv|].
  refine (proj1 (proj2 (proj2 (cancel_after_scope wdrop worder 2 queued (λ l, Permutation_refl l) queued_inv))) 2 _ _).
  - lia.
  - discriminate.
Defined.

Lemma wake_schedules_witness :
  inv (wake 1 settled) ∧ handle_state 1 (drain_woken (wake 1 settled)) = Scheduled.
Proof.
  assert (inv (wake 1 settled)) as Hi.
  { exact (proj1 (reachable_idle wpoll wdrop worder _ _
      (rtc_r _ _ _ settled_reachable (st_wake _ _ _ 1 settled)))). }
  split; [exact Hi|].
  refine (proj1 (proj2 (proj2 (wake_schedules 1 (Build_TaskEntry (Some 0) "task_1" Pending_) (wake 1 settled)
    Hi eq_refl _ eq_refl)))).
  apply list_elem_of_here.
Defined.

End ExecutorWitnesses.
