(* ===== verification/Combinators.v ===== *)
(** * Combinators: first, join and timeout (rustdv-sim/src/combinators.rs).

    A future is anything with a [poll]: the class [Future] gives, for a future
    state, the waker of the polling task and the shared world [W], the new
    world, the new future state and the answer.  The combinators are written
    against the class.  [Tagged] is an instance that records, in the world,
    every poll and every completion of a numbered future, which is what the
    theorems about the order of results observe. *)
From S2P Require Import Prelude.

Module Combinators.

Class Future (W F A : Type) := poll : F → Waker → W → W * F * Poll A.

Inductive Either (A B : Type) := First (a : A) | Second (b : B).
Arguments First {A B} _.
Arguments Second {A B} _.

Section Pair.
Context {W F G A B : Type} `{FA : Future W F A, FB : Future W G B}.

(** First of two: [a] is polled first, and wins a tie. *)
Record First2 := { f_a : F; f_b : G }.
Definition first2 (a : F) (b : G) : First2 := {| f_a := a; f_b := b |}.

#[export] Instance poll_first2 : Future W First2 (Either A B) := λ s cx w,
  match poll (f_a s) cx w with
  | (w1, a, Ready v) => (w1, {| f_a := a; f_b := f_b s |}, Ready (First v))
  | (w1, a, Pending) =>
      match poll (f_b s) cx w1 with
      | (w2, b, Ready v) => (w2, {| f_a := a; f_b := b |}, Ready (Second v))
      | (w2, b, Pending) => (w2, {| f_a := a; f_b := b |}, Pending)
      end
  end.

(** Join of two, with the results that came in so far. *)
Record Join2 := { j_a : F; j_b : G; ra : option A; rb : option B }.
Definition join2 (a : F) (b : G) : Join2 := {| j_a := a; j_b := b; ra := None; rb := None |}.

(** Poll one side unless its result is in. *)
Definition poll_side {F A} `{Future W F A} (f : F) (r : option A) (cx : Waker) (w : W) : W * F * option A :=
  match r with
  | None =>
      match poll f cx w with
      | (w1, f', Ready v) => (w1, f', Some v)
      | (w1, f', Pending) => (w1, f', None)
      end
  | Some _ => (w, f, r)
  end.

#[export] Instance poll_join2 : Future W Join2 (A * B) := λ s cx w,
  let '(w1, a, x) := poll_side (j_a s) (ra s) cx w in
  let '(w2, b, y) := poll_side (j_b s) (rb s) cx w1 in
  match x, y with
  | Some u, Some v => (w2, {| j_a := a; j_b := b; ra := None; rb := None |}, Ready (u, v))
  | _, _ => (w2, {| j_a := a; j_b := b; ra := x; rb := y |}, Pending)
  end.

End Pair.
Arguments First2 : clear implicits.
Arguments Join2 : clear implicits.

Inductive TimeoutError := Timeout.

Section Timeout.
Context {W F T A : Type} `{FA : Future W F A, FT : Future W T unit}.

(** [with_timeout]: the future raced against a timer. *)
Record WithTimeout := { race : First2 F T }.
Definition with_timeout (f : F) (timer : T) : WithTimeout := {| race := first2 f timer |}.
#[export] Instance poll_with_timeout : Future W WithTimeout (Result A TimeoutError) := λ s cx w,
  match poll (race s) cx w with
  | (w1, r, Ready (First v)) => (w1, {| race := r |}, Ready (Ok v))
  | (w1, r, Ready (Second _)) => (w1, {| race := r |}, Ready (Err Timeout))
  | (w1, r, Pending) => (w1, {| race := r |}, Pending)
  end.
End Timeout.

Section All.
Context {W F A : Type} `{FA : Future W F A}.

Record JoinAll := { futs : list (option F); out : list (option A) }.
Definition join_all (fs : list F) : JoinAll := {| futs := Some <$> fs; out := (λ _, None) <$> fs |}.

(** The [for (i, slot) in futs.iter_mut().enumerate()] loop from slot [i] on. *)
Fixpoint pass (i : nat) (fs : list (option F)) (o : list (option A)) (cx : Waker) (w : W) :
    W * list (option F) * list (option A) * bool :=
  match fs with
  | [] => (w, [], o, true)
  | None :: r =>
      let '(w', r', o', d) := pass (S i) r o cx w in (w', None :: r', o', d)
  | Some f :: r =>
      match poll f cx w with
      | (w1, _, Ready v) =>
          let '(w', r', o', d) := pass (S i) r (<[i := Some v]> o) cx w1 in (w', None :: r', o', d)
      | (w1, f', Pending) =>
          let '(w', r', o', _) := pass (S i) r o cx w1 in (w', Some f' :: r', o', false)
      end
  end.

(** [out.iter_mut().map(|o| o.take().unwrap()).collect()]. *)
Definition collect (o : list (option A)) : Exec (list A) :=
  match mapM id o with
  | Some vs => Done vs
  | None => Panic "called `Option::unwrap()` on a `None` value"
  end.

Definition poll_join_all (s : JoinAll) (cx : Waker) (w : W) : Exec (W * JoinAll * Poll (list A)) :=
  let '(w', fs, o, all_done) := pass 0 (futs s) (out s) cx w in
  if all_done then
    match collect o with
    | Done vs => Done (w', {| futs := fs; out := (λ _, None) <$> o |}, Ready vs)
    | Panic m => Panic m
    end
  else Done (w', {| futs := fs; out := o |}, Pending).

Lemma pass_length fs i o cx w : length (snd (fst (fst (pass i fs o cx w)))) = length fs.
Proof.
  revert i o w. induction fs as [|[t|] fs IH]; intros i o w; simpl; [done|..].
  - destruct (poll t cx w) as [[x1 t'] [v|]].
    + specialize (IH (S i) (<[i:=Some v]> o) x1). destruct (pass _ fs _ cx _) as [[[? ?] ?] ?]. simpl in *. by rewrite IH.
    + specialize (IH (S i) o x1). destruct (pass _ fs _ cx _) as [[[? ?] ?] ?]. simpl in *. by rewrite IH.
  - specialize (IH (S i) o w). destruct (pass _ fs _ cx _) as [[[? ?] ?] ?]. simpl in *. by rewrite IH.
Qed.

End All.
Arguments JoinAll : clear implicits.

(** ** Observing polls *)

Inductive Event (A : Type) := Polled (i : nat) | Completed (i : nat) (v : A).
Arguments Polled {A} _.
Arguments Completed {A} _ _.

(** A future that logs its polls under a number. *)
Record Tagged (F : Type) := { tag : nat; inner : F }.
Arguments tag {F} _.
Arguments inner {F} _.
Arguments Build_Tagged {F} _ _.

#[export] Instance poll_tagged {W F A} `{Future W F A} : Future (W * list (Event A)) (Tagged F) A :=
  λ t cx '(w, log),
  match poll (inner t) cx w with
  | (w', f, Ready v) => (w', log ++ [Polled (tag t); Completed (tag t) v], {| tag := tag t; inner := f |}, Ready v)
  | (w', f, Pending) => (w', log ++ [Polled (tag t)], {| tag := tag t; inner := f |}, Pending)
  end.

Section Order.
Context {W F A : Type} `{FA : Future W F A}.
Abbreviation JA := (JoinAll (Tagged F) A).
Implicit Types log : list (Event A).

Definition incomplete (i : nat) log : Prop := ∀ v, Completed i v ∉ log.

(** A log in which nothing is polled, or completes, once it has completed. *)
Inductive sane : list (Event A) → Prop :=
| sane_nil : sane []
| sane_polled log i : sane log → incomplete i log → sane (log ++ [Polled i])
| sane_completed log i v : sane log → incomplete i log → sane (log ++ [Completed i v]).

(** Slots and log agree: an empty slot's value is the one logged for it, a full
    slot holds its own future and nothing is logged as completed for it. *)
Definition agrees (fs : list (option (Tagged F))) (o : list (option A)) log : Prop :=
  length o = length fs ∧
  ∀ i s, fs !! i = Some s →
    match s with
    | None => ∃ v, o !! i = Some (Some v) ∧ Completed i v ∈ log
    | Some t => tag t = i ∧ o !! i = Some None ∧ incomplete i log
    end.

Lemma incomplete_polled i j log : incomplete i log → incomplete i (log ++ [Polled j]).
Proof. intros H v. specialize (H v). set_solver. Qed.

Lemma incomplete_other i j v log : i ≠ j → incomplete i log → incomplete i (log ++ [Completed j v]).
Proof. intros Hne H u. specialize (H u). rewrite not_elem_of_app, list_elem_of_singleton. naive_solver. Qed.

(** Slot [i] suspends again. *)
Lemma agrees_pending pre t r o log f :
  agrees (pre ++ Some t :: r) o log →
  agrees (pre ++ Some {| tag := tag t; inner := f |} :: r) o (log ++ [Polled (length pre)]).
Proof.
  intros [Hl H]. split; [by rewrite Hl, !length_app|]. intros i s Hs.
  assert (∃ s0, (pre ++ Some t :: r) !! i = Some s0 ∧
    (s = s0 ∨ s0 = Some t ∧ s = Some {| tag := tag t; inner := f |})) as (s0 & Hs0 & Hor).
  { apply lookup_app_Some in Hs as [Hs|[Hle Hs]].
    - exists s. split; [by apply lookup_app_l_Some|by left].
    - destruct (i - length pre) eqn:E; simpl in Hs; simplify_eq.
      + exists (Some t). split; [|by right]. rewrite lookup_app_r, E by done. done.
      + exists s. split; [|by left]. rewrite lookup_app_r, E by done. done. }
  specialize (H i s0 Hs0). destruct Hor as [->|[-> ->]].
  - destruct s0; [|set_solver]. destruct H as (? & ? & ?). split_and!; [done..|by apply incomplete_polled].
  - destruct H as (? & ? & ?). split_and!; [done..|by apply incomplete_polled].
Qed.

(** Slot [i] completes with [v]. *)
Lemma agrees_ready pre t r o log v :
  agrees (pre ++ Some t :: r) o log →
  agrees (pre ++ None :: r) (<[length pre := Some v]> o)
    ((log ++ [Polled (length pre)]) ++ [Completed (length pre) v]).
Proof.
  intros [Hl H]. split; [by rewrite length_insert, Hl, !length_app|]. intros i s Hs.
  destruct (decide (i = length pre)) as [->|Hne].
  - rewrite lookup_app_r, Nat.sub_diag in Hs by done. simplify_eq/=. exists v. split; [|set_solver].
    apply list_lookup_insert_eq. rewrite Hl, length_app. simpl. lia.
  - assert ((pre ++ Some t :: r) !! i = Some s) as Hs0.
    { apply lookup_app_Some in Hs as [Hs|[Hle Hs]]; [by apply lookup_app_l_Some|].
      rewrite lookup_app_r by done. destruct (i - length pre) eqn:E; [lia|done]. }
    specialize (H i s Hs0). rewrite list_lookup_insert_ne by done. destruct s.
    + destruct H as (? & ? & ?). split_and!; [done..|]. by apply incomplete_other, incomplete_polled.
    + destruct H as (u & ? & ?). exists u. set_solver.
Qed.

Lemma pass_spec fs pre o log cx w :
  agrees (pre ++ fs) o log → sane log →
  let '(w', log', fs', o', d) := pass (length pre) fs o cx (w, log) in
  agrees (pre ++ fs') o' log' ∧ sane log' ∧ (d = true ↔ Forall (λ s, s = None) fs').
Proof.
  revert pre o log w. induction fs as [|s r IH]; intros pre o log w Ha Hs; simpl; [by rewrite Forall_nil|].
  assert (∀ x o1 log1 w1, agrees (pre ++ x :: r) o1 log1 → sane log1 →
    let '(w', log', r', o', d) := pass (S (length pre)) r o1 cx (w1, log1) in
    agrees (pre ++ x :: r') o' log' ∧ sane log' ∧ (d = true ↔ Forall (λ s, s = None) r')) as IH'.
  { intros x o1 log1 w1 H1 H2. specialize (IH (pre ++ [x]) o1 log1 w1).
    rewrite <- app_assoc, length_app, Nat.add_1_r in IH. specialize (IH H1 H2). simpl in IH.
    destruct (pass _ r _ cx _) as [[[[w' log'] r'] o'] d]. by rewrite <- app_assoc in IH. }
  clear IH. destruct s as [t|].
  - assert (tag t = length pre ∧ incomplete (length pre) log) as [Ht Hinc].
    { destruct Ha as [_ Hall]. destruct (Hall (length pre) (Some t)) as (? & _ & ?); [|done].
      by rewrite lookup_app_r, Nat.sub_diag. }
    pose proof (sane_polled log _ Hs Hinc) as Hs1.
    unfold poll at 1, poll_tagged. destruct (poll (inner t) cx w) as [[w1 f'] [v|]]; rewrite Ht.
    + pose proof (agrees_ready pre t r o log v Ha) as Ha2.
      pose proof (sane_completed _ _ v Hs1 (incomplete_polled _ (length pre) _ Hinc)) as Hs2.
      rewrite <- app_assoc in Hs2, Ha2. specialize (IH' None _ _ w1 Ha2 Hs2). simpl in *.
      destruct (pass _ r _ cx _) as [[[[w' log'] r'] o'] d]. rewrite Forall_cons. naive_solver.
    + pose proof (agrees_pending pre t r o log f' Ha) as Ha2. rewrite Ht in Ha2.
      specialize (IH' _ _ _ w1 Ha2 Hs1). simpl in *.
      destruct (pass _ r _ cx _) as [[[[w' log'] r'] o'] d]. rewrite Forall_cons. naive_solver.
  - specialize (IH' _ _ _ w Ha Hs). destruct (pass _ r _ cx _) as [[[[w' log'] r'] o'] d].
    rewrite Forall_cons. naive_solver.
Qed.

(** The states a join reaches, the world changing freely between its polls. *)
Inductive drives (fs : list F) : JA → list (Event A) → Prop :=
| drives_start : drives fs (join_all (imap Build_Tagged fs)) []
| drives_poll s log cx w w' s' log' :
    drives fs s log → poll_join_all s cx (w, log) = Done (w', log', s', Pending) → drives fs s' log'.

Lemma start_agrees fs : agrees (futs (join_all (A := A) (imap Build_Tagged fs))) (out (join_all (imap Build_Tagged fs))) [].
Proof.
  split; simpl; [by rewrite !length_fmap|]. intros i s. rewrite !list_lookup_fmap, list_lookup_imap.
  destruct (fs !! i); intros ?; simplify_eq/=. split_and!; [done..|]. intros v. apply not_elem_of_nil.
Qed.

Lemma poll_join_all_length s cx (w : W) log w' log' s' r :
  agrees (futs s) (out s) log → sane log →
  poll_join_all s cx (w, log) = Done (w', log', s', r) → length (futs s') = length (futs s).
Proof.
  intros Ha Hs. unfold poll_join_all.
  pose proof (pass_length (futs s) 0 (out s) cx (w, log)) as Hlen.
  destruct (pass _ _ _ _ _) as [[[[? ?] ?] ?] []]; simpl in *.
  - destruct (collect l1); intros; simplify_eq/=; done.
  - intros; simplify_eq/=; done.
Qed.

Lemma drives_inv fs s log : drives fs s log → agrees (futs s) (out s) log ∧ sane log ∧ length (futs s) = length fs.
Proof.
  induction 1 as [|s log cx w w' s' log' _ (Ha & Hs & Hl) Hp].
  - split_and!; [apply start_agrees|constructor|]. simpl. by rewrite length_fmap, length_imap.
  - rewrite <- Hl, <- (poll_join_all_length _ _ _ _ _ _ _ _ Ha Hs Hp).
    unfold poll_join_all in Hp. pose proof (pass_spec (futs s) [] (out s) log cx w Ha Hs) as H. simpl in H.
    destruct (pass _ _ _ _ _) as [[[[? ?] ?] ?] []]; [destruct (collect _)|]; simplify_eq/=. naive_solver.
Qed.

(** A join that has every result yields them in the futures' order. *)
Lemma collect_agrees fs o log :
  agrees fs o log → Forall (λ s, s = None) fs →
  ∃ vs, collect o = Done vs ∧ length vs = length fs ∧ ∀ i v, vs !! i = Some v → Completed i v ∈ log.
Proof.
  intros [Hl Hall] Hn. rewrite Forall_lookup in Hn.
  assert (∀ i, i < length o → ∃ v, o !! i = Some (Some v) ∧ Completed i v ∈ log) as Ho.
  { intros i Hi. destruct (lookup_lt_is_Some_2 fs i) as [s Hs]; [lia|]. pose proof (Hn i s Hs) as ->. apply (Hall i _ Hs). }
  unfold collect. destruct (mapM id o) as [vs|] eqn:E.
  - exists vs. apply mapM_Some in E. split_and!; [done|by rewrite <- Hl, (Forall2_length _ _ _ E)|].
    intros i v Hv. destruct (Forall2_lookup_r _ _ _ _ _ E Hv) as (x & Hx & Hxv). unfold id in Hxv. subst x.
    destruct (Ho i) as (u & Hu & ?); [by eapply lookup_lt_Some|]. by simplify_eq.
  - exfalso. apply mapM_None in E. apply Exists_exists in E as (x & [i Hi]%list_elem_of_lookup & Hx).
    destruct (Ho i) as (u & Hu & _); [by eapply lookup_lt_Some|]. by simplify_eq.
Qed.

(** [join_all] polls each future until it completes and never again, does
    not panic, and once all have completed yields their values in the original
    order, whatever order they completed in. *)
Theorem join_all_in_order fs s log cx w :
  drives fs s log →
  ∃ w' log' s' r, poll_join_all s cx (w, log) = Done (w', log', s', r) ∧ sane log' ∧
    match r with
    | Pending => drives fs s' log' ∧ ∃ i t, futs s' !! i = Some (Some t) ∧ incomplete i log'
    | Ready vs => length vs = length fs ∧ ∀ i v, vs !! i = Some v → Completed i v ∈ log'
    end.
Proof.
  intros Hd. destruct (drives_inv fs s log Hd) as (Ha & Hs & Hl).
  pose proof (pass_spec (futs s) [] (out s) log cx w Ha Hs) as H. simpl in H.
  pose proof (poll_join_all_length s cx w log) as Hlen.
  destruct (poll_join_all s cx (w, log)) as [[[[w' log'] s'] r]|m] eqn:E.
  - exists w', log', s', r. specialize (Hlen _ _ _ _ Ha Hs eq_refl).
    assert (r = Pending → drives fs s' log') as Hdr by (intros ->; by eapply drives_poll).
    unfold poll_join_all in E. destruct (pass _ _ _ _ _) as [[[[w1 log1] fs1] o1] d]. destruct H as (Ha1 & Hs1 & Hd1).
    destruct d.
    + destruct (collect_agrees fs1 o1 log1 Ha1) as (vs & Hc & Hvl & Hv); [by apply Hd1|].
      rewrite Hc in E. simplify_eq/=. split_and!; [done|done|congruence|done].
    + simplify_eq/=. split_and!; [done|done|by apply Hdr|].
      destruct (decide (Forall (λ s, s = None) fs1)) as [Hf|Hf]; [by apply Hd1 in Hf|].
      apply not_Forall_Exists, Exists_exists in Hf as (x & [i Hi]%list_elem_of_lookup & Hx); [|apply _].
      destruct x as [t|]; [|by destruct Hx]. exists i, t. split; [done|]. by apply (proj2 Ha1 i (Some t)).
  - exfalso. unfold poll_join_all in E. destruct (pass _ _ _ _ _) as [[[[w1 log1] fs1] o1] []]; [|done].
    destruct H as (Ha1 & _ & Hd1). destruct (collect_agrees fs1 o1 log1 Ha1) as (vs & Hc & _); [by apply Hd1|].
    by rewrite Hc in E.
Qed.

End Order.
End Combinators.

Module CombinatorsWitnesses.
Import Combinators.

(** A future that suspends [n] times, then yields the name of the world. *)
Definition Countdown := (nat * string)%type.
#[local] Instance poll_countdown : Future unit Countdown string := λ c cx w,
  match c with
  | (0, v) => (w, c, Ready v)
  | (S n, v) => (w, (n, v), Pending)
  end.

Definition slow_fast : list Countdown := [(1, "slow"%string); (0, "fast"%string)].
Definition started : JoinAll (Tagged Countdown) string := join_all (imap Build_Tagged slow_fast).
Definition half_way : JoinAll (Tagged Countdown) string :=
  {| futs := [Some {| tag := 0; inner := (0, "slow"%string) |}; None]; out := [None; Some "fast"%string] |}.

Lemma half_way_drives : drives slow_fast half_way [Polled 0; Polled 1; Completed 1 "fast"%string].
Proof. eapply (drives_poll slow_fast started [] 3 tt tt); [apply drives_start|reflexivity]. Qed.

Lemma join_all_in_order_witness :
  drives slow_fast half_way [Polled 0; Polled 1; Completed 1 "fast"%string] ∧
  ∃ w' log' s' r, poll_join_all half_way 3 (tt, [Polled 0; Polled 1; Completed 1 "fast"%string])
    = Done (w', log', s', r) ∧ sane log'.
Proof.
  split; [apply half_way_drives|].
  destruct (join_all_in_order slow_fast half_way _ 3 tt half_way_drives) as (w' & log' & s' & r & H & Hs & _).
  exists w', log', s', r. split; assumption.
Defined.

End CombinatorsWitnesses.
