(* ===== verification/Path.v ===== *)
(** * Path: positions in the component tree (rustdv-sim/src/path.rs).

    A [RustdvPath] is a list of segments with its dotted rendering cached
    beside it; [str_is_under] answers the same question on the text form.
    Strings are byte strings: the separator is ASCII, so splitting on it is the
    same on bytes and on characters. *)
From Stdlib Require Import Ascii.
From S2P Require Import Prelude.

Module Path.

Definition dot : ascii := "."%char.

(** [str::split('.')]: never empty; [""] splits to [[""]]. *)
Fixpoint split_dot (s : string) : list string :=
  match s with
  | EmptyString => [EmptyString]
  | String c r =>
      if Ascii.eqb c dot then EmptyString :: split_dot r
      else match split_dot r with
        | x :: xs => String c x :: xs
        | [] => [String c EmptyString]
        end
  end.

Record RustdvPath := { segments : list string; rendered : string }.

Definition root (name : string) : RustdvPath := {| segments := [name]; rendered := name |}.
Definition empty : RustdvPath := {| segments := []; rendered := EmptyString |}.

Definition child (p : RustdvPath) (name : string) : RustdvPath :=
  {| segments := segments p ++ [name];
     rendered := if decide (rendered p = EmptyString) then name else rendered p +:+ "." +:+ name |}.

Definition as_str (p : RustdvPath) : string := rendered p.
Definition depth (p : RustdvPath) : nat := length (segments p).
Definition is_empty (p : RustdvPath) : bool := match segments p with [] => true | _ => false end.

Definition is_under (p prefix : RustdvPath) : bool :=
  bool_decide (length (segments prefix) ≤ length (segments p)) &&
  bool_decide (take (length (segments prefix)) (segments p) = segments prefix).

(** The loop of [str_is_under]: [have.next()] against each wanted segment. *)
Fixpoint matches (want have : list string) : bool :=
  match want with
  | [] => true
  | w :: ws =>
      match have with
      | h :: hs => if decide (h = w) then matches ws hs else false
      | [] => false
      end
  end.

Definition str_is_under (path prefix : string) : bool :=
  if decide (prefix = EmptyString) then true
  else matches (split_dot prefix) (split_dot path).

(** ** Splitting and joining *)

Fixpoint dotless (s : string) : bool :=
  match s with EmptyString => true | String c r => negb (Ascii.eqb c dot) && dotless r end.

(** A legal segment: the names the walk uses are identifiers. *)
Definition name_ok (s : string) : Prop := s ≠ EmptyString ∧ dotless s = true.

Lemma split_dot_not_nil s : split_dot s ≠ [].
Proof. destruct s as [|c r]; simpl; [done|]. destruct (Ascii.eqb c dot); [done|]. by destruct (split_dot r). Qed.

Lemma split_dot_dotless s : dotless s = true → split_dot s = [s].
Proof.
  induction s as [|c r IH]; simpl; [done|]. intros [H1 H2]%andb_prop. apply negb_true_iff in H1.
  by rewrite H1, IH.
Qed.

Lemma split_dot_app a b : split_dot (a +:+ String dot b) = split_dot a ++ split_dot b.
Proof.
  induction a as [|c r IH]; [done|]. change (String c r +:+ String dot b) with (String c (r +:+ String dot b)).
  simpl. rewrite IH. destruct (Ascii.eqb c dot); [done|].
  destruct (split_dot r) as [|x xs] eqn:E; [by destruct (split_dot_not_nil r)|done].
Qed.

Lemma join_cons sep p q r : join_with sep (p :: q :: r) = p +:+ sep +:+ join_with sep (q :: r).
Proof. done. Qed.

Lemma join_app a b :
  a ≠ [] → b ≠ [] → join_with "." (a ++ b) = join_with "." a +:+ String dot (join_with "." b).
Proof.
  intros Ha Hb. induction a as [|x [|y r] IH]; [done|by destruct b|].
  simpl app. rewrite !join_cons. simpl app in IH. rewrite IH by done. rewrite !string_app_assoc. done.
Qed.

Lemma join_split s : join_with "." (split_dot s) = s.
Proof.
  induction s as [|c r IH]; [done|]. simpl. destruct (Ascii.eqb_spec c dot) as [->|].
  - destruct (split_dot r) eqn:E; [by destruct (split_dot_not_nil r)|]. rewrite join_cons, IH. done.
  - destruct (split_dot r) as [|x [|y xs]] eqn:E; [by destruct (split_dot_not_nil r)|by simpl in *; subst|].
    rewrite join_cons in *. rewrite <- IH. done.
Qed.

Lemma split_join l : l ≠ [] → Forall (λ s, dotless s = true) l → split_dot (join_with "." l) = l.
Proof.
  induction l as [|x [|y r] IH]; [done|..]; intros _ Hf.
  - inversion_clear Hf. by apply split_dot_dotless.
  - inversion_clear Hf as [|? ? Hx Hr]. rewrite join_cons.
    change ("." +:+ join_with "." (y :: r)) with (String dot (join_with "." (y :: r))).
    rewrite split_dot_app, split_dot_dotless, IH by done. done.
Qed.

Lemma matches_prefix want have : matches want have = true ↔ want `prefix_of` have.
Proof.
  revert have. induction want as [|w ws IH]; intros have; simpl.
  - split; [intros _; apply prefix_nil|done].
  - destruct have as [|h hs]; [split; [done|]; by intros ?%prefix_nil_not|].
    destruct (decide (h = w)) as [->|Hne]; [rewrite IH; split; [apply prefix_cons|apply prefix_cons_inv_2]|].
    split; [done|]. intros H%prefix_cons_inv_1. congruence.
Qed.

Lemma is_under_prefix p q : is_under p q = true ↔ segments q `prefix_of` segments p.
Proof.
  unfold is_under. rewrite andb_true_iff, !bool_decide_eq_true. split.
  - intros [_ H]. exists (drop (length (segments q)) (segments p)). rewrite <- H at 1. by rewrite take_drop.
  - intros [k ->]. by rewrite length_app, take_app_length; auto with lia.
Qed.

(** The text form of "at or below" is the string comparison the documentation
    gives: equal, or extended after a dot; the empty prefix covers everything. *)
Lemma str_is_under_text path prefix :
  str_is_under path prefix = true ↔
  prefix = EmptyString ∨ path = prefix ∨ ∃ rest, path = prefix +:+ "." +:+ rest.
Proof.
  unfold str_is_under. destruct (decide (prefix = EmptyString)) as [|Hne]; [naive_solver|].
  rewrite matches_prefix. split.
  - intros [[|y r] Hk]; right; rewrite <- (join_split path), <- (join_split prefix), Hk.
    + left. by rewrite app_nil_r.
    + right. exists (join_with "." (y :: r)). by rewrite join_app by (apply split_dot_not_nil || done).
  - intros [?|[->|[rest ->]]]; [done|done|].
    change ("." +:+ rest) with (String dot rest). rewrite split_dot_app. by apply prefix_app_r.
Qed.

(** ** Paths of the walk *)

(** The paths the walk can produce from legal names. *)
Inductive derived : RustdvPath → Prop :=
| d_empty : derived empty
| d_root n : name_ok n → derived (root n)
| d_child p n : derived p → name_ok n → derived (child p n).

Lemma derived_rendered p :
  derived p → rendered p = join_with "." (segments p) ∧ Forall name_ok (segments p).
Proof.
  induction 1 as [|n Hn|p n _ [IHr IHf] Hn]; [done|simpl; split; [done|by rewrite Forall_singleton]|].
  split; [|simpl; apply Forall_app; split; [done|by rewrite Forall_singleton]]. unfold child. simpl.
  destruct (segments p) as [|x r] eqn:E; [by rewrite IHr|].
  rewrite decide_False.
  - rewrite IHr. rewrite join_app by done. done.
  - rewrite IHr. inversion_clear IHf as [|? ? [Hx _] _]. destruct x; [done|]. by destruct r.
Qed.

Lemma derived_dotless p : derived p → Forall (λ s, dotless s = true) (segments p).
Proof. intros [_ H]%derived_rendered. eapply Forall_impl; [exact H|]. by intros ? []. Qed.

(** For every path the walk derives, the cached rendering is the segments
    joined with dots, distinct positions never share a rendering, and the
    segment-wise and text forms of "at or below" agree, so [ab] is never taken
    for a child of [a]. *)
Theorem path_forms_agree p q :
  derived p → derived q →
  rendered p = join_with "." (segments p) ∧
  (rendered p = rendered q → p = q) ∧
  is_under p q = str_is_under (rendered p) (rendered q).
Proof.
  intros Hp Hq. destruct (derived_rendered p Hp) as [Ep Fp]. destruct (derived_rendered q Hq) as [Eq Fq].
  pose proof (derived_dotless p Hp) as Dp. pose proof (derived_dotless q Hq) as Dq.
  assert (∀ r, derived r → rendered r = EmptyString → segments r = []) as Hnil.
  { intros r [Er Fr]%derived_rendered E0. destruct (segments r) as [|x xs]; [done|].
    inversion_clear Fr as [|? ? [Hx _] _]. rewrite E0 in Er. destruct x; [done|]. by destruct xs. }
  assert (∀ r, derived r → segments r ≠ [] → split_dot (rendered r) = segments r) as Hsplit.
  { intros r Hr Hne. destruct (derived_rendered r Hr) as [-> _]. apply split_join; [done|by apply derived_dotless]. }
  split_and!; [done| |].
  - intros E. assert (segments p = segments q) as Es.
    { destruct (segments p) eqn:E1.
      - simpl in Ep. symmetry. apply Hnil; [done|congruence].
      - destruct (segments q) eqn:E2; [simpl in Eq; rewrite (Hnil p Hp) in E1; [done|congruence]|].
        rewrite <- E1, <- E2, <- (Hsplit p), <- (Hsplit q) by congruence. by rewrite E. }
    destruct p, q; simpl in *; congruence.
  - apply Bool.eq_true_iff_eq. rewrite is_under_prefix. unfold str_is_under.
    destruct (decide (rendered q = EmptyString)) as [E0|Hne].
    + rewrite (Hnil q Hq E0). split; [done|intros _; apply prefix_nil].
    + assert (segments q ≠ []) as Hq0 by (intros E1; rewrite E1 in Eq; done).
      rewrite matches_prefix, (Hsplit q Hq Hq0). destruct (segments p) eqn:E1.
      * simpl in Ep. rewrite Ep. simpl. split; intros [k Hk]; destruct (segments q) as [|x xs]; try done.
        simplify_eq/=. inversion_clear Fq as [|? ? [Hx _] _]. done.
      * rewrite <- E1, (Hsplit p Hp) by congruence. done.
Qed.

End Path.

Module PathWitnesses.
Import Path.

Lemma path_forms_agree_witness :
  derived (child (root "env") "scoreboard") ∧ derived (root "en") ∧
  is_under (child (root "env") "scoreboard") (root "en")
    = str_is_under "env.scoreboard" "en".
Proof.
  assert (derived (child (root "env") "scoreboard")) as H1 by (by repeat first [apply d_child | apply d_root]).
  assert (derived (root "en")) as H2 by (by repeat first [apply d_child | apply d_root]).
  split; [exact H1|]. split; [exact H2|].
  exact (proj2 (proj2 (path_forms_agree _ _ H1 H2))).
Defined.

End PathWitnesses.
