(* ===== verification/Log.v ===== *)
(** * Log: levels, handlers and console suppression (rustdv-sim/src/log.rs).

    The thread-local configuration is one record; emitting returns the writes
    it makes, each to the console or to a file.  Files are named by the handle
    the operating system gave; opening one may fail, so the operations that
    open take the outcome of the open.  The time stamp is text the caller
    formats. *)
From Stdlib Require Import Ascii.
From S2P Require Import Prelude Path.

Module Log.

Inductive Level := Debug | Info | Warning | Error | Critical | Off.

(** The discriminants: levels are compared by them. *)
Definition rank (l : Level) : nat :=
  match l with Debug => 0 | Info => 1 | Warning => 2 | Error => 3 | Critical => 4 | Off => 5 end.
Definition level_ge (a b : Level) : bool := rank b <=? rank a.

Definition level_str (l : Level) : string :=
  match l with
  | Debug => "DEBUG" | Info => "INFO" | Warning => "WARNING"
  | Error => "ERROR" | Critical => "CRITICAL" | Off => "OFF"
  end.

Abbreviation File := nat (only parsing).

Record Config := {
  threshold : Level;
  target_levels : list (string * Level);
  log_file : option File;
  target_files : list (string * File);
  target_console : list (string * bool);
}.

Definition initial : Config :=
  {| threshold := Info; target_levels := []; log_file := None; target_files := []; target_console := [] |}.

Definition set_level (l : Level) (c : Config) : Config :=
  {| threshold := l; target_levels := target_levels c; log_file := log_file c;
     target_files := target_files c; target_console := target_console c |}.

(** [v.retain(|(p, _)| p != prefix); v.push((prefix, x))]. *)
Definition replace_entry {A} (prefix : string) (x : A) (v : list (string * A)) : list (string * A) :=
  filter (λ e, e.1 ≠ prefix) v ++ [(prefix, x)].

Definition set_level_for (prefix : string) (l : Level) (c : Config) : Config :=
  {| threshold := threshold c; target_levels := replace_entry prefix l (target_levels c); log_file := log_file c;
     target_files := target_files c; target_console := target_console c |}.

Definition set_console_for (prefix : string) (on : bool) (c : Config) : Config :=
  {| threshold := threshold c; target_levels := target_levels c; log_file := log_file c;
     target_files := target_files c; target_console := replace_entry prefix on (target_console c) |}.

(** [opened] is what [open_log] answered. *)
Definition log_to_file {E} (opened : Result File E) (c : Config) : Result Config E :=
  match opened with
  | Ok f => Ok {| threshold := threshold c; target_levels := target_levels c; log_file := Some f;
                  target_files := target_files c; target_console := target_console c |}
  | Err e => Err e
  end.

Definition remove_log_file (c : Config) : Config :=
  {| threshold := threshold c; target_levels := target_levels c; log_file := None;
     target_files := target_files c; target_console := target_console c |}.

Definition add_file_for {E} (prefix : string) (opened : Result File E) (c : Config) : Result Config E :=
  match opened with
  | Ok f => Ok {| threshold := threshold c; target_levels := target_levels c; log_file := log_file c;
                  target_files := target_files c ++ [(prefix, f)]; target_console := target_console c |}
  | Err e => Err e
  end.

Definition reset_config (c : Config) : Config :=
  {| threshold := Info; target_levels := []; log_file := None; target_files := []; target_console := [] |}.

Definition under (path prefix : string) : bool := Path.str_is_under path prefix.

(** [Iterator::max_by_key]: the last of the greatest. *)
Definition max_by_key {A} (key : A → nat) (l : list A) : option A :=
  foldl (λ acc x, match acc with
                  | None => Some x
                  | Some y => if key x <? key y then Some y else Some x
                  end) None l.

(** [iter().filter(under).max_by_key(len).map(value)]. *)
Definition resolve {A} (v : list (string * A)) (path : string) : option A :=
  snd <$> max_by_key (λ e, String.length e.1) (filter (λ e, under path e.1 = true) v).

Definition console_enabled_for (c : Config) (path : string) : bool :=
  match resolve (target_console c) path with Some on => on | None => true end.

Inductive Sink := Console | ToFile (f : File).

Definition emit_for (c : Config) (path line : string) : list (Sink * string) :=
  (if console_enabled_for c path then [(Console, line)] else []) ++
  omap (λ e, if under path e.1 then Some (ToFile e.2, line) else None) (target_files c) ++
  match log_file c with Some f => [(ToFile f, line)] | None => [] end.

Definition emit (c : Config) (line : string) : list (Sink * string) :=
  (Console, line) :: match log_file c with Some f => [(ToFile f, line)] | None => [] end.

(** [{:<8}]. *)
Fixpoint pad_right (n : nat) (s : string) : string :=
  match n, s with
  | 0, _ => s
  | S m, EmptyString => String " "%char (pad_right m EmptyString)
  | S m, String c r => String c (pad_right m r)
  end.

Definition log (c : Config) (stamp : string) (l : Level) (msg : string) : list (Sink * string) :=
  if level_ge l (threshold c) then
    emit c (stamp +:+ "ns " +:+ pad_right 8 (level_str l) +:+ " " +:+ msg)
  else [].

(** ** Named loggers *)

Record Logger := { path : Path.RustdvPath }.

Definition new (p : string) : Logger :=
  {| path := if decide (p = EmptyString) then Path.empty
             else foldl Path.child Path.empty (Path.split_dot p) |}.
Definition at_ (p : Path.RustdvPath) : Logger := {| path := p |}.

Definition enabled (c : Config) (lg : Logger) (l : Level) : bool :=
  match resolve (target_levels c) (Path.as_str (path lg)) with
  | Some t => level_ge l t
  | None => level_ge l (threshold c)
  end.

Definition logger_log (c : Config) (lg : Logger) (stamp : string) (l : Level) (msg : string) : list (Sink * string) :=
  if enabled c lg l then
    emit_for c (Path.as_str (path lg))
      (stamp +:+ "ns " +:+ pad_right 8 (level_str l) +:+ " [" +:+ Path.as_str (path lg) +:+ "]: " +:+ msg)
  else [].

(** ** Resolution of per-subtree settings *)

Lemma max_by_key_snoc {A} (key : A → nat) l x :
  max_by_key key (l ++ [x]) =
  match max_by_key key l with None => Some x | Some y => if key x <? key y then Some y else Some x end.
Proof. unfold max_by_key. by rewrite foldl_app. Qed.

Lemma max_by_key_spec {A} (key : A → nat) l :
  match max_by_key key l with
  | None => l = []
  | Some x => x ∈ l ∧ ∀ y, y ∈ l → key y ≤ key x
  end.
Proof.
  induction l as [|x l IH] using rev_ind; [done|]. rewrite max_by_key_snoc.
  destruct (max_by_key key l) as [y|].
  - destruct IH as [Hy Hmax]. destruct (Nat.ltb_spec (key x) (key y)).
    + split; [set_solver|]. intros z [?%Hmax| ->%list_elem_of_singleton]%elem_of_app; lia.
    + split; [set_solver|]. intros z [?%Hmax| ->%list_elem_of_singleton]%elem_of_app; lia.
  - subst. simpl. split; [set_solver|]. by intros y ->%list_elem_of_singleton.
Qed.

(** What was last set for a prefix by a history of settings. *)
Definition last_set {A} (hist : list (string * A)) (p : string) : option A :=
  foldl (λ acc e, if decide (e.1 = p) then Some e.2 else acc) None hist.

Definition table {A} (hist : list (string * A)) : list (string * A) :=
  foldl (λ v e, replace_entry e.1 e.2 v) [] hist.

Lemma table_elem {A} (hist : list (string * A)) p x :
  (p, x) ∈ table hist ↔ last_set hist p = Some x.
Proof.
  unfold table, last_set. induction hist as [|[q y] hist IH] using rev_ind; simpl; [set_solver|].
  rewrite !foldl_app. simpl. unfold replace_entry.
  rewrite elem_of_app, list_elem_of_filter, list_elem_of_singleton. simpl.
  destruct (decide (q = p)) as [->|Hne]; [naive_solver|]. rewrite <- IH. naive_solver.
Qed.

(** Two prefixes of one path with the same length are the same. *)
Lemma string_prefix_unique (a b x y : string) :
  String.length a = String.length b → a +:+ x = b +:+ y → a = b.
Proof.
  revert b. induction a as [|c a IH]; intros [|d b] Hl He; try done.
  change (String c (a +:+ x) = String d (b +:+ y)) in He. simplify_eq/=. f_equal. by apply IH.
Qed.

Lemma under_text p prefix : under p prefix = true → ∃ rest, p = prefix +:+ rest.
Proof.
  intros [->|[->|[rest ->]]]%Path.str_is_under_text.
  - by exists p.
  - exists EmptyString. by rewrite string_app_nil_r.
  - by exists ("." +:+ rest).
Qed.

Lemma under_unique p a b :
  under p a = true → under p b = true → String.length a = String.length b → a = b.
Proof. intros [x Hx]%under_text [y Hy]%under_text Hl. apply (string_prefix_unique a b x y); congruence. Qed.

(** A subtree setting is decided by the longest prefix that covers the path,
    and for that prefix by the last call. *)
Lemma subtree_setting_resolution {A} (hist : list (string * A)) (p : string) :
  match resolve (table hist) p with
  | Some x => ∃ prefix, under p prefix = true ∧ last_set hist prefix = Some x ∧
      ∀ other, under p other = true → is_Some (last_set hist other) →
        other = prefix ∨ String.length other < String.length prefix
  | None => ∀ prefix, under p prefix = true → last_set hist prefix = None
  end.
Proof.
  unfold resolve. set (l := filter _ _).
  assert (∀ q x, (q, x) ∈ l ↔ under p q = true ∧ last_set hist q = Some x) as Hl.
  { intros q x. unfold l. by rewrite list_elem_of_filter, table_elem. }
  pose proof (max_by_key_spec (λ e : string * A, String.length e.1) l) as H.
  destruct (max_by_key _ l) as [[q x]|]; simpl in *.
  - destruct H as [[Hq Hx]%Hl Hmax]. exists q. split_and!; [done..|]. intros other Ho [y Hy].
    specialize (Hmax (other, y)). simpl in Hmax. rewrite Hl in Hmax. specialize (Hmax (conj Ho Hy)).
    destruct (decide (String.length other = String.length q)) as [E|]; [left|right; lia].
    by apply (under_unique p).
  - intros q Hq. destruct (last_set hist q) as [x|] eqn:E; [|done].
    assert ((q, x) ∈ l) as Hin by (by apply Hl). rewrite H in Hin. by apply elem_of_nil in Hin.
Qed.

(** The tables of a configuration are built by exactly such histories. *)
Lemma config_tables (ls : list (string * Level)) (cs : list (string * bool)) c :
  target_levels (foldl (λ c e, set_level_for e.1 e.2 c) (reset_config c) ls) = table ls ∧
  target_console (foldl (λ c e, set_console_for e.1 e.2 c) (reset_config c) cs) = table cs.
Proof.
  unfold table. split.
  - induction ls as [|e ls IH] using rev_ind; [done|]. rewrite !foldl_app. simpl. by rewrite IH.
  - induction cs as [|e cs IH] using rev_ind; [done|]. rewrite !foldl_app. simpl. by rewrite IH.
Qed.

(** After a reset and any sequence of [set_level_for] calls, whether a
    component's message passes is decided by the longest prefix that covers the
    component, and for that prefix by the last call: earlier calls for the same
    prefix, shorter prefixes and other subtrees (or whatever an earlier test
    configured) never matter; with no covering prefix the default level holds. *)
Theorem level_resolution hist c0 lg l :
  let c := foldl (λ c e, set_level_for e.1 e.2 c) (reset_config c0) hist in
  let p := Path.as_str (path lg) in
  (enabled c lg l = level_ge l Info ∧ ∀ prefix, under p prefix = true → last_set hist prefix = None) ∨
  ∃ prefix t, enabled c lg l = level_ge l t ∧ under p prefix = true ∧ last_set hist prefix = Some t ∧
    ∀ other, under p other = true → is_Some (last_set hist other) →
      other = prefix ∨ String.length other < String.length prefix.
Proof.
  cbv zeta. pose proof (subtree_setting_resolution hist (Path.as_str (path lg))) as H.
  unfold enabled. destruct (config_tables hist [] c0) as [-> _].
  assert (threshold (foldl (λ c e, set_level_for e.1 e.2 c) (reset_config c0) hist) = Info) as ->.
  { clear H. induction hist as [|e hist IH] using rev_ind; [done|]. by rewrite foldl_app. }
  destruct (resolve (table hist) _) as [t|]; [right|by left].
  destruct H as (prefix & ? & ? & ?). by exists prefix, t.
Qed.

(** With logging off nothing is written anywhere for the subtree. *)
Lemma off_silences c lg stamp l msg :
  l ≠ Off → resolve (target_levels c) (Path.as_str (path lg)) = Some Off → logger_log c lg stamp l msg = [].
Proof. intros Hl H. unfold logger_log, enabled. rewrite H. by destruct l. Qed.

End Log.
