(* ===== verification/Config.v ===== *)
(** * Config: the path-addressed configuration database
    (rustdv-methodology/src/config.rs).

    [Store] is three nested [BTreeMap]s, kept as association lists in key
    order.  A stored value is a [dyn Any]: the class [Typed] gives what the
    code uses of a Rust type, its id, its name, its [Debug] text and the casts
    into and out of [Any].  A context is only read for its path. *)
From Stdlib Require Import Ascii Sorting.Sorted.
From stdpp Require Import pretty.
From S2P Require Import Prelude Path Log.

Module Config.

(** ** BTreeMap *)

Section BTree.
Context {K A : Type} (lt : K → K → bool).

(** [entry(k).or_default()] (or [insert]) followed by a write of [f old]. *)
Fixpoint bt_update (k : K) (f : option A → A) (m : list (K * A)) : list (K * A) :=
  match m with
  | [] => [(k, f None)]
  | (k', a) :: r =>
      if lt k k' then (k, f None) :: m
      else if lt k' k then (k', a) :: bt_update k f r
      else (k', f (Some a)) :: r
  end.

Definition bt_get (k : K) (m : list (K * A)) : option A :=
  snd <$> find_first (λ e, negb (lt k e.1) && negb (lt e.1 k)) m.
End BTree.

Definition str_lt (a b : string) : bool := match String.compare a b with Lt => true | _ => false end.

(** ** Globs *)

Definition star : ascii := "*"%char.

(** [inner] of [glob_match], on the bytes. *)
Fixpoint glob_inner (g : list ascii) : list ascii → bool :=
  match g with
  | [] => λ p, match p with [] => true | _ => false end
  | c :: g' =>
      if Ascii.eqb c star then
        (fix star_loop (p : list ascii) : bool :=
           glob_inner g' p || match p with [] => false | _ :: p' => star_loop p' end)
      else λ p, match p with
        | a :: p' => if Ascii.eqb a c then glob_inner g' p' else false
        | [] => false
        end
  end.

Definition glob_match (path pattern : string) : bool :=
  glob_inner (list_of_string pattern) (list_of_string path).

Definition more_specific (a b : string) : bool := glob_match a b.

(** The comparator of [get]:
    [more_specific(a, b).cmp(&more_specific(b, a)).reverse()]. *)
Definition specificity_cmp (a b : string) : comparison :=
  match more_specific a b, more_specific b a with
  | true, false => Lt
  | false, true => Gt
  | _, _ => Eq
  end.

(** [slice::sort_by], stable, as the insertion sort it is on short slices (up to
    twenty elements): each element in turn moves left past the elements it is
    less than.  [done] is the sorted part, last element first.  On longer slices
    the library merges, which gives the same list when the comparator orders
    totally; [specificity_cmp] need not, and then longer slices are outside the
    model. *)
Fixpoint shift_left {A} (less : A → A → bool) (x : A) (done : list A) : list A :=
  match done with
  | [] => [x]
  | y :: r => if less x y then y :: shift_left less x r else x :: done
  end.
Definition sort_by {A} (cmp : A → A → comparison) (l : list A) : list A :=
  reverse (foldl (λ done x, shift_left (λ a b, match cmp a b with Lt => true | _ => false end) x done) [] l).

(** ** Contexts *)

Definition resolve (ctx : option string) (offset : string) : string :=
  match ctx with
  | None => offset
  | Some c =>
      if decide (offset = EmptyString) then c
      else if decide (c = EmptyString) then offset
      else c +:+ "." +:+ offset
  end.

(** [path.matches('.').count()]. *)
Fixpoint count_dots (s : string) : Z :=
  match s with
  | EmptyString => 0
  | String c r => (if Ascii.eqb c Path.dot then 1 else 0) + count_dots r
  end%Z.

Definition depth_of (path : string) : Z :=
  if decide (path = EmptyString) then 0%Z else count_dots path.

Definition DEFAULT_PRECEDENCE : Z := 1000.

(** ** Values and errors *)

Inductive ConfigError :=
| NotFound (path field : string)
| TypeMismatch (path field stored requested : string).

Definition kind (e : ConfigError) : string :=
  match e with
  | NotFound _ _ => "config_not_found"
  | TypeMismatch _ _ _ _ => "config_type_mismatch"
  end.

Section Db.
Context {Any : Type}.

(** What the database needs of the type [T] of a value. *)
Class Typed (T : Type) := {
  type_id : nat;
  type_name : string;
  debug : T → string;
  inject : T → Any;
  downcast : Any → option T;
}.
Class TypedLaws (T : Type) `{Typed T} := {
  downcast_inject x : downcast (inject x) = Some x;
}.

Record Entry := { value : Any; entry_type_name : string; entry_type_id : nat; rendered : string }.

Definition Fields := list (string * list (Z * Entry)).
Definition Store := list (string * Fields).

Record ConfigDb := { store : Store; tracing : bool; in_build : bool }.

Definition initial : ConfigDb := {| store := []; tracing := false; in_build := false |}.

Definition set_tracing (on : bool) (d : ConfigDb) : ConfigDb :=
  {| store := store d; tracing := on; in_build := in_build d |}.
Definition set_in_build (on : bool) (d : ConfigDb) : ConfigDb :=
  {| store := store d; tracing := tracing d; in_build := on |}.
Definition clear (d : ConfigDb) : ConfigDb := {| store := []; tracing := false; in_build := false |}.

Definition quote : string := String "034"%char EmptyString.

(** The line a traced operation logs. *)
Definition trace (d : ConfigDb) (op : string) (ctx : option string) (offset path field v : string) : option string :=
  if tracing d then
    Some ("CFGDB/" +:+ op +:+ " context=" +:+ default "<none>"%string ctx +:+ " offset=" +:+ quote +:+ offset +:+ quote +:+
          " -> " +:+ path +:+ " " +:+ field +:+ "=" +:+ v)
  else None.

Definition store_entry (path field : string) (prec : Z) (e : Entry) (s : Store) : Store :=
  bt_update str_lt path (λ of_, bt_update str_lt field (λ op,
    bt_update Z.ltb prec (λ _, e) (default [] op)) (default [] of_)) s.

Definition precedence (building : bool) (ctx : option string) : Z :=
  let setter_depth := match ctx with Some c => depth_of c | None => 0%Z end in
  if building then (DEFAULT_PRECEDENCE - setter_depth)%Z else DEFAULT_PRECEDENCE.

Definition set {T} `{Typed T} (ctx : option string) (offset field : string) (v : T) (d : ConfigDb) : ConfigDb * option string :=
  let path := resolve ctx offset in
  let prec := precedence (in_build d) ctx in
  let e := {| rendered := debug v; value := inject v; entry_type_name := type_name (T := T); entry_type_id := type_id (T := T) |} in
  let line := trace d "SET" ctx offset path field (rendered e) in
  ({| store := store_entry path field prec e (store d); tracing := tracing d; in_build := in_build d |}, line).

(** [by_prec.iter().next_back()]: the entry of highest precedence. *)
Definition highest (m : list (Z * Entry)) : option Entry := snd <$> last m.

(** The entries for [field] under the patterns that match [path], in key order. *)
Definition candidates (s : Store) (path field : string) : list (string * Entry) :=
  omap (λ pf : string * Fields,
    if glob_match path pf.1 then
      match bt_get str_lt field pf.2 with
      | Some by_prec => (λ e, (pf.1, e)) <$> highest by_prec
      | None => None
      end
    else None) s.

Definition find_entry (s : Store) (path field : string) : option Entry :=
  snd <$> head (sort_by (λ a b, specificity_cmp a.1 b.1) (candidates s path field)).

Definition get {T} `{Typed T} (ctx : option string) (offset field : string) (d : ConfigDb) :
    Exec (Result T ConfigError * option string) :=
  let path := resolve ctx offset in
  match find_entry (store d) path field with
  | None => Done (Err (NotFound path field), trace d "GET" ctx offset path field "<not found>")
  | Some e =>
      if decide (entry_type_id e ≠ type_id (T := T)) then
        Done (Err (TypeMismatch path field (entry_type_name e) (type_name (T := T))),
              trace d "GET" ctx offset path field "<type mismatch>")
      else match downcast (value e) with
        | Some v => Done (Ok v, trace d "GET" ctx offset path field (rendered e))
        | None => Panic "type id checked above"
        end
  end.

Definition exists_ (ctx : option string) (offset field : string) (d : ConfigDb) : bool :=
  let path := resolve ctx offset in
  existsb (λ pf : string * Fields, glob_match path pf.1 &&
    match bt_get str_lt field pf.2 with Some _ => true | None => false end) (store d).

(** The dump: every entry, the highest precedence of each field first. *)
Definition dump_field (path field : string) (by_prec : list (Z * Entry)) : string :=
  let data := join_with ", " (map (λ pe : Z * Entry, pretty pe.1 +:+ ": " +:+ rendered pe.2) (reverse by_prec)) in
  String "010"%char (Log.pad_right 28 path +:+ ": " +:+ Log.pad_right 10 field +:+ ": {" +:+ data +:+ "}").
Definition dump (d : ConfigDb) : string :=
  foldl (λ (out : string) (pf : string * Fields),
      foldl (λ (out : string) (fb : string * list (Z * Entry)), out +:+ dump_field pf.1 fb.1 fb.2) out pf.2)
    (Log.pad_right 28 "PATH" +:+ ": " +:+ Log.pad_right 10 "KEY" +:+ ": DATA") (store d).

Definition OVERRIDE_PREFIX : string := "__factory_override__".

(** [str::strip_prefix]. *)
Fixpoint strip_prefix (p s : string) : option string :=
  match p, s with
  | EmptyString, _ => Some s
  | String a p', String b s' => if Ascii.eqb a b then strip_prefix p' s' else None
  | _, _ => None
  end.
(** [str::trim_start_matches]: every repetition goes; [fuel] bounds them. *)
Fixpoint trim_start (fuel : nat) (p s : string) : string :=
  match fuel with
  | 0 => s
  | S n => match strip_prefix p s with Some s' => trim_start n p s' | None => s end
  end.

Definition factory_overrides (d : ConfigDb) : list (string * string * string) :=
  concat (map (λ pf : string * Fields, omap (λ fb : string * list (Z * Entry),
    match strip_prefix OVERRIDE_PREFIX fb.1, highest fb.2 with
    | Some from, Some e => Some (pf.1, from, trim_start (String.length (rendered e)) "-> " (rendered e))
    | _, _ => None
    end) pf.2) (store d)).

End Db.
Arguments Entry : clear implicits.
Arguments Store : clear implicits.
Arguments ConfigDb : clear implicits.
Arguments Typed : clear implicits.

(** ** The language of a glob *)

(** [Glob g p]: the pattern [g] denotes [p]; a star stands for any text. *)
Inductive Glob : list ascii → list ascii → Prop :=
| g_nil : Glob [] []
| g_char c g p : c ≠ star → Glob g p → Glob (c :: g) (c :: p)
| g_star g p1 p2 : Glob g p2 → Glob (star :: g) (p1 ++ p2).

Lemma glob_star_unfold g p :
  glob_inner (star :: g) p = glob_inner g p || match p with [] => false | _ :: p' => glob_inner (star :: g) p' end.
Proof. by destruct p. Qed.

Lemma glob_inner_spec g p : glob_inner g p = true ↔ Glob g p.
Proof.
  revert p. induction g as [|c g IH]; intros p.
  - simpl. destruct p; split; try done; [constructor|by inversion 1].
  - destruct (Ascii.eqb_spec c star) as [->|Hne].
    + induction p as [|a p IHp]; rewrite glob_star_unfold, orb_true_iff, IH.
      * split.
        -- intros [H|H]; [by apply (g_star g [] [])|done].
        -- inversion 1 as [| |? p1 p2 Hg]. left. by destruct p1; simplify_eq/=.
      * rewrite IHp. split.
        -- intros [H|H]; [by apply (g_star g [])|]. inversion H as [|? ? ? Hc|? p1 p2 Hg]; simplify_eq.
           by apply (g_star g (a :: p1)).
        -- inversion 1 as [|? ? ? Hc|? p1 p2 Hg]; simplify_eq. destruct p1 as [|b p1]; simplify_eq/=; [by left|].
           right. by apply g_star.
    + simpl. apply Ascii.eqb_neq in Hne as E. rewrite E. destruct p as [|a p].
      * split; [done|]. inversion 1; done.
      * destruct (Ascii.eqb_spec a c) as [->|Hac].
        -- rewrite IH. split; [by constructor|]. by inversion 1.
        -- split; [done|]. inversion 1; simplify_eq; done.
Qed.

(** C31: A stored pattern reaches a path exactly when the path is in the
    pattern's language, where [*] stands for any text (dots included) and every
    other byte for itself. *)
Theorem glob_match_language path pattern :
  glob_match path pattern = true ↔ Glob (list_of_string pattern) (list_of_string path).
Proof. apply glob_inner_spec. Qed.

Definition starless (s : string) : bool := forallb (λ c, negb (Ascii.eqb c star)) (list_of_string s).

Lemma glob_starless g p : forallb (λ c, negb (Ascii.eqb c star)) g = true → Glob g p → p = g.
Proof.
  intros Hs. induction 1 as [|c g p Hc _ IH|g p1 p2 _ IH]; simpl in *; [done| |].
  - apply andb_true_iff in Hs as [_ Hs]. by rewrite IH.
  - done.
Qed.

(** A concrete path is below every pattern that reaches it, and above none. *)
Lemma exact_most_specific path q :
  starless path = true → q ≠ path → glob_match path q = true → specificity_cmp path q = Lt.
Proof.
  intros Hs Hne Hm. unfold specificity_cmp, more_specific. rewrite Hm.
  destruct (glob_match q path) eqn:E; [|done]. apply glob_inner_spec, glob_starless in E; [|done].
  exfalso. apply Hne. rewrite <- (string_of_list_of_string q), E. apply string_of_list_of_string.
Qed.

Lemma exact_matches path : starless path = true → glob_match path path = true.
Proof.
  intros Hs. apply glob_inner_spec. unfold starless in Hs.
  induction (list_of_string path) as [|c l IH]; [constructor|]. simpl in Hs. apply andb_true_iff in Hs as [Hc Hs].
  constructor; [|by apply IH]. intros ->. done.
Qed.

(** ** The head of the sorted candidates *)

Lemma shift_left_all {A} less (x : A) l : (∀ y, y ∈ l → less x y = true) → shift_left less x l = l ++ [x].
Proof.
  induction l as [|y r IH]; intros H; [done|]. simpl. rewrite H by set_solver. simpl. f_equal. apply IH. set_solver.
Qed.

Lemma shift_left_behind {A} less (x y : A) l : less y x = false → ∃ l', shift_left less y (l ++ [x]) = l' ++ [x].
Proof.
  intros H. induction l as [|z r [l' IH]]; simpl.
  - rewrite H. by exists [y].
  - destruct (less y z); [|by exists (y :: z :: r)]. exists (z :: l'). simpl. by rewrite IH.
Qed.

Lemma shift_left_elem {A} less (x z : A) l : z ∈ shift_left less x l → z = x ∨ z ∈ l.
Proof. induction l as [|y r IH]; simpl; [set_solver|]. destruct (less x y); set_solver. Qed.

Lemma sort_head {A} (cmp : A → A → comparison) l1 x l2 :
  (∀ y, y ∈ l1 ++ l2 → cmp x y = Lt ∧ cmp y x ≠ Lt) → head (sort_by cmp (l1 ++ x :: l2)) = Some x.
Proof.
  intros H. unfold sort_by. set (less := λ a b : A, match cmp a b with Lt => true | _ => false end). rewrite foldl_app. simpl.
  assert (∀ l acc z, z ∈ foldl (λ done y, shift_left less y done) acc l → z ∈ acc ∨ z ∈ l) as Helem.
  { intros l. induction l as [|y l IH]; intros acc z; simpl; [by left|]. intros [Hz%shift_left_elem|]%IH; set_solver. }
  rewrite shift_left_all.
  - set (d := foldl _ [] l1). clearbody d.
    assert (∃ d', foldl (λ done y, shift_left less y done) (d ++ [x]) l2 = d' ++ [x]) as [d' ->].
    { assert (∀ y, y ∈ l2 → less y x = false) as Hl.
      { intros y Hy. unfold less. destruct (H y) as [_ Hn]; [set_solver|]. by destruct (cmp y x). }
      clear H Helem. revert d Hl. induction l2 as [|y l2 IH]; intros d Hl; simpl; [by exists d|].
      destruct (shift_left_behind less x y d) as [d' ->]; [apply Hl; set_solver|]. apply IH. set_solver. }
    by rewrite reverse_snoc.
  - intros y [Hy|Hy]%Helem; [by apply elem_of_nil in Hy|]. unfold less. destruct (H y) as [-> _]; [set_solver|done].
Qed.

Lemma shift_left_perm {A} less (x : A) l : shift_left less x l ≡ₚ x :: l.
Proof. induction l as [|y r IH]; simpl; [done|]. destruct (less x y); [|done]. rewrite IH. apply Permutation_swap. Qed.

Lemma sort_by_elem {A} (cmp : A → A → comparison) l x : x ∈ sort_by cmp l ↔ x ∈ l.
Proof.
  unfold sort_by. rewrite elem_of_reverse. set (f := λ d y, _).
  assert (∀ acc, foldl f acc l ≡ₚ acc ++ l) as H.
  { induction l as [|y l IH]; intros acc; simpl; [by rewrite app_nil_r|]. rewrite IH. unfold f at 1.
    rewrite shift_left_perm. simpl. apply Permutation_middle. }
  by rewrite (H []).
Qed.

(** ** Ordered maps *)

Class StrictTotal {K} (lt : K → K → bool) := {
  lt_irrefl k : lt k k = false;
  lt_trans a b c : lt a b = true → lt b c = true → lt a c = true;
  lt_total a b : lt a b = false → lt b a = false → a = b;
}.

#[export] Instance Zltb_total : StrictTotal Z.ltb.
Proof. split; intros; lia. Qed.

Lemma str_compare_lt_trans a b c :
  String.compare a b = Lt → String.compare b c = Lt → String.compare a c = Lt.
Proof.
  revert b c. induction a as [|x a IH]; intros [|y b] [|z c]; simpl; try done.
  unfold Ascii.compare.
  destruct (N.compare_spec (N_of_ascii x) (N_of_ascii y)) as [E1|E1|E1]; [| |done];
  destruct (N.compare_spec (N_of_ascii y) (N_of_ascii z)) as [E2|E2|E2]; try done; intros H1 H2.
  - rewrite E1, E2, N.compare_refl. by eapply IH.
  - by rewrite (proj2 (N.compare_lt_iff _ _)) by lia.
  - by rewrite (proj2 (N.compare_lt_iff _ _)) by lia.
  - by rewrite (proj2 (N.compare_lt_iff _ _)) by lia.
Qed.

#[export] Instance str_lt_total : StrictTotal str_lt.
Proof.
  unfold str_lt. split.
  - intros k. destruct (String.compare k k) eqn:E; try done. pose proof (String.compare_antisym k k) as H.
    rewrite E in H. done.
  - intros a b c H1 H2. destruct (String.compare a b) eqn:E1; try done. destruct (String.compare b c) eqn:E2; try done.
    by rewrite (str_compare_lt_trans a b c).
  - intros a b H1 H2. rewrite String.compare_antisym in H2. destruct (String.compare a b) eqn:E; try done.
    by apply String.compare_eq_iff.
Qed.

Section BTreeLaws.
Context {K A : Type} (lt : K → K → bool) `{!StrictTotal lt} `{EqDecision K}.

Implicit Types (m : list (K * A)) (a : A).

Definition bt_sorted m : Prop := StronglySorted (λ x y, lt x.1 y.1 = true) m.

Lemma lt_eq_iff (x y : K) : negb (lt x y) && negb (lt y x) = true ↔ x = y.
Proof.
  rewrite andb_true_iff, !negb_true_iff. split; [intros []; by apply lt_total|]. intros ->. by rewrite lt_irrefl.
Qed.

Lemma bt_get_cons k k' a m : bt_get lt k ((k', a) :: m) = if decide (k = k') then Some a else bt_get lt k m.
Proof.
  unfold bt_get. simpl. destruct (decide (k = k')) as [->|Hne].
  - by rewrite (proj2 (lt_eq_iff k' k') eq_refl).
  - destruct (_ && _) eqn:E; [|done]. by apply lt_eq_iff in E.
Qed.

Lemma bt_get_above k m : Forall (λ e, lt k e.1 = true) m → bt_get lt k m = None.
Proof.
  induction m as [|[k' a] m IH]; [done|]. inversion_clear 1 as [|? ? Hk Hm]. simpl in Hk. rewrite bt_get_cons.
  rewrite decide_False; [by apply IH|]. intros ->. by rewrite lt_irrefl in Hk.
Qed.

Lemma bt_update_elem k f m e : e ∈ bt_update lt k f m → e.1 = k ∨ e ∈ m.
Proof.
  induction m as [|[k' a] m IH]; simpl; [set_solver|]. destruct (lt k k') eqn:E1; [set_solver|].
  destruct (lt k' k) eqn:E2; [set_solver|]. rewrite !elem_of_cons. intros [->|]; [|by auto].
  left. simpl. by apply lt_total.
Qed.

Lemma bt_update_sorted k f m : bt_sorted m → bt_sorted (bt_update lt k f m).
Proof.
  unfold bt_sorted. induction m as [|[k' a] m IH]; intros Hs; simpl; [by repeat constructor|].
  inversion_clear Hs as [|? ? Hm Hf].
  destruct (lt k k') eqn:E1; [|destruct (lt k' k) eqn:E2].
  - constructor; [by constructor|]. constructor; [done|]. eapply Forall_impl; [exact Hf|]. intros [] H. simpl in *. by eapply lt_trans.
  - constructor; [by apply IH|]. rewrite Forall_forall in *. intros e [He|He]%bt_update_elem; [simpl; by rewrite He|by apply Hf].
  - by constructor.
Qed.

Lemma bt_get_update k k' f m :
  bt_sorted m →
  bt_get lt k (bt_update lt k' f m) = if decide (k = k') then Some (f (bt_get lt k m)) else bt_get lt k m.
Proof.
  unfold bt_sorted. induction m as [|[j a] m IH]; intros Hs; simpl.
  - rewrite bt_get_cons. done.
  - inversion_clear Hs as [|? ? Hm Hf]. specialize (IH Hm).
    destruct (lt k' j) eqn:E1; [|destruct (lt j k') eqn:E2]; rewrite !bt_get_cons.
    + destruct (decide (k = k')) as [->|]; [|done]. rewrite decide_False by (intros ->; by rewrite lt_irrefl in E1).
      rewrite bt_get_above; [done|]. eapply Forall_impl; [exact Hf|]. intros [] H. simpl in *. by eapply lt_trans.
    + destruct (decide (k = j)) as [->|]; [|done]. rewrite decide_False; [done|]. intros ->. by rewrite lt_irrefl in E2.
    + assert (j = k') as -> by (by apply lt_total). by destruct (decide (k = k')).
Qed.

Lemma bt_get_elem k a m : bt_sorted m → bt_get lt k m = Some a ↔ (k, a) ∈ m.
Proof.
  unfold bt_sorted. induction m as [|[j b] m IH]; intros Hs; [unfold bt_get; simpl; set_solver|].
  inversion_clear Hs as [|? ? Hm Hf]. rewrite bt_get_cons, elem_of_cons. destruct (decide (k = j)) as [->|Hne].
  - split; [intros [= ->]; by left|]. intros [|Hin]; [by simplify_eq|]. exfalso.
    rewrite Forall_forall in Hf. specialize (Hf _ Hin). simpl in Hf. by rewrite lt_irrefl in Hf.
  - rewrite IH by done. naive_solver.
Qed.

(** The greatest key after an insertion. *)
Lemma bt_last_update k a m :
  bt_sorted m →
  last (bt_update lt k (λ _, a) m) =
  match last m with
  | Some (k', a') => if lt k k' then Some (k', a') else Some (k, a)
  | None => Some (k, a)
  end.
Proof.
  unfold bt_sorted. induction m as [|[j b] m IH]; intros Hs; [done|]. inversion_clear Hs as [|? ? Hm Hf].
  specialize (IH Hm). simpl bt_update. rewrite last_cons.
  assert (∀ j' b', last m = Some (j', b') → lt j j' = true) as Hlast.
  { intros j' b' Hl. rewrite Forall_forall in Hf. apply (Hf (j', b')). by apply last_Some_elem_of. }
  destruct (lt k j) eqn:E1; [|destruct (lt j k) eqn:E2].
  - rewrite !last_cons. destruct (last m) as [[j' b']|]; [|by rewrite E1].
    by rewrite (lt_trans k j j' E1 (Hlast _ _ eq_refl)).
  - rewrite last_cons, IH. destruct (last m) as [[j' b']|]; [|by rewrite E1]. by destruct (lt k j').
  - assert (k = j) as -> by (by apply lt_total). rewrite last_cons.
    destruct (last m) as [[j' b']|]; [by rewrite (Hlast _ _ eq_refl)|by rewrite lt_irrefl].
Qed.

End BTreeLaws.

(** ** Histories of writes *)

Section History.
Context {Any : Type}.

(** One [set]: when it ran, from where, on what. *)
Record Write := {
  w_build : bool; w_ctx : option string; w_offset : string; w_field : string; w_entry : Entry Any;
}.
Definition w_path (w : Write) : string := resolve (w_ctx w) (w_offset w).
Definition w_prec (w : Write) : Z := precedence (w_build w) (w_ctx w).
Definition apply_write (s : Store Any) (w : Write) : Store Any :=
  store_entry (w_path w) (w_field w) (w_prec w) (w_entry w) s.
Definition writes (ws : list Write) : Store Any := foldl apply_write [] ws.

(** The write in force for one pattern and field: the highest precedence, and
    the most recent among equals. *)
Definition winner (ws : list Write) (path field : string) : option (Z * Entry Any) :=
  foldl (λ acc w,
    if decide (w_path w = path ∧ w_field w = field) then
      match acc with
      | Some (p, e) => if Z.ltb (w_prec w) p then Some (p, e) else Some (w_prec w, w_entry w)
      | None => Some (w_prec w, w_entry w)
      end
    else acc) None ws.

Definition fields_wf (fs : Fields) : Prop :=
  bt_sorted str_lt fs ∧ Forall (λ fb : string * list (Z * Entry Any), bt_sorted Z.ltb fb.2) fs.
Definition store_wf (s : Store Any) : Prop :=
  bt_sorted str_lt s ∧ Forall (λ pf : string * Fields, fields_wf pf.2) s.

(** Updating an entry keeps a property of every value that the update keeps. *)
Lemma bt_update_Forall {K A} (lt : K → K → bool) (P : A → Prop) k f (m : list (K * A)) :
  Forall (λ e, P e.2) m → P (f None) → (∀ a, P a → P (f (Some a))) → Forall (λ e, P e.2) (bt_update lt k f m).
Proof.
  intros Hm Hn Hs. induction Hm as [|[k' a] m Ha Hm IH]; simpl; [by apply Forall_singleton|].
  destruct (lt k k'); [by do 2 (constructor; [done|])|]. destruct (lt k' k); constructor; simpl in *; auto.
Qed.

Lemma store_entry_wf path field p e s : store_wf s → store_wf (store_entry path field p e s).
Proof.
  intros [Hs Hf]. split; [by apply (bt_update_sorted str_lt)|]. unfold store_entry.
  assert (∀ fs, fields_wf fs → fields_wf (bt_update str_lt field (λ op, bt_update Z.ltb p (λ _, e) (default [] op)) fs)) as Hfw.
  { intros fs [H1 H2]. split; [by apply (bt_update_sorted str_lt)|]. apply (bt_update_Forall _ (bt_sorted Z.ltb)); simpl; [done|..].
    - apply SSorted_cons; constructor.
    - intros m Hm. by apply (bt_update_sorted Z.ltb). }
  apply (bt_update_Forall _ fields_wf); [done| |exact Hfw]. apply (Hfw []). split; constructor.
Qed.

Lemma writes_wf ws : store_wf (writes ws).
Proof.
  unfold writes. assert (store_wf (@nil (string * @Fields Any))) as H0 by (split; constructor). revert H0.
  generalize (@nil (string * @Fields Any)). induction ws as [|w ws IH]; intros s Hs; [done|]. by apply IH, store_entry_wf.
Qed.

(** The entry kept last for one pattern and field. *)
Definition entry_at (s : Store Any) (path field : string) : option (Z * Entry Any) :=
  bt_get str_lt path s ≫= λ fs, bt_get str_lt field fs ≫= last.

Lemma fields_elem_wf s path fs : store_wf s → bt_get str_lt path s = Some fs → fields_wf fs.
Proof.
  intros [Hs Hf] H. apply (bt_get_elem str_lt) in H; [|done]. rewrite Forall_forall in Hf. by apply (Hf _ H).
Qed.

Lemma entry_at_store_entry path field p e s path' field' :
  store_wf s →
  entry_at (store_entry path field p e s) path' field' =
  if decide (path = path' ∧ field = field') then
    match entry_at s path' field' with
    | Some (p', e') => if Z.ltb p p' then Some (p', e') else Some (p, e)
    | None => Some (p, e)
    end
  else entry_at s path' field'.
Proof.
  intros Hwf. pose proof Hwf as [Hs Hf]. unfold entry_at, store_entry. rewrite (bt_get_update str_lt) by done.
  destruct (decide (path' = path)) as [->|Hne]; [|rewrite decide_False by naive_solver; done].
  set (fs := default [] (bt_get str_lt path s)).
  assert (fields_wf fs) as [Hfs Hff].
  { unfold fs. destruct (bt_get str_lt path s) eqn:E; [by eapply fields_elem_wf|split; constructor]. }
  assert ((bt_get str_lt path s ≫= λ fs, bt_get str_lt field' fs ≫= last) = bt_get str_lt field' fs ≫= last) as ->.
  { unfold fs. by destruct (bt_get str_lt path s). }
  simpl. rewrite (bt_get_update str_lt) by done.
  destruct (decide (field' = field)) as [->|Hne]; [|rewrite decide_False by naive_solver; done].
  rewrite decide_True by done. simpl. rewrite (bt_last_update Z.ltb).
  - by destruct (bt_get str_lt field fs).
  - destruct (bt_get str_lt field fs) as [m|] eqn:E; [|constructor]. apply (bt_get_elem str_lt) in E; [|done].
    rewrite Forall_forall in Hff. by apply (Hff _ E).
Qed.

Lemma entry_at_writes ws path field : entry_at (writes ws) path field = winner ws path field.
Proof.
  unfold winner, writes. pose proof writes_wf as Hwf. unfold writes in Hwf.
  induction ws as [|w ws IH] using rev_ind; [done|]. rewrite !foldl_app. simpl. unfold apply_write at 1.
  rewrite entry_at_store_entry by apply Hwf. by rewrite IH.
Qed.

(** The candidates of [get] are the winners of the patterns that match. *)
Lemma candidates_elem ws path field q e :
  (q, e) ∈ candidates (writes ws) path field ↔
  glob_match path q = true ∧ ∃ p, winner ws q field = Some (p, e).
Proof.
  destruct (writes_wf ws) as [Hs _]. rewrite <- entry_at_writes. unfold candidates. rewrite list_elem_of_omap.
  unfold entry_at. split.
  - intros ([q' fs] & Hin & H). simpl in H. destruct (glob_match path q') eqn:Hm; [|done].
    destruct (bt_get str_lt field fs) as [m|] eqn:Hg; [|done]. unfold highest in H.
    destruct (last m) as [[p e']|] eqn:Hl; simplify_eq/=. split; [done|]. exists p.
    apply (bt_get_elem str_lt) in Hin; [|done]. by rewrite Hin; simpl; rewrite Hg.
  - intros [Hm [p Hp]]. destruct (bt_get str_lt q (writes ws)) as [fs|] eqn:Hq; [|done]. simpl in Hp.
    exists (q, fs). split; [by apply (bt_get_elem str_lt)|]. simpl. rewrite Hm.
    destruct (bt_get str_lt field fs) as [m|]; [|done]. simpl in Hp. unfold highest. by rewrite Hp.
Qed.

Lemma candidates_nodup ws path field : NoDup (candidates (writes ws) path field).*1.
Proof.
  destruct (writes_wf ws) as [Hs _]. unfold candidates. induction Hs as [|[q fs] s Hs IH Hf]; simpl; [constructor|].
  set (o := if glob_match path q then _ else _). destruct o as [[q' e]|] eqn:E; [|done]. simpl.
  assert (q' = q) as -> by (unfold o in E; repeat case_match; simplify_eq/=; by apply fmap_Some in E as (? & _ & ?); simplify_eq).
  constructor; [|done]. rewrite list_elem_of_fmap. intros ([q2 e2] & -> & Hin). simpl in *.
  apply list_elem_of_omap in Hin as ([q3 fs3] & Hin & H3). rewrite Forall_forall in Hf. specialize (Hf _ Hin). simpl in *.
  assert (q2 = q3) as ->.
  { repeat case_match; simplify_eq/=. by apply fmap_Some in H3 as (? & _ & ?); simplify_eq. }
  by rewrite lt_irrefl in Hf.
Qed.

(** A candidate that is below every other one comes first. *)
Lemma find_entry_most_specific ws path field p0 p e :
  glob_match path p0 = true → winner ws p0 field = Some (p, e) →
  (∀ q, q ≠ p0 → glob_match path q = true → is_Some (winner ws q field) → specificity_cmp p0 q = Lt) →
  find_entry (writes ws) path field = Some e.
Proof.
  intros Hm Hw Hbest. assert ((p0, e) ∈ candidates (writes ws) path field) as Hin by (apply candidates_elem; eauto).
  pose proof (candidates_nodup ws path field) as Hnd. unfold find_entry.
  assert (∀ q x, (q, x) ∈ candidates (writes ws) path field → q ≠ p0 → specificity_cmp p0 q = Lt) as Hall.
  { intros q x [Hq [p' Hp']]%candidates_elem Hne. apply Hbest; [done..|]. by rewrite Hp'. }
  apply list_elem_of_split in Hin as (l1 & l2 & E). rewrite E in *.
  rewrite fmap_app in Hnd. simpl in Hnd. apply NoDup_app in Hnd as (_ & Hd & [Hn _]%NoDup_cons).
  assert (∀ q x, (q, x) ∈ l1 ++ l2 → q ≠ p0) as Hne.
  { intros q x [Hq|Hq]%elem_of_app ->.
    - apply (Hd p0); [|set_solver]. apply list_elem_of_fmap. by exists (p0, x).
    - apply Hn, list_elem_of_fmap. by exists (p0, x). }
  rewrite sort_head; [done|]. intros [q x] Hq. simpl. specialize (Hall q x ltac:(set_solver) (Hne q x Hq)).
  split; [done|]. unfold specificity_cmp in *. by destruct (more_specific p0 q), (more_specific q p0).
Qed.

Lemma find_entry_exact ws path field p e :
  starless path = true → winner ws path field = Some (p, e) → find_entry (writes ws) path field = Some e.
Proof.
  intros Hs Hw. apply (find_entry_most_specific ws path field path p); [by apply exact_matches|done|].
  intros q Hne Hm _. by apply exact_most_specific.
Qed.

Lemma find_entry_none ws path field :
  find_entry (writes ws) path field = None ↔ ∀ q, glob_match path q = true → winner ws q field = None.
Proof.
  unfold find_entry. split.
  - intros Hf q Hm. destruct (winner ws q field) as [[p e]|] eqn:E; [|done].
    assert ((q, e) ∈ candidates (writes ws) path field) as Hin by (apply candidates_elem; eauto).
    destruct (sort_by _ (candidates (writes ws) path field)) as [|x l] eqn:Es; [|done].
    apply (sort_by_elem (λ a b, specificity_cmp a.1 b.1)) in Hin. rewrite Es in Hin. by apply elem_of_nil in Hin.
  - intros Hall. destruct (candidates (writes ws) path field) as [|[q e] l] eqn:Ec; [done|].
    destruct (proj1 (candidates_elem ws path field q e)) as [Hm [p Hp]]; [rewrite Ec; set_solver|].
    by rewrite Hall in Hp.
Qed.

(** C30: for one pattern and field the write of highest precedence is in force
    (the most recent among equals), and a pattern strictly more specific than
    every other one that reaches the path decides the lookup; in particular an
    entry for the component's own path beats every wildcard. *)
Theorem config_resolution ws path field :
  (∀ q, entry_at (writes ws) q field = winner ws q field) ∧
  (∀ p0 p e, glob_match path p0 = true → winner ws p0 field = Some (p, e) →
     (∀ q, q ≠ p0 → glob_match path q = true → is_Some (winner ws q field) → specificity_cmp p0 q = Lt) →
     find_entry (writes ws) path field = Some e) ∧
  (∀ p e, starless path = true → winner ws path field = Some (p, e) →
     find_entry (writes ws) path field = Some e) ∧
  (find_entry (writes ws) path field = None ↔
     ∀ q, glob_match path q = true → winner ws q field = None).
Proof.
  split_and!.
  - intros q. apply entry_at_writes.
  - intros p0 p e. apply find_entry_most_specific.
  - intros p e. apply find_entry_exact.
  - apply find_entry_none.
Qed.

(** Write [w] outranks [w']: made after build over one made in build below the
    root, or made in build by a shallower component. *)
Definition outranks (w w' : Write) : Prop :=
  w_build w' = true ∧
  if w_build w then (match w_ctx w with Some c => depth_of c | None => 0 end
                     < match w_ctx w' with Some c => depth_of c | None => 0 end)%Z
  else (0 < match w_ctx w' with Some c => depth_of c | None => 0 end)%Z.

Lemma outranks_prec w w' : outranks w w' → (w_prec w' < w_prec w)%Z.
Proof. unfold outranks, w_prec, precedence, DEFAULT_PRECEDENCE. intros [-> H]. destruct (w_build w); lia. Qed.

Definition same_target (w w' : Write) : Prop := w_path w' = w_path w ∧ w_field w' = w_field w.

Lemma winner_max ws1 w ws2 :
  Forall (λ w', same_target w w' → (w_prec w' < w_prec w)%Z) (ws1 ++ ws2) →
  winner (ws1 ++ w :: ws2) (w_path w) (w_field w) = Some (w_prec w, w_entry w).
Proof.
  intros [H1 H2]%Forall_app. unfold winner. rewrite foldl_app. simpl. rewrite decide_True by done.
  set (f := λ acc w0, _).
  assert (∀ acc, match foldl f acc ws1 with Some (p, _) => (p < w_prec w)%Z | None => True end ∨
                 match acc with Some (p, _) => (w_prec w ≤ p)%Z | None => False end) as Hlow.
  { induction H1 as [|w1 ws1 Hw1 _ IH]; intros acc; simpl.
    - destruct acc as [[p e]|]; [|by left]. destruct (Z.lt_ge_cases p (w_prec w)); [by left|by right].
    - destruct (IH (f acc w1)) as [|Hr]; [by left|]. right. unfold f in Hr. destruct (decide _) as [[Hp Hf]|]; [|done].
      assert (w_prec w1 < w_prec w)%Z by (apply Hw1; by split).
      destruct acc as [[p e]|]; [|lia]. destruct (Z.ltb_spec (w_prec w1) p); lia. }
  assert (match foldl f None ws1 with
          | Some (p, e) => if Z.ltb (w_prec w) p then Some (p, e) else Some (w_prec w, w_entry w)
          | None => Some (w_prec w, w_entry w) end = Some (w_prec w, w_entry w)) as ->.
  { destruct (Hlow None) as [Hl|[]]. destruct (foldl f None ws1) as [[p e]|]; [|done].
    destruct (Z.ltb_spec (w_prec w) p); [lia|done]. }
  induction H2 as [|w2 ws2 Hw2 _ IH]; simpl; [done|]. rewrite <- IH at 2. f_equal. unfold f.
  destruct (decide _) as [[Hp Hf]|]; [|done].
  assert (w_prec w2 < w_prec w)%Z by (apply Hw2; by split). by rewrite (proj2 (Z.ltb_lt _ _)).
Qed.

(** A parent outranks its children: during build the write of the
    shallowest setter decides a path and field in whatever order the writes
    came, and a write made after build outranks every build-time write from
    below the root. *)
Theorem ancestor_write_wins ws1 w ws2 :
  Forall (λ w', same_target w w' → outranks w w') (ws1 ++ ws2) →
  entry_at (writes (ws1 ++ w :: ws2)) (w_path w) (w_field w) = Some (w_prec w, w_entry w).
Proof.
  intros H. rewrite entry_at_writes. apply winner_max. eapply Forall_impl; [exact H|]. simpl.
  intros w' Ho Hs. by apply outranks_prec, Ho.
Qed.

(** ** Typed reads *)

(** A database whose entries were all made by [set]. *)
Lemma set_is_write {T} `{Typed Any T} ctx offset field (v : T) (d : ConfigDb Any) :
  store (fst (set ctx offset field v d)) =
  apply_write (store d) {| w_build := in_build d; w_ctx := ctx; w_offset := offset; w_field := field;
    w_entry := {| rendered := debug v; value := inject v; entry_type_name := type_name (T := T); entry_type_id := type_id (T := T) |} |}.
Proof. done. Qed.

(** What one test configures is read back with its type: after [set] at a
    concrete path nobody else wrote, [get] there returns the value itself; a
    [get] at another type fails with both type names instead of returning
    something else; after [clear] it fails as not found. *)
Theorem set_get_roundtrip {T U} `{TT : Typed Any T} `{!TypedLaws T} `{TU : Typed Any U} ctx offset field (v : T) b :
  starless (resolve ctx offset) = true →
  let d : ConfigDb Any := fst (set ctx offset field v {| store := []; tracing := false; in_build := b |}) in
  let path := resolve ctx offset in
  get (T := T) ctx offset field d = Done (Ok v, None) ∧
  (type_id (Any := Any) (T := U) ≠ type_id (Any := Any) (T := T) →
   get (T := U) ctx offset field d =
     Done (Err (TypeMismatch path field (type_name (Any := Any) (T := T)) (type_name (Any := Any) (T := U))), None)) ∧
  get (T := T) ctx offset field (clear d) = Done (Err (NotFound path field), None).
Proof.
  intros Hs. cbv zeta.
  set (w := {| w_build := b; w_ctx := ctx; w_offset := offset; w_field := field; w_entry :=
    {| rendered := debug v; value := inject v; entry_type_name := type_name (T := T); entry_type_id := type_id (T := T) |} |}).
  assert (find_entry (writes [w]) (resolve ctx offset) field = Some (w_entry w)) as Hf.
  { apply (find_entry_exact _ _ _ (w_prec w)); [done|]. apply (winner_max [] w []). constructor. }
  unfold get. rewrite set_is_write. change (apply_write _ _) with (writes [w]). rewrite Hf. simpl.
  split_and!; [|intros Hne|done].
  - rewrite decide_False by (intros Hn; by apply Hn). by rewrite downcast_inject.
  - by rewrite decide_True by congruence.
Qed.

End History.

(** The comparator of [get] is not transitive in its ties: [a.*c] is strictly
    more specific than [*c], but neither is ordered against [a*b*], which the
    map lists between them, so the stable sort leaves [*c] in front. *)
Definition tie_store : Store nat :=
  writes (map (λ p, {| w_build := false; w_ctx := None; w_offset := p; w_field := "N";
    w_entry := {| value := 0; entry_type_name := "u32"; entry_type_id := 0; rendered := p |} |})
    ["*c"%string; "a*b*"%string; "a.*c"%string]).

(** The documented rule, most specific path first, does not hold for every
    set of patterns: with [*c], [a*b*] and [a.*c] all reaching [a.b.c], the
    entry of [*c] is returned although [a.*c] is strictly more specific. *)
Theorem most_specific_not_first :
  specificity_cmp "a.*c" "*c" = Lt ∧
  map fst (candidates tie_store "a.b.c" "N") = ["*c"%string; "a*b*"%string; "a.*c"%string] ∧
  rendered <$> find_entry tie_store "a.b.c" "N" = Some "*c"%string.
Proof. split; [|split]; vm_compute; reflexivity. Qed.

End Config.

Module ConfigWitnesses.
Import Config.

#[local] Instance nat_typed : Typed (nat + string) nat :=
  {| type_id := 1; type_name := "u32"; debug := λ _, "7"%string; inject := inl;
     downcast := λ a, match a with inl n => Some n | inr _ => None end |}.
#[local] Instance nat_typed_laws : TypedLaws nat.
Proof. split. reflexivity. Qed.
#[local] Instance string_typed : Typed (nat + string) string :=
  {| type_id := 2; type_name := "String"; debug := id; inject := inr;
     downcast := λ a, match a with inr s => Some s | inl _ => None end |}.

Definition wr (b : bool) (ctx : string) (offset : string) (v : nat) : Write :=
  {| w_build := b; w_ctx := Some ctx; w_offset := offset; w_field := "MSG"%string;
     w_entry := {| value := v; entry_type_name := "u32"; entry_type_id := 1; rendered := "" |} |}.

(** The child [T.env] writes last, its parent [T] still wins. *)
Lemma ancestor_write_wins_witness :
  entry_at (writes [wr true "T" "env.a" 1; wr true "T.env" "a" 2]) "T.env.a" "MSG"
    = Some (1000%Z, w_entry (wr true "T" "env.a" 1)).
Proof.
  refine (ancestor_write_wins [] (wr true "T" "env.a" 1) [wr true "T.env" "a" 2] _).
  constructor; [|constructor]. intros _. split; [reflexivity|]. vm_compute. reflexivity.
Defined.

(** An exact path beats the wildcard that also reaches it. *)
Lemma config_resolution_witness :
  find_entry (writes [wr false "" "*" 1; wr false "" "env.a" 2]) "env.a" "MSG" = Some (w_entry (wr false "" "env.a" 2)).
Proof.
  refine (proj1 (proj2 (proj2 (config_resolution [wr false "" "*" 1; wr false "" "env.a" 2] "env.a" "MSG")))
    1000%Z _ _ _); vm_compute; reflexivity.
Defined.

Lemma set_get_roundtrip_witness :
  starless (resolve (Some "env"%string) "tester") = true ∧
  get (T := nat) (Some "env"%string) "tester" "COUNT"
    (fst (set (Some "env"%string) "tester" "COUNT" 7 {| store := []; tracing := false; in_build := false |}))
    = Done (Ok 7, None).
Proof.
  split; [vm_compute; reflexivity|].
  exact (proj1 (set_get_roundtrip (T := nat) (U := string) (Some "env"%string) "tester" "COUNT" 7 false eq_refl)).
Defined.

End ConfigWitnesses.
