(* ===== verification/Factory.v ===== *)
(** * Factory: component nodes, child slots and overrides
    (rustdv-methodology/src/factory.rs, rustdv-macros/src/rustdv_macros.rs).

    A component is a [Node]: its type name, its own state and its fields in
    declaration order, which are what [#[derive(Component)]] sees: child slots
    ([RustdvComp]), plain, optional and vector children, and ports.  The
    methods the derive generates are functions on the fields.  The override
    table is the configuration database; a maker takes no argument, so it is
    the component it builds. *)
From stdpp Require Import pretty.
From S2P Require Import Prelude Path Log Config.

Module Factory.

Section Nodes.
Context {U : Set}.   (* a component's own state *)

Inductive Node := mkNode (ty : string) (own : U) (fields : list (string * Field))
with Field :=
| FComp (inner : option Node) (overridable : bool) (requested : option string)  (* RustdvComp *)
| FOption (c : option Node)
| FVec (cs : list Node)
| FPlain (c : Node)
| FPort (kind : string) (cell : nat).   (* a port: its kind and its shared binding cell *)

Definition node_name (n : Node) : string := let 'mkNode t _ _ := n in t.
Definition own_state (n : Node) : U := let 'mkNode _ u _ := n in u.
Definition fields_of (n : Node) : list (string * Field) := let 'mkNode _ _ fs := n in fs.

(** ** The slot *)

Record RustdvComp := { inner : option Node; overridable_ : bool; requested_ : option string }.

Definition empty_slot : RustdvComp := {| inner := None; overridable_ := false; requested_ := None |}.
Definition fixed (n : Node) : RustdvComp := {| inner := Some n; overridable_ := false; requested_ := None |}.
Definition overridable (n : Node) (req : string) : RustdvComp :=
  {| inner := Some n; overridable_ := true; requested_ := Some req |}.
Definition take_node (s : RustdvComp) : RustdvComp * option Node :=
  ({| inner := None; overridable_ := overridable_ s; requested_ := requested_ s |}, inner s).
Definition put_node (n : Node) (s : RustdvComp) : RustdvComp :=
  {| inner := Some n; overridable_ := overridable_ s; requested_ := requested_ s |}.

Definition owner_label (s : RustdvComp) : string :=
  match inner s with Some n => node_name n | None => "an unbuilt child slot" end.

(** ** Overrides *)

Record Override := { make : Node; to_ : string }.
Definition debug_override (o : Override) : string := "-> " +:+ to_ o.
Definition override_key (requested : string) : string := "__factory_override__" +:+ requested.

Context {Any : Type} {TO : Config.Typed Any Override}.
Abbreviation Db := (Config.ConfigDb Any).

Definition store_override (ctx : option string) (offset from to : string) (mk : Node) (d : Db) : Db :=
  fst (Config.set ctx offset (override_key from) {| make := mk; to_ := to |} d).

Definition set_type_override (from to : string) (mk : Node) (d : Db) : Db := store_override None "*" from to mk d.
Definition set_inst_override (ctx path from to : string) (mk : Node) (d : Db) : Db :=
  store_override (Some ctx) path from to mk d.

(** [ConfigDb::get::<Override>(None, ..).ok()]. *)
Definition lookup_override (req path : string) (d : Db) : option Override :=
  match Config.get (T := Override) None path (override_key req) d with
  | Done (Ok o, _) => Some o
  | _ => None
  end.

Definition resolve (ctx_path name : string) (d : Db) (s : RustdvComp) : RustdvComp :=
  if negb (overridable_ s) then s
  else match requested_ s with
    | None => s
    | Some req =>
        let path := if decide (ctx_path = EmptyString) then name else ctx_path +:+ "." +:+ name in
        {| inner := match lookup_override req path d with
                    | Some ov => Some (make ov)
                    | None => inner s
                    end;
           overridable_ := false; requested_ := requested_ s |}
    end.

(** ** Registration by name *)

(** [collect_registry]: later registrations replace earlier ones. *)
Definition collect_registry (regs : list (string * Node)) : gmap string Node :=
  foldl (λ m r, <[r.1 := r.2]> m) ∅ regs.

Definition create_by_name (regs : list (string * Node)) (name : string) : Exec RustdvComp :=
  match collect_registry regs !! name with
  | Some n => Done (overridable n name)
  | None => Panic ("Factory::create_by_name: no component registered as " +:+ name)
  end.

Definition set_type_override_by_name (regs : list (string * Node)) (from to : string) (d : Db) : Exec Db :=
  match collect_registry regs !! to with
  | Some n => Done (store_override None "*" from to n d)
  | None => Panic ("Factory::set_type_override_by_name: " +:+ to +:+ " is not registered")
  end.

(** ** What [#[derive(Component)]] generates *)

Definition slot_of (i : option Node) (o : bool) (r : option string) : RustdvComp :=
  {| inner := i; overridable_ := o; requested_ := r |}.
Definition field_of (s : RustdvComp) : Field := FComp (inner s) (overridable_ s) (requested_ s).

(** The children one field contributes, in order, with their names. *)
Definition field_children (name : string) (f : Field) : list (string * Node) :=
  match f with
  | FComp (Some c) _ _ => [(name, c)]
  | FOption (Some c) => [(name, c)]
  | FVec cs => imap (λ i c, (name +:+ "[" +:+ pretty (N.of_nat i) +:+ "]", c)) cs
  | FPlain c => [(name, c)]
  | _ => []
  end.
Definition children_mut (n : Node) : list (string * Node) :=
  concat (map (λ nf, field_children nf.1 nf.2) (fields_of n)).

(** Factory overrides of the slot fields, before the walk descends. *)
Definition resolve_children (ctx_path : string) (d : Db) (n : Node) : Node :=
  mkNode (node_name n) (own_state n) (map (λ nf,
    (nf.1, match nf.2 with
           | FComp i o r => field_of (resolve ctx_path nf.1 d (slot_of i o r))
           | f => f
           end)) (fields_of n)).

Definition take_field (nf : string * Field) : (string * Field) * list (string * Node) :=
  match nf with
  | (name, FComp (Some c) o r) => ((name, FComp None o r), [(name, c)])
  | _ => (nf, [])
  end.
Definition take_children (n : Node) : Node * list (string * Node) :=
  (mkNode (node_name n) (own_state n) (map (λ nf, fst (take_field nf)) (fields_of n)),
   concat (map (λ nf, snd (take_field nf)) (fields_of n))).

(** [if __name == "field" { self.field.put_node(__node); continue; }]: the first
    slot field of that name. *)
Fixpoint restore_one (name : string) (c : Node) (fs : list (string * Field)) : list (string * Field) :=
  match fs with
  | [] => []
  | (f, FComp i o r) :: rest =>
      if decide (f = name) then (f, FComp (Some c) o r) :: rest
      else (f, FComp i o r) :: restore_one name c rest
  | nf :: rest => nf :: restore_one name c rest
  end.
Definition restore_children (n : Node) (taken : list (string * Node)) : Node :=
  mkNode (node_name n) (own_state n) (foldl (λ fs nc, restore_one nc.1 nc.2 fs) (fields_of n) taken).

(** The declared ports; [bound] reads a binding cell. *)
Record PortInfo := { p_name : string; p_kind : string; required : bool; connected : bool }.
Definition port_infos (bound : nat → bool) (n : Node) : list PortInfo :=
  omap (λ nf, match nf.2 with
    | FPort k c => Some {| p_name := nf.1; p_kind := k;
                           required := negb (bool_decide (k = "publish" ∨ k = "subscribe")%string);
                           connected := bound c |}
    | _ => None
    end) (fields_of n).

(** Rust gives the fields of a struct distinct names. *)
Definition fields_ok (n : Node) : Prop := NoDup (fields_of n).*1.

(** ** Taking and restoring *)

Lemma restore_one_skip name c fs1 fs2 :
  name ∉ fs1.*1 → restore_one name c (fs1 ++ fs2) = fs1 ++ restore_one name c fs2.
Proof.
  induction fs1 as [|[f x] fs1 IH]; intros Hn; [done|]. simpl in *. apply not_elem_of_cons in Hn as [Hne Hn].
  rewrite IH by done. destruct x; [|done..]. by rewrite decide_False by congruence.
Qed.

(** Restoring after taking gives each slot the node it is handed. *)
Lemma restore_taken_fields (g : string → Node → Node) fs :
  NoDup fs.*1 →
  foldl (λ fs nc, restore_one nc.1 nc.2 fs) (map (λ nf, fst (take_field nf)) fs)
    (map (λ nc, (nc.1, g nc.1 nc.2)) (concat (map (λ nf, snd (take_field nf)) fs))) =
  map (λ nf, (nf.1, match nf.2 with FComp (Some c) o r => FComp (Some (g nf.1 c)) o r | f => f end)) fs.
Proof.
  intros Hnd.
  assert (∀ acc, (∀ x, x ∈ acc.*1 → x ∉ fs.*1) →
    foldl (λ fs nc, restore_one nc.1 nc.2 fs) (acc ++ map (λ nf, fst (take_field nf)) fs)
      (map (λ nc, (nc.1, g nc.1 nc.2)) (concat (map (λ nf, snd (take_field nf)) fs))) =
    acc ++ map (λ nf, (nf.1, match nf.2 with FComp (Some c) o r => FComp (Some (g nf.1 c)) o r | f => f end)) fs) as Hall.
  { induction fs as [|[n f] fs IH]; intros acc Hd; [done|].
    apply NoDup_cons in Hnd as [Hn Hnd]. simpl.
    assert (∀ f', foldl (λ fs nc, restore_one nc.1 nc.2 fs) (acc ++ (n, f') :: map (λ nf, fst (take_field nf)) fs)
      (map (λ nc, (nc.1, g nc.1 nc.2)) (concat (map (λ nf, snd (take_field nf)) fs))) =
      acc ++ (n, f') :: map (λ nf, (nf.1, match nf.2 with FComp (Some c) o r => FComp (Some (g nf.1 c)) o r | f => f end)) fs) as IH'.
    { intros f'. specialize (IH Hnd (acc ++ [(n, f')])). rewrite <- !app_assoc in IH. apply IH.
      intros x. rewrite fmap_app, elem_of_app. simpl. intros [Hx|Hx%list_elem_of_singleton]; [|by subst].
      specialize (Hd x Hx). set_solver. }
    destruct f as [[c|] o r| | | |]; simpl; try apply IH'.
    rewrite restore_one_skip by (intros Hin; specialize (Hd n Hin); set_solver). simpl.
    rewrite decide_True by done. apply IH'. }
  exact (Hall [] ltac:(set_solver)).
Qed.

(** ** Which component a slot ends up with *)

Definition slot_path (ctx_path name : string) : string :=
  if decide (ctx_path = EmptyString) then name else ctx_path +:+ "." +:+ name.

(** The override writes of a history, and what a slot makes of them. *)
Definition db_of (ws : list (@Config.Write Any)) : Db :=
  {| Config.store := Config.writes ws; Config.tracing := false; Config.in_build := true |}.

(** An entry an override put in the table. *)
Definition override_entry (o : Override) : Config.Entry Any :=
  {| Config.value := Config.inject o; Config.entry_type_name := Config.type_name (T := Override);
     Config.entry_type_id := Config.type_id (T := Override); Config.rendered := Config.debug o |}.

Context {TL : Config.TypedLaws Override}.

Lemma lookup_found req path ws o :
  Config.find_entry (Config.writes ws) path (override_key req) = Some (override_entry o) →
  lookup_override req path (db_of ws) = Some o.
Proof.
  intros Hf. unfold lookup_override, Config.get. simpl. rewrite Hf.
  rewrite decide_False by (simpl; by intros Hn). simpl. by rewrite Config.downcast_inject.
Qed.

Lemma lookup_missing req path ws :
  Config.find_entry (Config.writes ws) path (override_key req) = None →
  lookup_override req path (db_of ws) = None.
Proof. intros Hf. unfold lookup_override, Config.get. simpl. by rewrite Hf. Qed.

(** A slot made by [create_comp] gets, when the walk reaches it, the
    component of the instance override for its path if there is one, else that
    of the type override, else the default it was made with; a slot made by
    [new_comp] keeps its component whatever the table says; and a slot is
    resolved once: overrides installed later change nothing. *)
Theorem override_resolution ctx_path name req default ws later :
  let path := slot_path ctx_path name in
  let key := override_key req in
  let resolved := resolve ctx_path name (db_of ws) (overridable default req) in
  Config.starless path = true →
  (∀ p o, Config.winner ws path key = Some (p, override_entry o) → inner resolved = Some (make o)) ∧
  (∀ p o, Config.winner ws "*" key = Some (p, override_entry o) →
     (∀ q, q ≠ "*"%string → Config.glob_match path q = true → Config.winner ws q key = None) →
     inner resolved = Some (make o)) ∧
  ((∀ q, Config.glob_match path q = true → Config.winner ws q key = None) → inner resolved = Some default) ∧
  resolve ctx_path name (db_of later) resolved = resolved ∧
  resolve ctx_path name (db_of ws) (fixed default) = fixed default.
Proof.
  cbv zeta. intros Hs.
  assert (∀ o, lookup_override req (slot_path ctx_path name) (db_of ws) = o →
    inner (resolve ctx_path name (db_of ws) (overridable default req)) =
    Some (match o with Some ov => make ov | None => default end)) as Hin.
  { intros o <-. unfold resolve, slot_path. simpl. by destruct (lookup_override _ _ _). }
  split_and!.
  - intros p o Hw. rewrite (Hin (Some o)); [done|]. apply lookup_found. by apply (Config.find_entry_exact _ _ _ p).
  - intros p o Hw Hq. rewrite (Hin (Some o)); [done|]. apply lookup_found.
    apply (Config.find_entry_most_specific ws _ _ "*" p); [|done|].
    + apply Config.glob_inner_spec. rewrite <- (app_nil_r (list_of_string (slot_path ctx_path name))).
      apply Config.g_star. constructor.
    + intros q Hne Hm [x Hx]. by rewrite Hq in Hx.
  - intros Hq. rewrite (Hin None); [done|]. apply lookup_missing. by apply Config.find_entry_none.
  - done.
  - done.
Qed.

End Nodes.
End Factory.

Module FactoryWitnesses.
Import Factory.

Abbreviation WNode := (@Node nat).
Abbreviation WOverride := (@Override nat).

#[local] Instance override_typed : Config.Typed WOverride WOverride :=
  {| Config.type_id := 9; Config.type_name := "Override"; Config.debug := debug_override;
     Config.inject := id; Config.downcast := Some |}.
#[local] Instance override_typed_laws : Config.TypedLaws WOverride.
Proof. split. reflexivity. Qed.

Definition base : WNode := mkNode "Base" 0 [].
Definition derived : WNode := mkNode "Derived" 1 [].
Definition to_derived : WOverride := {| make := derived; to_ := "Derived" |}.

(** A type override of [Base] testbench-wide. *)
Definition type_override : @Config.Write WOverride :=
  {| Config.w_build := true; Config.w_ctx := None; Config.w_offset := "*"; Config.w_field := override_key "Base";
     Config.w_entry := override_entry to_derived |}.

Lemma override_resolution_witness :
  Config.starless (slot_path "env" "tester") = true ∧
  inner (resolve "env" "tester" (db_of []) (overridable base "Base")) = Some base ∧
  resolve "env" "tester" (db_of [type_override]) (fixed base) = fixed base.
Proof.
  split; [reflexivity|]. split.
  - refine (proj1 (proj2 (proj2 (override_resolution "env" "tester" "Base" base [] [type_override] eq_refl))) _).
    reflexivity.
  - exact (proj2 (proj2 (proj2 (proj2
      (override_resolution "env" "tester" "Base" base [type_override] [] eq_refl))))).
Defined.

End FactoryWitnesses.
