(* ===== verification/Component.v ===== *)
(** * Component: the phase walks over the component tree
    (rustdv-methodology/src/component.rs).

    Phase methods are user code: [hook]s that change the component's own state
    and the world.  [build] may also create the component's children.  A walk
    reads [children_mut] (the children in declaration order, as mutable
    borrows), visits them in turn and writes them back in place.  The recursion
    is bounded by the depth of the tree ([depth_le]); every finite tree has one
    ([depth_le_height]). The run phase is given by what each component's own run
    body comes to; the futures' interleaving belongs to the executor. *)
From Stdlib Require Import Ascii.
From stdpp Require Import pretty.
From S2P Require Import Prelude Path Log Config Factory.

Module Component.
Import Factory.

(** ** Check failures *)

Record CheckSink := { errors : list string }.
Definition sink_new : CheckSink := {| errors := [] |}.
Definition sink_error (msg : string) (s : CheckSink) : CheckSink := {| errors := errors s ++ [msg] |}.
Definition sink_is_ok (s : CheckSink) : bool := match errors s with [] => true | _ => false end.
Definition sink_into_result (s : CheckSink) : Result unit string :=
  match errors s with
  | [] => Ok tt
  | es => Err (pretty (N.of_nat (length es)) +:+ " check failure(s): " +:+ join_with "; " es)
  end.

Record TestError := { msg : string; kind : option string }.
Definition te_new (m : string) : TestError := {| msg := m; kind := None |}.
Definition with_kind (m k : string) : TestError := {| msg := m; kind := Some k |}.

(** The context of a node, as far as the walks use it. *)
Record RustdvCtx := { path : Path.RustdvPath; seed : Z }.
Definition ctx_child (c : RustdvCtx) (name : string) : RustdvCtx :=
  {| path := Path.child (path c) name; seed := seed c |}.
Definition ctx_path (c : RustdvCtx) : string := Path.as_str (path c).

Inductive Phase :=
| Build | Connect | EndOfElaboration | StartOfSimulation | Run | Extract | Check | Report | Final | Start.

Section Walks.
Context {U : Set} {W : Type}.
Abbreviation Node := (@Node U).
Abbreviation Field := (@Field U).

(** ** Children as mutable borrows *)

(** Write the visited children back where they were borrowed from. *)
Fixpoint write_back (fs : list (string * Field)) (cs : list Node) : list (string * Field) :=
  match fs with
  | [] => []
  | (n, FComp (Some c0) o r) :: rest =>
      match cs with c :: cs' => (n, FComp (Some c) o r) :: write_back rest cs' | [] => fs end
  | (n, FOption (Some c0)) :: rest =>
      match cs with c :: cs' => (n, FOption (Some c)) :: write_back rest cs' | [] => fs end
  | (n, FVec vs) :: rest => (n, FVec (take (length vs) cs)) :: write_back rest (drop (length vs) cs)
  | (n, FPlain c0) :: rest =>
      match cs with c :: cs' => (n, FPlain c) :: write_back rest cs' | [] => fs end
  | nf :: rest => nf :: write_back rest cs
  end.

Definition set_children (n : Node) (cs : list Node) : Node :=
  mkNode (node_name n) (own_state n) (write_back (fields_of n) cs).

Definition set_own (n : Node) (u : U) : Node := mkNode (node_name n) u (fields_of n).

(** [for (name, child) in node.children_mut() { .. }]. *)
Fixpoint traverse {S} (f : string → Node → S → Node * S) (l : list (string * Node)) (s : S) : list Node * S :=
  match l with
  | [] => ([], s)
  | (name, c) :: r =>
      let '(c', s1) := f name c s in
      let '(r', s2) := traverse f r s1 in (c' :: r', s2)
  end.

Definition visit_children {S} (f : string → Node → S → Node * S) (n : Node) (s : S) : Node * S :=
  let '(cs, s') := traverse f (children_mut n) s in (set_children n cs, s').

(** A phase method of the component's type: it reads the component, its children
    and ports included, and changes the component's own state and the world. *)
Definition Hook (S : Type) := Node → RustdvCtx → S → U * S.

Definition call {S} (h : Hook S) (n : Node) (ctx : RustdvCtx) (s : S) : Node * S :=
  let '(u, s') := h n ctx s in (set_own n u, s').

(** The node acts, then its children. *)
Fixpoint top_down {S} (fuel : nat) (h : Hook S) (n : Node) (ctx : RustdvCtx) (s : S) : Node * S :=
  match fuel with
  | 0 => (n, s)
  | S k =>
      let '(n1, s1) := call h n ctx s in
      visit_children (λ name c s, top_down k h c (ctx_child ctx name) s) n1 s1
  end.

(** Children first, then the node. *)
Fixpoint bottom_up {S} (fuel : nat) (h : Hook S) (n : Node) (ctx : RustdvCtx) (s : S) : Node * S :=
  match fuel with
  | 0 => (n, s)
  | S k =>
      let '(n1, s1) := visit_children (λ name c s, bottom_up k h c (ctx_child ctx name) s) n s in
      call h n1 ctx s1
  end.

Definition connect_all := @bottom_up W.
Definition end_of_elaboration_all := @top_down W.
Definition start_of_simulation_all := @top_down W.
Definition start_all := @bottom_up W.
Definition extract_all := @top_down W.
Definition check_all := @top_down (W * CheckSink).
Definition report_all := @top_down W.
Definition final_all := @top_down W.

(** ** Build *)

Context {Any : Type} {TO : Config.Typed Any (@Override U)}.
Variable db : W → Config.ConfigDb Any.            (* the configuration database in the world *)
Variable set_db : Config.ConfigDb Any → W → W.
Variable bound : W → nat → bool.                  (* the port cells in the world *)

(** [build]: the component may create its children. *)
Variable build : Node → RustdvCtx → W → Node * W.

(** Build a node, swap overrides in, then build the children it has now. *)
Fixpoint build_all (fuel : nat) (n : Node) (ctx : RustdvCtx) (w : W) : Node * W :=
  match fuel with
  | 0 => (n, w)
  | S k =>
      let '(n1, w1) := build n ctx w in
      let n2 := resolve_children (ctx_path ctx) (db w1) n1 in
      visit_children (λ name c s, build_all k c (ctx_child ctx name) s) n2 w1
  end.

(** ** Elaboration check *)

(** The message that lists them. *)
Definition missing_text (missing : list string) : string :=
  foldl (λ (m x : string), m +:+ nl +:+ "  " +:+ x) "these TLM ports were declared but never connected:"%string missing.

Fixpoint unconnected_ports (fuel : nat) (n : Node) (ctx : RustdvCtx) (w : W) : list string :=
  match fuel with
  | 0 => []
  | S k =>
      let p := ctx_path ctx in
      let owner := if decide (p = EmptyString) then "(top)"%string else p in
      omap (λ i, if required i && negb (connected i)
                 then Some (owner +:+ "." +:+ p_name i +:+ " (" +:+ p_kind i +:+ ")") else None)
        (port_infos (bound w) n) ++
      concat (map (λ nc, unconnected_ports k nc.2 (ctx_child ctx nc.1) w) (children_mut n))
  end.

Definition check_connections (fuel : nat) (n : Node) (ctx : RustdvCtx) (w : W) : Result unit TestError :=
  match unconnected_ports fuel n ctx w with
  | [] => Ok tt
  | missing => Err (with_kind (missing_text missing) "tlm_unconnected_port")
  end.

(** ** Run *)

(** What a component's own run body, raced against the end-of-phase consensus,
    comes to: its state afterwards and its verdict ([run_one]). *)
Variable run_one : string → U → RustdvCtx → U * Result unit TestError.

Definition first_err (rs : list (Result unit TestError)) : Result unit TestError :=
  default (Ok tt) (find_first (λ r, match r with Err _ => true | Ok _ => false end) rs).

(** Joined children: their results in order, and every run body that started. *)
Definition RunAcc : Type := option (list (Result unit TestError) * list RustdvCtx).
Definition run_child (go : Node → RustdvCtx → option (Node * Result unit TestError * list RustdvCtx))
    (ctx : RustdvCtx) (name : string) (c : Node) (acc : RunAcc) : Node * RunAcc :=
  match acc with
  | None => (c, None)
  | Some (rs, st) =>
      match go c (ctx_child ctx name) with
      | Some (c', r, st') => (c', Some (rs ++ [r], st ++ st'))
      | None => (c, None)
      end
  end.

Fixpoint run_all (fuel : nat) (n : Node) (ctx : RustdvCtx) : option (Node * Result unit TestError * list RustdvCtx) :=
  match fuel with
  | 0 => None
  | S k =>
      let '(n0, taken) := take_children n in
      (* in-place children, joined *)
      let '(n1, acc) := visit_children (run_child (run_all k) ctx) n0 (Some ([], [])) in
      match acc with
      | None => None
      | Some (rs, st) =>
          match first_err rs with
          | Err e => Some (restore_children n1 taken, Err e, st)
          | Ok _ =>
              let '(u, r) := run_one (node_name n1) (own_state n1) ctx in
              match taken with
              | [] => Some (set_own n1 u, r, st ++ [ctx])
              | _ =>
                  (* taken children, joined with the node's own run *)
                  let '(taken', acc') := traverse (run_child (run_all k) ctx) taken (Some ([], [])) in
                  match acc' with
                  | None => None
                  | Some (rs', st') =>
                      Some (restore_children (set_own n1 u) (zip taken.*1 taken'),
                            first_err (rs' ++ [r]), st ++ st' ++ [ctx])
                  end
              end
          end
      end
  end.

(** ** The whole test *)

Variable hooks : Phase → Hook W.
Variable check_hook : Hook (W * CheckSink).

Definition run_extract_check_report (fuel : nat) (n : Node) (ctx : RustdvCtx) (w : W) : Node * W * Result unit string :=
  let '(n1, w1) := extract_all fuel (hooks Extract) n ctx w in
  let '(n2, (w2, sink)) := check_all fuel check_hook n1 ctx (w1, sink_new) in
  let '(n3, w3) := report_all fuel (hooks Report) n2 ctx w2 in
  let '(n4, w4) := final_all fuel (hooks Final) n3 ctx w3 in
  (n4, w4, sink_into_result sink).

(** What the run bodies that started did to the world. *)
Variable after_run : list RustdvCtx → W → W.

Definition run_component_test (fuel : nat) (test : Node) (ctx : RustdvCtx) (w : W) : option (Node * W * Result unit TestError) :=
  let w0 := set_db (Config.set_in_build true (db w)) w in
  let '(n1, w1) := build_all fuel test ctx w0 in
  let w1' := set_db (Config.set_in_build false (db w1)) w1 in
  let '(n2, w2) := connect_all fuel (hooks Connect) n1 ctx w1' in
  match check_connections fuel n2 ctx w2 with
  | Err e => Some (n2, w2, Err e)
  | Ok _ =>
      let '(n3, w3) := end_of_elaboration_all fuel (hooks EndOfElaboration) n2 ctx w2 in
      let '(n4, w4) := start_of_simulation_all fuel (hooks StartOfSimulation) n3 ctx w3 in
      match run_all fuel n4 ctx with
      | None => None
      | Some (n5, run_result, started) =>
          let '(n6, w6, post) := run_extract_check_report fuel n5 ctx (after_run started w4) in
          Some (n6, w6, match run_result with
                        | Err e => Err e
                        | Ok _ => match post with Ok _ => Ok tt | Err m => Err (te_new m) end
                        end)
      end
  end.

End Walks.

(** ** Depth and shape *)

Section Shape.
Context {U : Set}.
Abbreviation Node := (@Node U).
Abbreviation Field := (@Field U).
Implicit Types n : Node.

Fixpoint depth_le (k : nat) (n : Node) : bool :=
  match k with
  | 0 => false
  | S j => forallb (λ nc, depth_le j nc.2) (children_mut n)
  end.

(** The visiting order of the walks. *)
Fixpoint preorder (k : nat) (n : Node) (ctx : RustdvCtx) : list RustdvCtx :=
  match k with
  | 0 => []
  | S j => ctx :: concat (map (λ nc, preorder j nc.2 (ctx_child ctx nc.1)) (children_mut n))
  end.
Fixpoint postorder (k : nat) (n : Node) (ctx : RustdvCtx) : list RustdvCtx :=
  match k with
  | 0 => []
  | S j => concat (map (λ nc, postorder j nc.2 (ctx_child ctx nc.1)) (children_mut n)) ++ [ctx]
  end.

(** Every node's fields have distinct names. *)
Fixpoint tree_ok (k : nat) (n : Node) : Prop :=
  match k with
  | 0 => True
  | S j => fields_ok n ∧ Forall (λ nc, tree_ok j nc.2) (children_mut n)
  end.

Definition children_of (fs : list (string * Field)) : list (string * Node) :=
  concat (map (λ nf, field_children nf.1 nf.2) fs).

Lemma children_mut_fields n : children_mut n = children_of (fields_of n).
Proof. done. Qed.

Lemma traverse_length {S} (f : string → Node → S → Node * S) l s : length (fst (traverse f l s)) = length l.
Proof.
  revert s. induction l as [|[name c] r IH]; intros s; [done|]. simpl. destruct (f name c s) as [c' s1].
  specialize (IH s1). destruct (traverse f r s1). simpl in *. by rewrite IH.
Qed.

(** Two nodes with the same positions below them, in the same order, and the
    same field names at every level. *)
Definition same_shape (c c' : Node) : Prop :=
  ∀ j ctx, preorder j c ctx = preorder j c' ctx ∧ postorder j c ctx = postorder j c' ctx ∧
    depth_le j c = depth_le j c' ∧ (tree_ok j c ↔ tree_ok j c').

#[global] Instance same_shape_equiv : Equivalence same_shape.
Proof.
  split; [done|..].
  - intros c1 c2 H j ctx. by destruct (H j ctx) as (? & ? & ? & ?).
  - intros c1 c2 c3 H1 H2 j ctx. destruct (H1 j ctx) as (? & ? & ? & ?), (H2 j ctx) as (? & ? & ? & ?).
    split_and!; [congruence..|]. by etrans.
Qed.

Lemma same_shape_children n n' :
  (fields_of n).*1 = (fields_of n').*1 →
  Forall2 (λ a b, a.1 = b.1 ∧ same_shape a.2 b.2) (children_mut n) (children_mut n') → same_shape n n'.
Proof.
  intros Hnames Hc [|j] ctx; [done|]. simpl. unfold fields_ok. rewrite Hnames.
  assert (map (λ nc, preorder j nc.2 (ctx_child ctx nc.1)) (children_mut n) =
          map (λ nc, preorder j nc.2 (ctx_child ctx nc.1)) (children_mut n') ∧
          map (λ nc, postorder j nc.2 (ctx_child ctx nc.1)) (children_mut n) =
          map (λ nc, postorder j nc.2 (ctx_child ctx nc.1)) (children_mut n') ∧
          forallb (λ nc, depth_le j nc.2) (children_mut n) = forallb (λ nc, depth_le j nc.2) (children_mut n') ∧
          (Forall (λ nc, tree_ok j nc.2) (children_mut n) ↔ Forall (λ nc, tree_ok j nc.2) (children_mut n')))
    as (-> & -> & -> & ->); [|done].
  induction Hc as [|[x c] [y c'] l l' [Hn Hs] _ (IH1 & IH2 & IH3 & IH4)]; [done|]. simpl in *. subst y.
  destruct (Hs j (ctx_child ctx x)) as (-> & -> & -> & Ht). rewrite IH1, IH2, IH3, !Forall_cons, IH4.
  simpl. by rewrite Ht.
Qed.

(** Fields that differ only in the children they hold, which have the same shape. *)
Inductive field_sim : Field → Field → Prop :=
| fs_comp c c' o r : same_shape c c' → field_sim (FComp (Some c) o r) (FComp (Some c') o r)
| fs_comp_none o r : field_sim (FComp None o r) (FComp None o r)
| fs_option c c' : same_shape c c' → field_sim (FOption (Some c)) (FOption (Some c'))
| fs_option_none : field_sim (FOption None) (FOption None)
| fs_vec cs cs' : Forall2 same_shape cs cs' → field_sim (FVec cs) (FVec cs')
| fs_plain c c' : same_shape c c' → field_sim (FPlain c) (FPlain c')
| fs_port k p : field_sim (FPort k p) (FPort k p).

Definition fields_sim (fs fs' : list (string * Field)) : Prop :=
  Forall2 (λ a b, a.1 = b.1 ∧ field_sim a.2 b.2) fs fs'.

Lemma field_sim_refl f : field_sim f f.
Proof. destruct f as [[c|] o r|[c|]|cs|c|k p]; constructor; try reflexivity. Qed.

Lemma field_children_sim name f f' :
  field_sim f f' → Forall2 (λ a b, a.1 = b.1 ∧ same_shape a.2 b.2) (field_children name f) (field_children name f').
Proof.
  intros [c c' o r H|o r|c c' H| |cs cs' H|c c' H|k p]; simpl;
    try (by constructor); try (constructor; [by split|constructor]).
  apply Forall2_lookup. intros i. rewrite !list_lookup_imap.
  destruct (cs !! i) as [c|] eqn:E; simpl.
  - destruct (Forall2_lookup_l _ _ _ _ _ H E) as (c' & -> & Hc). by constructor.
  - assert (cs' !! i = None) as -> by (apply lookup_ge_None; rewrite <- (Forall2_length _ _ _ H); by apply lookup_ge_None).
    constructor.
Qed.

Lemma fields_sim_children fs fs' :
  fields_sim fs fs' → Forall2 (λ a b, a.1 = b.1 ∧ same_shape a.2 b.2) (children_of fs) (children_of fs').
Proof.
  unfold children_of. induction 1 as [|[x f] [y f'] fs fs' [Hn Hf] _ IH]; simpl in *; [constructor|]. subst y.
  apply Forall2_app; [by apply field_children_sim|done].
Qed.

Lemma fields_sim_shape t t' u u' fs fs' : fields_sim fs fs' → same_shape (mkNode t u fs) (mkNode t' u' fs').
Proof.
  intros H. apply same_shape_children; [|by apply fields_sim_children]. simpl.
  induction H as [|a b ? ? [Hn _] _ IH]; [done|]. csimpl. by rewrite Hn, IH.
Qed.

(** Writing children of the same shape back keeps the fields. *)
Lemma write_back_sim fs cs :
  Forall2 same_shape (children_of fs).*2 cs → fields_sim fs (write_back fs cs).
Proof.
  unfold children_of, fields_sim. revert cs. induction fs as [|[x f] fs IH]; intros cs Hc; simpl in *; [constructor|].
  rewrite fmap_app in Hc.
  destruct f as [[c|] o r|[c|]|vs|c|k p]; simpl in *.
  - inversion Hc as [|? ? ? cs' H1 H2]; subst. constructor; [by split; [|constructor]|by apply IH].
  - constructor; [by split; [|constructor]|by apply IH].
  - inversion Hc as [|? ? ? cs' H1 H2]; subst. constructor; [by split; [|constructor]|by apply IH].
  - constructor; [by split; [|constructor]|by apply IH].
  - apply Forall2_app_inv_l in Hc as (c1 & c2 & H1 & H2 & ->).
    assert ((imap (λ i c, (x +:+ "[" +:+ pretty (N.of_nat i) +:+ "]", c)) vs).*2 = vs) as E.
    { apply list_eq. intros i. rewrite list_lookup_fmap, list_lookup_imap. by destruct (vs !! i). }
    rewrite E in H1. pose proof (Forall2_length _ _ _ H1) as Hl.
    rewrite take_app_length', drop_app_length' by done. constructor; [by split; [|constructor]|by apply IH].
  - inversion Hc as [|? ? ? cs' H1 H2]; subst. constructor; [by split; [|constructor]|by apply IH].
  - constructor; [by split; [|constructor]|by apply IH].
Qed.

Lemma set_children_shape n cs : Forall2 same_shape (children_mut n).*2 cs → same_shape n (set_children n cs).
Proof. intros H. destruct n as [t u fs]. by apply fields_sim_shape, write_back_sim. Qed.

Lemma set_own_shape n u : same_shape n (set_own n u).
Proof. apply same_shape_children; [by destruct n|]. destruct n. apply Forall_Forall2_diag, Forall_true. by split. Qed.

Lemma visit_shape {S} (f : string → Node → S → Node * S) n s :
  (∀ name c s, (name, c) ∈ children_mut n → same_shape c (fst (f name c s))) →
  same_shape n (fst (visit_children f n s)).
Proof.
  intros Hf. unfold visit_children. destruct (traverse f (children_mut n) s) as [cs s'] eqn:E. simpl.
  apply set_children_shape. revert cs s s' E Hf. generalize (children_mut n).
  induction l as [|[name c] l IH]; intros cs s s' E Hf; simpl in *; simplify_eq; [constructor|].
  pose proof (Hf name c s ltac:(set_solver)) as Hc. destruct (f name c s) as [c' s1].
  destruct (traverse f l s1) as [r' s2] eqn:E2. simplify_eq/=. constructor; [done|].
  eapply IH; [exact E2|]. intros. apply Hf. set_solver.
Qed.

Lemma call_shape {S} (h : Hook S) n ctx s : same_shape n (fst (call h n ctx s)).
Proof. unfold call. destruct (h n ctx s). apply set_own_shape. Qed.

Lemma call_children {S} (h : Hook S) n ctx s : children_mut (fst (call h n ctx s)) = children_mut n.
Proof. unfold call. destruct (h n ctx s). by destruct n. Qed.

Lemma top_down_shape {S} k (h : Hook S) n ctx s : same_shape n (fst (top_down k h n ctx s)).
Proof.
  revert n ctx s. induction k as [|k IH]; intros n ctx s; simpl; [reflexivity|].
  pose proof (call_shape h n ctx s) as Hc. destruct (call h n ctx s) as [n1 s1]. simpl in Hc.
  rewrite Hc. apply visit_shape. intros. apply IH.
Qed.

Lemma bottom_up_shape {S} k (h : Hook S) n ctx s : same_shape n (fst (bottom_up k h n ctx s)).
Proof.
  revert n ctx s. induction k as [|k IH]; intros n ctx s; simpl; [reflexivity|].
  assert (same_shape n (fst (visit_children (λ name c s, bottom_up k h c (ctx_child ctx name) s) n s))) as Hv.
  { apply visit_shape. intros. apply IH. }
  destruct (visit_children _ n s) as [n1 s1]. simpl in Hv. rewrite Hv. apply call_shape.
Qed.

(** ** Traces *)

Section Trace.
Context {St : Type} (log : St → list (Phase * RustdvCtx)).

(** The children as a walk leaves them. *)
Lemma children_write_back fs cs :
  length cs = length (children_of fs) → children_of (write_back fs cs) = zip (children_of fs).*1 cs.
Proof.
  unfold children_of. revert cs. induction fs as [|[x f] fs IH]; intros cs Hl; [by destruct cs|]. csimpl in *.
  destruct f as [[c|] o r|[c|]|vs|c|k p]; csimpl in *; try (by apply IH);
    try (destruct cs as [|c' cs]; csimpl in *; [done|]; f_equal; apply IH; lia).
  rewrite length_app, length_imap in Hl. rewrite fmap_app.
  rewrite <- (take_drop (length vs) cs) at 3.
  rewrite zip_with_app by (rewrite length_fmap, length_imap, length_take; lia).
  f_equal; [|apply IH; rewrite length_drop; lia].
  apply list_eq. intros i. rewrite lookup_zip_with, list_lookup_fmap, !list_lookup_imap.
  destruct (take (length vs) cs !! i) as [c'|] eqn:E; simpl.
  - apply lookup_take_Some in E as [_ Hi]. destruct (lookup_lt_is_Some_2 vs i Hi) as [c ->]. done.
  - by destruct (vs !! i).
Qed.

(** Visiting children one after another appends their traces in order. *)
Lemma traverse_log (f : string → Node → St → Node * St) tr l s :
  (∀ name c s, log (snd (f name c s)) = log s ++ tr name (fst (f name c s))) →
  log (snd (traverse f l s)) = log s ++ concat (zip_with tr l.*1 (fst (traverse f l s))).
Proof.
  intros Hf. revert s. induction l as [|[name c] l IH]; intros s; csimpl; [by rewrite app_nil_r|].
  specialize (Hf name c s). destruct (f name c s) as [c' s1]. specialize (IH s1).
  destruct (traverse f l s1) as [r s2]. simpl in *. by rewrite IH, Hf, <- app_assoc.
Qed.

Lemma visit_log (f : string → Node → St → Node * St) tr n s :
  (∀ name c s, log (snd (f name c s)) = log s ++ tr name (fst (f name c s))) →
  let '(n', s') := visit_children f n s in
  log s' = log s ++ concat (map (λ nc, tr nc.1 nc.2) (children_mut n')).
Proof.
  intros Hf. unfold visit_children. pose proof (traverse_log f tr (children_mut n) s Hf) as H.
  pose proof (traverse_length f (children_mut n) s) as Hl.
  destruct (traverse f (children_mut n) s) as [cs s']. simpl in *. rewrite H. f_equal. f_equal.
  change (children_mut (set_children n cs)) with (children_of (write_back (fields_of n) cs)).
  rewrite children_write_back by done. change (children_of (fields_of n)) with (children_mut n).
  clear H. revert cs Hl. induction (children_mut n) as [|[x c] l IH]; intros [|c' cs] Hl; csimpl in *; try done.
  f_equal. apply IH. lia.
Qed.

Lemma tag_concat p {A} (g : A → list RustdvCtx) l :
  map (λ c, (p : Phase, c)) (concat (map g l)) = concat (map (λ x, map (λ c, (p, c)) (g x)) l).
Proof. induction l as [|x l IH]; [done|]. simpl. by rewrite map_app, IH. Qed.

Variables (p : Phase) (h : @Hook U St).
Hypothesis h_logs : ∀ n ctx s, log (snd (h n ctx s)) = log s ++ [(p, ctx)].

Lemma call_log n ctx s : log (snd (call h n ctx s)) = log s ++ [(p, ctx)].
Proof. unfold call. rewrite <- (h_logs n). by destruct (h n ctx s). Qed.

Lemma top_down_log k n ctx s :
  log (snd (top_down k h n ctx s)) = log s ++ map (λ c, (p, c)) (preorder k n ctx).
Proof.
  revert n ctx s. induction k as [|k IH]; intros n ctx s; [simpl; by rewrite app_nil_r|].
  destruct (top_down_shape (S k) h n ctx s (S k) ctx) as [-> _]. simpl.
  pose proof (call_log n ctx s) as Hc. destruct (call h n ctx s) as [n1 s1]. simpl in Hc.
  pose proof (visit_log (λ name c s, top_down k h c (ctx_child ctx name) s)
    (λ name c, map (λ x, (p, x)) (preorder k c (ctx_child ctx name))) n1 s1) as Hv.
  destruct (visit_children _ n1 s1) as [n2 s2]. simpl. rewrite Hv, Hc, tag_concat, <- app_assoc; [done|].
  intros name c s0. rewrite IH. by destruct (top_down_shape k h c (ctx_child ctx name) s0 k (ctx_child ctx name)) as [-> _].
Qed.

Lemma bottom_up_log k n ctx s :
  log (snd (bottom_up k h n ctx s)) = log s ++ map (λ c, (p, c)) (postorder k n ctx).
Proof.
  revert n ctx s. induction k as [|k IH]; intros n ctx s; [simpl; by rewrite app_nil_r|].
  pose proof (bottom_up_shape (S k) h n ctx s (S k) ctx) as (_ & -> & _). simpl.
  pose proof (visit_log (λ name c s, bottom_up k h c (ctx_child ctx name) s)
    (λ name c, map (λ x, (p, x)) (postorder k c (ctx_child ctx name))) n s) as Hv.
  destruct (visit_children _ n s) as [n1 s1]. rewrite call_log, call_children, Hv, map_app, tag_concat, <- app_assoc; [done|].
  intros name c s0. rewrite IH. by destruct (bottom_up_shape k h c (ctx_child ctx name) s0 k (ctx_child ctx name)) as (_ & -> & _).
Qed.

End Trace.
(** ** The run phase *)

(** Fields as they are while the slots are empty: the other children of the
    same shape, every filled slot emptied. *)
Inductive field_esim : Field → Field → Prop :=
| es_comp c o r : field_esim (FComp (Some c) o r) (FComp None o r)
| es_other f f' : field_sim f f' → (∀ c o r, f ≠ FComp (Some c) o r) → field_esim f f'.

Definition taken_of (fs : list (string * Field)) : list (string * Node) := concat (map (λ nf, snd (take_field nf)) fs).
Definition emptied (fs : list (string * Field)) : list (string * Field) := map (λ nf, fst (take_field nf)) fs.

Lemma emptied_esim fs fs' :
  fields_sim (emptied fs) fs' → Forall2 (λ a b, a.1 = b.1 ∧ field_esim a.2 b.2) fs fs'.
Proof.
  revert fs'. induction fs as [|[x f] fs IH]; intros fs' H; simpl in *; inversion_clear H as [|? [y g] ? ? [Hn Hf] Hr]; [constructor|].
  constructor; [|by apply IH]. simpl in *. destruct f as [[c|] o r| | | |]; simpl in *; subst; split; try done;
    try (apply es_other; [done|by intros]).
  inversion Hf; subst. constructor.
Qed.

(** Restoring puts the driven children back into their slots. *)
Lemma restore_sim fs fs' ts :
  NoDup fs.*1 → Forall2 (λ a b, a.1 = b.1 ∧ field_esim a.2 b.2) fs fs' →
  Forall2 same_shape (taken_of fs).*2 ts →
  fields_sim fs (foldl (λ fs nc, restore_one nc.1 nc.2 fs) fs' (zip (taken_of fs).*1 ts)).
Proof.
  intros Hnd He. unfold fields_sim.
  assert (∀ acc ts, (∀ x, x ∈ acc.*1 → x ∉ fs.*1) → Forall2 same_shape (taken_of fs).*2 ts →
    ∃ out, foldl (λ fs nc, restore_one nc.1 nc.2 fs) (acc ++ fs') (zip (taken_of fs).*1 ts) = acc ++ out ∧
      Forall2 (λ a b, a.1 = b.1 ∧ field_sim a.2 b.2) fs out) as Hall.
  { clear ts. induction He as [|[x f] [y f'] fs fs' [Hn Hf] He IH]; intros acc ts Hacc Ht.
    - unfold taken_of in *. simpl in *. inversion Ht; subst. by exists [].
    - simpl in Hn, Hf. subst y. apply NoDup_cons in Hnd as [Hx Hnd].
      assert (∀ g ts', Forall2 same_shape (taken_of fs).*2 ts' → field_sim f g →
        ∃ out, foldl (λ fs nc, restore_one nc.1 nc.2 fs) (acc ++ (x, g) :: fs') (zip (taken_of fs).*1 ts') = acc ++ out ∧
          Forall2 (λ a b, a.1 = b.1 ∧ field_sim a.2 b.2) ((x, f) :: fs) out) as Hstep.
      { intros g ts' Ht' Hg. destruct (IH Hnd (acc ++ [(x, g)]) ts') as (out & Ho & Hout); [|done|].
        - intros z. rewrite fmap_app, elem_of_app. simpl. intros [Hz|Hz%list_elem_of_singleton]; [|by subst].
          specialize (Hacc z Hz). set_solver.
        - exists ((x, g) :: out). rewrite <- !app_assoc in Ho. split; [exact Ho|]. by constructor. }
      inversion Hf as [c o r|? ? Hsim Hnc]; subst.
      + unfold taken_of in *. simpl in *. inversion_clear Ht as [|? t ? ts' Hct Hts].
        simpl. rewrite restore_one_skip by (intros Hin; specialize (Hacc x Hin); set_solver). simpl.
        rewrite decide_True by done. apply (Hstep _ ts'); [done|by constructor].
      + assert (taken_of ((x, f) :: fs) = taken_of fs) as E.
        { unfold taken_of. simpl. destruct f as [[c|] o r| | | |]; try done. by destruct (Hnc c o r). }
        rewrite E in *. by apply Hstep. }
  intros Ht. destruct (Hall [] ts ltac:(set_solver) Ht) as (out & Ho & Hout). simpl in Ho. by rewrite Ho.
Qed.

End Shape.

Section RunPhase.
Context {U : Set}.
Abbreviation Node := (@Node U).
Abbreviation Field := (@Field U).
Implicit Types n : Node.
Variable run_one : string → U → RustdvCtx → U * Result unit TestError.

(** Every component below a node, with its context, type and state. *)
Fixpoint listing (k : nat) (n : Node) (ctx : RustdvCtx) : list (RustdvCtx * (string * U)) :=
  match k with
  | 0 => []
  | S j => (ctx, (node_name n, own_state n)) ::
           concat (map (λ nc, listing j nc.2 (ctx_child ctx nc.1)) (children_mut n))
  end.

Lemma listing_preorder k n ctx : (listing k n ctx).*1 = preorder k n ctx.
Proof.
  revert n ctx. induction k as [|k IH]; intros n ctx; [done|]. csimpl. f_equal.
  induction (children_mut n) as [|nc l IHl]; [done|]. csimpl. by rewrite fmap_app, IHl, IH.
Qed.

(** What the component's own run body comes to. *)
Definition verdict (x : RustdvCtx * (string * U)) : Result unit TestError := snd (run_one x.2.1 x.2.2 x.1).

Lemma children_perm (fs : list (string * Field)) : children_of fs ≡ₚ children_of (emptied fs) ++ taken_of fs.
Proof.
  unfold children_of, emptied, taken_of. induction fs as [|[x f] fs IH]; [done|]. simpl. rewrite IH.
  destruct f as [[c|] o r|[c|]|vs|c|k p]; simpl; try done.
  - by rewrite Permutation_middle.
  - by rewrite <- app_assoc.
Qed.

Lemma first_err_spec rs :
  match first_err rs with
  | Ok _ => Forall (λ r, r = Ok tt) rs
  | Err e => Err e ∈ rs
  end.
Proof.
  unfold first_err. induction rs as [|[[]|e] rs IH]; simpl; [constructor| |set_solver].
  destruct (default _ _); [by constructor|set_solver].
Qed.

(** What running a subtree establishes. *)
Definition ran (l : list (RustdvCtx * (string * U))) (r : Result unit TestError) (st : list RustdvCtx) : Prop :=
  (∀ c, c ∈ st → c ∈ l.*1) ∧
  match r with
  | Ok _ => st ≡ₚ l.*1 ∧ Forall (λ x, verdict x = Ok tt) l
  | Err e => ∃ x, x ∈ l ∧ x.1 ∈ st ∧ verdict x = Err e
  end.

Lemma traverse_run go (sub : string → Node → list (RustdvCtx * (string * U))) ctx l rs st :
  (∀ name c, (name, c) ∈ l → ∃ c' r st',
     go c (ctx_child ctx name) = Some (c', r, st') ∧ same_shape c c' ∧ ran (sub name c) r st') →
  ∃ cs outs, traverse (run_child go ctx) l (Some (rs, st)) = (cs, Some (rs ++ outs.*1, st ++ concat outs.*2)) ∧
    Forall2 same_shape l.*2 cs ∧ Forall2 (λ nc o, ran (sub nc.1 nc.2) o.1 o.2) l outs.
Proof.
  revert rs st. induction l as [|[name c] l IH]; intros rs st Hgo; simpl.
  - exists [], []. rewrite !app_nil_r. split_and!; [done|constructor..].
  - destruct (Hgo name c) as (c' & r & st' & -> & Hs & Hr); [set_solver|].
    destruct (IH (rs ++ [r]) (st ++ st')) as (cs & outs & E & Hcs & Ho); [intros; apply Hgo; set_solver|].
    rewrite E. exists (c' :: cs), ((r, st') :: outs). simpl. rewrite <- !app_assoc. simpl.
    split_and!; [done|by constructor|by constructor].
Qed.

(** Joining subtrees: all passed, or one of them failed. *)
Lemma ran_join (sub : string → Node → list (RustdvCtx * (string * U))) l outs :
  Forall2 (λ nc o, ran (sub nc.1 nc.2) o.1 o.2) l outs →
  ran (concat (map (λ nc, sub nc.1 nc.2) l)) (first_err outs.*1) (concat outs.*2).
Proof.
  intros H. pose proof (first_err_spec outs.*1) as Hf. split.
  - clear Hf. induction H as [|nc o l outs [Ho _] _ IH]; simpl; [set_solver|].
    intros c. rewrite fmap_app, !elem_of_app. naive_solver.
  - destruct (first_err outs.*1) as [u|e].
    + induction H as [|nc [r st] l outs [_ Ho] _ IH]; simpl in *; [done|]. inversion_clear Hf as [|? ? Hr Hrs]. subst r.
      destruct Ho as [Hp Hv]. destruct (IH Hrs) as [IHp IHv]. rewrite fmap_app. split; [by f_equiv|]. by apply Forall_app.
    + induction H as [|nc [r st] l outs [_ Ho] _ IH]; simpl in *; [set_solver|].
      apply elem_of_cons in Hf as [<-|Hf].
      * destruct Ho as (x & ? & ? & ?). exists x. set_solver.
      * destruct (IH Hf) as (x & ? & ? & ?). exists x. set_solver.
Qed.

Lemma ran_perm l l' r st : l ≡ₚ l' → ran l r st → ran l' r st.
Proof.
  intros Hp [Hs Hr]. split; [intros c Hc; rewrite <- Hp; by apply Hs|]. destruct r.
  - destruct Hr as [H1 H2]. split; [by rewrite <- Hp|by rewrite <- Hp].
  - destruct Hr as (x & ? & ? & ?). exists x. by rewrite <- Hp.
Qed.

(** Adding the node's own run, joined last. *)
Lemma ran_own l r st x :
  ran l r st → ran (l ++ [x]) (first_err ([r] ++ [verdict x])) (st ++ [x.1]).
Proof.
  intros [Hs Hr]. split; [intros c; rewrite fmap_app; set_solver|].
  destruct r as [[]|e]; unfold first_err; simpl.
  - destruct Hr as [Hp Hv]. destruct (verdict x) as [[]|e] eqn:E; simpl.
    + rewrite fmap_app. split; [by rewrite Hp|]. apply Forall_app. split; [done|by apply Forall_singleton].
    + exists x. set_solver.
  - destruct Hr as (y & ? & ? & ?). exists y. set_solver.
Qed.

Lemma ran_app l1 l2 r st1 st2 :
  ran l1 (Ok tt) st1 → ran l2 r st2 → ran (l1 ++ l2) r (st1 ++ st2).
Proof.
  intros [Hs1 [Hp1 Hv1]] [Hs2 Hr]. split; [intros c; rewrite fmap_app; set_solver|]. destruct r.
  - destruct Hr as [Hp2 Hv2]. rewrite fmap_app. split; [by f_equiv|by apply Forall_app].
  - destruct Hr as (y & ? & ? & ?). exists y. set_solver.
Qed.

Lemma first_err_app rs r : first_err (rs ++ [r]) = first_err ([first_err rs] ++ [r]).
Proof. unfold first_err. induction rs as [|[[]|e] rs IH]; simpl in *; [by destruct r as [[]|]|done|done]. Qed.

Lemma depth_children k n nc : depth_le (S k) n = true → nc ∈ children_mut n → depth_le k nc.2 = true.
Proof. simpl. rewrite forallb_forall. intros H Hin. by apply H, list_elem_of_In. Qed.

Lemma concat_map_perm {A B} (g : A → list B) l l' : l ≡ₚ l' → concat (map g l) ≡ₚ concat (map g l').
Proof.
  induction 1 as [|x l l' _ IH|x y l|l1 l2 l3 _ IH1 _ IH2]; simpl; [done|by rewrite IH| |by rewrite IH1].
  rewrite !app_assoc. f_equiv. apply Permutation_app_comm.
Qed.

Lemma ran_err_app l1 l2 e st : ran l1 (Err e) st → ran (l1 ++ l2) (Err e) st.
Proof. intros [Hs (y & ? & ? & ?)]. split; [intros c; rewrite fmap_app; set_solver|]. exists y. set_solver. Qed.

Lemma zip_unzip {A B} (l : list (A * B)) : zip l.*1 l.*2 = l.
Proof. induction l as [|[a b] l IH]; [done|]. csimpl. by rewrite IH. Qed.

Lemma same_shape_refl_list (l : list Node) : Forall2 same_shape l l.
Proof. apply Forall_Forall2_diag, Forall_true. reflexivity. Qed.

Lemma run_all_spec k n ctx :
  depth_le k n = true → tree_ok k n →
  ∃ n' r st, run_all run_one k n ctx = Some (n', r, st) ∧ same_shape n n' ∧ ran (listing k n ctx) r st.
Proof.
  revert n ctx. induction k as [|k IH]; intros n ctx Hd Hok; [done|]. destruct n as [t u fs].
  simpl in Hok. destruct Hok as [Hnd Hkids].
  pose (sub := λ (name : string) (c : Node), listing k c (ctx_child ctx name)).
  assert (listing (S k) (mkNode t u fs) ctx ≡ₚ
    concat (map (λ nc, sub nc.1 nc.2) (children_of (emptied fs))) ++
    concat (map (λ nc, sub nc.1 nc.2) (taken_of fs)) ++ [(ctx, (t, u))]) as Hperm.
  { simpl. rewrite app_assoc, <- concat_app, <- map_app. rewrite Permutation_app_comm. simpl. f_equiv.
    apply concat_map_perm, children_perm. }
  assert (∀ name c, (name, c) ∈ children_of fs → ∃ c' r st',
    run_all run_one k c (ctx_child ctx name) = Some (c', r, st') ∧ same_shape c c' ∧ ran (sub name c) r st') as Hgo.
  { intros name c Hin. apply IH.
    - by apply (depth_children k (mkNode t u fs) (name, c)).
    - by apply (proj1 (Forall_forall _ _) Hkids (name, c)). }
  simpl run_all. unfold visit_children. change (children_mut _) with (children_of (emptied fs)).
  destruct (traverse_run (run_all run_one k) sub ctx (children_of (emptied fs)) [] []) as (cs & outs & -> & Hcs & Ho).
  { intros name c Hin. apply Hgo. rewrite children_perm. set_solver. }
  pose proof (ran_join sub _ _ Ho) as Hr1. apply write_back_sim, emptied_esim in Hcs. simpl.
  change (fields_of _) with (emptied fs). change (concat (map (λ nf, snd (take_field nf)) fs)) with (taken_of fs).
  set (fs1 := write_back (emptied fs) cs) in *.
  assert (∀ ts t' u', Forall2 same_shape (taken_of fs).*2 ts →
    same_shape (mkNode t u fs) (restore_children (mkNode t' u' fs1) (zip (taken_of fs).*1 ts))) as Hrest.
  { intros ts t' u' Hts. unfold restore_children. simpl. apply fields_sim_shape. by apply restore_sim. }
  destruct (first_err outs.*1) as [[]|e] eqn:Ef.
  - pose proof (eq_refl : snd (run_one t u ctx) = verdict (ctx, (t, u))) as Hv.
    destruct (run_one t u ctx) as [u' r]. simpl in Hv.
    destruct (taken_of fs) as [|tk0 tks] eqn:Etk.
    + exists (set_own (mkNode t u fs1) u'), r, (concat outs.*2 ++ [ctx]). split; [done|]. split.
      * exact (Hrest [] t u' ltac:(constructor)).
      * eapply ran_perm; [symmetry; exact Hperm|]. simpl. apply ran_app; [done|].
        rewrite Hv. destruct (verdict (ctx, (t, u))) as [[]|e] eqn:E; (split; [set_solver|]).
        -- split; [done|]. by apply Forall_singleton.
        -- exists (ctx, (t, u)). set_solver.
    + rewrite <- Etk in *. clear Etk tk0 tks.
      destruct (traverse_run (run_all run_one k) sub ctx (taken_of fs) [] []) as (ts & outs' & -> & Hts & Ho').
      { intros name c Hin. apply Hgo. rewrite children_perm. set_solver. }
      pose proof (ran_join sub _ _ Ho') as Hr2. simpl.
      do 3 eexists. split; [done|]. split; [by apply Hrest|].
      eapply ran_perm; [symmetry; exact Hperm|]. apply ran_app; [done|].
      rewrite first_err_app, Hv. by apply ran_own.
  - do 3 eexists. split; [done|]. split.
    + rewrite <- (zip_unzip (taken_of fs)). apply Hrest, same_shape_refl_list.
    + eapply ran_perm; [symmetry; exact Hperm|]. by apply ran_err_app.
Qed.

(** *** Which failure is reported, and who started *)

(** The components in the order in which their results are looked at: the
    subtrees in place, those taken out for the phase, the node itself. *)
Fixpoint run_order (k : nat) (n : Node) (ctx : RustdvCtx) : list (RustdvCtx * (string * U)) :=
  match k with
  | 0 => []
  | S j =>
      let sub nc := run_order j nc.2 (ctx_child ctx nc.1) in
      concat (map sub (children_of (emptied (fields_of n)))) ++ concat (map sub (taken_of (fields_of n))) ++
      [(ctx, (node_name n, own_state n))]
  end.
Definition passes (x : RustdvCtx * (string * U)) : bool := match verdict x with Ok _ => true | Err _ => false end.
(** The run bodies that start: a failure among the subtrees in place keeps the
    node and the subtrees taken out of it from starting, nothing else does. *)
Fixpoint starters (k : nat) (n : Node) (ctx : RustdvCtx) : list RustdvCtx :=
  match k with
  | 0 => []
  | S j =>
      let sub nc := starters j nc.2 (ctx_child ctx nc.1) in
      let in_place := children_of (emptied (fields_of n)) in
      concat (map sub in_place) ++
      if forallb (λ nc, forallb passes (run_order j nc.2 (ctx_child ctx nc.1))) in_place
      then concat (map sub (taken_of (fields_of n))) ++ [ctx] else []
  end.

Lemma run_order_listing k n ctx : run_order k n ctx ≡ₚ listing k n ctx.
Proof.
  revert n ctx. induction k as [|k IH]; intros [t u fs] ctx; [done|]. cbn [run_order listing fields_of node_name own_state].
  assert (∀ l, concat (map (λ nc, run_order k nc.2 (ctx_child ctx nc.1)) l) ≡ₚ
               concat (map (λ nc, listing k nc.2 (ctx_child ctx nc.1)) l)) as Hl.
  { induction l as [|nc l IHl]; [done|]. simpl. by rewrite IHl, IH. }
  rewrite !Hl, app_assoc, <- concat_app, <- map_app, Permutation_app_comm. simpl. f_equiv.
  apply concat_map_perm. symmetry. apply children_perm.
Qed.

Lemma first_err_split l1 l2 : first_err (l1 ++ l2) = match first_err l1 with Ok _ => first_err l2 | Err e => Err e end.
Proof. unfold first_err. induction l1 as [|[[]|e] l1 IH]; simpl in *; done. Qed.
Lemma first_err_nested {A} (f : A → list (Result unit TestError)) l :
  first_err (map (λ x, first_err (f x)) l) = first_err (concat (map f l)).
Proof.
  induction l as [|x l IH]; [done|]. simpl. rewrite first_err_split, <- IH. change (first_err (f x) :: ?r) with ([first_err (f x)] ++ r).
  rewrite first_err_split. by destruct (first_err (f x)) as [[]|].
Qed.
Lemma first_err_passes l : forallb passes l = match first_err (map verdict l) with Ok _ => true | Err _ => false end.
Proof.
  induction l as [|x l IH]; [done|]. simpl. unfold passes at 1. change (verdict x :: ?r) with ([verdict x] ++ r).
  rewrite first_err_split. by destruct (verdict x) as [[]|].
Qed.

(** Joined children answer one after the other. *)
Lemma traverse_exact go (R : string → Node → Result unit TestError) (T : string → Node → list RustdvCtx) ctx l rs st cs out :
  (∀ name c c' r t, go c (ctx_child ctx name) = Some (c', r, t) → r = R name c ∧ t = T name c) →
  traverse (run_child go ctx) l (Some (rs, st)) = (cs, Some out) →
  out = (rs ++ map (λ nc, R nc.1 nc.2) l, st ++ concat (map (λ nc, T nc.1 nc.2) l)).
Proof.
  intros Hgo. assert (∀ l, (traverse (run_child go ctx) l None).2 = None) as Hnone.
  { induction l0 as [|[name c] l0 IH]; [done|]. simpl. destruct (traverse _ _ _) as [r' s']. done. }
  revert rs st cs. induction l as [|[name c] l IH]; intros rs st cs; simpl; [rewrite !app_nil_r; by intros [= _ <-]|].
  destruct (go c (ctx_child ctx name)) as [[[c' r] t]|] eqn:E.
  - apply Hgo in E as [-> ->]. destruct (traverse _ l _) as [r' s'] eqn:Et. intros [= _ ->]. apply IH in Et. rewrite Et.
    by rewrite <- !app_assoc.
  - pose proof (Hnone l) as Hn. destruct (traverse (run_child go ctx) l None) as [r' s']. simpl in Hn. by intros [= _ ->].
Qed.

Lemma run_all_exact k n ctx n' r st : run_all run_one k n ctx = Some (n', r, st) →
  r = first_err (map verdict (run_order k n ctx)) ∧ st = starters k n ctx.
Proof.
  revert n ctx n' r st. induction k as [|k IH]; intros [t u fs] ctx n' r st; [done|]. simpl run_all. unfold visit_children.
  change (children_mut _) with (children_of (emptied fs)). change (concat (map (λ nf, snd (take_field nf)) fs)) with (taken_of fs).
  destruct (traverse _ (children_of (emptied fs)) _) as [cs [[rs st1]|]] eqn:E1; [|done].
  pose proof (λ l, traverse_exact (run_all run_one k) (λ name c, first_err (map verdict (run_order k c (ctx_child ctx name))))
    (λ name c, starters k c (ctx_child ctx name)) ctx l [] []) as Hex.
  apply Hex in E1; [|intros name c c' r' t' Hg; exact (IH _ _ _ _ _ Hg)]. injection E1 as -> ->. rewrite ?app_nil_l.
  cbn [run_order starters fields_of node_name own_state].
  rewrite (first_err_nested (λ nc, map verdict (run_order k nc.2 (ctx_child ctx nc.1)))).
  assert (∀ l, concat (map (λ nc, map verdict (run_order k nc.2 (ctx_child ctx nc.1))) l) =
    map verdict (concat (map (λ nc, run_order k nc.2 (ctx_child ctx nc.1)) l))) as Hmap.
  { induction l as [|nc l IHl]; [done|]. simpl. by rewrite map_app, IHl. }
  assert (∀ l, forallb (λ nc, forallb passes (run_order k nc.2 (ctx_child ctx nc.1))) l =
    forallb passes (concat (map (λ nc, run_order k nc.2 (ctx_child ctx nc.1)) l))) as Hall.
  { induction l as [|nc l IHl]; [done|]. simpl. by rewrite forallb_app, IHl. }
  rewrite Hmap, Hall, first_err_passes, !map_app, first_err_split.
  destruct (first_err (map verdict (concat (map _ (children_of (emptied fs)))))) as [[]|e]; [|intros [= _ <- <-]; by rewrite app_nil_r].
  rewrite first_err_split. cbn [map verdict fst snd]. unfold verdict at 2. cbn [fst snd].
  change (run_one (node_name _) (own_state _) ctx) with (run_one t u ctx).
  destruct (run_one t u ctx) as [u' r0]. cbn [snd].
  destruct (taken_of fs) as [|tk tks] eqn:Etk.
  - intros [= _ <- <-]. split; [|done]. unfold first_err. simpl. by destruct r0 as [[]|].
  - rewrite <- Etk. destruct (traverse _ (taken_of fs) _) as [ts [[rs' st2]|]] eqn:E2; [|done].
    apply Hex in E2; [|intros name c c' r' t' Hg; exact (IH _ _ _ _ _ Hg)]. injection E2 as -> ->. rewrite ?app_nil_l.
    intros [= _ <- <-]. rewrite first_err_split, (first_err_nested (λ nc, map verdict (run_order k nc.2 (ctx_child ctx nc.1)))), Hmap.
    split; [|done]. destruct (first_err _) as [[]|]; done.
Qed.

(** The first failure of a list. *)
Lemma first_err_first {A} (f : A → Result unit TestError) l e :
  first_err (map f l) = Err e ↔ ∃ l1 x l2, l = l1 ++ x :: l2 ∧ f x = Err e ∧ Forall (λ y, f y = Ok tt) l1.
Proof.
  split.
  - induction l as [|y l IH]; [done|]. simpl. change (f y :: ?r) with ([f y] ++ r). rewrite first_err_split.
    unfold first_err at 1. simpl. destruct (f y) as [[]|e'] eqn:E; simpl.
    + intros (l1 & x & l2 & -> & Hx & Hl)%IH. exists (y :: l1), x, l2. split_and!; [done|done|]. by constructor.
    + intros [= ->]. by exists [], y, l.
  - intros (l1 & x & l2 & -> & Hx & Hl). rewrite map_app, first_err_split.
    assert (first_err (map f l1) = Ok tt) as ->.
    { induction Hl as [|y l1 Hy _ IH]; [done|]. simpl. rewrite Hy. change (Ok tt :: ?r) with ([Ok (E:=TestError) tt] ++ r). by rewrite first_err_split. }
    simpl. rewrite Hx. done.
Qed.


End RunPhase.

(** ** Every finite tree has a depth *)

Section Height.
Context {U : Set}.
Abbreviation Node := (@Node U).
Abbreviation Field := (@Field U).
Implicit Types n : Node.

Fixpoint height (n : Node) : nat :=
  let 'mkNode _ _ fs := n in
  S ((fix go (fs : list (string * Field)) : nat :=
        match fs with
        | [] => 0
        | (_, f) :: r =>
            max (match f with
                 | FComp (Some c) _ _ | FOption (Some c) | FPlain c => height c
                 | FVec cs => (fix gv (cs : list Node) : nat :=
                                 match cs with [] => 0 | c :: cs' => max (height c) (gv cs') end) cs
                 | _ => 0
                 end) (go r)
        end) fs).

Lemma child_height n name c : (name, c) ∈ children_mut n → height c < height n.
Proof.
  destruct n as [t u fs]. unfold children_mut. simpl. intros Hin. apply Nat.lt_succ_r. revert Hin.
  induction fs as [|[x f] fs IH]; simpl; [by intros ?%elem_of_nil|]. rewrite elem_of_app. intros [Hin|Hin]; [|specialize (IH Hin); lia].
  destruct f as [[d|] o r|[d|]|vs|d|k p]; simpl in *; try by apply elem_of_nil in Hin.
  - apply list_elem_of_singleton in Hin. simplify_eq. lia.
  - apply list_elem_of_singleton in Hin. simplify_eq. lia.
  - apply list_elem_of_lookup in Hin as [i Hi]. rewrite list_lookup_imap in Hi.
    destruct (vs !! i) as [c'|] eqn:E; simplify_eq/=. apply list_elem_of_lookup_2 in E. clear IH.
    induction E; simpl; lia.
  - apply list_elem_of_singleton in Hin. simplify_eq. lia.
Qed.

Lemma depth_le_height k n : height n ≤ k → depth_le k n = true.
Proof.
  revert n. induction k as [|k IH]; intros n Hk; [destruct n; simpl in Hk; lia|]. simpl.
  apply forallb_forall. intros [name c] Hin%list_elem_of_In. apply IH. pose proof (child_height n name c Hin). simpl. lia.
Qed.

End Height.

(** ** The order of the phases *)

Section Order.
Context {U : Set} {W Any : Type} {TO : Config.Typed Any (@Override U)}.
Variable db : W → Config.ConfigDb Any.
Variable set_db : Config.ConfigDb Any → W → W.
Variable bound : W → nat → bool.
Variable build : @Node U → RustdvCtx → W → @Node U * W.
Variable run_one : string → U → RustdvCtx → U * Result unit TestError.
Variable hooks : Phase → @Hook U W.
Variable check_hook : @Hook U (W * CheckSink).
Variable after_run : list RustdvCtx → W → W.

Variable log : W → list (Phase * RustdvCtx).
Hypothesis hooks_log : ∀ p n ctx w, log (snd (hooks p n ctx w)) = log w ++ [(p, ctx)].
Hypothesis check_log : ∀ n ctx ws, log (fst (snd (check_hook n ctx ws))) = log (fst ws) ++ [(Check, ctx)].
Hypothesis build_log : ∀ n ctx w, log (snd (build n ctx w)) = log w ++ [(Build, ctx)].
Hypothesis db_log : ∀ d w, log (set_db d w) = log w.
Hypothesis run_log : ∀ st w, log (after_run st w) = log w ++ map (λ c, (Run, c)) st.

Definition tagged (p : Phase) (l : list RustdvCtx) : list (Phase * RustdvCtx) := map (λ c, (p, c)) l.

Lemma build_all_log k n ctx w :
  let '(n', w') := build_all db build k n ctx w in log w' = log w ++ tagged Build (preorder k n' ctx).
Proof.
  unfold tagged. revert n ctx w. induction k as [|k IH]; intros n ctx w; simpl; [by rewrite app_nil_r|].
  pose proof (build_log n ctx w) as Hb. destruct (build n ctx w) as [n1 w1]. simpl in Hb.
  pose proof (visit_log log (λ name c s, build_all db build k c (ctx_child ctx name) s)
    (λ name c, map (λ x, (Build, x)) (preorder k c (ctx_child ctx name)))
    (resolve_children (ctx_path ctx) (db w1) n1) w1) as Hv.
  destruct (visit_children _ _ w1) as [n2 w2]. rewrite Hv, Hb, tag_concat, <- app_assoc; [done|].
  intros name c s0. specialize (IH c (ctx_child ctx name) s0). by destruct (build_all db build k c _ s0).
Qed.

(** One walk from the top: what it logs, and the shape it leaves. *)
Lemma phase_walk p k n ctx w :
  log (snd (top_down k (hooks p) n ctx w)) = log w ++ tagged p (preorder k n ctx) ∧
  same_shape n (fst (top_down k (hooks p) n ctx w)).
Proof. split; [by apply top_down_log|apply top_down_shape]. Qed.

Lemma post_phases_log k n ctx w :
  let '(_, w', _) := run_extract_check_report hooks check_hook k n ctx w in
  log w' = log w ++ tagged Extract (preorder k n ctx) ++ tagged Check (preorder k n ctx) ++
    tagged Report (preorder k n ctx) ++ tagged Final (preorder k n ctx).
Proof.
  unfold run_extract_check_report, extract_all, check_all, report_all, final_all.
  destruct (phase_walk Extract k n ctx w) as [L1 S1]. destruct (top_down k (hooks Extract) n ctx w) as [n1 w1].
  pose proof (top_down_log (λ ws : W * CheckSink, log ws.1) Check check_hook check_log k n1 ctx (w1, sink_new)) as L2.
  pose proof (top_down_shape k check_hook n1 ctx (w1, sink_new)) as S2.
  destruct (top_down k check_hook n1 ctx (w1, sink_new)) as [n2 [w2 sink]].
  destruct (phase_walk Report k n2 ctx w2) as [L3 S3]. destruct (top_down k (hooks Report) n2 ctx w2) as [n3 w3].
  destruct (phase_walk Final k n3 ctx w3) as [L4 _]. destruct (top_down k (hooks Final) n3 ctx w3) as [n4 w4].
  cbn [fst snd] in *. rewrite L4, L3, L2, L1.
  destruct (S1 k ctx) as [-> _], (S2 k ctx) as [-> _], (S3 k ctx) as [-> _]. by rewrite <- !app_assoc.
Qed.

(** A component of the tree, the root included. *)
Inductive component_of : @Node U → @Node U → Prop :=
  | co_self n : component_of n n
  | co_child n name c m : (name, c) ∈ children_mut n → component_of c m → component_of n m.

(** Every required port of every component is bound. *)
Definition wired (n : @Node U) (w : W) : Prop :=
  ∀ m i, component_of n m → i ∈ port_infos (bound w) m → required i = true → connected i = true.

Lemma unconnected_wired k n ctx w : depth_le k n = true → unconnected_ports bound k n ctx w = [] ↔ wired n w.
Proof.
  revert n ctx. induction k as [|k IH]; intros n ctx Hd; [done|].
  assert (∀ name c, (name, c) ∈ children_mut n → depth_le k c = true) as Hc.
  { intros name c Hin. exact (depth_children k n (name, c) Hd Hin). }
  cbn [unconnected_ports]. split.
  - intros [Hown Hsub]%app_nil m i Hm. destruct Hm as [n|n name c m Hin Hm].
    + intros Hi Hr. destruct (connected i) eqn:Ec; [done|]. exfalso. set (g := λ i, _) in Hown.
      assert (∃ x, g i = Some x) as [x Hx] by (unfold g; rewrite Hr, Ec; eauto).
      assert (x ∈ omap g (port_infos (bound w) n)) as Hx' by (apply list_elem_of_omap; eauto).
      rewrite Hown in Hx'. by apply elem_of_nil in Hx'.
    + rewrite concat_nil_Forall, Forall_forall in Hsub. eapply (IH c (ctx_child ctx name) (Hc _ _ Hin)); [|done].
      apply Hsub. apply list_elem_of_fmap. by exists (name, c).
  - intros Hw. apply app_nil. split.
    + set (g := λ i, _). destruct (omap g _) as [|x l] eqn:E; [done|]. exfalso.
      assert (x ∈ omap g (port_infos (bound w) n)) as (i & Hi & Hg)%list_elem_of_omap by (rewrite E; by left).
      specialize (Hw n i (co_self n) Hi). unfold g in Hg. destruct (required i); [|done].
      by rewrite (Hw eq_refl) in Hg.
    + apply concat_nil_Forall, Forall_forall. intros x (nc & -> & Hin)%list_elem_of_fmap. destruct nc as [name c]. cbn [fst snd].
      apply (IH c _ (Hc _ _ Hin)). intros m i Hm. apply Hw. by apply co_child with name c.
Qed.

(** The tree and the world that elaboration is given, and those the run phase is. *)
Definition wired_up (k : nat) (test : @Node U) (ctx : RustdvCtx) (w : W) : @Node U * W :=
  let '(n1, w1) := build_all db build k test ctx (set_db (Config.set_in_build true (db w)) w) in
  connect_all k (hooks Connect) n1 ctx (set_db (Config.set_in_build false (db w1)) w1).
Definition at_run (k : nat) (ctx : RustdvCtx) (n2 : @Node U) (w2 : W) : @Node U * W :=
  let '(n3, w3) := end_of_elaboration_all k (hooks EndOfElaboration) n2 ctx w2 in
  start_of_simulation_all k (hooks StartOfSimulation) n3 ctx w3.

(** What the [check] hooks of the tree [n] report, one after the other. *)
Definition checked (k : nat) (ctx : RustdvCtx) (n : @Node U) (w : W) : Result unit string :=
  let '(n1, w1) := extract_all k (hooks Extract) n ctx w in
  sink_into_result (check_all k check_hook n1 ctx (w1, sink_new)).2.2.

Lemma post_phases_result k n ctx w :
  snd (run_extract_check_report hooks check_hook k n ctx w) = checked k ctx n w.
Proof.
  unfold run_extract_check_report, checked. destruct (extract_all _ _ _ _ _) as [n1 w1].
  destruct (check_all _ _ _ _ _) as [n2 [w2 sink]]. destruct (report_all _ _ _ _ _) as [n3 w3].
  by destruct (final_all _ _ _ _ _).
Qed.

(** C24: a test drives every phase over the whole tree in the documented order:
    [build] from the top, [connect] from the bottom; then, exactly if a required
    port of some component is not bound, it fails with that error and nothing
    else runs.  Otherwise elaboration and start of simulation follow, the run
    bodies of the components with no failure in place below them (all of them,
    each once, when none fails), and [extract], [check], [report], [final] from
    the top whatever the run came to.  The test's result is then the first
    failure of the run phase, and if there is none what the checks reported. *)
Theorem phase_order k test ctx w :
  let n1 := fst (build_all db build k test ctx (set_db (Config.set_in_build true (db w)) w)) in
  let '(n2, w2) := wired_up k test ctx w in
  let '(n4, w4) := at_run k ctx n2 w2 in
  depth_le k n1 = true → tree_ok k n1 →
  ∃ n' w' r, run_component_test db set_db bound build run_one hooks check_hook after_run k test ctx w = Some (n', w', r) ∧
    (¬ wired n2 w2 → ∃ e, r = Err e ∧ kind e = Some "tlm_unconnected_port"%string ∧
       log w' = log w ++ tagged Build (preorder k n1 ctx) ++ tagged Connect (postorder k n1 ctx)) ∧
    (wired n2 w2 →
       log w' = log w ++ tagged Build (preorder k n1 ctx) ++ tagged Connect (postorder k n1 ctx) ++
         tagged EndOfElaboration (preorder k n1 ctx) ++ tagged StartOfSimulation (preorder k n1 ctx) ++
         tagged Run (starters run_one k n4 ctx) ++ tagged Extract (preorder k n1 ctx) ++ tagged Check (preorder k n1 ctx) ++
         tagged Report (preorder k n1 ctx) ++ tagged Final (preorder k n1 ctx) ∧
       (Forall (λ x, verdict run_one x = Ok tt) (run_order k n4 ctx) → starters run_one k n4 ctx ≡ₚ preorder k n1 ctx) ∧
       ∃ n5 rr, run_all run_one k n4 ctx = Some (n5, rr, starters run_one k n4 ctx) ∧
         rr = first_err (map (verdict run_one) (run_order k n4 ctx)) ∧
         r = match rr, checked k ctx n5 (after_run (starters run_one k n4 ctx) w4) with
             | Err e, _ => Err e
             | Ok _, Err m => Err (te_new m)
             | Ok _, Ok _ => Ok tt
             end).
Proof.
  cbv zeta. unfold run_component_test, wired_up, at_run.
  pose proof (build_all_log k test ctx (set_db (Config.set_in_build true (db w)) w)) as Hb.
  destruct (build_all db build k test ctx _) as [n1 w1]. rewrite db_log in Hb. cbn [fst].
  set (w1' := set_db _ w1). assert (log w1' = log w1) as Hw1' by apply db_log.
  unfold connect_all. pose proof (bottom_up_log log Connect (hooks Connect) (hooks_log Connect) k n1 ctx w1') as Hc.
  pose proof (bottom_up_shape k (hooks Connect) n1 ctx w1') as S2.
  destruct (bottom_up k (hooks Connect) n1 ctx w1') as [n2 w2]. cbn [fst snd] in *.
  unfold end_of_elaboration_all, start_of_simulation_all.
  destruct (phase_walk EndOfElaboration k n2 ctx w2) as [L3 S3].
  destruct (top_down k (hooks EndOfElaboration) n2 ctx w2) as [n3 w3].
  destruct (phase_walk StartOfSimulation k n3 ctx w3) as [L4 S4].
  destruct (top_down k (hooks StartOfSimulation) n3 ctx w3) as [n4 w4]. cbn [fst snd] in *. intros Hd Ht.
  pose proof (unconnected_wired k n2 ctx w2) as Hwired. destruct (S2 k ctx) as (_ & _ & D2 & _). rewrite D2 in Hd.
  specialize (Hwired Hd). unfold check_connections.
  destruct (unconnected_ports bound k n2 ctx w2) as [|x missing].
  - assert (same_shape n1 n4) as S14 by (by rewrite S2, S3).
    destruct (S14 k ctx) as (P4 & _ & D4 & T4). rewrite <- D2, D4 in Hd. apply T4 in Ht.
    destruct (run_all_spec run_one k n4 ctx Hd Ht) as (n5 & r & st & Er & S5 & Hran). rewrite Er.
    destruct (run_all_exact run_one k n4 ctx n5 r st Er) as [-> ->].
    pose proof (post_phases_log k n5 ctx (after_run (starters run_one k n4 ctx) w4)) as L6.
    pose proof (post_phases_result k n5 ctx (after_run (starters run_one k n4 ctx) w4)) as R6.
    destruct (run_extract_check_report hooks check_hook k n5 ctx _) as [[n6 w6] post]. cbn [snd] in R6. subst post.
    do 3 eexists. split; [done|]. split; [intros []; by apply Hwired|]. intros _. split_and!.
    + rewrite L6, run_log, L4, L3, Hc, Hw1', Hb.
      destruct (S5 k ctx) as [<- _], (S4 k ctx) as [<- _], (S3 k ctx) as [<- _], (S2 k ctx) as [<- _].
      unfold tagged. by rewrite <- !app_assoc.
    + intros Hok. rewrite P4, <- listing_preorder. destruct Hran as [_ Hran].
      destruct (first_err _) as [[]|e] eqn:Ef; [by destruct Hran|]. exfalso.
      apply first_err_first in Ef as (l1 & y & l2 & E & Hy & _). rewrite E in Hok.
      apply Forall_app in Hok as [_ Hok]. apply Forall_cons in Hok as [Hok _]. by rewrite Hok in Hy.
    + exists n5, (first_err (map (verdict run_one) (run_order k n4 ctx))). split_and!; [done..|].
      by destruct (first_err _) as [[]|]; [destruct (checked k ctx n5 _) as [[]|]|].
  - do 3 eexists. split; [done|]. split; [|intros H; by apply Hwired in H]. intros _. eexists. split_and!; [done..|].
    by rewrite Hc, Hw1', Hb, <- app_assoc.
Qed.

End Order.

End Component.

Module ComponentWitnesses.
Import Factory Component.

Abbreviation WNode := (@Node nat).
#[local] Instance any_typed : Config.Typed (@Override nat) (@Override nat) :=
  {| Config.type_id := 9; Config.type_name := "Override"; Config.debug := debug_override;
     Config.inject := id; Config.downcast := Some |}.

Definition Log := list (Phase * RustdvCtx).

(** An environment with a child in a slot, a child in place and a port. *)
Definition env : WNode := mkNode "Env" 0
  [("driver"%string, FComp (Some (mkNode "Driver" 1 [])) false None);
   ("monitor"%string, FPlain (mkNode "Monitor" 2 []));
   ("out"%string, FPort "put" 0)].
Definition top : RustdvCtx := {| path := Path.root "T"; seed := 7 |}.

Definition wrun (t : string) (u : nat) (ctx : RustdvCtx) : nat * Result unit TestError :=
  (u, if decide (u = 1) then Err (te_new "driver") else Ok tt).
Definition wbuild (n : WNode) (ctx : RustdvCtx) (w : Log) : WNode * Log := (n, w ++ [(Build, ctx)]).
Definition whooks (p : Phase) : @Hook nat Log := λ n ctx w, (own_state n, w ++ [(p, ctx)]).
Definition wcheck : @Hook nat (Log * CheckSink) := λ n ctx ws, (own_state n, (ws.1 ++ [(Check, ctx)], ws.2)).
Definition wafter (st : list RustdvCtx) (w : Log) : Log := w ++ map (λ c, (Run, c)) st.
Definition wdb (w : Log) : Config.ConfigDb (@Override nat) := Config.initial.
Definition wset (d : Config.ConfigDb (@Override nat)) (w : Log) : Log := w.

Lemma env_ok : tree_ok 3 env.
Proof.
  assert (∀ k t u, tree_ok k (mkNode t u [] : WNode)) as Hleaf.
  { intros [|k] t u; [done|]. split; constructor. }
  split.
  - unfold fields_ok. simpl. apply (bool_decide_unpack _). vm_compute. exact I.
  - simpl. repeat constructor.
Qed.


Lemma phase_order_witness :
  ∃ n' w', run_component_test wdb wset (λ _ _, true) wbuild wrun whooks wcheck wafter 3 env top [] =
      Some (n', w', Err (te_new "driver")) ∧ length w' = 27 ∧
    map (λ pc, (fst pc, ctx_path (snd pc))) (take 3 (drop 12 w')) = [(Run, "T.monitor"); (Run, "T.driver"); (Run, "T")]%string.
Proof.
  pose proof (phase_order wdb wset (λ _ _, true) wbuild wrun whooks wcheck wafter (λ w, w)
    (λ _ _ _ _, eq_refl) (λ _ _ _, eq_refl) (λ _ _ _, eq_refl) (λ _ _, eq_refl) (λ _ _, eq_refl)
    3 env top []) as H.
  set (u := wired_up _ _ _ _ _ _ _ _) in H. vm_compute in u.
  destruct (H eq_refl env_ok) as (n' & w' & r & E & _ & Hw).
  destruct Hw as (Hlog & _ & n5 & rr & _ & Hrr & Hr).
  { apply (unconnected_wired (λ _ _, true) 3 _ top); reflexivity. }
  assert (r = Err (te_new "driver")) as ->.
  { rewrite Hr, Hrr. reflexivity. }
  exists n', w'. split; [exact E|]. rewrite Hlog. split; reflexivity.
Defined.

End ComponentWitnesses.
