(* ===== verification/Objection.v ===== *)
(** * Objection: end-of-test consensus (rustdv-methodology/src/objection.rs).

    [ObjInner] is the registry's shared cell; a guard is the description it
    carries.  [Sys] adds the guards that are alive, and [step] is what testbench
    code can do in any order.  [run_one] (component.rs) is the race of a run
    body against the consensus, over a world that holds the registry. *)
From S2P Require Import Prelude Sync Combinators.

Module Objection.
Import Combinators.

Record ObjInner := {
  count : nat;
  drained : Event.Event;
  raised_ever : bool;
  active : list string;
}.

Definition new : ObjInner := {| count := 0; drained := Event.new; raised_ever := false; active := [] |}.

(** The guard is its description. *)
Definition raise (d : string) (r : ObjInner) : ObjInner * string :=
  ({| count := S (count r); drained := Event.clear (drained r); raised_ever := true;
      active := active r ++ [d] |}, d).

Definition ever_raised (r : ObjInner) : bool := raised_ever r.

(** [Drop for ObjectionGuard]; the count saturates at zero. *)
Definition drop_guard (d : string) (r : ObjInner) : ObjInner * list Waker :=
  let active' := remove_first (λ x, bool_decide (x = d)) (active r) in
  let n := count r - 1 in
  if decide (n = 0) then
    let '(e, woken) := Event.set (drained r) in
    ({| count := n; drained := e; raised_ever := raised_ever r; active := active' |}, woken)
  else ({| count := n; drained := drained r; raised_ever := raised_ever r; active := active' |}, []).

Definition poll_drained (r : ObjInner) (cx : Waker) : ObjInner * Poll unit :=
  let '(e, p) := Event.poll_wait (drained r) cx in
  ({| count := count r; drained := e; raised_ever := raised_ever r; active := active r |}, p).

(** [wait_all_dropped]: the tests are made once, on the first poll; afterwards
    the future only waits for the event.  The state says whether it waits. *)
Definition poll_all_dropped (r : ObjInner) (waiting : bool) (cx : Waker) : ObjInner * bool * Poll unit :=
  if waiting then let '(r', p) := poll_drained r cx in (r', true, p)
  else if negb (raised_ever r) then (r, false, Ready tt)
  else if decide (count r = 0) then (r, false, Ready tt)
  else let '(r', p) := poll_drained r cx in (r', true, p).

(** ** Every history *)

Record Sys := { reg : ObjInner; guards : list string }.
Definition init : Sys := {| reg := new; guards := [] |}.

(** Any task may raise, drop any live guard, or poll for the consensus. *)
Inductive step : Sys → list Waker → Sys → Prop :=
| s_raise s d :
    step s [] {| reg := fst (raise d (reg s)); guards := guards s ++ [snd (raise d (reg s))] |}
| s_drop s g1 d g2 :
    guards s = g1 ++ d :: g2 →
    step s (snd (drop_guard d (reg s))) {| reg := fst (drop_guard d (reg s)); guards := g1 ++ g2 |}
| s_poll s cx :
    step s [] {| reg := fst (poll_drained (reg s) cx); guards := guards s |}.

Definition reachable (s : Sys) : Prop := rtc (λ a b, ∃ w, step a w b) init s.

Record wf (s : Sys) : Prop := {
  wf_count : count (reg s) = length (guards s);
  wf_active : active (reg s) ≡ₚ guards s;
  wf_drained : Event.is_set (drained (reg s)) = raised_ever (reg s) && bool_decide (guards s = []);
  wf_raised : guards s ≠ [] → raised_ever (reg s) = true;
  wf_event : Event.wf (drained (reg s));
}.

Lemma remove_first_perm (d : string) (l l' : list string) :
  l ≡ₚ d :: l' → remove_first (λ x, bool_decide (x = d)) l ≡ₚ l'.
Proof.
  intros Hl. assert (d ∈ l) as Hd by (rewrite Hl; set_solver).
  destruct (find_first (λ x, bool_decide (x = d)) l) as [y|] eqn:E.
  - apply find_first_Some in E as (Hy & l1 & l2 & -> & -> & _).
    apply bool_decide_eq_true in Hy as ->. apply (inj (cons d)). by rewrite Permutation_middle.
  - apply find_first_None in E. rewrite Forall_forall in E. specialize (E d Hd).
    by rewrite bool_decide_eq_false in E.
Qed.

Lemma raise_wf s d : wf s → wf {| reg := fst (raise d (reg s)); guards := guards s ++ [d] |}.
Proof.
  intros [Hc Ha Hd Hr He]. constructor; simpl.
  - rewrite length_app, Hc. simpl. lia.
  - by rewrite Ha.
  - symmetry. apply bool_decide_eq_false. by destruct (guards s).
  - done.
  - done.
Qed.

Lemma drop_wf s g1 d g2 :
  wf s → guards s = g1 ++ d :: g2 → wf {| reg := fst (drop_guard d (reg s)); guards := g1 ++ g2 |}.
Proof.
  intros [Hc Ha Hd Hr He] Hg. rewrite Hg in *.
  assert (remove_first (λ x, bool_decide (x = d)) (active (reg s)) ≡ₚ g1 ++ g2) as Hp
    by (apply remove_first_perm; by rewrite Ha, Permutation_middle).
  assert (raised_ever (reg s) = true) as Hre by (apply Hr; by destruct g1).
  rewrite length_app in Hc; simpl in Hc. unfold drop_guard. destruct (decide _) as [Hz|Hz]; simpl.
  - assert (g1 ++ g2 = []) as Hnil by (apply nil_length_inv; rewrite length_app; lia).
    constructor; simpl; rewrite ?Hnil in *; try done; try (simpl; lia); by rewrite Hre.
  - assert (g1 ++ g2 ≠ []) as Hnil by (intros E; apply (f_equal length) in E; rewrite length_app in E; simpl in E; lia).
    constructor; simpl; try done; [rewrite length_app; lia|].
    rewrite Hd, !bool_decide_eq_false_2; [done|done|by destruct g1].
Qed.

Lemma poll_drained_wf s cx : wf s → wf {| reg := fst (poll_drained (reg s) cx); guards := guards s |}.
Proof.
  intros [Hc Ha Hd Hr He]. pose proof (Event.event_exec_wf _ (Event.PollWait cx) He) as He'.
  unfold poll_drained. simpl in He'. unfold Event.poll_wait in *.
  destruct (Event.is_set (drained (reg s))) eqn:E; simpl in *; constructor; simpl; rewrite ?E; done.
Qed.

Lemma step_obj_wf s w s' : step s w s' → wf s → wf s'.
Proof. intros [] Hs; [by apply raise_wf|by apply drop_wf|by apply poll_drained_wf]. Qed.

Lemma reachable_obj_wf s : reachable s → wf s.
Proof.
  intros Hr. eapply (rtc_preserves _ wf); [|exact Hr|by constructor].
  intros a b [w Hs] Ha. by eapply step_obj_wf.
Qed.

(** C32: in every reachable state of the registry the count is the number of
    live guards, the diagnostic list holds exactly their descriptions, and the
    drained event is set exactly when an objection was raised and none is
    alive; a waiter for all objections to drop is answered exactly when no
    guard is alive, and one that waits is registered. *)
Theorem objection_consensus s :
  reachable s →
  count (reg s) = length (guards s) ∧
  active (reg s) ≡ₚ guards s ∧
  (Event.is_set (drained (reg s)) = true ↔ raised_ever (reg s) = true ∧ guards s = []) ∧
  (∀ waiting cx r' b p, (waiting = true → raised_ever (reg s) = true) →
     poll_all_dropped (reg s) waiting cx = (r', b, p) →
     (p = Ready tt ↔ guards s = []) ∧ (p = Pending → b = true ∧ cx ∈ Event.waiters (drained r'))).
Proof.
  intros Hr. destruct (reachable_obj_wf s Hr) as [Hc Ha Hd Hre He].
  assert (Event.is_set (drained (reg s)) = true ↔ raised_ever (reg s) = true ∧ guards s = []) as Hset
    by (rewrite Hd, andb_true_iff, bool_decide_eq_true; done).
  split_and_all; [done..|]. intros waiting cx r' b p Hw Hp.
  assert (guards s = [] ↔ count (reg s) = 0) as Hg by (rewrite Hc; destruct (guards s); simpl; naive_solver).
  unfold poll_all_dropped, poll_drained, Event.poll_wait in Hp.
  destruct waiting; [specialize (Hw eq_refl)|destruct (raised_ever (reg s)) eqn:Er]; simpl in Hp.
  - destruct (Event.is_set _) eqn:E; simplify_eq/=.
    + split; [|done]. split; [intros _; by apply Hset|done].
    + split; [|by set_solver]. split; [done|]. intros Hn. by destruct Hset as [_ Hset]; assert (false = true) by (by apply Hset).
  - destruct (decide (count (reg s) = 0)) as [Hz|Hz]; [simplify_eq; by rewrite Hg|].
    destruct (Event.is_set _) eqn:E; simplify_eq/=; [naive_solver|].
    split; [split; [done|naive_solver]|by set_solver].
  - simplify_eq. split; [|done]. split; [intros _|done].
    destruct (guards s) eqn:Eg; [done|]. exfalso. by assert (false = true) by (by apply Hre).
Qed.

(** Dropping a guard ends the phase exactly when it was the last one: then
    every waiter is woken and the event stays set until the next raise; with
    other guards alive nobody is woken and the event is unchanged. *)
Theorem last_drop_wakes s g1 d g2 :
  reachable s → guards s = g1 ++ d :: g2 →
  let '(r', woken) := drop_guard d (reg s) in
  (g1 ++ g2 = [] → woken = Event.waiters (drained (reg s)) ∧ Event.waiters (drained r') = [] ∧
                   ∀ cx, poll_drained r' cx = (r', Ready tt)) ∧
  (g1 ++ g2 ≠ [] → woken = [] ∧ drained r' = drained (reg s) ∧ Event.is_set (drained r') = false).
Proof.
  intros Hr Hg. destruct (reachable_obj_wf s Hr) as [Hc Ha Hd Hre He].
  rewrite Hg in *. rewrite length_app in Hc; simpl in Hc. unfold drop_guard.
  destruct (decide (count (reg s) - 1 = 0)) as [Hz|Hz]; simpl; split; intros Hn; try done.
  - exfalso. apply Hn, nil_length_inv. rewrite length_app. lia.
  - exfalso. apply (f_equal length) in Hn. rewrite length_app in Hn. simpl in Hn. lia.
  - split_and_all; try done. rewrite Hd, bool_decide_eq_false_2; [by destruct (raised_ever _)|by destruct g1].
Qed.

(** ** The run phase *)

(** The world of a run: the registry and everything else. *)
Record World (X : Type) := { objections : ObjInner; rest : X }.
Arguments objections {X} _.
Arguments rest {X} _.
Arguments Build_World {X} _ _.

Section Run.
Context {X F E : Type} `{FB : Future (World X) F (Result unit E)}.

(** The future [wait_drained_event] returns. *)
Inductive DrainedWait := drained_wait.
#[export] Instance poll_drained_wait : Future (World X) DrainedWait unit := λ s cx w,
  let '(r, p) := poll_drained (objections w) cx in (Build_World r (rest w), s, p).

Record RunOne := { race_ : First2 F DrainedWait }.
Definition run_one (body : F) : RunOne := {| race_ := first2 body drained_wait |}.
#[export] Instance poll_run_one : Future (World X) RunOne (Result unit E) := λ s cx w,
  match poll (race_ s) cx w with
  | (w', r, Ready (First v)) => (w', {| race_ := r |}, Ready v)
  | (w', r, Ready (Second _)) => (w', {| race_ := r |}, Ready (Ok tt))
  | (w', r, Pending) => (w', {| race_ := r |}, Pending)
  end.

(** Polling a component's run polls its own body first: if the body ends,
    its verdict is the run's; otherwise the run is stopped, without failing,
    exactly when the objections have drained by then, and if they have not the
    task is registered with the registry, so that the drop of the last guard
    wakes it. *)
Theorem run_one_ends s cx w w1 f p :
  poll (f_a (race_ s)) cx w = (w1, f, p) →
  match poll s cx w with
  | (w', s', r) =>
      match p with
      | Ready v => r = Ready v ∧ w' = w1
      | Pending =>
          f_a (race_ s') = f ∧ rest w' = rest w1 ∧
          if Event.is_set (drained (objections w1)) then r = Ready (Ok tt) ∧ objections w' = objections w1
          else r = Pending ∧ cx ∈ Event.waiters (drained (objections w')) ∧
               ∀ d, count (objections w1) = 1 → cx ∈ snd (drop_guard d (objections w'))
      end
  end.
Proof.
  intros Hp. unfold poll at 1, poll_run_one, poll at 1, poll_first2. rewrite Hp.
  destruct p as [v|]; [done|]. unfold poll, poll_drained_wait, poll_drained, Event.poll_wait.
  destruct (Event.is_set _) eqn:Es; simpl; split_and_all; try done.
  - by destruct (objections w1).
  - set_solver.
  - intros d Hc. unfold drop_guard. simpl. rewrite Hc. simpl. set_solver.
Qed.
End Run.

End Objection.

Module ObjectionWitnesses.
Import Objection.

Definition one_guard : Sys := {| reg := fst (raise "stimulus" new); guards := ["stimulus"] |}.

Lemma one_guard_reachable : reachable one_guard.
Proof. eapply rtc_l; [exists []; apply (s_raise init "stimulus")|apply rtc_refl]. Qed.

Lemma objection_consensus_witness :
  count (reg one_guard) = 1 ∧ Event.is_set (drained (reg one_guard)) = false ∧
  snd (poll_all_dropped (reg one_guard) false 5) = Pending.
Proof.
  pose proof (objection_consensus one_guard one_guard_reachable) as (Hc & _ & He & Hp).
  split_and_all; [exact Hc|reflexivity|].
  destruct (poll_all_dropped (reg one_guard) false 5) as [[r b] p] eqn:E.
  specialize (Hp false 5 r b p ltac:(discriminate) E) as [Hp _]. destruct p as [[]|]; [|done].
  by destruct Hp as [Hp _]; specialize (Hp eq_refl).
Defined.

Lemma last_drop_wakes_witness :
  guards one_guard = ["stimulus"%string] ∧ snd (drop_guard "stimulus" (reg one_guard)) = [].
Proof.
  split; [reflexivity|].
  pose proof (last_drop_wakes one_guard [] "stimulus" [] one_guard_reachable eq_refl) as H.
  destruct (drop_guard _ _) as [r' w]. by destruct H as [[-> _] _].
Defined.

(** A run body that never ends. *)
#[local] Instance forever : Combinators.Future (World unit) unit (Result unit string) := λ f cx w, (w, f, Pending).

Lemma run_one_ends_witness :
  snd (Combinators.poll (W := World unit) (A := Result unit string) (run_one tt) 3 (Build_World (fst (drop_guard "stimulus" (reg one_guard))) tt))
  = Ready (Ok tt).
Proof.
  pose proof (run_one_ends (X := unit) (E := string) (run_one tt) 3 (Build_World (fst (drop_guard "stimulus" (reg one_guard))) tt) _ _ _ eq_refl) as H.
  destruct (Combinators.poll _ _ _) as [[w s] r]. simpl in H. destruct H as (_ & _ & -> & _). reflexivity.
Defined.
End ObjectionWitnesses.
