(* ===== verification/Channel.v ===== *)
(** * Channel: the bounded TLM channel (rustdv-methodology/src/channel.rs).

    [ChanInner] is the cell the senders, the receivers and their pending
    futures share; it counts the live handles on each side.  A [Send_] or
    [Recv] future keeps the cell but is no handle.  [exec] is one call by
    whoever holds what the call needs; it is undefined where Rust's ownership
    rules the call out (no handle of that side is left). *)
From S2P Require Import Prelude.

Module Channel.

Inductive TlmError := Disconnected.

Record ChanInner (T : Type) := {
  buf : list T;
  cap : nat;
  senders : nat;
  receivers : nat;
  send_waiters : list Waker;
  recv_waiters : list Waker;
}.
Arguments Build_ChanInner {T} _ _ _ _ _ _.
Arguments buf {T} _.
Arguments cap {T} _.
Arguments senders {T} _.
Arguments receivers {T} _.
Arguments send_waiters {T} _.
Arguments recv_waiters {T} _.

Section Ops.
Context {T : Type}.
Implicit Types c : ChanInner T.

Definition has_space c : bool := bool_decide (length (buf c) < cap c).

Definition wake_senders c : ChanInner T * list Waker :=
  (Build_ChanInner (buf c) (cap c) (senders c) (receivers c) [] (recv_waiters c), send_waiters c).
Definition wake_receivers c : ChanInner T * list Waker :=
  (Build_ChanInner (buf c) (cap c) (senders c) (receivers c) (send_waiters c) [], recv_waiters c).

Definition channel (capacity : nat) : ChanInner T :=
  Build_ChanInner [] (capacity `max` 1) 1 1 [] [].

Definition set_buf c (b : list T) : ChanInner T :=
  Build_ChanInner b (cap c) (senders c) (receivers c) (send_waiters c) (recv_waiters c).
Definition set_senders c (n : nat) : ChanInner T :=
  Build_ChanInner (buf c) (cap c) n (receivers c) (send_waiters c) (recv_waiters c).
Definition set_receivers c (n : nat) : ChanInner T :=
  Build_ChanInner (buf c) (cap c) (senders c) n (send_waiters c) (recv_waiters c).
Definition wait_send c (cx : Waker) : ChanInner T :=
  Build_ChanInner (buf c) (cap c) (senders c) (receivers c) (send_waiters c ++ [cx]) (recv_waiters c).
Definition wait_recv c (cx : Waker) : ChanInner T :=
  Build_ChanInner (buf c) (cap c) (senders c) (receivers c) (send_waiters c) (recv_waiters c ++ [cx]).

Definition clone_sender c : ChanInner T := set_senders c (S (senders c)).
Definition drop_sender c : ChanInner T * list Waker :=
  let n := senders c - 1 in
  let c' := set_senders c n in
  if decide (n = 0) then wake_receivers c' else (c', []).

Definition clone_receiver c : ChanInner T := set_receivers c (S (receivers c)).
Definition drop_receiver c : ChanInner T * list Waker :=
  let n := receivers c - 1 in
  let c' := set_receivers c n in
  if decide (n = 0) then wake_senders c' else (c', []).

(** [Err] hands the item back ([TlmFull]). *)
Definition try_send c (x : T) : ChanInner T * list Waker * Result unit T :=
  if decide (receivers c = 0) then (c, [], Err x)
  else if has_space c then
    let '(c', w) := wake_receivers (set_buf c (buf c ++ [x])) in (c', w, Ok tt)
  else (c, [], Err x).

Definition can_send c : bool := has_space c && bool_decide (0 < receivers c).

(** The state of a [Send_] future is the item it still holds. *)
Definition poll_send c (it : option T) (cx : Waker) :
    Exec (ChanInner T * option T * list Waker * Poll (Result unit TlmError)) :=
  if decide (receivers c = 0) then Done (c, it, [], Ready (Err Disconnected))
  else if has_space c then
    match it with
    | Some x =>
        let '(c', w) := wake_receivers (set_buf c (buf c ++ [x])) in
        Done (c', None, w, Ready (Ok tt))
    | None => Panic "Send polled after completion"
    end
  else Done (wait_send c cx, it, [], Pending).

(** [None] is [TlmEmpty]. *)
Definition try_recv c : ChanInner T * list Waker * option T :=
  match buf c with
  | v :: r => let '(c', w) := wake_senders (set_buf c r) in (c', w, Some v)
  | [] => (c, [], None)
  end.

Definition poll_recv c (cx : Waker) : ChanInner T * list Waker * Poll (Result T TlmError) :=
  match buf c with
  | v :: r => let '(c', w) := wake_senders (set_buf c r) in (c', w, Ready (Ok v))
  | [] =>
      if decide (senders c = 0) then (c, [], Ready (Err Disconnected))
      else (wait_recv c cx, [], Pending)
  end.

Definition try_peek c : option T := head (buf c).

Definition poll_peek c (cx : Waker) : ChanInner T * Poll (Result T TlmError) :=
  match head (buf c) with
  | Some v => (c, Ready (Ok v))
  | None =>
      if decide (senders c = 0) then (c, Ready (Err Disconnected))
      else (wait_recv c cx, Pending)
  end.

End Ops.

(** ** Histories *)

Inductive Op (T : Type) :=
| CloneSender | DropSender | CloneReceiver | DropReceiver
| TrySend (x : T) | PollSend (x : T) (cx : Waker)
| TryRecv | PollRecv (cx : Waker) | PollPeek (cx : Waker).
Arguments CloneSender {T}.
Arguments DropSender {T}.
Arguments CloneReceiver {T}.
Arguments DropReceiver {T}.
Arguments TrySend {T} _.
Arguments PollSend {T} _ _.
Arguments TryRecv {T}.
Arguments PollRecv {T} _.
Arguments PollPeek {T} _.

(** What a call did: an item in, an item out, the other side found gone, or
    neither. *)
Inductive Eff (T : Type) := Sent (x : T) | Received (x : T) | Gone | Quiet.
Arguments Sent {T} _.
Arguments Received {T} _.
Arguments Gone {T}.
Arguments Quiet {T}.

Section History.
Context {T : Type}.
Implicit Types c : ChanInner T.

Definition exec c (o : Op T) : option (ChanInner T * list Waker * Eff T) :=
  match o with
  | CloneSender => if decide (senders c = 0) then None else Some (clone_sender c, [], Quiet)
  | DropSender =>
      if decide (senders c = 0) then None else let '(c', w) := drop_sender c in Some (c', w, Quiet)
  | CloneReceiver => if decide (receivers c = 0) then None else Some (clone_receiver c, [], Quiet)
  | DropReceiver =>
      if decide (receivers c = 0) then None else let '(c', w) := drop_receiver c in Some (c', w, Quiet)
  | TrySend x =>
      if decide (senders c = 0) then None
      else match try_send c x with
        | (c', w, Ok _) => Some (c', w, Sent x)
        | (c', w, Err _) => Some (c', w, Quiet)
        end
  | PollSend x cx =>
      match poll_send c (Some x) cx with
      | Done (c', _, w, Ready (Ok _)) => Some (c', w, Sent x)
      | Done (c', _, w, Ready (Err _)) => Some (c', w, Gone)
      | Done (c', _, w, Pending) => Some (c', w, Quiet)
      | Panic _ => None
      end
  | TryRecv =>
      if decide (receivers c = 0) then None
      else match try_recv c with
        | (c', w, Some x) => Some (c', w, Received x)
        | (c', w, None) => Some (c', w, Quiet)
        end
  | PollRecv cx =>
      match poll_recv c cx with
      | (c', w, Ready (Ok x)) => Some (c', w, Received x)
      | (c', w, Ready (Err _)) => Some (c', w, Gone)
      | (c', w, Pending) => Some (c', w, Quiet)
      end
  | PollPeek cx =>
      match poll_peek c cx with
      | (c', Ready (Err _)) => Some (c', [], Gone)
      | (c', _) => Some (c', [], Quiet)
      end
  end.

Fixpoint run c (os : list (Op T)) : option (ChanInner T * list (Eff T)) :=
  match os with
  | [] => Some (c, [])
  | o :: r =>
      match exec c o with
      | Some (c', _, e) => match run c' r with Some (c'', es) => Some (c'', e :: es) | None => None end
      | None => None
      end
  end.

Definition sent (es : list (Eff T)) : list T := omap (λ e, match e with Sent x => Some x | _ => None end) es.
Definition received (es : list (Eff T)) : list T := omap (λ e, match e with Received x => Some x | _ => None end) es.

(** Nobody waits for what has already happened, and the depth is respected. *)
Definition wf c : Prop :=
  (buf c ≠ [] ∨ senders c = 0 → recv_waiters c = []) ∧
  (has_space c = true ∨ receivers c = 0 → send_waiters c = []) ∧
  length (buf c) ≤ cap c ∧ 0 < cap c.

Ltac chan_unfold :=
  unfold exec, poll_send, try_send, poll_recv, try_recv, poll_peek, clone_sender, drop_sender,
    clone_receiver, drop_receiver, wake_senders, wake_receivers, set_buf, set_senders, set_receivers,
    wait_send, wait_recv in *; simpl in *.
Ltac chan_cases := chan_unfold; repeat (case_hyp; simplify_eq/=).

Lemma exec_eff c o c' w e :
  exec c o = Some (c', w, e) →
  cap c' = cap c ∧
  match e with
  | Sent x => has_space c = true ∧ receivers c ≠ 0 ∧ buf c' = buf c ++ [x] ∧ w = recv_waiters c ∧ recv_waiters c' = []
  | Received x => buf c = x :: buf c' ∧ w = send_waiters c ∧ send_waiters c' = []
  | Gone => c' = c ∧ w = [] ∧ (senders c = 0 ∧ buf c = [] ∨ receivers c = 0)
  | Quiet => buf c' = buf c
  end.
Proof.
  intros He. destruct o; chan_cases; split_and_all; (done || (by left) || (by right) || idtac).
  left. split; [done|]. by destruct (buf c').
Qed.

Lemma chan_exec_wf c o c' w e : exec c o = Some (c', w, e) → wf c → wf c'.
Proof.
  intros He (Hr & Hs & Hl & Hc). unfold wf, has_space in *.
  destruct o; chan_cases; unfold has_space in *; try (destruct (buf c) eqn:Eb; [|done]); repeat match goal with
    | H : bool_decide _ = true |- _ => apply bool_decide_eq_true in H
    | H : bool_decide _ = false |- _ => apply bool_decide_eq_false in H
    end; rewrite ?length_app in *; simpl in *; rewrite ?bool_decide_eq_true in *;
    split_and_all; intros; try lia; try (naive_solver lia);
    match goal with H : buf _ = [] |- _ => rewrite H; simpl; lia end.
Qed.

Lemma chan_run_wf c os c' es : run c os = Some (c', es) → wf c → wf c' ∧ cap c' = cap c.
Proof.
  revert c es. induction os as [|o os IH]; intros c es Hr Hwf; simpl in Hr; [by simplify_eq|].
  destruct (exec c o) as [[[c1 w] e]|] eqn:E; [|done].
  destruct (run c1 os) as [[c2 es']|] eqn:E2; [|done]. simplify_eq.
  pose proof (exec_eff _ _ _ _ _ E) as [Hcap _].
  destruct (IH _ _ E2 (chan_exec_wf _ _ _ _ _ E Hwf)) as [? ->]. done.
Qed.

Lemma chan_run_fifo c os c' es : run c os = Some (c', es) → buf c ++ sent es = received es ++ buf c'.
Proof.
  revert c es. induction os as [|o os IH]; intros c es Hr; simpl in Hr; [simplify_eq; apply app_nil_r|].
  destruct (exec c o) as [[[c1 w] e]|] eqn:E; [|done].
  destruct (run c1 os) as [[c2 es']|] eqn:E2; [|done]. simplify_eq.
  pose proof (exec_eff _ _ _ _ _ E) as [_ He]. specialize (IH _ _ E2).
  destruct e as [x|x| |]; simpl.
  - destruct He as (_ & _ & Hb & _). rewrite Hb in IH. by rewrite <- IH, <- app_assoc.
  - destruct He as (-> & _). simpl. by f_equal.
  - destruct He as (<- & _). done.
  - by rewrite <- He.
Qed.

(** In every history of a channel, with any number of senders and
    receivers coming and going, the items received followed by those still in
    the channel are the items sent, in order; the depth (at least one) is
    respected; a receiver waits only while the channel is empty and some sender
    lives, a sender only while it is full and some receiver lives; and a
    receiver learns of the senders' end only after it has drained the
    channel. *)
Theorem channel_exactly_once capacity os c' es :
  run (channel capacity) os = Some (c', es) →
  sent es = received es ++ buf c' ∧
  length (buf c') ≤ capacity `max` 1 ∧
  (recv_waiters c' ≠ [] → buf c' = [] ∧ senders c' ≠ 0) ∧
  (send_waiters c' ≠ [] → has_space c' = false ∧ receivers c' ≠ 0) ∧
  (∀ cx, snd (poll_recv c' cx) = Ready (Err Disconnected) ↔ sent es = received es ∧ senders c' = 0) ∧
  (∀ x cx c2 it w, poll_send c' (Some x) cx = Done (c2, it, w, Ready (Err Disconnected)) →
     receivers c' = 0 ∧ it = Some x ∧ c2 = c').
Proof.
  intros Hr. pose proof (chan_run_fifo _ _ _ _ Hr) as Hf. simpl in Hf.
  assert (wf (channel (T := T) capacity)) as Hwf by (unfold wf; simpl; repeat split; lia || naive_solver lia).
  destruct (chan_run_wf _ _ _ _ Hr Hwf) as [(Hrw & Hsw & Hl & _) Hcap]. simpl in Hcap. rewrite Hcap in Hl.
  split_and_all; [done|done|..].
  - intros Hn. split; [destruct (buf c')|intros Hz]; naive_solver.
  - intros Hn. split; [destruct (has_space c')|intros Hz]; naive_solver.
  - intros cx. rewrite Hf. unfold poll_recv. destruct (buf c') as [|v r] eqn:E; simpl.
    + rewrite app_nil_r. destruct (decide (senders c' = 0)); simpl; naive_solver.
    + split; [done|]. intros [Hx _]. apply (f_equal length) in Hx. rewrite length_app in Hx. simpl in Hx. lia.
  - intros x cx c2 it w Hp. unfold poll_send in Hp. repeat case_hyp; simplify_eq/=; naive_solver.
Qed.

(** The last handle of a side wakes the other side's waiters, and their
    next poll is answered: a waiting sender learns of the disconnection and
    keeps its item, a waiting receiver learns of it unless an item arrived. *)
Theorem channel_disconnect_wakes c :
  (senders c = 1 → let '(c', w) := drop_sender c in
     w = recv_waiters c ∧ recv_waiters c' = [] ∧
     ∀ cx, snd (poll_recv c' cx) = match buf c with v :: _ => Ready (Ok v) | [] => Ready (Err Disconnected) end) ∧
  (receivers c = 1 → let '(c', w) := drop_receiver c in
     w = send_waiters c ∧ send_waiters c' = [] ∧
     ∀ x cx, poll_send c' (Some x) cx = Done (c', Some x, [], Ready (Err Disconnected))).
Proof.
  unfold drop_sender, drop_receiver, poll_recv, poll_send.
  split; intros ->; simpl; split_and_all; try done; intros; by destruct (buf c).
Qed.

End History.
End Channel.

Module ChannelWitnesses.
Import Channel.

Definition trace : list (Op nat) :=
  [CloneSender; PollRecv 4; TrySend 10; PollSend 11 5; DropSender; TryRecv; PollSend 11 5; DropSender; PollRecv 4; PollRecv 4].

Lemma channel_exactly_once_witness :
  ∃ c' es, run (channel 0) trace = Some (c', es) ∧ sent es = [10; 11] ∧ received es = [10; 11] ∧
    snd (poll_recv c' 9) = Ready (Err Disconnected).
Proof.
  destruct (run (channel 0) trace) as [[c' es]|] eqn:E; [|vm_compute in E; discriminate].
  exists c', es. pose proof (channel_exactly_once 0 trace c' es E) as (_ & _ & _ & _ & H & _).
  vm_compute in E. split; [done|]. split; [by simplify_eq|]. split; [by simplify_eq|].
  apply H. by simplify_eq.
Defined.

Lemma channel_disconnect_wakes_witness :
  snd (drop_sender (wait_recv (channel (T := nat) 1) 3)) = [3].
Proof.
  pose proof (channel_disconnect_wakes (wait_recv (channel (T := nat) 1) 3)) as [H _].
  specialize (H eq_refl). destruct (drop_sender _) as [c' w]. by destruct H as (-> & _).
Defined.
End ChannelWitnesses.
