(* ===== verification/Tlm.v ===== *)
(** * Tlm: ports, the TLM FIFO with its taps, the analysis bus
    (rustdv-methodology/src/port.rs, fifo.rs, analysis.rs, shared.rs).

    A port is the address of its binding cell ([Rc<RefCell<Option<Rc<I>>>>]),
    shared between the component's field and the handle [connect] obtains; the
    cell remembers the interface type it was made for, which is what
    [downcast] tests.  An interface is the address of the object behind it.  A
    subscriber is a [RustdvShared] cell holding its state; delivering an item
    runs its [write] on that state.  The FIFO is written and proved against
    the [QueueLike] interface. *)
From S2P Require Import Prelude Queue Factory.

Module Port.
Import Factory.

(** [PortName<I>]: the field name and the interface type. *)
Record PortName := { name : string; iface_ty : string }.
(** The binding cell of a [Port<I>]. *)
Record Slot := { slot_ty : string; binding : option nat }.
Abbreviation Slots := (gmap nat Slot).

Inductive ConnectError :=
| NoSuchPort (owner name : string)
| WrongInterface (owner name : string)
| NoSubscriber (owner name : string).

Definition display (e : ConnectError) : string :=
  match e with
  | NoSuchPort o n => "connect: " +:+ o +:+ " has no port named '" +:+ n +:+
      "' (is the field marked #[port(..)]? is the child slot built?)"
  | WrongInterface o n => "connect: " +:+ o +:+ "'s port '" +:+ n +:+
      "' wants a different interface (put/get/peek mismatch, or a different transaction type)"
  | NoSubscriber o n => "connect: " +:+ o +:+ "'s subscribe port '" +:+ n +:+
      "' has no subscriber — call `self." +:+ n +:+ ".subscribe(handle)` in " +:+ o +:+ "'s build phase"
  end.

(** [Port::default]: a fresh, unbound cell. *)
Definition new_port (ty : string) (a : nat) (h : Slots) : Slots := <[a := {| slot_ty := ty; binding := None |}]> h.
Definition is_bound (h : Slots) (a : nat) : bool :=
  match h !! a with Some s => bool_decide (is_Some (binding s)) | None => false end.

Definition unbound_msg : string :=
  "a TLM port was used before it was connected — connect it in the parent's connect phase with `fifo.<kind>_export().connect(owner, Owner::PORT_NAME)`".
Definition iface (h : Slots) (a : nat) : Exec nat :=
  match h !! a ≫= binding with Some i => Done i | None => Panic unbound_msg end.

(** [PortOwner]: a built component or a child slot. *)
Section Owner.
Context {U : Set}.
Inductive PortOwner := OwnNode (n : @Node U) | OwnSlot (s : @RustdvComp U).

(** The [match __name { .. }] the derive generates. *)
Fixpoint port_arm (fs : list (string * @Field U)) (n : string) : option nat :=
  match fs with
  | [] => None
  | (f, FPort _ a) :: r => if decide (f = n) then Some a else port_arm r n
  | _ :: r => port_arm r n
  end.
Definition port_slot (c : @Node U) (n : string) : option nat := port_arm (fields_of c) n.

Definition owner_port_slot (o : PortOwner) (n : string) : option nat :=
  match o with
  | OwnNode c => port_slot c n
  | OwnSlot s => inner s ≫= λ c, port_slot c n
  end.
Definition label (o : PortOwner) : string :=
  match o with OwnNode c => node_name c | OwnSlot s => owner_label s end.

Definition bind (o : PortOwner) (p : PortName) (i : nat) (h : Slots) : Result Slots ConnectError :=
  match owner_port_slot o (name p) with
  | None => Err (NoSuchPort (label o) (name p))
  | Some a =>
      match h !! a with
      | Some s =>
          if decide (slot_ty s = iface_ty p) then Ok (<[a := {| slot_ty := slot_ty s; binding := Some i |}]> h)
          else Err (WrongInterface (label o) (name p))
      | None => Err (WrongInterface (label o) (name p))   (* a port always has its cell *)
      end
  end.

Definition bind_or_panic (o : PortOwner) (p : PortName) (i : nat) (h : Slots) : Exec Slots :=
  match bind o p i h with Ok h' => Done h' | Err e => Panic (display e) end.

Definition sink_of (o : PortOwner) (p : PortName) (h : Slots) : Result nat ConnectError :=
  match owner_port_slot o (name p) with
  | None => Err (NoSuchPort (label o) (name p))
  | Some a =>
      match h !! a with
      | Some s =>
          if decide (slot_ty s = iface_ty p) then
            match binding s with Some k => Ok k | None => Err (NoSubscriber (label o) (name p)) end
          else Err (WrongInterface (label o) (name p))
      | None => Err (WrongInterface (label o) (name p))
      end
  end.

(** [SubscribePort::subscribe]. *)
Definition subscribe (a k : nat) (h : Slots) : Slots :=
  alter (λ s, {| slot_ty := slot_ty s; binding := Some k |}) a h.

Lemma port_arm_elem (fs : list (string * @Field U)) n a : port_arm fs n = Some a → ∃ k, (n, FPort k a) ∈ fs.
Proof.
  induction fs as [|[f x] r IH]; simpl; [done|].
  destruct x; try (intros H; destruct (IH H) as [k Hk]; exists k; by right).
  destruct (decide (f = n)); intros H; simplify_eq; [eexists; by left|].
  destruct (IH H) as [k Hk]. exists k. by right.
Qed.

(** A required port of a component whose cell is bound is reported connected. *)
Lemma bound_reported (h : Slots) (c : @Node U) n a i :
  port_slot c n = Some a → h !! a ≫= binding = Some i →
  ∃ pi, pi ∈ port_infos (is_bound h) c ∧ p_name pi = n ∧ connected pi = true.
Proof.
  intros Ha Hi. apply port_arm_elem in Ha as [k Hk]. unfold port_infos. eexists. split; [|split].
  - apply list_elem_of_omap. eexists. split; [exact Hk|]. simpl. reflexivity.
  - done.
  - simpl. unfold is_bound. destruct (h !! a) as [s|]; simpl in *; [|done].
    rewrite Hi. by apply bool_decide_eq_true.
Qed.

(** Connecting binds exactly the named port: with a port of that name and
    that interface the component's own cell then holds the interface, the port
    can be used and is reported connected to the elaboration check, and no
    other cell changes; a missing port and a port of another interface are
    refused, each with its own error, and nothing is bound. *)
Theorem connect_binds (o : PortOwner) p i (h : Slots) :
  match bind o p i h with
  | Ok h' => ∃ a s, owner_port_slot o (name p) = Some a ∧ h !! a = Some s ∧ slot_ty s = iface_ty p ∧
      iface h' a = Done i ∧ (∀ b, b ≠ a → h' !! b = h !! b) ∧ slot_ty <$> h' = slot_ty <$> h ∧
      (∀ c, o = OwnNode c ∨ (∃ f r, o = OwnSlot {| inner := Some c; overridable_ := f; requested_ := r |}) →
         ∃ pi, pi ∈ port_infos (is_bound h') c ∧ p_name pi = name p ∧ connected pi = true)
  | Err (NoSuchPort w n) => w = label o ∧ n = name p ∧ owner_port_slot o n = None
  | Err (WrongInterface w n) => w = label o ∧ n = name p ∧
      ∃ a, owner_port_slot o n = Some a ∧ (slot_ty <$> h !! a) ≠ Some (iface_ty p)
  | Err (NoSubscriber _ _) => False
  end.
Proof.
  unfold bind. destruct (owner_port_slot o (name p)) as [a|] eqn:Ea; [|done].
  destruct (h !! a) as [s|] eqn:Es; [|split_and_all; try done; exists a; by rewrite Es].
  destruct (decide (slot_ty s = iface_ty p)) as [Ht|Ht].
  2:{ split_and_all; try done. exists a. rewrite Es. split; [done|]. simpl. congruence. }
  exists a, s. split_and_all; try done.
  - unfold iface. by rewrite lookup_insert_eq.
  - intros b Hb. by rewrite lookup_insert_ne by done.
  - rewrite fmap_insert. simpl. apply insert_id. by rewrite lookup_fmap, Es.
  - intros c Hc. eapply bound_reported.
    + destruct Hc as [->|(f & r & ->)]; exact Ea.
    + by rewrite lookup_insert_eq.
Qed.
End Owner.
End Port.

Module Shared.
Section Shared.
Context {S T : Type}.
(** The states behind the [RustdvShared] handles, by address. *)
Abbreviation Cells := (gmap nat S).
Variable write : nat → T → S → S.      (* each subscriber's own [Subscriber::write] *)

(** [self.get_mut().write(item)]. *)
Definition deliver (k : nat) (x : T) (m : Cells) : Cells := alter (write k x) k m.

(** One call per entry of the (copied) subscriber list. *)
Definition deliver_all (ks : list nat) (x : T) (m : Cells) : Cells := foldl (λ m k, deliver k x m) m ks.

Lemma deliver_all_other ks x m k : k ∉ ks → deliver_all ks x m !! k = m !! k.
Proof.
  revert m. induction ks as [|k' ks IH]; intros m Hk; [done|]. simpl. fold (deliver_all ks x).
  rewrite not_elem_of_cons in Hk. destruct Hk as [Hn Hk].
  unfold deliver_all in *. rewrite IH by done. unfold deliver. by rewrite lookup_alter_ne by done.
Qed.

(** A subscriber connected once hears the item once. *)
Lemma deliver_all_once ks x m k : NoDup ks → k ∈ ks → deliver_all ks x m !! k = write k x <$> m !! k.
Proof.
  revert m. induction ks as [|k' ks IH]; intros m Hnd Hk; [by apply not_elem_of_nil in Hk|].
  apply NoDup_cons in Hnd as [Hn Hnd]. apply elem_of_cons in Hk as [->|Hk]; simpl.
  - change (deliver_all ks x (deliver k' x m) !! k' = write k' x <$> m !! k').
    rewrite deliver_all_other by done. unfold deliver. by rewrite lookup_alter_eq.
  - change (deliver_all ks x (deliver k' x m) !! k = write k x <$> m !! k).
    rewrite IH by done. unfold deliver. rewrite lookup_alter_ne; [done|]. by intros ->.
Qed.
End Shared.
End Shared.

Module Fifo.
Import Shared.
Section Fifo.
Context {Q : Set} {T S : Type} {O : QueueOps Q T} {QL : QueueLike Q T}.
Variable write : nat → T → S → S.

Record FifoInner := { q : Q; size : option nat; put_taps : list nat; get_taps : list nat }.

(** The FIFO, the subscribers' shared states, the wakers woken so far. *)
Record World := { fifo : FifoInner; shared : gmap nat S; woken : list Waker }.

Definition new (mk : option nat → Q) (sz : option nat) : FifoInner :=
  {| q := mk sz; size := sz; put_taps := []; get_taps := [] |}.

Definition is_full (f : FifoInner) : bool :=
  match size f with None => false | Some s => bool_decide (s ≤ q_len (q f)) end.

Definition with_q (f : FifoInner) (x : Q) : FifoInner :=
  {| q := x; size := size f; put_taps := put_taps f; get_taps := get_taps f |}.
Definition upd (w : World) (x : Q) (ws : list Waker) : World :=
  {| fifo := with_q (fifo w) x; shared := shared w; woken := woken w ++ ws |}.
Definition tap (taps : list nat) (x : T) (w : World) : World :=
  {| fifo := fifo w; shared := deliver_all write taps x (shared w); woken := woken w |}.

(** The body of [put_tapped] once there is space; the answer of [try_put] is
    discarded. *)
Definition poll_put_tapped (x : T) (cx : Waker) (w : World) : World * Poll unit :=
  match q_poll_space (q (fifo w)) cx with
  | (q1, ws, Pending) => (upd w q1 ws, Pending)
  | (q1, ws, Ready _) =>
      let w1 := tap (put_taps (fifo w)) x (upd w q1 ws) in
      let '(q2, ws2, _) := q_try_put (q (fifo w1)) x in
      (upd w1 q2 ws2, Ready tt)
  end.

Definition try_put_tapped (x : T) (w : World) : World * Result unit T :=
  if negb (q_space (q (fifo w))) then (w, Err x)
  else
    let w1 := tap (put_taps (fifo w)) x w in
    let '(q2, ws, r) := q_try_put (q (fifo w1)) x in (upd w1 q2 ws, r).

Definition tap_get (o : option T) (w : World) : World * option T :=
  (match o with Some v => tap (get_taps (fifo w)) v w | None => w end, o).

Definition can_put (f : FifoInner) : bool := negb (is_full f).
Definition can_get (f : FifoInner) : bool := negb (q_is_empty (q f)).
Definition can_peek (f : FifoInner) : bool := negb (q_is_empty (q f)).

Definition poll_get (cx : Waker) (w : World) : World * Poll T :=
  match q_poll_get (q (fifo w)) cx with
  | (q1, ws, Ready v) => (tap (get_taps (fifo w)) v (upd w q1 ws), Ready v)
  | (q1, ws, Pending) => (upd w q1 ws, Pending)
  end.

Definition try_get (w : World) : World * option T :=
  let '(q1, ws, o) := q_try_get (q (fifo w)) in tap_get o (upd w q1 ws).

Definition poll_peek (cx : Waker) (w : World) : World * Poll T :=
  let '(q1, ws, p) := q_poll_peek (q (fifo w)) cx in (upd w q1 ws, p).
Definition try_peek (w : World) : option T := q_try_peek (q (fifo w)).

(** [while q.try_get().is_some() {}], at most [fuel] turns. *)
Fixpoint flush_loop (fuel : nat) (w : World) : World :=
  match fuel with
  | 0 => w
  | Datatypes.S k =>
      match q_try_get (q (fifo w)) with
      | (q1, ws, Some _) => flush_loop k (upd w q1 ws)
      | (q1, ws, None) => upd w q1 ws
      end
  end.
Definition flush (w : World) : World := flush_loop (Datatypes.S (q_len (q (fifo w)))) w.

(** [TapExport::connect], the sink having been found. *)
Definition connect_tap (on_put : bool) (k : nat) (f : FifoInner) : FifoInner :=
  if on_put then {| q := q f; size := size f; put_taps := put_taps f ++ [k]; get_taps := get_taps f |}
  else {| q := q f; size := size f; put_taps := put_taps f; get_taps := get_taps f ++ [k] |}.

(** ** Histories *)

Inductive Op := Put (x : T) (cx : Waker) | TryPut (x : T) | Get (cx : Waker) | TryGet
  | Peek (cx : Waker) | Flush.
Inductive Eff := In_ (x : T) | Out_ (x : T) | Flushed (l : list T) | Idle.

Definition exec (w : World) (o : Op) : World * Eff :=
  match o with
  | Put x cx => match poll_put_tapped x cx w with (w', Ready _) => (w', In_ x) | (w', Pending) => (w', Idle) end
  | TryPut x => match try_put_tapped x w with (w', Ok _) => (w', In_ x) | (w', Err _) => (w', Idle) end
  | Get cx => match poll_get cx w with (w', Ready v) => (w', Out_ v) | (w', Pending) => (w', Idle) end
  | TryGet => match try_get w with (w', Some v) => (w', Out_ v) | (w', None) => (w', Idle) end
  | Peek cx => (fst (poll_peek cx w), Idle)
  | Flush => (flush w, Flushed (q_items (q (fifo w))))
  end.

Fixpoint run (w : World) (os : list Op) : World * list Eff :=
  match os with
  | [] => (w, [])
  | o :: r => let '(w1, e) := exec w o in let '(w2, es) := run w1 r in (w2, e :: es)
  end.

Definition entered (es : list Eff) : list T := omap (λ e, match e with In_ x => Some x | _ => None end) es.
Definition left_ (es : list Eff) : list T :=
  concat (map (λ e, match e with Out_ x => [x] | Flushed l => l | _ => [] end) es).

(** The taps an effect fires: on an item going in the put taps, on one coming
    out the get taps, each in connection order; nothing else fires a tap. *)
Definition fires (f : FifoInner) (m : gmap nat S) (e : Eff) : gmap nat S :=
  match e with
  | In_ x => deliver_all write (put_taps f) x m
  | Out_ x => deliver_all write (get_taps f) x m
  | _ => m
  end.

Definition same_taps (f f' : FifoInner) : Prop :=
  size f' = size f ∧ put_taps f' = put_taps f ∧ get_taps f' = get_taps f ∧ q_cap (q f') = q_cap (q f).

#[local] Instance same_taps_preorder : PreOrder same_taps.
Proof. split; [done|]. intros ??? (?&?&?&?) (?&?&?&?). repeat split; congruence. Qed.

Lemma flush_loop_spec n w :
  length (q_items (q (fifo w))) < n →
  same_taps (fifo w) (fifo (flush_loop n w)) ∧ q_items (q (fifo (flush_loop n w))) = [] ∧
  shared (flush_loop n w) = shared w.
Proof.
  revert w. induction n as [|n IH]; intros w Hn; [lia|]. simpl.
  destruct (q_try_get _) as [[q1 ws] o] eqn:E. apply q_get_spec in E as (Hcap & Ho & Hi).
  destruct (q_items (q (fifo w))) as [|x r] eqn:Eq; simpl in *; subst o.
  - repeat split; done.
  - destruct (IH (upd w q1 ws)) as ((?&?&?&?) & ? & ?); simpl in *; [rewrite Hi; lia|].
    repeat split; congruence.
Qed.

Lemma exec_fifo w o w' e :
  exec w o = (w', e) →
  same_taps (fifo w) (fifo w') ∧ shared w' = fires (fifo w) (shared w) e ∧
  match e with
  | In_ x => q_space (q (fifo w)) = true ∧ q_items (q (fifo w')) = q_items (q (fifo w)) ++ [x]
  | Out_ x => q_items (q (fifo w)) = x :: q_items (q (fifo w'))
  | Flushed l => l = q_items (q (fifo w)) ∧ q_items (q (fifo w')) = []
  | Idle => q_items (q (fifo w')) = q_items (q (fifo w))
  end.
Proof.
  destruct o as [x cx|x|cx| |cx|]; simpl.
  - unfold poll_put_tapped. destruct (q_poll_space _ _) as [[q1 ws] [[]|]] eqn:E;
      apply q_wait_space_spec in E as (Hc & Hi & Hs).
    + destruct (q_space (q (fifo w))) eqn:Esp; [|done]. simpl.
      destruct (q_try_put q1 x) as [[q2 ws2] r] eqn:E2. apply q_put_spec in E2 as (Hc2 & Hp).
      assert (q_space q1 = true) as Esp' by (rewrite q_space_spec, Hc, Hi, <- q_space_spec; done).
      rewrite Esp' in Hp. destruct Hp as [-> Hp]. intros; simplify_eq/=.
      repeat split; simpl; congruence.
    + intros; simplify_eq/=. repeat split; done.
  - unfold try_put_tapped. destruct (q_space (q (fifo w))) eqn:Esp; simpl; [|intros; by simplify_eq].
    destruct (q_try_put _ x) as [[q2 ws2] r] eqn:E2. apply q_put_spec in E2 as (Hc2 & Hp).
    rewrite Esp in Hp. destruct Hp as [-> Hp]. intros; simplify_eq/=. repeat split; done.
  - unfold poll_get. destruct (q_poll_get _ _) as [[q1 ws] p] eqn:E. apply q_wait_get_spec in E as (Hc & Hi & Hp).
    destruct (q_items (q (fifo w))) as [|v r] eqn:Eq; subst p; intros; simplify_eq/=; repeat split; simpl; congruence.
  - unfold try_get. destruct (q_try_get _) as [[q1 ws] p] eqn:E. apply q_get_spec in E as (Hc & Hp & Hi).
    unfold tap_get. destruct (q_items (q (fifo w))) as [|v r] eqn:Eq; simpl in *; subst p; intros; simplify_eq/=;
      repeat split; simpl; congruence.
  - unfold poll_peek. destruct (q_poll_peek _ _) as [[q1 ws] p] eqn:E. apply q_wait_peek_spec in E as (Hc & Hi & Hp).
    intros; simplify_eq/=. repeat split; done.
  - intros [= <- <-]. destruct (flush_loop_spec (Datatypes.S (q_len (q (fifo w)))) w) as (Ht & Hi & Hsh);
      [rewrite q_len_spec; lia|]. done.
Qed.

Lemma fires_same f f' m e : same_taps f f' → fires f' m e = fires f m e.
Proof. intros (_ & Hp & Hg & _). destruct e; simpl; by rewrite ?Hp, ?Hg. Qed.

Lemma run_fifo w os w' es :
  run w os = (w', es) →
  same_taps (fifo w) (fifo w') ∧ shared w' = foldl (fires (fifo w)) (shared w) es ∧
  q_items (q (fifo w)) ++ entered es = left_ es ++ q_items (q (fifo w')).
Proof.
  revert w es. induction os as [|o os IH]; intros w es Hr; simpl in Hr.
  { simplify_eq. split_and_all; [reflexivity|done|by rewrite app_nil_r]. }
  destruct (exec w o) as [w1 e] eqn:E. destruct (run w1 os) as [w2 es'] eqn:E2. simplify_eq.
  apply exec_fifo in E as (Ht & Hs & Hi). destruct (IH _ _ E2) as (Ht2 & Hs2 & Hi2). clear IH.
  split_and_all; [by etrans|..].
  - rewrite Hs2, Hs. simpl. generalize (fires (fifo w) (shared w) e). clear -Ht.
    induction es' as [|e' es' IH]; intros m; [done|]. simpl. by rewrite (fires_same _ _ _ _ Ht), IH.
  - unfold left_ in *. destruct e as [x|x|l|]; simpl.
    + destruct Hi as [_ Hi]. rewrite Hi in Hi2. by rewrite <- Hi2, <- app_assoc.
    + rewrite Hi. simpl. by f_equal.
    + destruct Hi as [-> Hi]. rewrite Hi in Hi2. simpl in Hi2. by rewrite Hi2, <- app_assoc.
    + by rewrite <- Hi.
Qed.

Lemma run_depth w os w' es c :
  run w os = (w', es) → q_cap (q (fifo w)) = Some c →
  length (q_items (q (fifo w))) ≤ c → length (q_items (q (fifo w'))) ≤ c.
Proof.
  revert w es. induction os as [|o os IH]; intros w es Hr Hcs Hl; simpl in Hr; [by simplify_eq|].
  destruct (exec w o) as [w1 e] eqn:E. destruct (run w1 os) as [w2 es'] eqn:E2. simplify_eq.
  apply exec_fifo in E as ((_ & _ & _ & Hcap) & _ & Hi). apply (IH w1 es' E2); [by rewrite Hcap|].
  destruct e as [x|x|l|].
  - destruct Hi as [Hsp ->]. rewrite q_space_spec, Hcs, bool_decide_eq_true in Hsp. rewrite length_app. simpl. lia.
  - rewrite Hi in Hl. simpl in Hl. lia.
  - destruct Hi as [_ ->]. simpl. lia.
  - by rewrite Hi.
Qed.

(** In every history of a FIFO, the items that left it (taken or flushed)
    followed by those inside are those inside at the start and those that
    entered, in order; the subscribers' states are what the taps make of the
    history, where every accepted item fires each put tap once, in connection
    order, every item taken fires each get tap once, and a refused put, a
    waiting call, a peek and a flush fire none; and asking for room agrees with
    the queue. *)
Theorem fifo_taps_observe w os w' es :
  run w os = (w', es) → size (fifo w) = q_cap (q (fifo w)) →
  q_items (q (fifo w)) ++ entered es = left_ es ++ q_items (q (fifo w')) ∧
  shared w' = foldl (fires (fifo w)) (shared w) es ∧
  can_put (fifo w') = q_space (q (fifo w')) ∧
  (∀ c, size (fifo w) = Some c → length (q_items (q (fifo w))) ≤ c → length (q_items (q (fifo w'))) ≤ c).
Proof.
  intros Hr Hsz. destruct (run_fifo _ _ _ _ Hr) as ((Hs & Hp & Hg & Hc) & Hsh & Hi). split_and_all; [done|done|..].
  - unfold can_put, is_full. rewrite q_space_spec, q_len_spec, Hs, Hsz, Hc.
    destruct (q_cap (q (fifo w))) as [c|]; [|done].
    repeat case_bool_decide; simpl; try done; lia.
  - intros c Hcs. rewrite Hsz in Hcs. by apply (run_depth _ _ _ _ _ Hr).
Qed.
End Fifo.
End Fifo.

Module Analysis.
Import Factory Port Shared.
Section Analysis.
Context {T S : Type} {U : Set}.
Variable write : nat → T → S → S.

(** The hubs, the port cells and the subscribers' states.  A hub is its list
    of sinks; it stores no items. *)
Record World := { hubs : gmap nat (list nat); slots : gmap nat Slot; cells : gmap nat S }.

Definition new_hub (b : nat) (w : World) : World :=
  {| hubs := <[b := []]> (hubs w); slots := slots w; cells := cells w |}.

Definition broadcast (b : nat) (x : T) (w : World) : World :=
  {| hubs := hubs w; slots := slots w;
     cells := deliver_all write (default [] (hubs w !! b)) x (cells w) |}.

Definition subscriber_count (b : nat) (w : World) : nat := length (default [] (hubs w !! b)).

(** [PublishExport::connect]. *)
Definition pub_connect (b : nat) (o : @PortOwner U) (p : PortName) (w : World) : Exec World :=
  match bind_or_panic o p b (slots w) with
  | Done h => Done {| hubs := hubs w; slots := h; cells := cells w |}
  | Panic m => Panic m
  end.

(** [SubscribeExport::connect]. *)
Definition sub_connect (b : nat) (o : @PortOwner U) (p : PortName) (w : World) : Exec World :=
  match sink_of o p (slots w) with
  | Ok k => Done {| hubs := alter (λ ks, ks ++ [k]) b (hubs w); slots := slots w; cells := cells w |}
  | Err e => Panic (display e)
  end.

(** [PublishPort::write]: an unconnected port is silent. *)
Definition port_write (a : nat) (x : T) (w : World) : World :=
  match slots w !! a ≫= binding with Some b => broadcast b x w | None => w end.

(** Connect the listeners in order. *)
Fixpoint sub_all (b : nat) (ls : list (@PortOwner U * PortName)) (w : World) : Exec World :=
  match ls with
  | [] => Done w
  | (o, p) :: r => match sub_connect b o p w with Done w' => sub_all b r w' | Panic m => Panic m end
  end.

Lemma sub_all_spec b ls ks subs w :
  Forall2 (λ l k, sink_of l.1 l.2 (slots w) = Ok k) ls ks → hubs w !! b = Some subs →
  sub_all b ls w = Done {| hubs := <[b := subs ++ ks]> (hubs w); slots := slots w; cells := cells w |}.
Proof.
  intros Hf. revert subs w Hf. revert ks. induction ls as [|[o p] ls IH]; intros ks subs w Hf Hb.
  - apply Forall2_nil_inv_l in Hf as ->. rewrite app_nil_r, insert_id by done. by destruct w.
  - apply Forall2_cons_inv_l in Hf as (k & ks' & Hk & Hf & ->). simpl in *. unfold sub_connect. rewrite Hk.
    rewrite (IH ks' (subs ++ [k])); simpl; [|done|by rewrite lookup_alter_eq, Hb].
    f_equal. f_equal. rewrite <- app_assoc. simpl. apply map_eq. intros i.
    destruct (decide (i = b)) as [->|Hn]; [by rewrite !lookup_insert_eq|].
    by rewrite !lookup_insert_ne, lookup_alter_ne by done.
Qed.

(** Once listeners are connected to a new hub and a source's publish port
    to the hub, one write through the port runs every listener's handler in
    connection order, before it returns: a listener connected once is updated
    exactly once, any other state is untouched, nothing is stored in the hub
    and no port changes; through an unconnected publish port a write does
    nothing. *)
Theorem broadcast_reaches_all b ls ks o p a w w1 w2 :
  sub_all b ls (new_hub b w) = Done w1 → Forall2 (λ l k, sink_of l.1 l.2 (slots w) = Ok k) ls ks →
  pub_connect b o p w1 = Done w2 → owner_port_slot o (name p) = Some a →
  ∀ x, let w3 := port_write a x w2 in
    cells w3 = deliver_all write ks x (cells w) ∧ hubs w3 !! b = Some ks ∧ slots w3 = slots w2 ∧
    (∀ k, (k ∉ ks → cells w3 !! k = cells w !! k) ∧
          (NoDup ks → k ∈ ks → cells w3 !! k = write k x <$> cells w !! k)) ∧
    (slots w !! a ≫= binding = None → port_write a x w = w).
Proof.
  intros H1 Hk H2 Ha x. erewrite sub_all_spec in H1; [|exact Hk|apply lookup_insert_eq]. simplify_eq/=.
  unfold pub_connect, bind_or_panic, bind in H2. simpl in H2. rewrite Ha in H2.
  destruct (slots w !! a) as [s|] eqn:Es; [|done]. destruct (decide (slot_ty s = iface_ty p)); [|done]. simplify_eq/=.
  unfold port_write at 1 2 3 4 5. simpl. rewrite !lookup_insert_eq. simpl. rewrite lookup_insert_eq. simpl.
  split_and_all; [done..| |].
  - intros k. split; intros; [by apply deliver_all_other|by apply deliver_all_once].
  - intros Hn. unfold port_write. rewrite Es. simpl. by rewrite Hn.
Qed.

(** A subscribe port whose component never supplied a subscriber is
    refused when it is connected, and a missing port or another interface
    likewise, each with its own message; the hub's list is then unchanged. *)
Theorem sub_connect_refuses b o p w :
  (∃ m, sub_connect b o p w = Panic m) ↔
  match owner_port_slot o (name p) with
  | None => True
  | Some a => match slots w !! a with
      | Some s => slot_ty s ≠ iface_ty p ∨ binding s = None
      | None => True
      end
  end.
Proof.
  unfold sub_connect, sink_of. destruct (owner_port_slot o (name p)) as [a|]; [|naive_solver].
  destruct (slots w !! a) as [s|]; [|naive_solver].
  destruct (decide (slot_ty s = iface_ty p)); [|naive_solver]. destruct (binding s); naive_solver.
Qed.
End Analysis.
End Analysis.

Module TlmWitnesses.
Import Factory Port.

(** A source with a publish port and a listener with a subscribe port. *)
Definition source : @Node unit := mkNode "Source" tt [("ap", FPort "publish" 0)].
Definition listener : @Node unit := mkNode "Listener" tt [("input", FPort "subscribe" 1)].
Definition AP : PortName := {| name := "ap"; iface_ty := "dyn PublishIf<u8>" |}.
Definition INPUT : PortName := {| name := "input"; iface_ty := "dyn SinkHandle<u8>" |}.
Definition slots0 : gmap nat Slot :=
  subscribe 1 7 (new_port "dyn SinkHandle<u8>" 1 (new_port "dyn PublishIf<u8>" 0 ∅)).

Definition tally (k : nat) (x : nat) (seen : list nat) : list nat := seen ++ [x].

Definition w0 : @Analysis.World (list nat) := {| Analysis.hubs := ∅; Analysis.slots := slots0; Analysis.cells := {[7 := []]} |}.

Lemma broadcast_reaches_all_witness :
  ∃ w1 w2, Analysis.sub_all 4 [(OwnNode listener, INPUT)] (Analysis.new_hub 4 w0) = Done w1 ∧
    Analysis.pub_connect 4 (OwnNode source) AP w1 = Done w2 ∧
    Analysis.cells (Analysis.port_write tally 0 9 w2) !! 7 = Some [9].
Proof.
  eexists _, _. split; [reflexivity|]. split; [reflexivity|].
  pose proof (Analysis.broadcast_reaches_all tally 4 [(OwnNode listener, INPUT)] [7] (OwnNode source) AP 0 w0 _ _
    eq_refl ltac:(constructor; [vm_compute; reflexivity|constructor]) eq_refl eq_refl 9) as (_ & _ & _ & H & _).
  destruct (H 7) as [_ H7]. etrans; [apply H7|reflexivity].
  - apply NoDup_singleton.
  - by apply list_elem_of_singleton.
Defined.

Import Fifo.
Definition fifo0 : @Fifo.World (Queue.QInner nat) (list nat) :=
  {| fifo := connect_tap false 8 (connect_tap true 7 (new Queue.new (Some 1)));
     shared := {[7 := []; 8 := []]}; woken := [] |}.

Lemma fifo_taps_observe_witness :
  ∃ w' es, run tally fifo0 [TryPut 5; TryPut 6; Get 1; Get 1] = (w', es) ∧
    entered es = [5] ∧ left_ es = [5] ∧ shared w' !! 7 = Some [5] ∧ shared w' !! 8 = Some [5].
Proof.
  destruct (run tally fifo0 [TryPut 5; TryPut 6; Get 1; Get 1]) as [w' es] eqn:E. exists w', es.
  pose proof (fifo_taps_observe tally fifo0 _ w' es E eq_refl) as (_ & H & _).
  split; [done|]. rewrite H. vm_compute in E. by simplify_eq/=.
Defined.
End TlmWitnesses.
