(* ===== verification/Sequence.v ===== *)
(** * Sequence: the sequencer/driver handshake
    (rustdv-methodology/src/sequence.rs).

    [Responses] is the response queue.  [Sequencer] is the two-phase
    rendezvous: an item's handshake cell ([ItemSlot]) is shared between the
    sequence, the queue and the driver, so the cells live in a heap addressed
    by their ticket.  The async functions are state machines: a state per
    [await], and a poll that runs to the next one.  [Sys] closes the sequencer
    over every running sequence and driver, with what was filled in, delivered
    and released recorded; [step] is what they may do, in any order,
    cancellation (dropping a future) included. *)
From S2P Require Import Prelude Queue Sync.

Abbreviation TxnId := nat (only parsing).

Module Responses.
Section Responses.
Context {RSP : Type}.

Record RespInner := { items : list (TxnId * RSP); waiters : list Waker }.
Definition new : RespInner := {| items := []; waiters := [] |}.

Definition push (id : TxnId) (r : RSP) (q : RespInner) : RespInner * list Waker :=
  ({| items := items q ++ [(id, r)]; waiters := [] |}, waiters q).

(** [None] matches whatever is next, [Some id] that ticket. *)
Definition wanted (t : option TxnId) (x : TxnId * RSP) : bool :=
  match t with None => true | Some id => bool_decide (x.1 = id) end.

Definition try_get_response (t : option TxnId) (q : RespInner) : RespInner * option RSP :=
  match find_first (wanted t) (items q) with
  | Some x => ({| items := remove_first (wanted t) (items q); waiters := waiters q |}, Some x.2)
  | None => (q, None)
  end.

Definition poll_get_response (t : option TxnId) (q : RespInner) (cx : Waker) : RespInner * Poll RSP :=
  match find_first (wanted t) (items q) with
  | Some x => ({| items := remove_first (wanted t) (items q); waiters := waiters q |}, Ready x.2)
  | None => ({| items := items q; waiters := waiters q ++ [cx] |}, Pending)
  end.

Inductive Op := Push (id : TxnId) (r : RSP) | TryGet (t : option TxnId) | PollGet (t : option TxnId) (cx : Waker).

Definition exec (q : RespInner) (o : Op) : RespInner * list Waker * option RSP :=
  match o with
  | Push id r => let '(q', w) := push id r q in (q', w, None)
  | TryGet t => let '(q', o) := try_get_response t q in (q', [], o)
  | PollGet t cx =>
      match poll_get_response t q cx with (q', Ready r) => (q', [], Some r) | (q', Pending) => (q', [], None) end
  end.

Lemma take_spec t q :
  match find_first (wanted t) (items q) with
  | Some x => ∃ l1 l2, items q = l1 ++ x :: l2 ∧ remove_first (wanted t) (items q) = l1 ++ l2 ∧
      match t with Some id => x.1 = id ∧ Forall (λ y, y.1 ≠ id) l1 | None => l1 = [] end
  | None => match t with Some id => Forall (λ y, y.1 ≠ id) (items q) | None => items q = [] end
  end.
Proof.
  destruct (find_first _ _) as [x|] eqn:E.
  - apply find_first_Some in E as (Hx & l1 & l2 & Hi & Hr & Hf). exists l1, l2. split_and_all; [done|done|].
    destruct t as [id|]; simpl in *.
    + apply bool_decide_eq_true in Hx. split; [done|]. eapply Forall_impl; [exact Hf|].
      simpl. intros y Hy. by apply bool_decide_eq_false in Hy.
    + destruct l1; [done|]. by inversion Hf.
  - apply find_first_None in E. destruct t as [id|]; simpl in *.
    + eapply Forall_impl; [exact E|]. simpl. intros y Hy. by apply bool_decide_eq_false in Hy.
    + destruct (items q); [done|]. by inversion E.
Qed.

(** Asking for an answer by ticket yields the oldest answer of that ticket
    and of no other, asking for any yields the oldest of all; the other answers
    keep their order; an asker is left waiting exactly when there is no such
    answer, and every arriving answer wakes all who wait. *)
Theorem responses_by_ticket (q : RespInner) :
  (∀ t cx, match poll_get_response t q cx with
     | (q', Ready r) => ∃ l1 id l2, items q = l1 ++ (id, r) :: l2 ∧ items q' = l1 ++ l2 ∧
         waiters q' = waiters q ∧ try_get_response t q = (q', Some r) ∧
         match t with Some i => id = i ∧ i ∉ l1.*1 | None => l1 = [] end
     | (q', Pending) => items q' = items q ∧ waiters q' = waiters q ++ [cx] ∧ try_get_response t q = (q, None) ∧
         match t with Some i => i ∉ (items q).*1 | None => items q = [] end
     end) ∧
  (∀ id r, let '(q', w) := push id r q in
     items q' = items q ++ [(id, r)] ∧ w = waiters q ∧ waiters q' = [] ∧
     ∀ cx, snd (poll_get_response (Some id) q' cx) ≠ Pending).
Proof.
  assert (∀ i (l : list (TxnId * RSP)), Forall (λ y, y.1 ≠ i) l → i ∉ l.*1) as Hno.
  { intros i l Hl Hin. apply list_elem_of_fmap in Hin as (y & -> & Hy). rewrite Forall_forall in Hl. by apply (Hl y). }
  split.
  - intros t cx. pose proof (take_spec t q) as Ht. unfold poll_get_response, try_get_response.
    destruct (find_first _ _) as [[id r]|]; simpl in *.
    + destruct Ht as (l1 & l2 & Hi & Hr & Hm). exists l1, id, l2. split_and_all; try done.
      destruct t; [|done]. destruct Hm as [-> Hm]. split; [done|by apply Hno].
    + split_and_all; try done. destruct t; [by apply Hno|done].
  - intros id r. simpl. split_and_all; try done. intros cx. unfold poll_get_response. simpl.
    destruct (find_first _ _) eqn:E; [done|]. apply find_first_None in E.
    apply Forall_app in E as [_ E]. inversion_clear E as [|?? He _]. by apply bool_decide_eq_false in He.
Qed.
End Responses.
Arguments RespInner : clear implicits.
End Responses.

Module Sequencer.
Import Event.
Section Sequencer.
Context {REQ RSP : Set}.

Record ItemSlot := { granted : Event; ready : Event; done_ : Event; payload : option REQ }.
Definition new_slot : ItemSlot := {| granted := new; ready := new; done_ := new; payload := None |}.

Record SeqrInner := {
  queue : Queue.QInner TxnId;
  next_id : TxnId;
  responses : Responses.RespInner RSP;
  current : option TxnId;             (* the driver's item *)
  slots : gmap TxnId ItemSlot;        (* the handshake cells, by ticket *)
}.
Definition new_seqr : SeqrInner :=
  {| queue := Queue.unbounded; next_id := 1; responses := Responses.new; current := None; slots := ∅ |}.

(** A running sequence's context: whether it has a sequencer, its open item. *)
Record SeqCtx := { has_seqr : bool; seq_name : string; open_ : option TxnId }.

Definition set_queue (s : SeqrInner) q : SeqrInner :=
  {| queue := q; next_id := next_id s; responses := responses s; current := current s; slots := slots s |}.
Definition set_current (s : SeqrInner) c : SeqrInner :=
  {| queue := queue s; next_id := next_id s; responses := responses s; current := c; slots := slots s |}.
Definition set_slots (s : SeqrInner) m : SeqrInner :=
  {| queue := queue s; next_id := next_id s; responses := responses s; current := current s; slots := m |}.
Definition set_responses (s : SeqrInner) r : SeqrInner :=
  {| queue := queue s; next_id := next_id s; responses := r; current := current s; slots := slots s |}.
Definition put_slot (s : SeqrInner) (id : TxnId) (c : ItemSlot) : SeqrInner := set_slots s (<[id := c]> (slots s)).
Definition set_open (c : SeqCtx) (o : option TxnId) : SeqCtx :=
  {| has_seqr := has_seqr c; seq_name := seq_name c; open_ := o |}.

Definition with_granted (c : ItemSlot) e := {| granted := e; ready := ready c; done_ := done_ c; payload := payload c |}.
Definition with_ready (c : ItemSlot) e := {| granted := granted c; ready := e; done_ := done_ c; payload := payload c |}.
Definition with_done (c : ItemSlot) e := {| granted := granted c; ready := ready c; done_ := e; payload := payload c |}.
Definition with_payload (c : ItemSlot) p := {| granted := granted c; ready := ready c; done_ := done_ c; payload := p |}.

(** A future owns a reference to its cell, so the cell is there. *)
Definition slot (s : SeqrInner) (id : TxnId) : ItemSlot := default new_slot (slots s !! id).

(** ** The sequence's side *)

(** [start_item]: before its first poll, in [queue.put], in [granted.wait]. *)
Inductive StartFut := StartNew | StartPut (id : TxnId) (p : Queue.Put TxnId) | StartWait (id : TxnId).
(** [finish_item]: before its first poll, in [done.wait]. *)
Inductive FinishFut := FinishNew (x : REQ) | FinishWait (id : TxnId).

Definition start_wait (s : SeqrInner) (id : TxnId) (cx : Waker) : SeqrInner * Poll unit :=
  let '(e, p) := poll_wait (granted (slot s id)) cx in (put_slot s id (with_granted (slot s id) e), p).

Definition start_put (s : SeqrInner) (id : TxnId) (p : Queue.Put TxnId) (cx : Waker) :
    Exec (SeqrInner * StartFut * list Waker * Poll unit) :=
  match Queue.poll_put (queue s) p cx with
  | Panic m => Panic m
  | Done (q, p', w, Pending) => Done (set_queue s q, StartPut id p', w, Pending)
  | Done (q, _, w, Ready _) =>
      let '(s', r) := start_wait (set_queue s q) id cx in Done (s', StartWait id, w, r)
  end.

Definition ok_unit {E} (p : Poll unit) : Poll (Result unit E) :=
  match p with Ready _ => Ready (Ok tt) | Pending => Pending end.

Definition poll_start_item (s : SeqrInner) (c : SeqCtx) (f : StartFut) (cx : Waker) :
    Exec (SeqrInner * SeqCtx * StartFut * list Waker * Poll (Result unit string)) :=
  match f with
  | StartNew =>
      if decide (is_Some (open_ c)) then
        Done (s, c, f, [], Ready (Err "start_item called twice without finish_item"%string))
      else if negb (has_seqr c) then
        Done (s, c, f, [], Ready (Err (seq_name c +:+
          ": start_item in a virtual sequence — it was started without a sequencer")))
      else
        let id := next_id s in
        let s1 := {| queue := queue s; next_id := S id; responses := responses s; current := current s;
                     slots := <[id := new_slot]> (slots s) |} in
        match start_put s1 id (Queue.put id) cx with
        | Panic m => Panic m
        | Done (s2, f', w, p) => Done (s2, set_open c (Some id), f', w, ok_unit p)
        end
  | StartPut id p =>
      match start_put s id p cx with
      | Panic m => Panic m
      | Done (s2, f', w, r) => Done (s2, c, f', w, ok_unit r)
      end
  | StartWait id => let '(s', r) := start_wait s id cx in Done (s', c, f, [], ok_unit r)
  end.

Definition finish_wait (s : SeqrInner) (id : TxnId) (cx : Waker) : SeqrInner * Poll (Result TxnId string) :=
  let '(e, p) := poll_wait (done_ (slot s id)) cx in
  (put_slot s id (with_done (slot s id) e), match p with Ready _ => Ready (Ok id) | Pending => Pending end).

(** Fill the cell in and set [ready]. *)
Definition fill (s : SeqrInner) (id : TxnId) (x : REQ) : SeqrInner * list Waker :=
  let c := with_payload (slot s id) (Some x) in
  let '(e, w) := set (ready c) in (put_slot s id (with_ready c e), w).

Definition poll_finish_item (s : SeqrInner) (c : SeqCtx) (f : FinishFut) (cx : Waker) :
    SeqrInner * SeqCtx * FinishFut * list Waker * Poll (Result TxnId string) :=
  match f with
  | FinishNew x =>
      match open_ c with
      | None => (s, c, f, [], Ready (Err "finish_item without start_item"%string))
      | Some id =>
          let '(s1, w) := fill s id x in
          let '(s2, p) := finish_wait s1 id cx in (s2, set_open c None, FinishWait id, w, p)
      end
  | FinishWait id => let '(s2, p) := finish_wait s id cx in (s2, c, f, [], p)
  end.

(** ** The driver's side *)

Record SeqItem := { txn_id : TxnId; item_payload : REQ }.

(** [get_next_item]: before its first poll, in [queue.get], in [ready.wait]. *)
Inductive GetFut := GetNew | GetQueue | GetReady (id : TxnId).

Definition get_ready (s : SeqrInner) (id : TxnId) (cx : Waker) : Exec (SeqrInner * GetFut * Poll SeqItem) :=
  let '(e, p) := poll_wait (ready (slot s id)) cx in
  let s1 := put_slot s id (with_ready (slot s id) e) in
  match p with
  | Pending => Done (s1, GetReady id, Pending)
  | Ready _ =>
      match payload (slot s1 id) with
      | None => Panic "item ready but payload missing (rustdv bug)"
      | Some x =>
          Done (set_current (put_slot s1 id (with_payload (slot s1 id) None)) (Some id), GetReady id,
                Ready {| txn_id := id; item_payload := x |})
      end
  end.

(** [slot.granted.set()]. *)
Definition grant (s : SeqrInner) (id : TxnId) : SeqrInner * list Waker :=
  let '(e, w) := set (granted (slot s id)) in (put_slot s id (with_granted (slot s id) e), w).

Definition get_queue (s : SeqrInner) (cx : Waker) : Exec (SeqrInner * GetFut * list Waker * Poll SeqItem) :=
  match Queue.poll_get (queue s) cx with
  | (q, w, Pending) => Done (set_queue s q, GetQueue, w, Pending)
  | (q, w, Ready id) =>
      let '(s1, w1) := grant (set_queue s q) id in
      match get_ready s1 id cx with
      | Panic m => Panic m
      | Done (s2, f, p) => Done (s2, f, w ++ w1, p)
      end
  end.

Definition poll_get_next_item (s : SeqrInner) (f : GetFut) (cx : Waker) :
    Exec (SeqrInner * GetFut * list Waker * Poll SeqItem) :=
  match f with
  | GetNew =>
      if decide (is_Some (current s)) then Panic "get_next_item called twice without item_done"
      else get_queue s cx
  | GetQueue => get_queue s cx
  | GetReady id =>
      match get_ready s id cx with
      | Panic m => Panic m
      | Done (s2, f', p) => Done (s2, f', [], p)
      end
  end.

Definition try_next_item (s : SeqrInner) : Exec (SeqrInner * list Waker * option SeqItem) :=
  if decide (is_Some (current s)) then Panic "try_next_item called without item_done"
  else match Queue.try_get (queue s) with
    | (q, w, None) => Done (set_queue s q, w, None)
    | (q, w, Some id) =>
        let '(s1, w1) := grant (set_queue s q) id in
        match payload (slot s1 id) with
        | Some x =>
            Done (set_current (put_slot s1 id (with_payload (slot s1 id) None)) (Some id), w ++ w1,
                  Some {| txn_id := id; item_payload := x |})
        | None =>
            (* granted but not yet filled: put it back *)
            let '(q', w2, _) := Queue.try_put (queue s1) id in
            Done (set_queue s1 q', w ++ w1 ++ w2, None)
        end
    end.

Definition put_response (id : TxnId) (r : RSP) (s : SeqrInner) : SeqrInner * list Waker :=
  let '(q, w) := Responses.push id r (responses s) in (set_responses s q, w).

Definition item_done (rsp : option RSP) (s : SeqrInner) : Exec (SeqrInner * list Waker) :=
  match current s with
  | None => Panic "item_done without get_next_item"
  | Some id =>
      let s0 := set_current s None in
      let '(s1, w1) := match rsp with Some r => put_response id r s0 | None => (s0, []) end in
      let '(e, w2) := set (done_ (slot s1 id)) in
      Done (put_slot s1 id (with_done (slot s1 id) e), w1 ++ w2)
  end.

(** ** Every history *)

Inductive SeqFut := FStart (f : StartFut) | FFinish (f : FinishFut).

(** Each sequence has one context and, borrowing it, at most one future. *)
Record Sys := {
  seqr : SeqrInner;
  seqs : gmap nat (SeqCtx * option SeqFut);
  drivers : gmap nat GetFut;
  filled : gmap TxnId REQ;              (* what finish_item supplied, by ticket *)
  delivered : list (TxnId * REQ);       (* what drivers received *)
  released : list TxnId;                (* item_done was called for these *)
}.
Definition init : Sys :=
  {| seqr := new_seqr; seqs := ∅; drivers := ∅; filled := ∅; delivered := []; released := [] |}.

Definition upd_seqr (s : Sys) q : Sys :=
  {| seqr := q; seqs := seqs s; drivers := drivers s; filled := filled s; delivered := delivered s; released := released s |}.
Definition upd_seqs (s : Sys) q : Sys :=
  {| seqr := seqr s; seqs := q; drivers := drivers s; filled := filled s; delivered := delivered s; released := released s |}.
Definition upd_drivers (s : Sys) q : Sys :=
  {| seqr := seqr s; seqs := seqs s; drivers := q; filled := filled s; delivered := delivered s; released := released s |}.
Definition upd_filled (s : Sys) q : Sys :=
  {| seqr := seqr s; seqs := seqs s; drivers := drivers s; filled := q; delivered := delivered s; released := released s |}.
Definition upd_delivered (s : Sys) q : Sys :=
  {| seqr := seqr s; seqs := seqs s; drivers := drivers s; filled := filled s; delivered := q; released := released s |}.
Definition upd_released (s : Sys) q : Sys :=
  {| seqr := seqr s; seqs := seqs s; drivers := drivers s; filled := filled s; delivered := delivered s; released := q |}.

Definition pending_or {A B} (p : Poll A) (f : B) : option B := match p with Ready _ => None | Pending => Some f end.

Definition add_filled (c : SeqCtx) (f : FinishFut) (m : gmap TxnId REQ) : gmap TxnId REQ :=
  match f, open_ c with FinishNew x, Some id => <[id := x]> m | _, _ => m end.

Definition add_delivered (o : option SeqItem) (l : list (TxnId * REQ)) : list (TxnId * REQ) :=
  match o with Some i => l ++ [(txn_id i, item_payload i)] | None => l end.

Definition poll_item {A} (p : Poll A) : option A := match p with Ready a => Some a | Pending => None end.

Inductive step : Sys → Sys → Prop :=
| s_seq s k b n :                                      (* a sequence is started *)
    seqs s !! k = None →
    step s (upd_seqs s (<[k := ({| has_seqr := b; seq_name := n; open_ := None |}, None)]> (seqs s)))
| s_call s k c f :                                     (* it calls start_item or finish_item *)
    seqs s !! k = Some (c, None) → (f = FStart StartNew ∨ ∃ x, f = FFinish (FinishNew x)) →
    step s (upd_seqs s (<[k := (c, Some f)]> (seqs s)))
| s_poll_start s k c f cx q c' f' w p :
    seqs s !! k = Some (c, Some (FStart f)) → poll_start_item (seqr s) c f cx = Done (q, c', f', w, p) →
    step s (upd_seqs (upd_seqr s q) (<[k := (c', FStart <$> pending_or p f')]> (seqs s)))
| s_poll_finish s k c f cx q c' f' w p :
    seqs s !! k = Some (c, Some (FFinish f)) → poll_finish_item (seqr s) c f cx = (q, c', f', w, p) →
    step s (upd_filled (upd_seqs (upd_seqr s q) (<[k := (c', FFinish <$> pending_or p f')]> (seqs s)))
              (add_filled c f (filled s)))
| s_drop_call s k c f :                                (* its pending call is dropped *)
    seqs s !! k = Some (c, Some f) → step s (upd_seqs s (<[k := (c, None)]> (seqs s)))
| s_drop_seq s k : step s (upd_seqs s (delete k (seqs s)))
| s_get s d : drivers s !! d = None → step s (upd_drivers s (<[d := GetNew]> (drivers s)))
| s_poll_get s d f cx q f' w p :
    drivers s !! d = Some f → poll_get_next_item (seqr s) f cx = Done (q, f', w, p) →
    step s (upd_delivered (upd_drivers (upd_seqr s q)
              (match p with Pending => <[d := f']> (drivers s) | Ready _ => delete d (drivers s) end))
              (add_delivered (poll_item p) (delivered s)))
| s_drop_get s d : step s (upd_drivers s (delete d (drivers s)))
| s_try_next s q w o :
    try_next_item (seqr s) = Done (q, w, o) →
    step s (upd_delivered (upd_seqr s q) (add_delivered o (delivered s)))
| s_item_done s rsp q w id :
    item_done rsp (seqr s) = Done (q, w) → current (seqr s) = Some id →
    step s (upd_released (upd_seqr s q) (released s ++ [id]))
| s_put_response s id r : step s (upd_seqr s (fst (put_response id r (seqr s))))
| s_get_response s t cx :
    step s (upd_seqr s (set_responses (seqr s) (fst (Responses.poll_get_response t (responses (seqr s)) cx)))).

Definition reachable (s : Sys) : Prop := rtc step init s.

(** ** What the handshake depends on *)

(** A cell, up to who waits on its events and whether it was granted: its
    payload, whether it is ready, whether it is done. *)
Definition slot_view (c : ItemSlot) : option REQ * bool * bool := (payload c, is_set (ready c), is_set (done_ c)).

Record View := {
  v_next : TxnId; v_buf : list TxnId; v_cap : option nat; v_cur : option TxnId;
  v_slots : gmap TxnId (option REQ * bool * bool);
}.
Definition view (s : SeqrInner) : View :=
  {| v_next := next_id s; v_buf := Queue.buf (queue s); v_cap := Queue.cap (queue s); v_cur := current s;
     v_slots := slot_view <$> slots s |}.

Definition v_put (v : View) id c : View :=
  {| v_next := v_next v; v_buf := v_buf v; v_cap := v_cap v; v_cur := v_cur v; v_slots := <[id := c]> (v_slots v) |}.
Definition v_set_buf (v : View) b : View :=
  {| v_next := v_next v; v_buf := b; v_cap := v_cap v; v_cur := v_cur v; v_slots := v_slots v |}.
Definition v_set_cur (v : View) c : View :=
  {| v_next := v_next v; v_buf := v_buf v; v_cap := v_cap v; v_cur := c; v_slots := v_slots v |}.
Definition v_alloc (v : View) : View :=
  {| v_next := S (v_next v); v_buf := v_buf v; v_cap := v_cap v; v_cur := v_cur v;
     v_slots := <[v_next v := (None, false, false)]> (v_slots v) |}.

Lemma view_put s id c : view (put_slot s id c) = v_put (view s) id (slot_view c).
Proof. unfold view, v_put. simpl. by rewrite fmap_insert. Qed.

Lemma view_same s id c :
  is_Some (slots s !! id) → slot_view c = slot_view (slot s id) → view (put_slot s id c) = view s.
Proof.
  intros [c0 Hc] Hv. rewrite view_put, Hv. unfold view, v_put, slot. simpl. rewrite Hc. f_equal. simpl.
  apply insert_id. by rewrite lookup_fmap, Hc.
Qed.

Lemma slot_put s id c : slot (put_slot s id c) id = c.
Proof. unfold slot. simpl. by rewrite lookup_insert_eq. Qed.

Lemma view_some s id : is_Some (v_slots (view s) !! id) ↔ is_Some (slots s !! id).
Proof. simpl. rewrite lookup_fmap. apply fmap_is_Some. Qed.

Lemma view_slot s id v : v_slots (view s) !! id = Some v → slot_view (slot s id) = v.
Proof. simpl. rewrite lookup_fmap. unfold slot. destruct (slots s !! id); naive_solver. Qed.

Lemma poll_wait_set e cx e' p :
  poll_wait e cx = (e', p) → is_set e' = is_set e ∧ p = if is_set e then Ready tt else Pending.
Proof. unfold poll_wait. destruct (is_set e) eqn:E; intros; simplify_eq/=; done. Qed.

(** Waiting for a grant and granting do not show. *)
Lemma start_wait_view s id cx s' p : is_Some (slots s !! id) → start_wait s id cx = (s', p) → view s' = view s.
Proof.
  intros Hs Hw. unfold start_wait in Hw. destruct (poll_wait _ _) as [e r] eqn:E. simplify_eq.
  by apply view_same.
Qed.

Lemma grant_view s id s' w : is_Some (slots s !! id) → grant s id = (s', w) → view s' = view s.
Proof. intros Hs Hg. unfold grant in Hg. simpl in Hg. simplify_eq. by apply view_same. Qed.

Lemma finish_wait_view s id cx s' p :
  is_Some (slots s !! id) → finish_wait s id cx = (s', p) →
  view s' = view s ∧ p = if is_set (done_ (slot s id)) then Ready (Ok id) else Pending.
Proof.
  intros Hs Hw. unfold finish_wait in Hw. destruct (poll_wait _ _) as [e r] eqn:E.
  apply poll_wait_set in E as [He ->]. simplify_eq. split.
  - apply view_same; [done|]. unfold slot_view. simpl. by rewrite He.
  - by destruct (is_set (done_ (slot s id))).
Qed.

Lemma fill_view s id x s' w :
  fill s id x = (s', w) → view s' = v_put (view s) id (Some x, true, is_set (done_ (slot s id))).
Proof. intros Hf. unfold fill in Hf. simpl in Hf. simplify_eq. by rewrite view_put. Qed.

(** A put on an unbounded queue is accepted at once. *)
Lemma start_put_view s id cx :
  v_cap (view s) = None → is_Some (slots s !! id) →
  ∃ s' w p, start_put s id (Queue.put id) cx = Done (s', StartWait id, w, p) ∧
    view s' = v_set_buf (view s) (v_buf (view s) ++ [id]).
Proof.
  intros Hc Hs. unfold start_put, Queue.poll_put, Queue.has_space. simpl in Hc. rewrite Hc. simpl.
  destruct (start_wait _ _ _) as [s' p] eqn:E. apply start_wait_view in E; [|done].
  exists s', (Queue.get_waiters (queue s)), p. split; [done|]. rewrite E. unfold view, v_set_buf. simpl. by rewrite Hc.
Qed.

Lemma get_ready_view s id cx px rd dn :
  v_slots (view s) !! id = Some (px, rd, dn) →
  match px, rd with
  | Some x, true => ∃ s', get_ready s id cx = Done (s', GetReady id, Ready {| txn_id := id; item_payload := x |}) ∧
      view s' = v_set_cur (v_put (view s) id (None, true, dn)) (Some id)
  | None, true => get_ready s id cx = Panic "item ready but payload missing (rustdv bug)"
  | _, false => ∃ s', get_ready s id cx = Done (s', GetReady id, Pending) ∧ view s' = view s
  end.
Proof.
  intros Hv. assert (is_Some (slots s !! id)) as Hs by (apply view_some; by rewrite Hv).
  apply view_slot in Hv. unfold slot_view in Hv. injection Hv as <- <- <-.
  unfold get_ready. destruct (poll_wait _ _) as [e p] eqn:E. apply poll_wait_set in E as [He ->].
  rewrite slot_put. simpl.
  destruct (is_set (ready (slot s id))) eqn:Er.
  - destruct (payload (slot s id)) as [x|] eqn:Ep; [|done].
    eexists. split; [done|]. unfold view, v_set_cur, v_put. simpl.
    rewrite !fmap_insert, insert_insert_eq. unfold slot_view. simpl. by rewrite He.
  - assert (view (put_slot s id (with_ready (slot s id) e)) = view s) as Hview
      by (apply view_same; [done|]; unfold slot_view; simpl; by rewrite He, Er).
    destruct (payload (slot s id)); eexists; done.
Qed.

(** ** The invariant *)

Definition live (v : View) (id : TxnId) : Prop := 0 < id < v_next v.

Definition fut_ok (v : View) (f : option SeqFut) : Prop :=
  match f with
  | Some (FStart (StartPut _ _)) => False
  | Some (FStart (StartWait id)) | Some (FFinish (FinishWait id)) => live v id
  | _ => True
  end.

(** What a cell shows follows from what happened to its ticket. *)
Definition expect (fi : gmap TxnId REQ) (de : list (TxnId * REQ)) (re : list TxnId) (id : TxnId) :
    option REQ * bool * bool :=
  (if decide (id ∈ de.*1) then None else fi !! id, bool_decide (is_Some (fi !! id)), bool_decide (id ∈ re)).

Record inv (v : View) (sq : gmap nat (SeqCtx * option SeqFut)) (dr : gmap nat GetFut)
    (fi : gmap TxnId REQ) (de : list (TxnId * REQ)) (re : list TxnId) : Prop := {
  inv_cap : v_cap v = None;
  inv_next : 0 < v_next v;
  inv_dom id : is_Some (v_slots v !! id) ↔ live v id;
  inv_slots id c : v_slots v !! id = Some c → c = expect fi de re id;
  inv_nodup : NoDup (v_buf v);
  inv_buf id : id ∈ v_buf v → live v id ∧ id ∉ de.*1;
  inv_dr d id : dr !! d = Some (GetReady id) → live v id ∧ id ∉ de.*1 ∧ id ∉ v_buf v;
  inv_dr_inj d1 d2 id : dr !! d1 = Some (GetReady id) → dr !! d2 = Some (GetReady id) → d1 = d2;
  inv_open k c f id : sq !! k = Some (c, f) → open_ c = Some id → live v id ∧ fi !! id = None;
  inv_fut k c f : sq !! k = Some (c, f) → fut_ok v f;
  inv_open_inj k1 k2 c1 c2 f1 f2 id : sq !! k1 = Some (c1, f1) → sq !! k2 = Some (c2, f2) →
    open_ c1 = Some id → open_ c2 = Some id → k1 = k2;
  inv_fi id : is_Some (fi !! id) → live v id;
  inv_de_nodup : NoDup de.*1;
  inv_de id x : (id, x) ∈ de → fi !! id = Some x;
  inv_cur id : v_cur v = Some id → id ∈ de.*1;
  inv_re id : id ∈ re → id ∈ de.*1;
}.

Lemma live_slot v sq dr fi de re id : inv v sq dr fi de re → live v id → v_slots v !! id = Some (expect fi de re id).
Proof. intros Hi Hl. destruct (proj2 (inv_dom _ _ _ _ _ _ Hi id) Hl) as [c Hc]. rewrite Hc. f_equal. by eapply inv_slots. Qed.

Lemma seq_inv_init : inv (view new_seqr) ∅ ∅ ∅ [] [].
Proof.
  constructor; simpl; try done; try (by constructor); try lia; try (intros; set_solver).
  - intros id. rewrite fmap_empty, lookup_empty. unfold live. simpl. split; [by intros []|lia].
  - intros id Hs. rewrite lookup_empty in Hs. by destruct Hs.
Qed.

(** A sequence's entry changes without opening an item. *)
Lemma inv_seq v sq dr fi de re k c' f' :
  inv v sq dr fi de re →
  (∀ id, open_ c' = Some id → ∃ c f, sq !! k = Some (c, f) ∧ open_ c = Some id) → fut_ok v f' →
  inv v (<[k := (c', f')]> sq) dr fi de re.
Proof.
  intros Hi Ho Hf. destruct Hi. constructor; try done.
  - intros k1 c f id. rewrite lookup_insert_Some. intros [[<- [= <- <-]]|[Hn Hk]] Hop; [|by eauto].
    destruct (Ho _ Hop) as (c0 & f0 & Hk & Hop0). eauto.
  - intros k1 c f. rewrite lookup_insert_Some. intros [[<- [= <- <-]]|[Hn Hk]]; eauto.
  - intros k1 k2 c1 c2 f1 f2 id. rewrite !lookup_insert_Some.
    intros [[<- [= <- <-]]|[Hn1 H1]] [[<- [= <- <-]]|[Hn2 H2]] O1 O2; try done; try (by eauto).
    + destruct (Ho _ O1) as (c0 & f0 & Hk & Hop0). eauto.
    + destruct (Ho _ O2) as (c0 & f0 & Hk & Hop0). eauto.
Qed.

Lemma inv_del_seq v sq dr fi de re k : inv v sq dr fi de re → inv v (delete k sq) dr fi de re.
Proof.
  intros []. constructor; try done.
  - intros k1 c f id [_ Hk]%lookup_delete_Some. eauto.
  - intros k1 c f [_ Hk]%lookup_delete_Some. eauto.
  - intros k1 k2 c1 c2 f1 f2 id [_ H1]%lookup_delete_Some [_ H2]%lookup_delete_Some. eauto.
Qed.

(** A driver's entry changes, or goes, without taking an item. *)
Lemma inv_driver v sq dr dr' fi de re :
  inv v sq dr fi de re → (∀ d id, dr' !! d = Some (GetReady id) → dr !! d = Some (GetReady id)) →
  inv v sq dr' fi de re.
Proof. intros [] Hd. constructor; try done; eauto. Qed.

(** [start_item] opens a new ticket and queues it. *)
Lemma inv_alloc v sq dr fi de re k c' f' :
  inv v sq dr fi de re → open_ c' = Some (v_next v) →
  fut_ok (v_alloc v) f' →
  inv (v_set_buf (v_alloc v) (v_buf v ++ [v_next v])) (<[k := (c', f')]> sq) dr fi de re.
Proof.
  intros Hi Ho Hf. pose proof Hi as Hi0. destruct Hi0.
  assert (∀ id, live v id → live (v_alloc v) id) as Hl by (unfold live; simpl; lia).
  assert (¬ live v (v_next v)) as Hnl by (unfold live; lia).
  assert (fi !! v_next v = None) as Hfn by (apply eq_None_not_Some; intros Hx; by apply Hnl, inv_fi0).
  assert (v_next v ∉ de.*1) as Hdn.
  { intros Hx. apply list_elem_of_fmap in Hx as ([id x] & Hid & Hx). apply inv_de0 in Hx. simpl in Hid. congruence. }
  constructor; simpl; try done.
  - lia.
  - intros id. rewrite lookup_insert_is_Some, inv_dom0. unfold live. simpl. lia.
  - intros id c. rewrite lookup_insert_Some. intros [[<- <-]|[Hn Hk]]; [|by apply inv_slots0].
    unfold expect. rewrite decide_False, Hfn by done. f_equal. symmetry. apply bool_decide_eq_false.
    intros Hre. by apply Hdn, inv_re0.
  - apply NoDup_app. split_and_all; [done| |apply NoDup_singleton].
    intros id Hb Hx. apply list_elem_of_singleton in Hx as ->. by apply inv_buf0 in Hb as [? _].
  - intros id Hx. apply elem_of_app in Hx as [Hb|Hx].
    + apply inv_buf0 in Hb as [? ?]. split; [by apply Hl|done].
    + apply list_elem_of_singleton in Hx as ->. split; [unfold live; simpl; lia|done].
  - intros d id Hd. destruct (inv_dr0 _ _ Hd) as (? & ? & ?). split_and_all; [by apply Hl|done|].
    rewrite elem_of_app, list_elem_of_singleton. intros [?| ->]; done.
  - intros k1 c f id. rewrite lookup_insert_Some. intros [[<- [= <- <-]]|[Hn Hk]] Hop.
    + rewrite Ho in Hop. simplify_eq. split; [unfold live; simpl; lia|done].
    + destruct (inv_open0 _ _ _ _ Hk Hop). split; [by apply Hl|done].
  - intros k1 c f. rewrite lookup_insert_Some. intros [[<- [= <- <-]]|[Hn Hk]]; [done|].
    specialize (inv_fut0 _ _ _ Hk). destruct f as [[[]|[]]|]; simpl in *; try done; by apply Hl.
  - intros k1 k2 c1 c2 f1 f2 id. rewrite !lookup_insert_Some.
    intros [[<- [= <- <-]]|[Hn1 H1]] [[<- [= <- <-]]|[Hn2 H2]] O1 O2; try done; try (by eauto);
      rewrite Ho in *; simplify_eq.
    + by destruct (inv_open0 _ _ _ _ H2 O2).
    + by destruct (inv_open0 _ _ _ _ H1 O1).
  - intros id Hx. by apply Hl, inv_fi0.
Qed.

(** [finish_item] fills the open item in. *)
Lemma inv_fill v sq dr fi de re k c f c' f' id x :
  inv v sq dr fi de re → sq !! k = Some (c, f) → open_ c = Some id → open_ c' = None → fut_ok v f' →
  inv (v_put v id (Some x, true, bool_decide (id ∈ re))) (<[k := (c', f')]> sq) dr (<[id := x]> fi) de re.
Proof.
  intros Hi Hk Ho Ho' Hf. pose proof Hi as Hi0. destruct Hi0.
  destruct (inv_open0 _ _ _ _ Hk Ho) as [Hl Hn].
  assert (id ∉ de.*1) as Hd.
  { intros Hx. apply list_elem_of_fmap in Hx as ([id' y] & Hid & Hx). apply inv_de0 in Hx. simpl in Hid. congruence. }
  constructor; simpl; try done.
  - intros id'. rewrite lookup_insert_is_Some, inv_dom0. split; [intros [<-|[_ ?]]; done|].
    intros. destruct (decide (id = id')); [by left|by right].
  - intros id' c0. rewrite lookup_insert_Some. unfold expect. intros [[<- <-]|[Hne Hk']].
    + by rewrite lookup_insert_eq, decide_False by done.
    + rewrite lookup_insert_ne by done. by apply inv_slots0.
  - intros k1 c1 f1 id1. rewrite lookup_insert_Some. intros [[<- [= <- <-]]|[Hne Hk1]] O1; [congruence|].
    destruct (inv_open0 _ _ _ _ Hk1 O1) as [? ?]. split; [done|]. rewrite lookup_insert_ne; [done|].
    intros ->. by apply Hne, (inv_open_inj0 _ _ _ _ _ _ _ Hk Hk1 Ho).
  - intros k1 c1 f1. rewrite lookup_insert_Some. intros [[<- [= <- <-]]|[Hne Hk1]]; [done|by eauto].
  - intros k1 k2 c1 c2 f1 f2 id1. rewrite !lookup_insert_Some.
    intros [[<- [= <- <-]]|[Hn1 H1]] [[<- [= <- <-]]|[Hn2 H2]] O1 O2; try congruence. by eauto.
  - intros id1. rewrite lookup_insert_is_Some. intros [<-|[_ ?]]; [done|]. by apply inv_fi0.
  - intros id1 y Hx. rewrite lookup_insert_ne; [by apply inv_de0|]. intros <-. apply Hd.
    apply list_elem_of_fmap. by exists (id, y).
Qed.

(** The driver takes the item at the head of the queue. *)
Lemma inv_dequeue v sq dr fi de re d id r :
  inv v sq dr fi de re → v_buf v = id :: r →
  inv (v_set_buf v r) sq (<[d := GetReady id]> dr) fi de re.
Proof.
  intros Hi Hb. destruct Hi. rewrite Hb in *. apply NoDup_cons in inv_nodup0 as [Hn Hnd].
  constructor; simpl; try done.
  - intros id' Hx. apply inv_buf0. by right.
  - intros d1 id'. rewrite lookup_insert_Some. intros [[<- [= <-]]|[Hne Hk]].
    + destruct (inv_buf0 id ltac:(by left)). by split_and_all.
    + destruct (inv_dr0 _ _ Hk) as (? & ? & Hx). split_and_all; [done|done|]. by rewrite not_elem_of_cons in Hx; destruct Hx.
  - intros d1 d2 id'. rewrite !lookup_insert_Some.
    intros [[<- E1]|[Hn1 H1]] [[<- E2]|[Hn2 H2]]; simplify_eq; try done; try (by eauto).
    + destruct (inv_dr0 _ _ H2) as (_ & _ & Hx). by rewrite not_elem_of_cons in Hx; destruct Hx.
    + destruct (inv_dr0 _ _ H1) as (_ & _ & Hx). by rewrite not_elem_of_cons in Hx; destruct Hx.
Qed.

(** The driver receives the payload of the item it holds. *)
Lemma inv_deliver v sq dr fi de re d id x dn :
  inv v sq dr fi de re → dr !! d = Some (GetReady id) → v_slots v !! id = Some (Some x, true, dn) →
  inv (v_set_cur (v_put v id (None, true, dn)) (Some id)) sq (delete d dr) fi (de ++ [(id, x)]) re.
Proof.
  intros Hi Hd Hs. pose proof Hi as Hi0. destruct Hi0. destruct (inv_dr0 _ _ Hd) as (Hl & Hnd & Hnb).
  pose proof (inv_slots0 _ _ Hs) as Hx. unfold expect in Hx. rewrite decide_False in Hx by done.
  injection Hx as Hfi Hr Hdn.
  assert (∀ i, i ∈ (de ++ [(id, x)]).*1 ↔ i ∈ de.*1 ∨ i = id) as Hel
    by (intros i; rewrite fmap_app, elem_of_app; simpl; by rewrite list_elem_of_singleton).
  constructor; simpl; try done.
  - intros id'. rewrite lookup_insert_is_Some, inv_dom0. split; [intros [<-|[_ ?]]; done|].
    intros. destruct (decide (id = id')); [by left|by right].
  - intros id' c0. rewrite lookup_insert_Some. unfold expect. intros [[<- <-]|[Hne Hk']].
    + rewrite decide_True by (apply Hel; by right). by rewrite <- Hr, <- Hdn.
    + rewrite (inv_slots0 _ _ Hk'). unfold expect. f_equal. f_equal.
      repeat case_decide; try done; rewrite Hel in *; naive_solver.
  - intros id' Hb. destruct (inv_buf0 _ Hb). split; [done|]. rewrite Hel. intros [?| ->]; done.
  - intros d1 id' [Hn1 H1]%lookup_delete_Some. destruct (inv_dr0 _ _ H1) as (? & ? & ?). split_and_all; try done.
    rewrite Hel. intros [?| ->]; [done|]. by apply Hn1, (inv_dr_inj0 _ _ _ Hd H1).
  - intros d1 d2 id' [_ H1]%lookup_delete_Some [_ H2]%lookup_delete_Some. eauto.
  - rewrite fmap_app. apply NoDup_app. split_and_all; [done| |apply NoDup_singleton].
    intros i Hx1 Hx2. simpl in Hx2. apply list_elem_of_singleton in Hx2 as ->. done.
  - intros i y Hin. apply elem_of_app in Hin as [Hin|Hin]; [by apply inv_de0|].
    apply list_elem_of_singleton in Hin. by simplify_eq.
  - intros i [= <-]. apply Hel. by right.
  - intros i Hin. apply Hel. left. by apply inv_re0.
Qed.

(** An item goes back to the end of the queue. *)
Lemma inv_requeue v sq dr fi de re id r :
  inv v sq dr fi de re → v_buf v = id :: r → inv (v_set_buf v (r ++ [id])) sq dr fi de re.
Proof.
  intros Hi Hb. destruct Hi. rewrite Hb in *.
  assert (∀ i, i ∈ r ++ [id] ↔ i ∈ id :: r) as Hel by (clear; set_solver).
  constructor; simpl; try done.
  - rewrite <- Permutation_cons_append. done.
  - intros i Hx. by apply inv_buf0, Hel.
  - intros d i Hd. rewrite Hel. by apply (inv_dr0 d).
Qed.

(** [item_done] releases the driver's item. *)
Lemma inv_item_done v sq dr fi de re id px rd dn :
  inv v sq dr fi de re → v_cur v = Some id → v_slots v !! id = Some (px, rd, dn) →
  inv (v_put (v_set_cur v None) id (px, rd, true)) sq dr fi de (re ++ [id]).
Proof.
  intros Hi Hc Hs. destruct Hi. pose proof (inv_slots0 _ _ Hs) as Hx. unfold expect in Hx. injection Hx as -> -> _.
  constructor; simpl; try done.
  - intros id'. rewrite lookup_insert_is_Some, inv_dom0. split; [intros [<-|[_ ?]]; [|done]|].
    + apply inv_dom0. by rewrite Hs.
    + intros. destruct (decide (id = id')); [by left|by right].
  - intros id' c0. rewrite lookup_insert_Some. unfold expect. intros [[<- <-]|[Hne Hk']].
    + f_equal. symmetry. apply bool_decide_eq_true. apply elem_of_app. right. by apply list_elem_of_singleton.
    + rewrite (inv_slots0 _ _ Hk'). unfold expect. f_equal. apply bool_decide_ext.
      rewrite elem_of_app, list_elem_of_singleton. naive_solver.
  - intros i Hin. apply elem_of_app in Hin as [Hin|Hin]; [by apply inv_re0|].
    apply list_elem_of_singleton in Hin as ->. by apply inv_cur0.
Qed.

(** ** Every step keeps it *)

Definition inv_sys (s : Sys) : Prop :=
  inv (view (seqr s)) (seqs s) (drivers s) (filled s) (delivered s) (released s).

Section Steps.
Variables (q : SeqrInner) (sq : gmap nat (SeqCtx * option SeqFut)) (dr : gmap nat GetFut)
  (fi : gmap TxnId REQ) (de : list (TxnId * REQ)) (re : list TxnId).
Hypothesis Hinv : inv (view q) sq dr fi de re.

Lemma live_is_some id : live (view q) id → is_Some (slots q !! id).
Proof. intros Hl. apply view_some. by rewrite (live_slot _ _ _ _ _ _ _ Hinv Hl). Qed.

Lemma live_done id : live (view q) id → is_set (done_ (slot q id)) = bool_decide (id ∈ re).
Proof.
  intros Hl. pose proof (live_slot _ _ _ _ _ _ _ Hinv Hl) as Hs. apply view_slot in Hs.
  unfold slot_view, expect in Hs. by injection Hs.
Qed.

Lemma poll_start_inv k c f cx q' c' f' w p :
  sq !! k = Some (c, Some (FStart f)) → poll_start_item q c f cx = Done (q', c', f', w, p) →
  inv (view q') (<[k := (c', FStart <$> pending_or p f')]> sq) dr fi de re.
Proof.
  intros Hk Hp. pose proof (inv_fut _ _ _ _ _ _ Hinv _ _ _ Hk) as Hf.
  destruct f as [|id pf|id]; simpl in Hp, Hf; [|done|].
  - destruct (decide _) as [Ho|Ho]; [simplify_eq; by apply inv_seq; eauto|].
    destruct (has_seqr c); simpl in Hp; [|simplify_eq; by apply inv_seq; eauto].
    pose (s1 := {| queue := queue q; next_id := S (next_id q); responses := responses q; current := current q;
                   slots := <[next_id q := new_slot]> (slots q) |}).
    assert (view s1 = v_alloc (view q)) as Hv1 by (unfold view, v_alloc; simpl; by rewrite fmap_insert).
    destruct (start_put_view s1 (next_id q) cx) as (s2 & w2 & p2 & He & Hv2).
    { rewrite Hv1. exact (inv_cap _ _ _ _ _ _ Hinv). }
    { simpl. rewrite lookup_insert_eq. eauto. }
    unfold s1 in He. rewrite He in Hp. injection Hp as <- <- <- <- <-. rewrite Hv2, Hv1. apply inv_alloc; [done|done|].
    destruct p2; simpl; [done|]. pose proof (inv_next _ _ _ _ _ _ Hinv) as Hn. simpl in Hn. unfold live. simpl. lia.
  - destruct (start_wait q id cx) as [s' r] eqn:E. simplify_eq.
    apply start_wait_view in E; [|by apply live_is_some]. rewrite E. apply inv_seq; [done|eauto|].
    by destruct r.
Qed.

Lemma poll_finish_inv k c f cx q' c' f' w p :
  sq !! k = Some (c, Some (FFinish f)) → poll_finish_item q c f cx = (q', c', f', w, p) →
  inv (view q') (<[k := (c', FFinish <$> pending_or p f')]> sq) dr (add_filled c f fi) de re.
Proof.
  intros Hk Hp. pose proof (inv_fut _ _ _ _ _ _ Hinv _ _ _ Hk) as Hf. destruct f as [x|id]; unfold poll_finish_item in Hp; simpl in Hf |- *.
  - destruct (open_ c) as [id|] eqn:Ho; [|simplify_eq; apply inv_seq; [done|by rewrite Ho|done]].
    destruct (inv_open _ _ _ _ _ _ Hinv _ _ _ _ Hk Ho) as [Hl _].
    destruct (fill q id x) as [s1 w1] eqn:Ef. apply fill_view in Ef. rewrite (live_done _ Hl) in Ef.
    destruct (finish_wait s1 id cx) as [s2 p2] eqn:Ew. apply finish_wait_view in Ew as [Hv _].
    + injection Hp as <- <- <- <- <-. rewrite Hv, Ef. eapply inv_fill; try done. by destruct p2.
    + apply view_some. rewrite Ef. simpl. rewrite lookup_insert_eq. eauto.
  - destruct (finish_wait q id cx) as [s2 p2] eqn:Ew. apply finish_wait_view in Ew as [Hv _]; [|by apply live_is_some].
    injection Hp as <- <- <- <- <-. rewrite Hv. apply inv_seq; [done|eauto|by destruct p2].
Qed.

(** The item at the head of the queue, taken and granted. *)
Lemma grant_head id r q0 s1 w1 :
  v_buf (view q) = id :: r → view q0 = v_set_buf (view q) r → grant q0 id = (s1, w1) →
  view s1 = v_set_buf (view q) r ∧ v_slots (view s1) !! id = Some (expect fi de re id) ∧ id ∉ de.*1.
Proof.
  intros Hb H0 Hg. destruct (inv_buf _ _ _ _ _ _ Hinv id) as [Hl Hd]; [rewrite Hb; by left|].
  pose proof (live_slot _ _ _ _ _ _ _ Hinv Hl) as Hs.
  apply grant_view in Hg; [|apply view_some; rewrite H0; simpl in *; by rewrite Hs].
  rewrite Hg, H0. simpl in *. by rewrite Hs.
Qed.
End Steps.

Lemma poll_queue_view q cx :
  match Queue.poll_get (queue q) cx with
  | (q1, _, Ready id) => ∃ r, v_buf (view q) = id :: r ∧ view (set_queue q q1) = v_set_buf (view q) r
  | (q1, _, Pending) => view (set_queue q q1) = view q
  end.
Proof.
  unfold Queue.poll_get, Queue.pop_front. destruct (Queue.buf (queue q)) as [|id r] eqn:Eb; simpl.
  - unfold view. simpl. by rewrite Eb.
  - exists r. simpl. rewrite Eb. by unfold view, v_set_buf.
Qed.

Lemma try_queue_view q :
  match Queue.try_get (queue q) with
  | (q1, _, Some id) => ∃ r, v_buf (view q) = id :: r ∧ view (set_queue q q1) = v_set_buf (view q) r
  | (q1, _, None) => view (set_queue q q1) = view q
  end.
Proof.
  unfold Queue.try_get, Queue.pop_front. destruct (Queue.buf (queue q)) as [|id r] eqn:Eb; simpl.
  - by unfold view.
  - exists r. simpl. rewrite Eb. by unfold view, v_set_buf.
Qed.

(** A driver that holds an item: it is delivered if filled in, waited for if
    not; the cell is never found ready and empty. *)
Lemma get_ready_inv q sq dr fi de re d id cx :
  inv (view q) sq dr fi de re → dr !! d = Some (GetReady id) →
  ∃ q' p, get_ready q id cx = Done (q', GetReady id, p) ∧
    inv (view q') sq (match p with Pending => <[d := GetReady id]> dr | Ready _ => delete d dr end) fi
      (add_delivered (poll_item p) de) re.
Proof.
  intros Hi Hd. destruct (inv_dr _ _ _ _ _ _ Hi _ _ Hd) as (Hl & Hnd & _).
  pose proof (live_slot _ _ _ _ _ _ _ Hi Hl) as Hs. unfold expect in Hs. rewrite decide_False in Hs by done.
  pose proof (get_ready_view q id cx _ _ _ Hs) as Hg. destruct (fi !! id) as [x|] eqn:Ex; simpl in Hg.
  - destruct Hg as (q' & -> & Hv). eexists _, _. split; [done|]. rewrite Hv. simpl. by eapply inv_deliver.
  - destruct Hg as (q' & -> & Hv). eexists _, _. split; [done|]. rewrite Hv. simpl. by rewrite insert_id.
Qed.

Lemma poll_get_inv q sq dr fi de re d f cx :
  inv (view q) sq dr fi de re → dr !! d = Some f → (f = GetNew → current q = None) →
  ∃ q' f' w p, poll_get_next_item q f cx = Done (q', f', w, p) ∧
    inv (view q') sq (match p with Pending => <[d := f']> dr | Ready _ => delete d dr end) fi
      (add_delivered (poll_item p) de) re.
Proof.
  intros Hi Hd Hnew.
  assert (∃ q' f' w p, get_queue q cx = Done (q', f', w, p) ∧
    inv (view q') sq (match p with Pending => <[d := f']> dr | Ready _ => delete d dr end) fi
      (add_delivered (poll_item p) de) re) as Hq.
  { unfold get_queue. pose proof (poll_queue_view q cx) as Hv. destruct (Queue.poll_get _ _) as [[q1 w] [id|]].
    - destruct Hv as (r & Hb & Hv). destruct (grant (set_queue q q1) id) as [s1 w1] eqn:Eg.
      destruct (grant_head _ _ _ _ _ _ Hi _ _ _ _ _ Hb Hv Eg) as (Hv1 & _ & _).
      pose proof (inv_dequeue _ _ _ _ _ _ d _ _ Hi Hb) as Hi1. rewrite <- Hv1 in Hi1.
      destruct (get_ready_inv _ _ _ _ _ _ d id cx Hi1) as (q' & p & -> & Hi2); [apply lookup_insert_eq|].
      eexists _, _, _, _. split; [done|]. destruct p; [by rewrite delete_insert_eq in Hi2|].
      by rewrite insert_insert_eq in Hi2.
    - eexists _, _, _, _. split; [done|]. rewrite Hv. simpl. eapply inv_driver; [done|].
      intros d1 id. rewrite lookup_insert_Some. by intros [[_ ?]|[_ ?]]. }
  destruct f as [| |id]; simpl; [|done|].
  - rewrite decide_False; [done|]. rewrite (Hnew eq_refl). by intros [].
  - destruct (get_ready_inv _ _ _ _ _ _ d id cx Hi Hd) as (q' & p & -> & Hi2). eexists _, _, _, _. by split.
Qed.

Lemma try_next_inv q sq dr fi de re q' w o :
  inv (view q) sq dr fi de re → try_next_item q = Done (q', w, o) →
  inv (view q') sq dr fi (add_delivered o de) re.
Proof.
  intros Hi Ht. unfold try_next_item in Ht. destruct (decide _) as [|Hc]; [done|].
  pose proof (try_queue_view q) as Hv. destruct (Queue.try_get (queue q)) as [[q1 w0] [id|]].
  2:{ injection Ht as <- <- <-. by rewrite Hv. }
  destruct Hv as (r & Hb & Hv). destruct (grant (set_queue q q1) id) as [s1 w1] eqn:Eg.
  destruct (grant_head _ _ _ _ _ _ Hi _ _ _ _ _ Hb Hv Eg) as (Hv1 & Hs & Hnd).
  unfold expect in Hs. rewrite decide_False in Hs by done. pose proof (view_slot _ _ _ Hs) as Hp.
  unfold slot_view in Hp. injection Hp as Hp Hr Hdn. rewrite Hp in Ht.
  destruct (fi !! id) as [x|] eqn:Ex.
  - injection Ht as <- <- <-. simpl.
    pose (d := fresh (dom dr)). assert (d ∉ dom dr) as Hd by apply is_fresh.
    pose proof (inv_dequeue _ _ _ _ _ _ d _ _ Hi Hb) as Hi1. rewrite <- Hv1 in Hi1.
    eapply inv_deliver in Hi1; [|apply lookup_insert_eq|exact Hs].
    rewrite delete_insert_id in Hi1 by (by apply not_elem_of_dom).
    change (inv (v_set_cur (view (put_slot s1 id (with_payload (slot s1 id) None))) (Some id)) sq dr fi (de ++ [(id, x)]) re).
    rewrite view_put. unfold slot_view. simpl. rewrite Hr, Hdn. exact Hi1.
  - assert (Queue.cap (queue s1) = None) as Hcap.
    { change (v_cap (view s1) = None). rewrite Hv1. exact (inv_cap _ _ _ _ _ _ Hi). }
    assert (Queue.buf (queue s1) = r) as Hbuf by (change (v_buf (view s1) = r); by rewrite Hv1).
    unfold Queue.try_put, Queue.has_space in Ht. rewrite Hcap in Ht. simpl in Ht. injection Ht as <- <- <-. simpl.
    replace (view _) with (v_set_buf (view q) (r ++ [id])); [by eapply inv_requeue|].
    transitivity (v_set_buf (view s1) (r ++ [id])); [by rewrite Hv1|].
    unfold view, v_set_buf. simpl. by rewrite Hcap, Hbuf.
Qed.

Lemma item_done_inv q sq dr fi de re rsp q' w id :
  inv (view q) sq dr fi de re → item_done rsp q = Done (q', w) → current q = Some id →
  inv (view q') sq dr fi de (re ++ [id]).
Proof.
  intros Hi Hd Hc. unfold item_done in Hd. rewrite Hc in Hd.
  assert (live (view q) id) as Hl.
  { pose proof (inv_cur _ _ _ _ _ _ Hi id Hc) as Hx. apply list_elem_of_fmap in Hx as ([i x] & Hid & Hx). simpl in Hid. subst i.
    apply (inv_fi _ _ _ _ _ _ Hi). rewrite (inv_de _ _ _ _ _ _ Hi _ _ Hx). eauto. }
  pose proof (live_slot _ _ _ _ _ _ _ Hi Hl) as Hs.
  destruct (match rsp with Some r => _ | None => _ end) as [s1 w1] eqn:E1.
  assert (view s1 = v_set_cur (view q) None ∧ slots s1 = slots q) as [Hv1 Hsl].
  { destruct rsp; unfold put_response in E1; simpl in E1; simplify_eq; done. }
  simpl in Hd. injection Hd as <- <-. rewrite view_put, Hv1.
  replace (slot s1 id) with (slot q id) by (unfold slot; by rewrite Hsl).
  apply view_slot in Hs as Hsv. unfold slot_view in *. simpl.
  eapply inv_item_done; [done|done|]. rewrite Hs. by rewrite <- Hsv.
Qed.

Lemma seq_step_inv s s' : step s s' → inv_sys s → inv_sys s'.
Proof.
  intros Hs Hi. unfold inv_sys in *. destruct Hs; simpl.
  - by apply inv_seq.
  - apply inv_seq; [done|by eauto|]. by destruct H0 as [->|[x ->]].
  - by eapply poll_start_inv.
  - by eapply poll_finish_inv.
  - apply inv_seq; [done|by eauto|done].
  - by apply inv_del_seq.
  - eapply inv_driver; [done|]. intros d1 id. rewrite lookup_insert_Some. by intros [[_ ?]|[_ ?]].
  - assert (f = GetNew → current (seqr s) = None) as Hn.
    { intros ->. simpl in H0. destruct (decide _) as [|Hc]; [done|]. by apply eq_None_not_Some. }
    destruct (poll_get_inv _ _ _ _ _ _ d f cx Hi H Hn) as (? & ? & ? & ? & He & ?). rewrite He in H0. by simplify_eq.
  - eapply inv_driver; [done|]. intros d1 id. rewrite lookup_delete_Some. by intros [_ ?].
  - by eapply try_next_inv.
  - by eapply item_done_inv.
  - done.
  - done.
Qed.

Lemma seq_reachable_inv s : reachable s → inv_sys s.
Proof. intros Hr. eapply (rtc_preserves step inv_sys seq_step_inv); [exact Hr|apply seq_inv_init]. Qed.

(** What was supplied is never replaced. *)
Lemma step_grows s s' :
  inv_sys s → step s s' → filled s ⊆ filled s' ∧ delivered s `prefix_of` delivered s'.
Proof.
  intros Hi Hs. destruct Hs; simpl; split; try done.
  - unfold add_filled. destruct f as [x|]; [|done]. destruct (open_ c) as [id|] eqn:Ho; [|done].
    destruct (inv_open _ _ _ _ _ _ Hi _ _ _ _ H Ho) as [_ Hn]. by apply insert_subseteq.
  - unfold add_delivered. destruct (poll_item p); [by apply prefix_app_r|done].
  - unfold add_delivered. destruct o; [by apply prefix_app_r|done].
Qed.

(** C6: with any number of sequences and drivers, in any order of their polls,
    calls and cancellations: no ticket is delivered twice, and what a driver
    receives for a ticket is what the sequence supplied for it in
    [finish_item], which nothing replaces afterwards; an open item is not yet
    filled in; a driver that was granted an item receives it as soon as it is
    filled in and never finds it ready but empty; [finish_item] returns, with
    the item's own ticket, exactly once a driver released it, which it does only
    for an item it received. *)
Theorem item_handshake s :
  reachable s →
  NoDup (delivered s).*1 ∧
  (∀ id x, (id, x) ∈ delivered s → filled s !! id = Some x) ∧
  (∀ s', step s s' → filled s ⊆ filled s' ∧ delivered s `prefix_of` delivered s') ∧
  (∀ k c f id, seqs s !! k = Some (c, f) → open_ c = Some id → filled s !! id = None) ∧
  (∀ d f cx, drivers s !! d = Some f → f ≠ GetNew → ∃ q' f' w p,
     poll_get_next_item (seqr s) f cx = Done (q', f', w, p) ∧
     ∀ id, f = GetReady id →
       p = match filled s !! id with Some x => Ready {| txn_id := id; item_payload := x |} | None => Pending end) ∧
  (∀ k c id cx, seqs s !! k = Some (c, Some (FFinish (FinishWait id))) →
     snd (poll_finish_item (seqr s) c (FinishWait id) cx) = if decide (id ∈ released s) then Ready (Ok id) else Pending) ∧
  (∀ id, id ∈ released s → id ∈ (delivered s).*1).
Proof.
  intros Hr. pose proof (seq_reachable_inv s Hr) as Hi. split_and_all.
  - apply (inv_de_nodup _ _ _ _ _ _ Hi).
  - apply (inv_de _ _ _ _ _ _ Hi).
  - intros s'. by apply step_grows.
  - intros k c f id Hk Ho. by apply (inv_open _ _ _ _ _ _ Hi _ _ _ _ Hk).
  - intros d f cx Hd Hn. destruct (poll_get_inv _ _ _ _ _ _ d f cx Hi Hd) as (q' & f' & w & p & He & _); [done|].
    exists q', f', w, p. split; [done|]. intros id ->. simpl in He.
    destruct (inv_dr _ _ _ _ _ _ Hi _ _ Hd) as (Hl & Hnd & _).
    pose proof (live_slot _ _ _ _ _ _ _ Hi Hl) as Hs. unfold expect in Hs. rewrite decide_False in Hs by done.
    pose proof (get_ready_view (seqr s) id cx _ _ _ Hs) as Hg.
    destruct (filled s !! id); destruct Hg as (q2 & Hg & _); rewrite Hg in He; by injection He.
  - intros k c id cx Hk. pose proof (inv_fut _ _ _ _ _ _ Hi _ _ _ Hk) as Hl. simpl in Hl.
    unfold poll_finish_item. destruct (finish_wait _ _ _) as [s2 p] eqn:E.
    apply finish_wait_view in E as [_ ->]; [|by eapply live_is_some].
    rewrite (live_done _ _ _ _ _ _ Hi _ Hl). simpl.
    case_bool_decide; by case_decide.
  - apply (inv_re _ _ _ _ _ _ Hi).
Qed.

End Sequencer.
End Sequencer.

Module Overrides.
Section Overrides.
(** A sequence type's name stands for its [TypeId]; a maker for what it makes. *)
Context {Seq : Type}.
Abbreviation SeqOverrides := (gmap string (string * Seq)).

Definition clear_seq_overrides (o : SeqOverrides) : SeqOverrides := ∅.
Definition set_seq_override (from to : string) (mk : Seq) (o : SeqOverrides) : SeqOverrides := <[from := (to, mk)]> o.

(** A slot holding a sequence. *)
Record RustdvSeq := { inner : option Seq }.
Definition create_seq (ty : string) (default : Seq) (o : SeqOverrides) : RustdvSeq :=
  match snd <$> o !! ty with
  | Some made => {| inner := Some made |}
  | None => {| inner := Some default |}
  end.
Definition get (s : RustdvSeq) : Result Seq string :=
  match inner s with Some x => Ok x | None => Err "an empty sequence slot"%string end.

(** The last override installed for a type decides, for that type only. *)
Lemma create_overridden from to mk o ty d :
  get (create_seq ty d (set_seq_override from to mk o)) =
  if decide (ty = from) then Ok mk else get (create_seq ty d o).
Proof.
  unfold create_seq, set_seq_override. case_decide; subst.
  - by rewrite lookup_insert_eq.
  - by rewrite lookup_insert_ne by done.
Qed.
End Overrides.
End Overrides.

Module SequenceWitnesses.
Import Sequencer.

Definition ctx : SeqCtx := {| has_seqr := true; seq_name := "S"; open_ := None |}.
Abbreviation SI := (@SeqrInner nat nat).

(** The sequencer after one more sequence has called [start_item]. *)
Definition started (s : SI) (cx : Waker) : SI :=
  match poll_start_item s ctx StartNew cx with Done (s', _, _, _, _) => s' | Panic _ => s end.
Definition finished (s : SI) (id : TxnId) (x : nat) (cx : Waker) : SI :=
  let '(s', _, _, _, _) := poll_finish_item s (set_open ctx (Some id)) (FinishNew x) cx in s'.
Definition tried (s : SI) : SI := match try_next_item s with Done (s', _, _) => s' | Panic _ => s end.
Definition try_result (s : SI) : option (option SeqItem) :=
  match try_next_item s with Done (_, _, o) => Some o | Panic _ => None end.
Definition two_waiting : SI := started (started new_seqr 10) 11.

(** [try_next_item] puts an item that is granted but not yet filled in
    back at the end of the queue, so the queue is no longer in the order of
    the requests: after two requests and one fruitless try the second request
    comes first; the first sequence then fills its item in, and the next try
    still answers that no item is ready. *)
Theorem try_next_reorders :
  Queue.buf (queue two_waiting) = [1; 2] ∧
  try_result two_waiting = Some None ∧ Queue.buf (queue (tried two_waiting)) = [2; 1] ∧
  (let s := finished (tried two_waiting) 1 42 10 in
   payload (slot s 1) = Some 42 ∧ Event.is_set (ready (slot s 1)) = true ∧ try_result s = Some None).
Proof. repeat split. Qed.

(** One sequence, one driver, up to the driver holding the granted item. *)
Definition sys1 : @Sys nat nat := upd_seqs init (<[0 := (ctx, None)]> ∅).
Definition sys2 : @Sys nat nat := upd_seqs sys1 (<[0 := (ctx, Some (FStart StartNew))]> (seqs sys1)).
Definition sys3 : @Sys nat nat :=
  match poll_start_item (seqr sys2) ctx StartNew 10 with
  | Done (q, c', f', w, p) => upd_seqs (upd_seqr sys2 q) (<[0 := (c', FStart <$> pending_or p f')]> (seqs sys2))
  | Panic _ => sys2
  end.
Definition sys4 : @Sys nat nat := upd_drivers sys3 (<[7 := GetNew]> (drivers sys3)).
Definition sys5 : @Sys nat nat :=
  match poll_get_next_item (seqr sys4) GetNew 11 with
  | Done (q, f', w, p) => upd_delivered (upd_drivers (upd_seqr sys4 q)
      (match p with Pending => <[7 := f']> (drivers sys4) | Ready _ => delete 7 (drivers sys4) end))
      (add_delivered (poll_item p) (delivered sys4))
  | Panic _ => sys4
  end.

Lemma sys5_reachable : reachable sys5.
Proof.
  eapply rtc_l; [apply (s_seq init 0 true "S"); reflexivity|].
  eapply rtc_l; [apply (s_call sys1 0 ctx (FStart StartNew)); [reflexivity|by left]|].
  eapply rtc_l; [apply (s_poll_start sys2 0 ctx StartNew 10 _ _ _ _ _ eq_refl eq_refl)|].
  eapply rtc_l; [apply (s_get sys3 7); reflexivity|].
  eapply rtc_l; [apply (s_poll_get sys4 7 GetNew 11 _ _ _ _ eq_refl eq_refl)|]. apply rtc_refl.
Qed.

Lemma item_handshake_witness :
  drivers sys5 !! 7 = Some (GetReady 1) ∧ filled sys5 !! 1 = None ∧ delivered sys5 = [] ∧
  ∃ q' f' w, poll_get_next_item (seqr sys5) (GetReady 1) 11 = Done (q', f', w, Pending).
Proof.
  pose proof (item_handshake sys5 sys5_reachable) as (_ & _ & _ & Ho & Hd & _).
  assert (drivers sys5 !! 7 = Some (GetReady 1)) as H7 by reflexivity.
  assert (filled sys5 !! 1 = None) as Hf by reflexivity.
  split_and_all; [done|done|done|].
  destruct (Hd 7 (GetReady 1) 11 H7 ltac:(discriminate)) as (q' & f' & w & p & He & Hp).
  specialize (Hp 1 eq_refl). rewrite Hf in Hp. subst p. by exists q', f', w.
Defined.
End SequenceWitnesses.
