(* ===== verification/Rng.v ===== *)
(** * Rng: the SplitMix64 generator (rustdv-sim/src/rng.rs).

    [u64] values are integers in [0, 2^64); additions and multiplications wrap.
    The mixing steps are inverted one by one, so that the output is a bijection
    of the state. *)
From S2P Require Import Prelude Words.

Module Rng.
Import Words.
Local Open Scope Z_scope.

Record Rng := { state : Z }.
Definition new (seed : Z) : Rng := {| state := seed |}.

Definition wrapping_add (a b : Z) : Z := wrap 64 (a + b).
Definition wrapping_mul (a b : Z) : Z := wrap 64 (a * b).

Definition GAMMA : Z := 0x9E3779B97F4A7C15.
Definition M1 : Z := 0xBF58476D1CE4E5B9.
Definition M2 : Z := 0x94D049BB133111EB.

(** The output computed from the advanced state. *)
Definition mix (s : Z) : Z :=
  let z := wrapping_mul (Z.lxor s (Z.shiftr s 30)) M1 in
  let z := wrapping_mul (Z.lxor z (Z.shiftr z 27)) M2 in
  Z.lxor z (Z.shiftr z 31).

Definition next_u64 (r : Rng) : Rng * Z :=
  let s := wrapping_add (state r) GAMMA in ({| state := s |}, mix s).

(** [below] panics on zero, as [%] does. *)
Definition below (r : Rng) (n : Z) : Exec (Rng * Z) :=
  let '(r', z) := next_u64 r in
  if decide (n = 0) then Panic "attempt to calculate the remainder with a divisor of zero" else Done (r', z mod n).
Definition u8 (r : Rng) : Rng * Z := let '(r', z) := next_u64 r in (r', Z.land z 0xFF).
Definition bool_ (r : Rng) : Rng * bool := let '(r', z) := next_u64 r in (r', Z.land z 1 =? 1).

(** The state after [n] draws. *)
Fixpoint after (n : nat) (r : Rng) : Rng :=
  match n with O => r | Datatypes.S k => after k (fst (next_u64 r)) end.
Definition draw (n : nat) (r : Rng) : Z := snd (next_u64 (after n r)).

(** ** Inverting the steps *)

Lemma xorshift_inj k a b :
  0 < k → 0 ≤ a → 0 ≤ b → Z.lxor a (Z.shiftr a k) = Z.lxor b (Z.shiftr b k) → a = b.
Proof.
  intros Hk Ha Hb He.
  assert (∀ n i, 0 ≤ i → Z.log2 a < i + Z.of_nat n → Z.log2 b < i + Z.of_nat n → Z.testbit a i = Z.testbit b i) as Hbits.
  { induction n as [n IH] using lt_wf_ind. intros i Hi Hla Hlb.
    assert (Z.testbit (Z.lxor a (Z.shiftr a k)) i = Z.testbit (Z.lxor b (Z.shiftr b k)) i) as Hx by by rewrite He.
    rewrite !Z.lxor_spec, !Z.shiftr_spec in Hx by lia.
    assert (Z.testbit a (i + k) = Z.testbit b (i + k)) as Hhi.
    { destruct n as [|n].
      - by rewrite !Z.bits_above_log2 by lia.
      - apply (IH (Z.to_nat (Z.of_nat (S n) - k))); lia. }
    rewrite Hhi in Hx. by destruct (Z.testbit a i), (Z.testbit b i), (Z.testbit b (i + k)). }
  apply Z.bits_inj'. intros i Hi.
  apply (Hbits (Z.to_nat (Z.max (Z.log2 a) (Z.log2 b) + 1)) i Hi); pose proof (Z.log2_nonneg a); lia.
Qed.

Lemma xorshift_fits k a : 0 < k → fits 64 a → fits 64 (Z.lxor a (Z.shiftr a k)).
Proof. intros Hk Ha. apply fits_lxor; [lia|done|]. apply fits_shiftr; [lia|done]. Qed.

(** Multiplication by an invertible constant. *)
Lemma mul_inj m inv a b :
  (m * inv) mod 2 ^ 64 = 1 → fits 64 a → fits 64 b → wrapping_mul a m = wrapping_mul b m → a = b.
Proof.
  intros Hm Ha Hb He. unfold wrapping_mul, wrap in He.
  assert (∀ x, fits 64 x → (((x * m) mod 2 ^ 64) * inv) mod 2 ^ 64 = x) as Hinv.
  { intros x Hx. rewrite Z.mul_mod_idemp_l by lia. replace (x * m * inv) with (x * (m * inv)) by ring.
    rewrite <- Z.mul_mod_idemp_r, Hm, Z.mul_1_r by lia. by apply Z.mod_small. }
  rewrite <- (Hinv a Ha), <- (Hinv b Hb). by rewrite He.
Qed.

Definition M1_inv : Z := 0x96DE1B173F119089.
Definition M2_inv : Z := 0x319642B2D24D8EC3.

Lemma mul_fits a m : fits 64 (wrapping_mul a m).
Proof. apply wrap_fits. lia. Qed.

Lemma mix_fits s : fits 64 (mix s).
Proof. apply xorshift_fits; [lia|apply mul_fits]. Qed.

Lemma mix_inj a b : fits 64 a → fits 64 b → mix a = mix b → a = b.
Proof.
  intros Ha Hb He. unfold mix in He.
  apply xorshift_inj in He; [|lia|apply mul_fits..].
  apply (mul_inj M2 M2_inv) in He; [|vm_compute; reflexivity|apply xorshift_fits; [lia|apply mul_fits]..].
  apply xorshift_inj in He; [|lia|apply mul_fits..].
  apply (mul_inj M1 M1_inv) in He; [|vm_compute; reflexivity|apply xorshift_fits; [lia|done]..].
  apply xorshift_inj in He; [done|lia|by destruct Ha|by destruct Hb].
Qed.

Lemma after_state n r : fits 64 (state r) → state (after n r) = wrap 64 (state r + Z.of_nat n * GAMMA).
Proof.
  revert r. induction n as [|n IH]; intros r Hr.
  - simpl. rewrite Z.mul_0_l, Z.add_0_r. symmetry. by apply wrap_id.
  - cbn [after next_u64 fst]. rewrite IH by (simpl; apply wrap_fits; lia). cbn [state].
    unfold wrapping_add, wrap. rewrite Z.add_mod_idemp_l by lia. f_equal. lia.
Qed.

Definition GAMMA_inv : Z := 0xF1DE83E19937733D.

Lemma below_range r n : 0 < n → ∃ z, below r n = Done (fst (next_u64 r), z) ∧ 0 ≤ z < n.
Proof. intros Hn. unfold below. simpl. rewrite decide_False by lia. eexists. split; [done|]. by apply Z.mod_pos_bound. Qed.

Lemma u8_range r : 0 ≤ snd (u8 r) < 256.
Proof. unfold u8. simpl. change 255 with (2 ^ 8 - 1). rewrite land_ones_wrap by lia. apply wrap_fits. lia. Qed.

(** No value is drawn twice in any 2^64 consecutive draws from a seed; every
    draw is a 64-bit value, a bounded draw is below its bound and a byte below
    256. *)
Theorem splitmix_no_repeat seed i j :
  fits 64 seed → Z.of_nat i < 2 ^ 64 → Z.of_nat j < 2 ^ 64 →
  (draw i (new seed) = draw j (new seed) → i = j) ∧ fits 64 (draw i (new seed)) ∧
  (∀ n, 0 < n → ∃ r' z, below (after i (new seed)) n = Done (r', z) ∧ 0 ≤ z < n) ∧
  0 ≤ snd (u8 (after i (new seed))) < 256.
Proof.
  intros Hs Hi Hj. split_and_all; [|apply mix_fits|intros n Hn; eexists; by apply below_range|apply u8_range..].
  intros He. unfold draw, next_u64 in He. cbn [snd] in He.
  apply mix_inj in He; [|apply wrap_fits; lia..].
  unfold wrapping_add in He. rewrite !after_state in He by done. cbn [state new] in He.
  unfold wrap in He. rewrite !Z.add_mod_idemp_l in He by lia.
  assert (wrapping_mul (Z.of_nat i) GAMMA = wrapping_mul (Z.of_nat j) GAMMA) as Hm.
  { unfold wrapping_mul, wrap.
    replace (Z.of_nat i * GAMMA) with ((seed + Z.of_nat i * GAMMA + GAMMA) - (seed + GAMMA)) by lia.
    replace (Z.of_nat j * GAMMA) with ((seed + Z.of_nat j * GAMMA + GAMMA) - (seed + GAMMA)) by lia.
    rewrite <- (Zminus_mod_idemp_l (seed + Z.of_nat i * GAMMA + GAMMA)), He. apply Zminus_mod_idemp_l. }
  apply (mul_inj GAMMA GAMMA_inv) in Hm; [lia|vm_compute; reflexivity|unfold fits; lia..].
Qed.

End Rng.

Module RngWitnesses.
Import Rng.
Lemma splitmix_no_repeat_witness : draw 0 (new 42) ≠ draw 3 (new 42).
Proof.
  destruct (splitmix_no_repeat 42 0 3) as [H _]; [unfold Words.fits; lia|lia|lia|].
  intros He. by specialize (H He).
Defined.
End RngWitnesses.
