(* ===== verification/Time.v ===== *)
(** * Time: durations, timers and the clock generator
    (rustdv-sim/src/time.rs, triggers.rs, clock.rs).

    A duration is a number of simulator precision steps, a [u64]; [prec] is the
    simulator's precision exponent.  Arithmetic is checked: a power or a product
    that does not fit a [u64] panics. *)
From S2P Require Import Prelude Words.
From stdpp Require Import pretty.

Module Time.
Local Open Scope Z_scope.

Record SimDuration := { steps : Z }.

Definition checked (z : Z) (op : string) : Exec Z :=
  if decide (fits 64 z) then Done z else Panic ("attempt to " +:+ op +:+ " with overflow").

Definition below_precision (n exp prec : Z) : string :=
  "duration " +:+ pretty n +:+ "e" +:+ pretty exp +:+ " is below simulator precision 1e" +:+ pretty prec.

Definition from_pow10 (prec n exp : Z) : Exec SimDuration :=
  if decide (prec ≤ exp) then
    match checked (10 ^ (exp - prec)) "multiply" with
    | Panic m => Panic m
    | Done factor =>
        match checked (n * factor) "multiply" with
        | Panic m => Panic m
        | Done s => Done {| steps := s |}
        end
    end
  else
    match checked (10 ^ (prec - exp)) "multiply" with
    | Panic m => Panic m
    | Done div =>
        if decide (n mod div = 0) then Done {| steps := n / div |}
        else Panic (below_precision n exp prec)
    end.

(** The constructors by unit. *)
Definition of_steps (n : Z) : SimDuration := {| steps := n |}.
Definition fs (prec n : Z) : Exec SimDuration := from_pow10 prec n (-15).
Definition ps (prec n : Z) : Exec SimDuration := from_pow10 prec n (-12).
Definition ns (prec n : Z) : Exec SimDuration := from_pow10 prec n (-9).
Definition us (prec n : Z) : Exec SimDuration := from_pow10 prec n (-6).
Definition ms (prec n : Z) : Exec SimDuration := from_pow10 prec n (-3).
Definition sec (prec n : Z) : Exec SimDuration := from_pow10 prec n 0.

(** The constructor a unit name stands for. *)
Definition from_unit (prec n : Z) (unit : string) : Exec SimDuration :=
  if decide (unit = "fs"%string) then fs prec n
  else if decide (unit = "ps"%string) then ps prec n
  else if decide (unit = "ns"%string) then ns prec n
  else if decide (unit = "us"%string) then us prec n
  else if decide (unit = "ms"%string) then ms prec n
  else if decide (unit = "s"%string ∨ unit = "sec"%string) then sec prec n
  else if decide (unit = "step"%string ∨ unit = "steps"%string) then Done (of_steps n)
  else Panic ("unknown time unit '" +:+ unit +:+ "'").

(** [Timer::new]: the cell it shares with its callback does not exist before the
    first poll. *)
Record Timer := { t_steps : Z; t_shared : option nat }.
Definition timer_new (d : SimDuration) : Exec Timer :=
  if decide (0 < steps d) then Done {| t_steps := steps d; t_shared := None |}
  else Panic "Timer duration must be positive (cocotb rule)".

(** [Clock::new] and the two half periods of [Clock::start]. *)
Record Clock := { period : SimDuration }.
Definition clock_new (p : SimDuration) : Exec Clock :=
  if decide (2 ≤ steps p) then Done {| period := p |} else Panic "clock period must be at least 2 precision steps".
Definition high (c : Clock) : Z := steps (period c) / 2.
Definition low (c : Clock) : Z := steps (period c) - high c.

(** The free-running loop: the level and how long it is held, [n] turns. *)
Fixpoint waveform (n : nat) (c : Clock) : list (bool * Z) :=
  match n with O => [] | Datatypes.S k => (true, high c) :: (false, low c) :: waveform k c end.

Lemma checked_done z op z' : checked z op = Done z' ↔ z' = z ∧ fits 64 z.
Proof. unfold checked. case_decide; naive_solver. Qed.

(** A duration given in a unit is converted exactly or refused: when the
    conversion returns, the steps are a 64-bit count that times the simulator's
    precision is the duration asked for, with no rounding; it is refused
    exactly when the duration is not a whole number of steps or a power or the
    result does not fit 64 bits. *)
Theorem duration_exact prec n exp :
  fits 64 n →
  match from_pow10 prec n exp with
  | Done d => fits 64 (steps d) ∧
      (if decide (prec ≤ exp) then steps d = n * 10 ^ (exp - prec) else steps d * 10 ^ (prec - exp) = n)
  | Panic _ =>
      (prec ≤ exp ∧ (¬ fits 64 (10 ^ (exp - prec)) ∨ ¬ fits 64 (n * 10 ^ (exp - prec)))) ∨
      (exp < prec ∧ (¬ fits 64 (10 ^ (prec - exp)) ∨ ¬ (10 ^ (prec - exp) | n)))
  end.
Proof.
  intros Hn. unfold from_pow10, checked. case_decide as Hp.
  - case_decide as H1; [|left; split; [done|by left]].
    case_decide as H2; [|left; split; [done|by right]]. done.
  - assert (0 < 10 ^ (prec - exp)) as Hpos by (apply Z.pow_pos_nonneg; lia).
    case_decide as H1; [|right; split; [lia|by left]].
    case_decide as H2; [|right; split; [lia|right; rewrite <- Z.mod_divide by lia; done]].
    simpl. split.
    + unfold fits in *. split; [apply Z.div_pos; lia|].
      apply Z.le_lt_trans with n; [apply Z.div_le_upper_bound; nia|lia].
    + rewrite Z.mul_comm. symmetry. by apply Z.div_exact; [lia|].
Qed.

(** The halves of an accepted period are timers that may be made, and add up. *)
Lemma clock_halves p c :
  clock_new p = Done c → 0 < high c ∧ 0 < low c ∧ high c + low c = steps p ∧ high c ≤ low c ≤ high c + 1.
Proof.
  unfold clock_new. case_decide as Hp; [|done]. intros [= <-]. unfold low, high. cbn [period].
  pose proof (Z.div_mod (steps p) 2 ltac:(lia)). pose proof (Z.mod_pos_bound (steps p) 2 ltac:(lia)).
  lia.
Qed.
End Time.

Module TimeWitnesses.
Import Time.
Lemma duration_exact_witness :
  fits 64 5 ∧ from_pow10 (-12) 5 (-9) = Done {| steps := 5000 |} ∧ (5000 = 5 * 10 ^ 3)%Z.
Proof.
  assert (fits 64 5) as Hf by (unfold fits; lia). pose proof (duration_exact (-12) 5 (-9) Hf) as H.
  split; [done|]. split; [reflexivity|]. vm_compute in H. exact (proj2 H).
Defined.
End TimeWitnesses.
