(* ===== verification/PhaseHub.v ===== *)
(** * PhaseHub: simulator phases, the write buffer and phase triggers
    (rustdv-sim/src/phase.rs, triggers.rs).

    [Hub] is the per-thread hub; a waiter is the address of a [TrigShared]
    cell, owned by the future that waits, so the hub's weak reference upgrades
    exactly while that future lives.  The simulator calls a registered callback
    once; the tasks it then runs are a list of operations on the hub.  [acts]
    records the writes applied and the tasks woken, in order. *)
From S2P Require Import Prelude.

Module PhaseHub.

Inductive SimPhase := Normal | ReadWrite | ReadOnly.
#[global] Instance sim_phase_eq_dec : EqDecision SimPhase.
Proof. solve_decision. Defined.

Inductive PhaseKind := KReadWrite | KReadOnly | KNextTimeStep.
#[export] Instance phase_kind_eq_dec : EqDecision PhaseKind.
Proof. solve_decision. Defined.

(** Handles by number (a logic handle also carries the width it cached); the
    values a write may carry. *)
Inductive WriteTarget := TLogic (h : nat * nat) | TReal (h : nat) | TString (h : nat).
#[export] Instance write_target_eq_dec : EqDecision WriteTarget.
Proof. solve_decision. Defined.

(** [A] is a four-state vector, [N] a big integer, [F] an [f64]. *)
Inductive WriteVal (A N F : Type) :=
| WBool (x : bool)
| WU8 (x : Z)
| WU16 (x : Z)
| WU32 (x : Z)
| WU64 (x : Z)
| WU128 (x : Z)
| WBigInt (x : N)
| WLogic (x : A)
| WReal (x : F)
| WString (x : string).
Arguments WBool {A N F} _.
Arguments WU8 {A N F} _.
Arguments WU16 {A N F} _.
Arguments WU32 {A N F} _.
Arguments WU64 {A N F} _.
Arguments WU128 {A N F} _.
Arguments WBigInt {A N F} _.
Arguments WLogic {A N F} _.
Arguments WReal {A N F} _.
Arguments WString {A N F} _.

Record TrigShared := { fired : bool; waker : option Waker }.
Definition trig_new : TrigShared := {| fired := false; waker := None |}.
Definition set_waker (w : Waker) (t : TrigShared) : TrigShared := {| fired := fired t; waker := Some w |}.
Definition fire (t : TrigShared) : TrigShared * list Waker :=
  ({| fired := true; waker := None |}, option_list (waker t)).

Record PhaseFut := { kind : PhaseKind; shared : option nat }.
Definition phase_fut (k : PhaseKind) : PhaseFut := {| kind := k; shared := None |}.

Section Hub.
Context {A N F : Type}.
Variable full_name : WriteTarget → string.   (* the handle's name *)

Inductive Act := AWrite (t : WriteTarget) (v : WriteVal A N F) | AWake (w : Waker).

Record Hub := {
  phase : SimPhase;
  waiters : PhaseKind → list nat;          (* rw_waiters, ro_waiters, nt_waiters *)
  cb : PhaseKind → bool;                   (* rw_cb, ro_cb, nt_cb: a callback is registered *)
  writes : list (WriteTarget * WriteVal A N F);
  trigs : gmap nat TrigShared;             (* the cells of live futures *)
  next : nat;
  acts : list Act;
}.

Definition init_hub : Hub :=
  {| phase := Normal; waiters := λ _, []; cb := λ _, false; writes := []; trigs := ∅; next := 0; acts := [] |}.

Definition set_phase (p : SimPhase) (h : Hub) : Hub :=
  {| phase := p; waiters := waiters h; cb := cb h; writes := writes h; trigs := trigs h; next := next h; acts := acts h |}.
Definition upd {B} (k : PhaseKind) (x : B) (f : PhaseKind → B) : PhaseKind → B := λ j, if decide (j = k) then x else f j.
Definition set_waiters (k : PhaseKind) (l : list nat) (h : Hub) : Hub :=
  {| phase := phase h; waiters := upd k l (waiters h); cb := cb h; writes := writes h; trigs := trigs h; next := next h; acts := acts h |}.
Definition set_cb (k : PhaseKind) (b : bool) (h : Hub) : Hub :=
  {| phase := phase h; waiters := waiters h; cb := upd k b (cb h); writes := writes h; trigs := trigs h; next := next h; acts := acts h |}.
Definition set_writes (l : list (WriteTarget * WriteVal A N F)) (h : Hub) : Hub :=
  {| phase := phase h; waiters := waiters h; cb := cb h; writes := l; trigs := trigs h; next := next h; acts := acts h |}.
Definition set_trigs (m : gmap nat TrigShared) (h : Hub) : Hub :=
  {| phase := phase h; waiters := waiters h; cb := cb h; writes := writes h; trigs := m; next := next h; acts := acts h |}.
Definition add_acts (l : list Act) (h : Hub) : Hub :=
  {| phase := phase h; waiters := waiters h; cb := cb h; writes := writes h; trigs := trigs h; next := next h; acts := acts h ++ l |}.

(** ** Writing *)

Definition apply_write (t : WriteTarget) (v : WriteVal A N F) (h : Hub) : Exec Hub :=
  match t, v with
  | TReal _, WReal _ => Done (add_acts [AWrite t v] h)
  | TString _, WString x =>
      if has_nul x then Panic "scheduled string was validated" else Done (add_acts [AWrite t v] h)
  | TLogic _, (WBool _ | WU8 _ | WU16 _ | WU32 _ | WU64 _ | WU128 _ | WBigInt _ | WLogic _) => Done (add_acts [AWrite t v] h)
  | _, _ => Panic "internal error: entered unreachable code: write target/value mismatch"
  end.

Definition denied (t : WriteTarget) : string :=
  "illegal write to '" +:+ full_name t +:+ "' during the ReadOnly phase (cocotb rule, design-doc §4.4)".
Definition deny_write_in_read_only (t : WriteTarget) (h : Hub) : Exec Hub :=
  if decide (phase h = ReadOnly) then Panic (denied t) else Done h.

(** A callback is registered unless one is pending. *)
Definition prime (k : PhaseKind) (h : Hub) : Hub := if cb h k then h else set_cb k true h.

(** [writes.iter_mut().find(..)]: replace in place, or push. *)
Fixpoint buffer (t : WriteTarget) (v : WriteVal A N F) (l : list (WriteTarget * WriteVal A N F)) : list (WriteTarget * WriteVal A N F) :=
  match l with
  | [] => [(t, v)]
  | (t', v') :: r => if decide (t' = t) then (t', v) :: r else (t', v') :: buffer t v r
  end.

Definition schedule (t : WriteTarget) (v : WriteVal A N F) (h : Hub) : Exec Hub :=
  match phase h with
  | ReadOnly => deny_write_in_read_only t h
  | ReadWrite => apply_write t v h
  | Normal => Done (prime KReadWrite (set_writes (buffer t v (writes h)) h))
  end.

(** ** Firing *)

Definition fire_one (h : Hub) (a : nat) : Hub :=
  match trigs h !! a with
  | Some t => let '(t', w) := fire t in add_acts (AWake <$> w) (set_trigs (<[a := t']> (trigs h)) h)
  | None => h          (* the weak reference does not upgrade *)
  end.
Definition fire_waiters (k : PhaseKind) (h : Hub) : Hub := foldl fire_one (set_waiters k [] h) (waiters h k).

(** The drained writes, applied in order. *)
Fixpoint apply_all (l : list (WriteTarget * WriteVal A N F)) (h : Hub) : Exec Hub :=
  match l with
  | [] => Done h
  | (t, v) :: r => match apply_write t v h with Done h' => apply_all r h' | Panic m => Panic m end
  end.

(** ** Awaiting *)

Definition illegal (k : PhaseKind) : string :=
  match k with
  | KReadWrite => "awaiting ReadWrite from the ReadOnly phase is illegal (cocotb rule)"
  | _ => "awaiting ReadOnly from the ReadOnly phase is illegal (cocotb rule)"
  end.

Definition poll_phase (f : PhaseFut) (cx : Waker) (h : Hub) : Exec (Hub * PhaseFut * Poll unit) :=
  match shared f with
  | Some a =>
      match trigs h !! a with
      | Some t =>
          if fired t then Done (h, f, Ready tt)
          else Done (set_trigs (<[a := set_waker cx t]> (trigs h)) h, f, Pending)
      | None => Done (h, f, Pending)          (* a future owns its cell *)
      end
  | None =>
      if decide (phase h = ReadOnly ∧ kind f ≠ KNextTimeStep) then Panic (illegal (kind f))
      else
        let a := next h in
        let h1 := {| phase := phase h; waiters := upd (kind f) (waiters h (kind f) ++ [a]) (waiters h); cb := cb h;
                     writes := writes h; trigs := <[a := set_waker cx trig_new]> (trigs h); next := S a; acts := acts h |} in
        Done (prime (kind f) h1, {| kind := kind f; shared := Some a |}, Pending)
  end.

(** Dropping a future frees its cell. *)
Definition drop_phase (f : PhaseFut) (h : Hub) : Hub :=
  match shared f with Some a => set_trigs (delete a (trigs h)) h | None => h end.

(** ** Every history *)

Record Sys := { hub : Hub; futs : gmap nat PhaseFut }.
Definition init : Sys := {| hub := init_hub; futs := ∅ |}.

(** What a task does; a panic ends that task and leaves the hub as it was. *)
Inductive Op := OWrite (t : WriteTarget) (v : WriteVal A N F) | OAwait (f : nat) (k : PhaseKind) | OPoll (f : nat) (cx : Waker) | ODrop (f : nat).

Definition exec_op (s : Sys) (o : Op) : Sys :=
  match o with
  | OWrite t v => match schedule t v (hub s) with Done h => {| hub := h; futs := futs s |} | Panic _ => s end
  | OAwait f k => match futs s !! f with None => {| hub := hub s; futs := <[f := phase_fut k]> (futs s) |} | Some _ => s end
  | OPoll f cx =>
      match futs s !! f with
      | Some p =>
          match poll_phase p cx (hub s) with
          | Done (h, p', _) => {| hub := h; futs := <[f := p']> (futs s) |}
          | Panic _ => s
          end
      | None => s
      end
  | ODrop f =>
      match futs s !! f with
      | Some p => {| hub := drop_phase p (hub s); futs := delete f (futs s) |}
      | None => s
      end
  end.
Definition run_ops (s : Sys) (os : list Op) : Sys := foldl exec_op s os.
Definition on_hub (g : Hub → Hub) (s : Sys) : Sys := {| hub := g (hub s); futs := futs s |}.

(** The callbacks [prime_rw], [prime_ro] and [prime_nt] register; [os] is what
    the executor's drain comes to. *)
Definition rw_callback (os : list Op) (s : Sys) : Exec Sys :=
  let h0 := set_phase ReadWrite (set_cb KReadWrite false (hub s)) in
  match apply_all (writes h0) (set_writes [] h0) with
  | Panic m => Panic m
  | Done h1 => Done (on_hub (set_phase Normal) (run_ops {| hub := fire_waiters KReadWrite h1; futs := futs s |} os))
  end.
Definition ro_callback (os : list Op) (s : Sys) : Sys :=
  let h0 := set_phase ReadOnly (set_cb KReadOnly false (hub s)) in
  on_hub (set_phase Normal) (run_ops {| hub := fire_waiters KReadOnly h0; futs := futs s |} os).
Definition nt_callback (os : list Op) (s : Sys) : Sys :=
  run_ops {| hub := fire_waiters KNextTimeStep (set_cb KNextTimeStep false (hub s)); futs := futs s |} os.

Definition callback (k : PhaseKind) (os : list Op) (s : Sys) : Exec Sys :=
  match k with KReadWrite => rw_callback os s | KReadOnly => Done (ro_callback os s) | KNextTimeStep => Done (nt_callback os s) end.

(** The typed handles only write values of their own type, and texts without
    NUL bytes. *)
Definition typed (t : WriteTarget) (v : WriteVal A N F) : bool :=
  match t, v with
  | TReal _, WReal _ => true
  | TString _, WString x => negb (has_nul x)
  | TLogic _, (WReal _ | WString _) => false
  | TLogic _, _ => true
  | _, _ => false
  end.
Definition op_typed (o : Op) : Prop := match o with OWrite t v => typed t v = true | _ => True end.

(** Outside a phase callback (a timer, an edge) tasks run in the normal phase;
    the simulator calls a callback that is registered. *)
Inductive step : Sys → Sys → Prop :=
| s_ops s os : Forall op_typed os → step s (run_ops s os)
| s_callback s k os s' : Forall op_typed os → cb (hub s) k = true → callback k os s = Done s' → step s s'.

Definition reachable (s : Sys) : Prop := rtc step init s.

(** ** The buffer *)

Fixpoint lookup_write (t : WriteTarget) (l : list (WriteTarget * WriteVal A N F)) : option (WriteVal A N F) :=
  match l with [] => None | (t', v) :: r => if decide (t' = t) then Some v else lookup_write t r end.

(** The value written last, and the targets in the order first written. *)
Definition last_value (ws : list (WriteTarget * WriteVal A N F)) (t : WriteTarget) : option (WriteVal A N F) :=
  foldl (λ o w, if decide (w.1 = t) then Some w.2 else o) None ws.
Definition first_written (ws : list (WriteTarget * WriteVal A N F)) : list WriteTarget :=
  foldl (λ ks w, if decide (w.1 ∈ ks) then ks else ks ++ [w.1]) [] ws.

Lemma lookup_buffer t v l t' : lookup_write t' (buffer t v l) = if decide (t = t') then Some v else lookup_write t' l.
Proof using Type.
  clear full_name.
  induction l as [|[t0 v0] l IH]; simpl; [done|]. destruct (decide (t0 = t)) as [->|Hn]; simpl.
  - by repeat case_decide.
  - rewrite IH. repeat case_decide; congruence.
Qed.

Lemma keys_buffer t v l : (buffer t v l).*1 = if decide (t ∈ l.*1) then l.*1 else l.*1 ++ [t].
Proof using Type.
  clear full_name.
  induction l as [|[t0 v0] l IH]; csimpl; [done|].
  destruct (decide (t0 = t)) as [->|Hn]; csimpl.
  - by rewrite decide_True by (by left).
  - rewrite IH. repeat case_decide; rewrite ?elem_of_cons in *; csimpl; naive_solver.
Qed.

Lemma buffer_nodup t v l : NoDup l.*1 → NoDup (buffer t v l).*1.
Proof using Type.
  clear full_name.
  intros Hl. rewrite keys_buffer. case_decide as Hd; [done|]. apply NoDup_app. split_and_all; [done| |apply NoDup_singleton].
  intros x Hx Hx'. apply list_elem_of_singleton in Hx' as ->. done.
Qed.

Lemma buffer_Forall (P : WriteTarget * WriteVal A N F → Prop) t v l : P (t, v) → Forall P l → Forall P (buffer t v l).
Proof using Type.
  clear full_name.
  intros Ht. induction 1 as [|[t0 v0] l H0 Hl IH]; simpl; [by repeat constructor|].
  case_decide as Hd; constructor; try done. by rewrite Hd.
Qed.

Lemma buffer_all_Forall (P : WriteTarget * WriteVal A N F → Prop) ws l :
  Forall P ws → Forall P l → Forall P (foldl (λ l w, buffer w.1 w.2 l) l ws).
Proof using Type.
  clear full_name.
  intros Hws. revert l. induction Hws as [|[t v] ws Hw Hws IH]; intros l Hl; simpl; [done|].
  by apply IH, buffer_Forall.
Qed.

Lemma buffer_all_NoDup ws l : NoDup l.*1 → NoDup (foldl (λ l w, buffer w.1 w.2 l) l ws).*1.
Proof using Type.
  clear full_name. revert l. induction ws as [|[t v] ws IH]; intros l Hl; simpl; [done|]. by apply IH, buffer_nodup. Qed.

Lemma lookup_write_elem t v l : lookup_write t l = Some v → (t, v) ∈ l.
Proof.
  induction l as [|[t0 v0] l IH]; simpl; [done|]. case_decide as Hd; intros H; simplify_eq; [by left|right; auto].
Qed.

Lemma first_written_elem ws t : t ∈ first_written ws → t ∈ ws.*1.
Proof using Type.
  clear full_name.
  induction ws as [|[t0 v0] ws IH] using rev_ind; [done|]. unfold first_written in *. rewrite foldl_app, fmap_app. simpl.
  case_decide; rewrite ?elem_of_app; [tauto|]. intros [?|?]; tauto.
Qed.

(** Scheduling a list of writes on an empty buffer. *)
Lemma buffer_all ws :
  let l := foldl (λ l w, buffer w.1 w.2 l) [] ws in
  l.*1 = first_written ws ∧ ∀ t, lookup_write t l = last_value ws t.
Proof using Type.
  clear full_name.
  simpl. induction ws as [|[t v] ws [IHk IHv]] using rev_ind; [done|].
  unfold first_written, last_value in *. rewrite !foldl_app. simpl. split.
  - by rewrite keys_buffer, IHk.
  - intros t'. rewrite foldl_app, lookup_buffer. simpl. by rewrite IHv.
Qed.

(** A write is applied exactly when its value fits its target. *)
Lemma apply_write_typed t v h :
  if typed t v then apply_write t v h = Done (add_acts [AWrite t v] h) else ∃ m, apply_write t v h = Panic m.
Proof. destruct t, v; simpl; try (by eexists); try done. by destruct (has_nul x); [eexists|]. Qed.

Lemma apply_all_typed l h :
  Forall (λ w, typed w.1 w.2 = true) l → apply_all l h = Done (add_acts (map (λ w, AWrite w.1 w.2) l) h).
Proof.
  intros Hl. revert h. induction Hl as [|[t v] l Ht Hl IH]; intros h; simpl.
  - unfold add_acts. rewrite app_nil_r. by destruct h.
  - simpl in Ht. pose proof (apply_write_typed t v h) as Hw. rewrite Ht in Hw. rewrite Hw, IH.
    unfold add_acts. simpl. by rewrite <- app_assoc.
Qed.

(** ** The invariant *)

Record inv (s : Sys) : Prop := {
  inv_writes : writes (hub s) ≠ [] → cb (hub s) KReadWrite = true;
  inv_typed : Forall (λ w, typed w.1 w.2 = true) (writes (hub s));
  inv_wait k : waiters (hub s) k ≠ [] → cb (hub s) k = true;
  inv_wait_next k a : a ∈ waiters (hub s) k → a < next (hub s);
  inv_wait_nodup k : NoDup (waiters (hub s) k);
  inv_trigs a t : trigs (hub s) !! a = Some t → a < next (hub s);
  inv_fut f p a : futs s !! f = Some p → shared p = Some a →
    ∃ t, trigs (hub s) !! a = Some t ∧ (fired t = true ∨ (a ∈ waiters (hub s) (kind p) ∧ is_Some (waker t)));
  inv_inj f1 f2 p1 p2 a : futs s !! f1 = Some p1 → futs s !! f2 = Some p2 →
    shared p1 = Some a → shared p2 = Some a → f1 = f2;
}.

Lemma hub_inv_init : inv init.
Proof. constructor; simpl; try done; try (intros; set_solver); try (by constructor). Qed.

Lemma prime_spec k h :
  cb (prime k h) k = true ∧ (∀ j, cb h j = true → cb (prime k h) j = true) ∧
  phase (prime k h) = phase h ∧ waiters (prime k h) = waiters h ∧ writes (prime k h) = writes h ∧
  trigs (prime k h) = trigs h ∧ next (prime k h) = next h ∧ acts (prime k h) = acts h.
Proof.
  unfold prime. destruct (cb h k) eqn:E; [by split_and_all|].
  split_and_all; try done; simpl; unfold upd; [by rewrite decide_True|].
  intros j Hj. by case_decide.
Qed.

(** A hub change that keeps waiters, cells and callbacks. *)
Lemma inv_write s t v : inv s → typed t v = true → inv (exec_op s (OWrite t v)).
Proof.
  intros Hi Ht. simpl. unfold schedule. destruct (phase (hub s)) eqn:Ep.
  - destruct (prime_spec KReadWrite (set_writes (buffer t v (writes (hub s))) (hub s)))
      as (Hc & Hm & _ & Hw & Hwr & Htr & Hn & _). simpl in *.
    destruct Hi. constructor; simpl; rewrite ?Hwr, ?Htr, ?Hn, ?Hw; try done; try (intros k; rewrite ?Hw; eauto).
    by apply (buffer_Forall (λ w, typed w.1 w.2 = true)).
  - pose proof (apply_write_typed t v (hub s)) as Hw. rewrite Ht in Hw. rewrite Hw. destruct Hi; by constructor.
  - unfold deny_write_in_read_only. rewrite Ep. by destruct (decide _).
Qed.

Lemma inv_await s f k : inv s → inv (exec_op s (OAwait f k)).
Proof.
  intros Hi. simpl. destruct (futs s !! f) eqn:E; [done|]. destruct Hi. constructor; simpl; try done.
  - intros f1 p a. rewrite lookup_insert_Some. intros [[<- <-]|[Hn Hf]]; [done|eauto].
  - intros f1 f2 p1 p2 a. rewrite !lookup_insert_Some. intros [[<- <-]|[? ?]] [[<- <-]|[? ?]]; try done; eauto.
Qed.

Lemma inv_drop s f : inv s → inv (exec_op s (ODrop f)).
Proof.
  intros Hi. simpl. destruct (futs s !! f) as [p|] eqn:E; [|done]. destruct Hi. unfold drop_phase.
  destruct (shared p) as [a|] eqn:Ea; constructor; simpl; try done.
  - intros b t [_ Hb]%lookup_delete_Some. eauto.
  - intros f1 p1 b [Hn Hf]%lookup_delete_Some Hs. destruct (inv_fut0 _ _ _ Hf Hs) as (t & Ht & Hor).
    exists t. rewrite lookup_delete_ne; [done|]. intros ->. by apply Hn, (inv_inj0 _ _ _ _ _ E Hf Ea Hs).
  - intros f1 f2 p1 p2 b [_ H1]%lookup_delete_Some [_ H2]%lookup_delete_Some. eauto.
  - intros f1 p1 b [Hn Hf]%lookup_delete_Some Hs. eauto.
  - intros f1 f2 p1 p2 b [_ H1]%lookup_delete_Some [_ H2]%lookup_delete_Some. eauto.
Qed.

(** Polling again a future that has its cell. *)
Lemma inv_repoll s f p a t cx :
  inv s → futs s !! f = Some p → shared p = Some a → trigs (hub s) !! a = Some t → fired t = false →
  inv {| hub := set_trigs (<[a := set_waker cx t]> (trigs (hub s))) (hub s); futs := <[f := p]> (futs s) |}.
Proof.
  intros Hi Hf Hs Ht Hu. rewrite (insert_id (futs s)) by done. destruct Hi. constructor; simpl; try done.
  - intros b t'. rewrite lookup_insert_Some. intros [[<- _]|[_ ?]]; eauto.
  - intros f1 p1 b Hf1 Hs1. destruct (inv_fut0 _ _ _ Hf1 Hs1) as (t1 & Ht1 & Hor).
    destruct (decide (b = a)) as [->|Hn]; [|exists t1; by rewrite lookup_insert_ne].
    exists (set_waker cx t). rewrite lookup_insert_eq. split; [done|]. simplify_eq. simpl.
    destruct Hor as [?|[? _]]; [by left|right; eauto].
Qed.

(** The first poll of a future registers it. *)
Lemma inv_first_poll s f p cx h' p' r :
  inv s → futs s !! f = Some p → shared p = None → poll_phase p cx (hub s) = Done (h', p', r) →
  inv {| hub := h'; futs := <[f := p']> (futs s) |}.
Proof.
  intros Hi Hf Hs Hp. unfold poll_phase in Hp. rewrite Hs in Hp. destruct (decide _); [done|].
  set (h1 := Build_Hub _ _ _ _ _ _ _) in Hp.
  destruct (prime_spec (kind p) h1) as (Hc & Hm & _ & Hw & Hwr & Htr & Hn & _).
  injection Hp as <- <- <-. destruct Hi.
  constructor; cbn [hub futs]; rewrite ?Hwr, ?Htr, ?Hn; subst h1; simpl in *; try done.
  - intros Hx. by apply Hm, inv_writes0.
  - intros k. rewrite Hw. unfold upd. case_decide as Hk; [intros _; by subst|]. intros Hx. by apply Hm, inv_wait0.
  - intros k a. rewrite Hw. unfold upd. case_decide as Hk; [|intros Hx; by specialize (inv_wait_next0 _ _ Hx); lia].
    rewrite elem_of_app, list_elem_of_singleton. intros [Hx| ->]; [specialize (inv_wait_next0 _ _ Hx)|]; lia.
  - intros k. rewrite Hw. unfold upd. case_decide as Hk; [|done]. apply NoDup_app.
    split_and_all; [done| |apply NoDup_singleton]. intros x Hx Hx'. apply list_elem_of_singleton in Hx' as ->.
    specialize (inv_wait_next0 _ _ Hx). lia.
  - intros a t. rewrite lookup_insert_Some. intros [[<- _]|[_ Hx]]; [lia|]. specialize (inv_trigs0 _ _ Hx). lia.
  - intros f1 p1 a. rewrite lookup_insert_Some. intros [[<- <-]|[Hne Hf1]] Hs1; rewrite Hw; unfold upd; simpl in *.
    + simplify_eq. eexists. rewrite lookup_insert_eq. split; [done|]. right. rewrite decide_True by done.
      split; [|eauto]. apply elem_of_app. right. by apply list_elem_of_singleton.
    + destruct (inv_fut0 _ _ _ Hf1 Hs1) as (t & Ht & Hor). specialize (inv_trigs0 _ _ Ht).
      exists t. rewrite lookup_insert_ne by lia. split; [done|]. destruct Hor as [?|[? ?]]; [by left|right].
      split; [|done]. case_decide as Hk; [|done]. rewrite <- Hk. apply elem_of_app. by left.
  - intros f1 f2 p1 p2 a. rewrite !lookup_insert_Some.
    intros [[<- <-]|[Hn1 H1]] [[<- <-]|[Hn2 H2]] S1 S2; try done; try (by eauto); simpl in *; simplify_eq.
    + destruct (inv_fut0 _ _ _ H2 S2) as (t & Ht & _). specialize (inv_trigs0 _ _ Ht). lia.
    + destruct (inv_fut0 _ _ _ H1 S1) as (t & Ht & _). specialize (inv_trigs0 _ _ Ht). lia.
Qed.

Lemma inv_op s o : inv s → op_typed o → inv (exec_op s o).
Proof.
  intros Hi Ho. destruct o as [t v|f k|f cx|f]; [by apply inv_write|by apply inv_await| |by apply inv_drop].
  simpl. destruct (futs s !! f) as [p|] eqn:Ef; [|done].
  destruct (poll_phase p cx (hub s)) as [[[h p'] r]|] eqn:Ep; [|done].
  destruct (shared p) as [a|] eqn:Es; [|by eapply inv_first_poll].
  unfold poll_phase in Ep. rewrite Es in Ep. destruct (inv_fut _ Hi _ _ _ Ef Es) as (t & Ht & _). rewrite Ht in Ep.
  destruct (fired t) eqn:Eu; simplify_eq; [|by eapply inv_repoll].
  rewrite insert_id by done. by destruct s.
Qed.

Lemma inv_ops os : ∀ s, inv s → Forall op_typed os → inv (run_ops s os).
Proof.
  induction os as [|o os IH]; intros s Hi Ht; [done|]. inversion_clear Ht. simpl. apply IH; [by apply inv_op|done].
Qed.

(** ** Firing *)

Lemma fire_all l : ∀ h, NoDup l →
  let h' := foldl fire_one h l in
  phase h' = phase h ∧ waiters h' = waiters h ∧ cb h' = cb h ∧ writes h' = writes h ∧ next h' = next h ∧
  (∀ a, trigs h' !! a = if decide (a ∈ l) then fst ∘ fire <$> trigs h !! a else trigs h !! a) ∧
  acts h' = acts h ++ concat (map (λ a, match trigs h !! a with Some t => AWake <$> snd (fire t) | None => [] end) l).
Proof.
  induction l as [|a l IH]; intros h Hnd; simpl.
  { split_and_all; try done. by rewrite app_nil_r. }
  apply NoDup_cons in Hnd as [Hn Hnd]. destruct (IH (fire_one h a) Hnd) as (H1 & H2 & H3 & H4 & H5 & H6 & H7).
  assert (∀ b, b ≠ a → trigs (fire_one h a) !! b = trigs h !! b) as Hother.
  { intros b Hb. unfold fire_one. destruct (trigs h !! a); [|done]. simpl. by rewrite lookup_insert_ne. }
  assert (map (λ b, match trigs (fire_one h a) !! b with Some t => AWake <$> snd (fire t) | None => [] end) l =
          map (λ b, match trigs h !! b with Some t => AWake <$> snd (fire t) | None => [] end) l) as Hmap.
  { apply map_ext_in. intros b Hb. apply list_elem_of_In in Hb. rewrite Hother; [done|]. by intros ->. }
  split_and_all.
  1-5: first [rewrite H1|rewrite H2|rewrite H3|rewrite H4|rewrite H5]; unfold fire_one; by destruct (trigs h !! a).
  - intros b. rewrite H6. destruct (decide (b = a)) as [->|Hb].
    + rewrite decide_False, decide_True by (done || by left).
      unfold fire_one. destruct (trigs h !! a) eqn:E; simpl; [|done]. by rewrite lookup_insert_eq.
    + rewrite Hother by done. assert (b ∈ a :: l ↔ b ∈ l) as Hiff by (rewrite elem_of_cons; naive_solver).
      repeat case_decide; naive_solver.
  - rewrite H7, Hmap. unfold fire_one. destruct (trigs h !! a) as [t|] eqn:E; simpl; [|done].
    by rewrite <- app_assoc.
Qed.

Lemma inv_phase s p : inv s → inv (on_hub (set_phase p) s).
Proof. intros []. by constructor. Qed.

Lemma inv_fired s h0 k :
  inv s → waiters h0 = waiters (hub s) → trigs h0 = trigs (hub s) → next h0 = next (hub s) →
  cb h0 = upd k false (cb (hub s)) → (writes h0 = [] ∨ writes h0 = writes (hub s) ∧ k ≠ KReadWrite) →
  inv {| hub := fire_waiters k h0; futs := futs s |}.
Proof.
  intros Hi Hw Ht Hn Hc Hwr. destruct Hi.
  destruct (fire_all (waiters h0 k) (set_waiters k [] h0)) as (_ & H2 & H3 & H4 & H5 & H6 & _);
    [by rewrite Hw|]. simpl in *. rewrite Ht in H6.
  constructor; cbn [hub futs]; unfold fire_waiters; rewrite ?H2, ?H3, ?H4, ?H5, ?Hc, ?Hn; unfold upd; rewrite ?Hw.
  - destruct Hwr as [->|[-> Hk]]; [done|]. by rewrite decide_False by congruence.
  - destruct Hwr as [->|[-> Hk]]; [constructor|done].
  - intros j. by case_decide; [|apply inv_wait0].
  - intros j a. case_decide; [intros Hx; by apply not_elem_of_nil in Hx|eauto].
  - intros j. case_decide; [constructor|done].
  - intros a t. rewrite <- Hw, H6. case_decide; [|eauto]. intros Hx. apply fmap_Some in Hx as (t0 & Hx & _). eauto.
  - intros f p a Hf Hs. destruct (inv_fut0 _ _ _ Hf Hs) as (t & Hta & Hor). rewrite <- Hw, H6, Hta.
    case_decide as Hd; simpl.
    + eexists. split; [done|]. by left.
    + exists t. split; [done|]. destruct Hor as [?|[Hin ?]]; [by left|right]. split; [|done].
      rewrite Hw in *. case_decide as Hk; [|done]. by rewrite Hk in Hin.
  - done.
Qed.

(** A callback, its waiters fired, before the tasks run. *)
Definition entered (k : PhaseKind) (h : Hub) : Hub :=
  let h0 := set_cb k false h in
  fire_waiters k match k with
    | KReadWrite => add_acts (map (λ w, AWrite w.1 w.2) (writes h)) (set_writes [] (set_phase ReadWrite h0))
    | KReadOnly => set_phase ReadOnly h0
    | KNextTimeStep => h0
    end.

Lemma callback_entered k os s :
  inv s → ∃ s', callback k os s = Done s' ∧
    let s1 := run_ops {| hub := entered k (hub s); futs := futs s |} os in
    s' = if decide (k = KNextTimeStep) then s1 else on_hub (set_phase Normal) s1.
Proof.
  intros Hi. destruct k; simpl; [|by eexists..]. unfold rw_callback. simpl.
  rewrite apply_all_typed by apply Hi. by eexists.
Qed.

Lemma inv_entered k s : inv s → inv {| hub := entered k (hub s); futs := futs s |}.
Proof. intros Hi. destruct k; apply (inv_fired s); try done; [by left|by right|by right]. Qed.

Lemma inv_callback k os s s' : inv s → Forall op_typed os → callback k os s = Done s' → inv s'.
Proof.
  intros Hi Ht Hc. destruct (callback_entered k os s Hi) as (s2 & Hc2 & ->). rewrite Hc2 in Hc. simplify_eq.
  case_decide; [|apply inv_phase]; apply inv_ops; try done; by apply inv_entered.
Qed.

Lemma phase_ops os : ∀ s, phase (hub (run_ops s os)) = phase (hub s).
Proof.
  induction os as [|o os IH]; intros s; [done|]. simpl. rewrite IH. clear IH.
  destruct o as [t v|f k|f cx|f]; simpl.
  - unfold schedule. destruct (phase (hub s)) eqn:Ep; simpl.
    + pose proof (prime_spec KReadWrite (set_writes (buffer t v (writes (hub s))) (hub s))) as (_ & _ & -> & _). done.
    + pose proof (apply_write_typed t v (hub s)) as Hw. destruct (typed t v); [by rewrite Hw|by destruct Hw as [m ->]].
    + unfold deny_write_in_read_only. rewrite Ep. by destruct (decide _).
  - by destruct (futs s !! f).
  - destruct (futs s !! f) as [p|]; [|done]. unfold poll_phase. destruct (shared p) as [a|].
    + destruct (trigs (hub s) !! a) as [t|]; [|done]. by destruct (fired t).
    + destruct (decide _); [done|]. simpl.
      match goal with |- context [prime ?k ?h] => by destruct (prime_spec k h) as (_ & _ & -> & _) end.
  - destruct (futs s !! f) as [p|]; [|done]. unfold drop_phase. by destruct (shared p).
Qed.

Lemma reachable_hub s : reachable s → inv s ∧ phase (hub s) = Normal.
Proof.
  intros Hr. eapply (rtc_preserves step (λ s, inv s ∧ phase (hub s) = Normal)); [|exact Hr|by split; [apply hub_inv_init|]].
  intros a b Hs [Hi Hp]. destruct Hs as [s0 os Ht|s0 k os s' Ht Hc He].
  - split; [by apply inv_ops|by rewrite phase_ops].
  - split; [by eapply inv_callback|]. destruct (callback_entered k os s0 Hi) as (s2 & Hc2 & ->). rewrite Hc2 in He.
    simplify_eq. case_decide as Hk; [|done]. subst k. rewrite phase_ops. simpl. unfold entered, fire_waiters.
    destruct (fire_all (waiters (set_cb KNextTimeStep false (hub s0)) KNextTimeStep)
      (set_waiters KNextTimeStep [] (set_cb KNextTimeStep false (hub s0)))) as (-> & _); [apply Hi|done].
Qed.

(** A fired cell stays fired while its future lives. *)
Lemma fired_stays_op s o f p a t :
  inv s → futs s !! f = Some p → shared p = Some a → trigs (hub s) !! a = Some t → fired t = true → o ≠ ODrop f →
  futs (exec_op s o) !! f = Some p ∧ trigs (hub (exec_op s o)) !! a = Some t.
Proof.
  intros Hi Hf Hs Ht Hfi Ho. destruct o as [tg v|f' k|f' cx|f']; simpl.
  - unfold schedule. destruct (phase (hub s)) eqn:Ep.
    + simpl. destruct (prime_spec KReadWrite (set_writes (buffer tg v (writes (hub s))) (hub s)))
        as (_ & _ & _ & _ & _ & -> & _). done.
    + pose proof (apply_write_typed tg v (hub s)) as Hw. destruct (typed tg v); [by rewrite Hw|by destruct Hw as [m ->]].
    + unfold deny_write_in_read_only. rewrite Ep. by destruct (decide _).
  - destruct (futs s !! f') eqn:E; [done|]. simpl. rewrite lookup_insert_ne; [done|]. intros ->. congruence.
  - destruct (futs s !! f') as [p'|] eqn:E; [|done]. unfold poll_phase. destruct (shared p') as [a'|] eqn:Es'.
    + destruct (decide (f' = f)) as [->|Hn].
      * simplify_eq. rewrite Ht, Hfi. simpl. by rewrite lookup_insert_eq.
      * assert (a' ≠ a) as Ha by (intros ->; by apply Hn, (inv_inj _ Hi _ _ _ _ _ E Hf Es' Hs)).
        destruct (trigs (hub s) !! a') as [t'|]; [destruct (fired t')|]; simpl;
          rewrite ?lookup_insert_ne by done; done.
    + assert (f' ≠ f) as Hn by congruence.
      destruct (decide (_ ∧ _)); [done|]. simpl. rewrite lookup_insert_ne by done. split; [done|].
      match goal with |- context [prime ?k ?h] => destruct (prime_spec k h) as (_ & _ & _ & _ & _ & -> & _) end.
      simpl. rewrite lookup_insert_ne; [done|]. pose proof (inv_trigs _ Hi _ _ Ht). lia.
  - destruct (futs s !! f') as [p'|] eqn:E; [|done]. assert (f' ≠ f) as Hn by congruence. simpl.
    rewrite lookup_delete_ne by done. split; [done|]. unfold drop_phase. destruct (shared p') as [a'|] eqn:Es'; [|done].
    simpl. rewrite lookup_delete_ne; [done|]. intros ->. by apply Hn, (inv_inj _ Hi _ _ _ _ _ E Hf Es' Hs).
Qed.

Lemma fired_stays os f p a t : ∀ s,
  inv s → futs s !! f = Some p → shared p = Some a → trigs (hub s) !! a = Some t → fired t = true →
  Forall op_typed os → ODrop f ∉ os →
  futs (run_ops s os) !! f = Some p ∧ trigs (hub (run_ops s os)) !! a = Some t.
Proof.
  induction os as [|o os IH]; intros s Hi Hf Hs Ht Hfi Hty Ho; [done|]. inversion_clear Hty.
  rewrite not_elem_of_cons in Ho. destruct Ho as [Ho Hos].
  destruct (fired_stays_op s o f p a t Hi Hf Hs Ht Hfi ltac:(by intros ->)) as [Hf' Ht']. simpl. apply IH; try done.
  by apply inv_op.
Qed.

Lemma acts_grow os : ∀ s, acts (hub s) `prefix_of` acts (hub (run_ops s os)).
Proof.
  induction os as [|o os IH]; intros s; [done|]. simpl. etrans; [|apply IH]. clear IH.
  destruct o as [t v|f k|f cx|f]; simpl.
  - unfold schedule. destruct (phase (hub s)) eqn:Ep; simpl.
    + pose proof (prime_spec KReadWrite (set_writes (buffer t v (writes (hub s))) (hub s))) as (_ & _ & _ & _ & _ & _ & _ & ->). done.
    + pose proof (apply_write_typed t v (hub s)) as Hw. destruct (typed t v); [|by destruct Hw as [m ->]].
      rewrite Hw. by apply prefix_app_r.
    + unfold deny_write_in_read_only. rewrite Ep. by destruct (decide _).
  - by destruct (futs s !! f).
  - destruct (futs s !! f) as [p|]; [|done]. unfold poll_phase. destruct (shared p) as [a|].
    + destruct (trigs (hub s) !! a) as [t|]; [|done]. by destruct (fired t).
    + destruct (decide _); [done|]. simpl.
      match goal with |- context [prime ?k ?h] => by destruct (prime_spec k h) as (_ & _ & _ & _ & _ & _ & _ & ->) end.
  - destruct (futs s !! f) as [p|]; [|done]. unfold drop_phase. by destruct (shared p).
Qed.


(** Scheduling in the normal phase only fills the buffer. *)
Lemma schedule_all ws : ∀ s, phase (hub s) = Normal →
  let s1 := run_ops s (map (λ w, OWrite w.1 w.2) ws) in
  writes (hub s1) = foldl (λ l w, buffer w.1 w.2 l) (writes (hub s)) ws ∧ acts (hub s1) = acts (hub s).
Proof.
  induction ws as [|[t v] ws IH]; intros s Hp; [done|].
  assert (exec_op s (OWrite t v) = {| hub := prime KReadWrite (set_writes (buffer t v (writes (hub s))) (hub s)); futs := futs s |}) as He
    by (simpl; unfold schedule; by rewrite Hp).
  change (run_ops s _) with (run_ops (exec_op s (OWrite t v)) (map (λ w, OWrite w.1 w.2) ws)). rewrite He.
  pose proof (prime_spec KReadWrite (set_writes (buffer t v (writes (hub s))) (hub s))) as (_ & _ & Hph & _ & Hw & _ & _ & Ha).
  destruct (IH {| hub := prime KReadWrite (set_writes (buffer t v (writes (hub s))) (hub s)); futs := futs s |}) as [H1 H2];
    [simpl; by rewrite Hph|]. cbn zeta in *. cbn [hub] in *. rewrite H1, H2, Hw, Ha. done.
Qed.

(** Outside the normal phase nothing is buffered; in the read-only one nothing
    is written. *)
Lemma writes_unbuffered os : ∀ s, phase (hub s) ≠ Normal →
  writes (hub (run_ops s os)) = writes (hub s) ∧
  ∃ l, acts (hub (run_ops s os)) = acts (hub s) ++ l ∧ (phase (hub s) = ReadOnly → l = []).
Proof.
  induction os as [|o os IH]; intros s Hp; simpl; [split; [done|]; exists []; by rewrite app_nil_r|].
  assert (phase (hub (exec_op s o)) = phase (hub s)) as Hph by (apply (phase_ops [o])).
  assert (writes (hub (exec_op s o)) = writes (hub s) ∧
    ∃ l, acts (hub (exec_op s o)) = acts (hub s) ++ l ∧ (phase (hub s) = ReadOnly → l = [])) as [Hw (l & Hl & Hr)].
  { clear IH Hph. destruct o as [t v|f k|f cx|f]; simpl.
    - unfold schedule. destruct (phase (hub s)) eqn:Ep; [done| |].
      + pose proof (apply_write_typed t v (hub s)) as Hw.
        destruct (typed t v); [rewrite Hw; split; [done|]; by eexists|destruct Hw as [m ->]].
        split; [done|]. exists []. by rewrite app_nil_r.
      + unfold deny_write_in_read_only. rewrite Ep. destruct (decide _); (split; [done|]); exists []; by rewrite app_nil_r.
    - destruct (futs s !! f); (split; [done|]); exists []; by rewrite app_nil_r.
    - destruct (futs s !! f) as [p|]; [|split; [done|]; exists []; by rewrite app_nil_r].
      unfold poll_phase. destruct (shared p) as [a|].
      + destruct (trigs (hub s) !! a) as [t|]; [destruct (fired t)|]; (split; [done|]); exists []; by rewrite app_nil_r.
      + destruct (decide _); simpl; [split; [done|]; exists []; by rewrite app_nil_r|].
        match goal with |- context [prime ?k ?h] => destruct (prime_spec k h) as (_ & _ & _ & _ & -> & _ & _ & ->) end.
        split; [done|]. exists []. simpl. by rewrite app_nil_r.
    - destruct (futs s !! f) as [p|]; [|split; [done|]; exists []; by rewrite app_nil_r].
      unfold drop_phase. destruct (shared p); (split; [done|]); exists []; by rewrite app_nil_r. }
  destruct (IH (exec_op s o)) as [Hw2 (l2 & Hl2 & Hr2)]; [by rewrite Hph|]. rewrite Hph in Hr2.
  split; [by rewrite Hw2|]. exists (l ++ l2). rewrite Hl2, Hl, app_assoc. split; [done|].
  intros Hro. by rewrite Hr, Hr2.
Qed.

(** Only writes act on the simulator. *)
Definition writes_nothing (o : Op) : bool := match o with OWrite _ _ => false | _ => true end.
Lemma ops_no_acts os : ∀ s, Forall writes_nothing os → acts (hub (run_ops s os)) = acts (hub s).
Proof.
  induction os as [|o os IH]; intros s Hos; [done|]. apply Forall_cons in Hos as [Ho Hos]. simpl. rewrite IH by done.
  destruct o as [t v|f k|f cx|f]; simpl; [done|by destruct (futs s !! f)| |].
  - destruct (futs s !! f) as [p|]; [|done]. unfold poll_phase. destruct (shared p) as [a|].
    + destruct (trigs (hub s) !! a) as [t|]; [|done]. by destruct (fired t).
    + destruct (decide _); [done|]. simpl.
      match goal with |- context [prime ?k ?h] => by destruct (prime_spec k h) as (_ & _ & _ & _ & _ & _ & _ & ->) end.
  - destruct (futs s !! f) as [p|]; [|done]. unfold drop_phase. by destruct (shared p).
Qed.

(** The acts of entering a callback: the buffered writes, then wake-ups. *)
Lemma entered_acts k s : inv s → ∃ ws,
  acts (entered k (hub s)) = acts (hub s) ++ (if decide (k = KReadWrite) then map (λ w, AWrite w.1 w.2) (writes (hub s)) else []) ++ map AWake ws ∧
  writes (entered k (hub s)) = (if decide (k = KReadWrite) then [] else writes (hub s)) ∧
  phase (entered k (hub s)) = match k with KReadWrite => ReadWrite | KReadOnly => ReadOnly | _ => phase (hub s) end.
Proof.
  intros Hi. unfold entered, fire_waiters.
  set (h0 := match k with KReadWrite => _ | KReadOnly => _ | KNextTimeStep => _ end).
  exists (concat (map (λ a, match trigs h0 !! a with Some t => snd (fire t) | None => [] end) (waiters h0 k))).
  destruct (fire_all (waiters h0 k) (set_waiters k [] h0)) as (Hp & _ & _ & Hw & _ & _ & Ha); [destruct k; apply Hi|].
  rewrite Hp, Hw, Ha. split_and_all; [|by destruct k..].
  replace (map AWake (concat _)) with
    (concat (map (λ a, match trigs (set_waiters k [] h0) !! a with Some t => AWake <$> snd (fire t) | None => [] end) (waiters h0 k))).
  - rewrite app_assoc. f_equal. destruct k; simpl; by rewrite ?app_nil_r.
  - rewrite concat_map, map_map. f_equal. apply map_ext. intros a. simpl. by destruct (trigs h0 !! a).
Qed.

(** C15: writes made in the normal phase are held back and, when the read-write
    callback comes, applied before any waiting task is woken: one write per
    target, with the value written last, in the order the targets were first
    written; afterwards none is left, whatever the tasks wrote meanwhile; and
    while the read-only callback runs nothing is written at all. *)
Theorem write_discipline s ws :
  reachable s → writes (hub s) = [] → Forall (λ w, typed w.1 w.2 = true) ws →
  let s1 := run_ops s (map (λ w, OWrite w.1 w.2) ws) in
  (writes (hub s1)).*1 = first_written ws ∧ (∀ t, lookup_write t (writes (hub s1)) = last_value ws t) ∧
  acts (hub s1) = acts (hub s) ∧
  (∀ os, Forall op_typed os → ∃ s2 woken l, rw_callback os s1 = Done s2 ∧
     acts (hub s2) = acts (hub s) ++ map (λ w, AWrite w.1 w.2) (writes (hub s1)) ++ map AWake woken ++ l ∧
     writes (hub s2) = []) ∧
  (∀ os, ∃ woken, acts (hub (ro_callback os s1)) = acts (hub s) ++ map AWake woken ∧
     writes (hub (ro_callback os s1)) = writes (hub s1)).
Proof.
  intros Hr Hempty Hty s1. destruct (reachable_hub s Hr) as [Hi Hp].
  destruct (schedule_all ws s Hp) as [Hw Ha]. fold s1 in Hw, Ha. rewrite Hempty in Hw.
  assert (inv s1) as Hi1 by (apply inv_ops; [done|]; by apply Forall_map).
  destruct (buffer_all ws) as [Hk Hv]. rewrite Hw. split_and_all; [done|done|done|..].
  - intros os Hos. destruct (callback_entered KReadWrite os s1 Hi1) as (s2 & Hc & ->).
    destruct (entered_acts KReadWrite s1 Hi1) as (woken & He & Hwe & Hpe).
    destruct (writes_unbuffered os {| hub := entered KReadWrite (hub s1); futs := futs s1 |}) as [Hwo (l & Hl & _)];
      [cbn [hub]; by rewrite Hpe|]. cbn [hub] in *.
    eexists _, woken, l. split; [exact Hc|]. simpl. rewrite Hl, Hwo, He, Hwe, Ha, Hw. simpl.
    split; [|done]. by rewrite <- !app_assoc.
  - intros os. unfold ro_callback. simpl.
    change (fire_waiters KReadOnly (set_phase ReadOnly (set_cb KReadOnly false (hub s1)))) with (entered KReadOnly (hub s1)).
    destruct (entered_acts KReadOnly s1 Hi1) as (woken & He & Hwe & Hpe). exists woken.
    destruct (writes_unbuffered os {| hub := entered KReadOnly (hub s1); futs := futs s1 |}) as [Hwo (l & Hl & Hro)];
      [cbn [hub]; by rewrite Hpe|]. cbn [hub] in *. rewrite Hl, Hwo, He, Hwe, Ha, (Hro Hpe), app_nil_r, Hw. done.
Qed.

End Hub.
End PhaseHub.

Module PhaseHubWitnesses.
Import PhaseHub.
Definition nm (t : WriteTarget) : string := "dut.sig".
Abbreviation S0 := (@Sys unit Z unit).

Definition waiting : S0 := run_ops nm init [OAwait 1 KReadOnly; OPoll 1 5].
Lemma waiting_reachable : reachable nm waiting.
Proof. eapply rtc_l; [apply (s_ops nm init [OAwait 1 KReadOnly; OPoll 1 5]); by repeat constructor|apply rtc_refl]. Qed.


Lemma write_discipline_witness :
  ∃ s2 : S0, rw_callback nm [] (run_ops nm init [OWrite (TLogic (0, 8)) (WU8 1); OWrite (TLogic (1, 8)) (WU8 2); OWrite (TLogic (0, 8)) (WU8 3)]) = Done s2 ∧
    writes (hub s2) = [] ∧ acts (hub s2) = [AWrite (TLogic (0, 8)) (WU8 3); AWrite (TLogic (1, 8)) (WU8 2)].
Proof.
  destruct (write_discipline nm (@init unit Z unit) [(TLogic (0, 8), WU8 1); (TLogic (1, 8), WU8 2); (TLogic (0, 8), WU8 3)])
    as (_ & _ & _ & H & _); [apply rtc_refl|done|by repeat constructor|].
  destruct (H [] ltac:(constructor)) as (s2 & woken & l & He & _ & Hw). exists s2. simpl in He.
  split; [exact He|]. split; [exact Hw|]. vm_compute in He. by simplify_eq.
Defined.
End PhaseHubWitnesses.
