(* ===== verification/Runner.v ===== *)
(** * Runner: the regression manager (rustdv-runner/src/rustdv_runner.rs).

    The per-thread state that outlives a test is a [World]: the configuration
    database, the logging configuration, the sequence overrides, the sequences'
    seed, the first failure of a background task, the simulator's phase and the
    executor's live tasks.  A test's task is user code (followed by the wait for
    its objections): it maps the world and its seed to a verdict, and says
    whether its timer would have fired first.  Printing and files are outside the model; the report
    is the text written. *)
From Stdlib Require Import Ascii.
From stdpp Require Import pretty.
From S2P Require Import Prelude Words Path Log Config Factory Component Sequence Time PhaseHub.

Module Runner.
Import Component.

Record TestRegistration := {
  name : string; module_ : string; file : string; line : nat;
  timeout : option (Z * string); skip : bool; expect_fail : bool; expect_error : option string;
}.

(** By (file, line), stably. *)
Definition reg_cmp (a b : TestRegistration) : comparison :=
  match String.compare (file a) (file b) with Eq => Nat.compare (line a) (line b) | c => c end.
Definition collect_tests (slice : list TestRegistration) : list TestRegistration := Config.sort_by reg_cmp slice.

Inductive Outcome := Pass | Fail (msg : string) (kind : option string) | Skip.
#[export] Instance outcome_eq_dec : EqDecision Outcome.
Proof. solve_decision. Defined.

Definition fail (m : string) : Outcome := Fail m None.

Record TestResult := { r_name : string; outcome : Outcome; sim_ns : string }.

(** ** Scoring *)

(** What awaiting the test's task gave: [None] is the timeout; [Some (Err e)] a
    panic or cancellation of the task; [Some (Ok r)] the body's own result. *)
Definition Raw : Type := option (Result (Result unit TestError) string).

Definition raw_outcome (reg : TestRegistration) (raw : Raw) : Outcome :=
  match raw with
  | None =>
      match timeout reg with
      | Some (n, unit) => fail ("timeout after " +:+ pretty n +:+ unit)
      | None => fail "timeout after"        (* a test without a timeout is not raced *)
      end
  | Some (Err e) => fail ("test task: " +:+ e)
  | Some (Ok (Err e)) => Fail (msg e) (kind e)
  | Some (Ok (Ok _)) => Pass
  end.

(** A panic in a child task fails the test even if the body passed. *)
Definition with_background (bg : option string) (o : Outcome) : Outcome :=
  match bg with Some b => if decide (o = Pass) then fail b else o | None => o end.

Definition expectation (reg : TestRegistration) (o : Outcome) : Outcome :=
  match expect_error reg with
  | Some expected =>
      match o with
      | Pass => fail ("expected error '" +:+ expected +:+ "' but test passed")
      | Fail m k =>
          if decide (k = Some expected) then Pass
          else fail ("expected error '" +:+ expected +:+ "', got " +:+
                     default "an unclassified failure"%string k +:+ ": " +:+ m)
      | Skip => Skip
      end
  | None =>
      if expect_fail reg then
        match o with Pass => fail "expected failure but test passed" | Fail _ _ => Pass | Skip => Skip end
      else o
  end.

Definition score (reg : TestRegistration) (raw : Raw) (bg : option string) : Outcome :=
  expectation reg (with_background bg (raw_outcome reg raw)).

(** ** One test *)

Section Run.
Context {Any Seq : Type}.

Record World := {
  db : Config.ConfigDb Any;
  log : Log.Config;
  seq_overrides : gmap string (string * Seq);
  seq_seed : Z;
  background : option string;            (* CURRENT_FAILURE *)
  phase : PhaseHub.SimPhase;
  next_task : nat;                       (* the executor's task counter *)
  live : list nat;                       (* its live tasks *)
}.

(** [set_failure_sink] and [set_panic_sink]: the first failure is kept. *)
Definition sink (m : string) (w : World) : World :=
  {| db := db w; log := log w; seq_overrides := seq_overrides w; seq_seed := seq_seed w;
     background := Some (default m (background w)); phase := phase w; next_task := next_task w; live := live w |}.

(** [take_background_failure]. *)
Definition take_background (w : World) : World * option string :=
  ({| db := db w; log := log w; seq_overrides := seq_overrides w; seq_seed := seq_seed w; background := None;
      phase := phase w; next_task := next_task w; live := live w |}, background w).

(** [leave_read_only]: a step of time, if the previous test ended in the
    read-only phase. *)
Definition leave_read_only (w : World) : World :=
  {| db := db w; log := log w; seq_overrides := seq_overrides w; seq_seed := seq_seed w; background := background w;
     phase := if decide (phase w = PhaseHub.ReadOnly) then PhaseHub.Normal else phase w;
     next_task := next_task w; live := live w |}.

(** "Each test starts clean". *)
Definition clean (w : World) : World :=
  {| db := Config.clear (db w); log := Log.reset_config (log w); seq_overrides := seq_overrides w;
     seq_seed := seq_seed w; background := background w; phase := phase w; next_task := next_task w; live := live w |}.

(** [spawn_named] of the test's task, and [cancel_after]. *)
Definition spawn (w : World) : World :=
  {| db := db w; log := log w; seq_overrides := seq_overrides w; seq_seed := seq_seed w; background := background w;
     phase := phase w; next_task := S (next_task w); live := live w ++ [next_task w] |}.
Definition cancel_after (watermark : nat) (w : World) : World :=
  {| db := db w; log := log w; seq_overrides := seq_overrides w; seq_seed := seq_seed w; background := background w;
     phase := phase w; next_task := next_task w; live := filter (λ t, t < watermark) (live w) |}.

Variable prec : Z.                                   (* the simulator's time precision *)
Variable top_module : Result unit string.            (* whether there is a design *)
(** The test's task, awaited to its end, and whether its timer, if it has one,
    fires first.  The body runs with its seed in the world left by [clean]. *)
Variable body : TestRegistration → Z → World → World * Result (Result unit TestError) string * bool.

Definition run_one (reg : TestRegistration) (seed : Z) (w : World) : Exec (World * Outcome) :=
  let w0 := clean (leave_read_only w) in
  match top_module with
  | Err e => Done (w0, fail ("no DUT: " +:+ e))
  | Ok _ =>
      let watermark := next_task w0 in
      let '(w1, r, timer_first) := body reg seed (spawn w0) in
      let finish (raw : Raw) :=
        let '(w2, bg) := take_background (cancel_after watermark w1) in Done (w2, score reg raw bg) in
      match timeout reg with
      | Some (n, unit) =>
          match Time.from_unit prec n unit with
          | Panic m => Panic m
          | Done d =>
              match Time.timer_new d with
              | Panic m => Panic m
              | Done _ => finish (if (timer_first : bool) then None else Some r)
              end
          end
      | None => finish (Some r)
      end
  end.

(** ** The regression *)

Variable show_ns : TestRegistration → string.        (* a test's simulated time, printed *)

Fixpoint run_tests (i : Z) (seed : Z) (tests : list TestRegistration) (w : World) : Exec (World * list TestResult) :=
  match tests with
  | [] => Done (w, [])
  | reg :: rest =>
      let more (w' : World) (res : TestResult) :=
        match run_tests (i + 1) seed rest w' with
        | Done (w'', rs) => Done (w'', res :: rs)
        | Panic m => Panic m
        end in
      if skip reg then more w {| r_name := name reg; outcome := Skip; sim_ns := "0.00" |}
      else
        match run_one reg (wrap 64 (seed + i)) w with
        | Panic m => Panic m
        | Done (w', o) => more w' {| r_name := name reg; outcome := o; sim_ns := show_ns reg |}
        end
  end.

Definition failed (rs : list TestResult) : bool :=
  existsb (λ r, match outcome r with Fail _ _ => true | _ => false end) rs.
End Run.

(** ** The RUSTDV_TESTCASE filter *)

Definition ascii_lower (c : ascii) : ascii :=
  let n := nat_of_ascii c in if decide (65 ≤ n ≤ 90) then ascii_of_nat (n + 32) else c.
Definition to_ascii_lowercase (s : string) : string := string_of_list (map ascii_lower (list_of_string s)).

Fixpoint split_comma (s : string) : list string :=
  match s with
  | EmptyString => [EmptyString]
  | String c r =>
      if decide (c = ","%char) then EmptyString :: split_comma r
      else match split_comma r with [] => [String c EmptyString] | p :: ps => String c p :: ps end
  end.

(** [str::contains]. *)
Fixpoint contains (s p : list ascii) : bool :=
  bool_decide (take (length p) s = p) || match s with [] => false | _ :: r => contains r p end.

Definition patterns (raw : string) : list string :=
  filter (λ s, s ≠ EmptyString) (map (λ s, to_ascii_lowercase (str_trim s)) (split_comma raw)).
Definition selected (pats : list string) (t : TestRegistration) : bool :=
  existsb (λ p, contains (list_of_string (to_ascii_lowercase (name t))) (list_of_string p)) pats.

Definition apply_testcase_filter (env : option string) (tests : list TestRegistration) :
    Result (list TestRegistration) string :=
  match env with
  | None => Ok tests
  | Some raw =>
      match patterns raw with
      | [] => Ok tests
      | pats =>
          match filter (λ t, selected pats t = true) tests with
          | [] => Err ("RUSTDV_TESTCASE=" +:+ raw +:+ " matched no test")
          | kept => Ok kept
          end
      end
  end.

Inductive Verdict := REGRESSION_PASS | REGRESSION_FAIL.

Section Regression.
Context {Any Seq : Type}.
Variable prec : Z.
Variable top_module : Result unit string.
Variable body : TestRegistration → Z → @World Any Seq → @World Any Seq * Result (Result unit TestError) string * bool.
Variable show_ns : TestRegistration → string.

(** The verdict printed and the results reported. *)
Definition regression (env : option string) (slice : list TestRegistration) (seed : Z) (w : World) :
    Exec (Verdict * list TestResult) :=
  match apply_testcase_filter env (collect_tests slice) with
  | Err _ => Done (REGRESSION_FAIL, [])
  | Ok tests =>
      match run_tests prec top_module body show_ns 0 seed tests w with
      | Panic m => Panic m
      | Done (_, rs) => Done (if failed rs then REGRESSION_FAIL else REGRESSION_PASS, rs)
      end
  end.
End Regression.

(** ** The report file *)

(** The message as written into the report's attribute. *)
Definition sanitize_char (c : ascii) : ascii :=
  if decide (c = "034"%char) then "'"%char
  else if decide (c = "<"%char) then "("%char
  else if decide (c = ">"%char) then ")"%char else c.
Definition sanitize (m : string) : string := string_of_list (map sanitize_char (list_of_string m)).

Definition dq : string := String "034"%char EmptyString.
Definition count_outcomes (p : Outcome → bool) (rs : list TestResult) : string :=
  pretty (N.of_nat (length (filter (λ r, p (outcome r) = true) rs))).
Definition is_fail (o : Outcome) : bool := match o with Fail _ _ => true | _ => false end.
Definition is_skip (o : Outcome) : bool := match o with Skip => true | _ => false end.

Definition testcase (r : TestResult) : string :=
  "  <testcase name=" +:+ dq +:+ r_name r +:+ dq +:+ " time=" +:+ dq +:+ sim_ns r +:+ dq +:+
  match outcome r with
  | Pass => "/>" +:+ nl
  | Skip => "><skipped/></testcase>" +:+ nl
  | Fail m _ => "><failure message=" +:+ dq +:+ sanitize m +:+ dq +:+ "/></testcase>" +:+ nl
  end.

Definition xunit (rs : list TestResult) : string :=
  "<?xml version=" +:+ dq +:+ "1.0" +:+ dq +:+ " encoding=" +:+ dq +:+ "UTF-8" +:+ dq +:+ "?>" +:+ nl +:+
  "<testsuites>" +:+ nl +:+ "<testsuite name=" +:+ dq +:+ "rustdv" +:+ dq +:+
  " tests=" +:+ dq +:+ pretty (N.of_nat (length rs)) +:+ dq +:+
  " failures=" +:+ dq +:+ count_outcomes is_fail rs +:+ dq +:+
  " skipped=" +:+ dq +:+ count_outcomes is_skip rs +:+ dq +:+ ">" +:+ nl +:+
  foldr (λ r acc, testcase r +:+ acc) EmptyString rs +:+
  "</testsuite>" +:+ nl +:+ "</testsuites>" +:+ nl.

(** ** Order of the tests *)

Lemma sort_by_perm {A} (cmp : A → A → comparison) l : Config.sort_by cmp l ≡ₚ l.
Proof.
  unfold Config.sort_by. rewrite reverse_Permutation. set (f := λ d y, _).
  assert (∀ acc, foldl f acc l ≡ₚ acc ++ l) as H.
  { induction l as [|y l IH]; intros acc; simpl; [by rewrite app_nil_r|]. rewrite IH. unfold f at 1.
    rewrite Config.shift_left_perm. simpl. apply Permutation_middle. }
  by rewrite (H []).
Qed.

(** Consecutive elements are in order. *)
Fixpoint in_order {A} (le : A → A → Prop) (l : list A) : Prop :=
  match l with a :: ((b :: _) as r) => le a b ∧ in_order le r | _ => True end.

Lemma in_order_snoc {A} (le : A → A → Prop) l a b : in_order le (l ++ [a]) → le a b → in_order le (l ++ [a; b]).
Proof.
  induction l as [|x l IH]; simpl; [done|]. destruct l as [|y l]; simpl in *; [tauto|].
  intros [? ?] ?. split; [done|]. by apply IH.
Qed.

Lemma in_order_reverse {A} (le : A → A → Prop) l : in_order (λ a b, le b a) l → in_order le (reverse l).
Proof.
  induction l as [|a l IH]; [done|]. rewrite reverse_cons. destruct l as [|b l]; [done|].
  intros [Hab Hl]. specialize (IH Hl). rewrite reverse_cons in *. rewrite <- app_assoc. simpl.
  by apply in_order_snoc.
Qed.

Lemma sort_in_order {A} (cmp : A → A → comparison) l :
  (∀ a b, cmp b a = CompOpp (cmp a b)) → in_order (λ a b, cmp a b ≠ Gt) (Config.sort_by cmp l).
Proof.
  intros Hopp. unfold Config.sort_by. apply in_order_reverse.
  set (less := λ a b, match cmp a b with Lt => true | _ => false end).
  assert (∀ x d, in_order (λ a b, cmp b a ≠ Gt) d → in_order (λ a b, cmp b a ≠ Gt) (Config.shift_left less x d)) as Hs.
  { intros x d. induction d as [|y r IH]; intros Hd; simpl; [done|].
    destruct (less x y) eqn:E; unfold less in E.
    - specialize (IH ltac:(by destruct r; [|destruct Hd])). destruct r as [|z r]; simpl in *.
      + split; [|done]. by destruct (cmp x y).
      + destruct (less x z); simpl in *; (split; [|done]); [by destruct Hd|by destruct (cmp x y)].
    - split; [|done]. rewrite Hopp. by destruct (cmp x y). }
  assert (∀ d, in_order (λ a b, cmp b a ≠ Gt) d →
    in_order (λ a b, cmp b a ≠ Gt) (foldl (λ d x, Config.shift_left less x d) d l)) as Hf.
  { induction l as [|x l IH]; intros d Hd; [done|]. simpl. by apply IH, Hs. }
  by apply (Hf []).
Qed.

Lemma reg_cmp_opp a b : reg_cmp b a = CompOpp (reg_cmp a b).
Proof.
  unfold reg_cmp. rewrite (String.compare_antisym (file b)).
  destruct (String.compare (file a) (file b)); simpl; [|done..].
  by rewrite Nat.compare_antisym.
Qed.

(** ** Verdicts *)

(** The body returned and no task of the test panicked. *)
Definition body_ok (raw : Raw) (bg : option string) : Prop := raw = Some (Ok (Ok tt)) ∧ bg = None.

(** The test did what it declares. *)
Definition as_declared (reg : TestRegistration) (raw : Raw) (bg : option string) : Prop :=
  match expect_error reg with
  | Some k => ∃ e, raw = Some (Ok (Err e)) ∧ kind e = Some k
  | None => if expect_fail reg then ¬ body_ok raw bg else body_ok raw bg
  end.

(** What ran is never scored as skipped. *)
Lemma score_never_skip reg raw bg : score reg raw bg ≠ Skip.
Proof.
  unfold score, expectation, with_background, raw_outcome, fail.
  destruct raw as [[[[]|e]|e]|]; destruct (expect_error reg) as [k|]; destruct (expect_fail reg); destruct bg as [b|];
    destruct (timeout reg) as [[n u]|]; simpl; repeat case_decide; simpl; try case_decide; done.
Qed.

Lemma score_passes reg raw bg : score reg raw bg = Pass ↔ as_declared reg raw bg.
Proof.
  unfold as_declared, score, expectation, with_background, body_ok, raw_outcome, fail.
  destruct raw as [[[[]|e]|e]|]; destruct (expect_error reg) as [k|]; destruct (expect_fail reg); destruct bg as [b|];
    destruct (timeout reg) as [[n u]|]; simpl; repeat case_decide; simpl; try case_decide; naive_solver.
Qed.

(** A test passes exactly when it does what it declares: with no
    expectation, when its body returned without error, in time, and no task of
    the test panicked; with [expect_fail], when that is not so; with
    [expect_error], exactly when its body returned an error of that kind, so
    that another error, a panic, a timeout and a pass all fail it; a test that
    ran is never scored as skipped. *)
Theorem score_sound reg raw bg :
  (score reg raw bg = Pass ↔ as_declared reg raw bg) ∧ score reg raw bg ≠ Skip.
Proof. split; [apply score_passes|apply score_never_skip]. Qed.

Section RunnerTheorems.
Context {Any Seq : Type}.
Variable prec : Z.
Variable top_module : Result unit string.
Variable body : TestRegistration → Z → @World Any Seq → @World Any Seq * Result (Result unit TestError) string * bool.
Variable show_ns : TestRegistration → string.

Lemma run_one_outcome reg seed w w' o :
  run_one prec top_module body reg seed w = Done (w', o) →
  o ≠ Skip ∧ (background w = None → background w' = None) ∧
  (Forall (λ t, t < next_task w) (live w) → Forall (λ t, t < next_task w) (live w')).
Proof.
  unfold run_one. destruct top_module as [|e]; [|intros; by simplify_eq/=].
  destruct (body reg seed _) as [[w1 r] tf]. simpl.
  assert (Forall (λ t, t < next_task w) (filter (λ t, t < next_task w) (live w1))) as Hf
    by (apply Forall_forall; intros t Ht; by apply list_elem_of_filter in Ht as [? _]).
  destruct (timeout reg) as [[n u]|].
  - destruct (Time.from_unit prec n u) as [d|m]; [|done]. destruct (Time.timer_new d) as [t|m]; [|done].
    intros; simplify_eq/=. split; [|done]. apply score_never_skip.
  - intros; simplify_eq/=. split; [|done]. apply score_never_skip.
Qed.

(** C34: a test does not inherit what earlier tests left: its outcome, and what
    it leaves in turn, do not depend on the configuration entries, the tracing
    or build flags or the logging configuration before it, and its task starts
    outside the read-only phase; and when it has ended, none of its tasks is
    alive and no background failure is left to the next test, if none was
    before. *)
Theorem test_isolation reg seed (w1 w2 : @World Any Seq) :
  seq_overrides w1 = seq_overrides w2 → seq_seed w1 = seq_seed w2 → background w1 = background w2 →
  phase w1 = phase w2 → next_task w1 = next_task w2 → live w1 = live w2 →
  run_one prec top_module body reg seed w1 = run_one prec top_module body reg seed w2 ∧
  phase (spawn (clean (leave_read_only w1))) ≠ PhaseHub.ReadOnly ∧
  (∀ w' o, Forall (λ t, t < next_task w1) (live w1) → background w1 = None →
     run_one prec top_module body reg seed w1 = Done (w', o) →
     background w' = None ∧ Forall (λ t, t < next_task w1) (live w')).
Proof.
  intros Ho Hs Hb Hp Hn Hl. split_and_all.
  - unfold run_one. replace (clean (leave_read_only w2)) with (clean (leave_read_only w1)); [done|].
    unfold clean, leave_read_only. simpl. by rewrite Ho, Hs, Hb, Hp, Hn, Hl.
  - simpl. by case_decide.
  - intros w' o Hlive Hnb Hr. destruct (run_one_outcome _ _ _ _ _ Hr) as (_ & Hbg & Hli). auto.
Qed.

(** *** What a regression comes to *)

(** A timeout the simulator cannot wait for. *)
Definition bad_timeout (t : TestRegistration) : Prop :=
  ∃ n u, timeout t = Some (n, u) ∧ match Time.from_unit prec n u with Panic _ => True | Done d => ∃ m, Time.timer_new d = Panic m end.

(** What awaiting the task gave, if the body came to [r] and its timer would
    have fired first when [timer_first]. *)
Definition raced (t : TestRegistration) (r : Result (Result unit TestError) string) (timer_first : bool) : Raw :=
  if timeout t then if timer_first then None else Some r else Some r.

(** The tests [ts] from number [i] on, one after the other from the world [w]:
    a test marked so is skipped; without a design every test fails; any other
    test's task runs, in the cleaned world and with its own seed, and passes
    exactly if it did what it declares.  The next test starts from the world
    it left, without its tasks and its background failure. *)
Inductive history (seed : Z) : Z → @World Any Seq → list TestRegistration → list TestResult → Prop :=
  | h_nil i w : history seed i w [] []
  | h_skip i w t ts r rs :
      skip t = true → r_name r = name t → outcome r = Skip → history seed (i + 1) w ts rs →
      history seed i w (t :: ts) (r :: rs)
  | h_no_design i w t ts r rs e :
      skip t = false → top_module = Err e → r_name r = name t → outcome r = fail ("no DUT: " +:+ e) →
      history seed (i + 1) (clean (leave_read_only w)) ts rs → history seed i w (t :: ts) (r :: rs)
  | h_run i w t ts r rs w1 res timer_first w2 :
      skip t = false → top_module = Ok tt → ¬ bad_timeout t →
      body t (wrap 64 (seed + i)) (spawn (clean (leave_read_only w))) = (w1, res, timer_first) →
      r_name r = name t → outcome r ≠ Skip →
      (outcome r = Pass ↔ as_declared t (raced t res timer_first) (background w1)) →
      (expect_error t = None → expect_fail t = false → ∀ e, raced t res timer_first = Some (Ok (Err e)) → outcome r = Fail (msg e) (kind e)) →
      w2 = {| db := db w1; log := log w1; seq_overrides := seq_overrides w1; seq_seed := seq_seed w1; background := None;
              phase := phase w1; next_task := next_task w1; live := filter (λ x, x < next_task w) (live w1) |} →
      history seed (i + 1) w2 ts rs → history seed i w (t :: ts) (r :: rs).

Lemma score_keeps_error t e bg :
  expect_error t = None → expect_fail t = false → score t (Some (Ok (Err e))) bg = Fail (msg e) (kind e).
Proof.
  intros He Hf. unfold score, expectation. rewrite He, Hf. unfold with_background, raw_outcome.
  destruct bg; [|done]. by case_decide.
Qed.

(** One test that is not skipped. *)
Lemma run_one_history seed t w :
  match run_one prec top_module body t seed w with
  | Panic _ => top_module = Ok tt ∧ bad_timeout t
  | Done (w2, o) =>
      (∃ e, top_module = Err e ∧ o = fail ("no DUT: " +:+ e) ∧ w2 = clean (leave_read_only w)) ∨
      (∃ w1 res timer_first, top_module = Ok tt ∧ ¬ bad_timeout t ∧
         body t seed (spawn (clean (leave_read_only w))) = (w1, res, timer_first) ∧
         o = score t (raced t res timer_first) (background w1) ∧
         w2 = {| db := db w1; log := log w1; seq_overrides := seq_overrides w1; seq_seed := seq_seed w1; background := None;
                 phase := phase w1; next_task := next_task w1; live := filter (λ x, x < next_task w) (live w1) |})
  end.
Proof.
  unfold run_one. destruct top_module as [[]|e]; [|left; by exists e].
  destruct (body t seed _) as [[w1 res] tf] eqn:Eb. unfold bad_timeout, raced.
  destruct (timeout t) as [[n u]|] eqn:Et; simpl.
  - destruct (Time.from_unit prec n u) as [d|m] eqn:Ed; [|split; [done|]; exists n, u; by rewrite Ed].
    destruct (Time.timer_new d) as [x|m] eqn:Ex; [|split; [done|]; exists n, u; rewrite Ed; by eauto].
    right. exists w1, res, tf. split_and!; try done. intros (n' & u' & [= <- <-] & Hbad). rewrite Ed in Hbad.
    destruct Hbad as [m Hm]. by rewrite Ex in Hm.
  - right. exists w1, res, tf. split_and!; try done. by intros (n' & u' & ? & _).
Qed.

Lemma run_tests_history i seed tests w :
  match run_tests prec top_module body show_ns i seed tests w with
  | Panic _ => ∃ t, t ∈ tests ∧ skip t = false ∧ bad_timeout t
  | Done (_, rs) => history seed i w tests rs
  end.
Proof.
  revert i w. induction tests as [|t tests IH]; intros i w; cbn [run_tests]; [constructor|].
  destruct (skip t) eqn:Es.
  - specialize (IH (i + 1)%Z w). destruct (run_tests _ _ _ _ _ _ tests w) as [[w1 rs]|].
    + by constructor.
    + destruct IH as (x & Hx & ?). exists x. split; [by right|done].
  - pose proof (run_one_history (wrap 64 (seed + i)) t w) as Hone.
    destruct (run_one _ _ _ t _ w) as [[w2 o]|]; [|exists t; split; [by left|by destruct Hone]].
    specialize (IH (i + 1)%Z w2). destruct (run_tests _ _ _ _ _ _ tests w2) as [[w3 rs]|].
    + destruct Hone as [(e & ? & ? & ->)|(w1 & res & tf & ? & ? & ? & -> & ->)]; [by eapply h_no_design|].
      eapply h_run; eauto; [apply score_never_skip|apply score_passes|]. intros He Hf e Hraw. cbn [outcome]. rewrite Hraw.
      by apply score_keeps_error.
    + destruct IH as (x & Hx & ?). exists x. split; [by right|done].
Qed.

Lemma failed_spec rs : failed rs = true ↔ ∃ r m k, r ∈ rs ∧ outcome r = Fail m k.
Proof.
  unfold failed. rewrite existsb_exists. split.
  - intros (r & Hr & Ho). apply list_elem_of_In in Hr. destruct (outcome r) eqn:E; [done| |done]. eauto 10.
  - intros (r & m & k & Hr & Ho). exists r. split; [by apply list_elem_of_In|]. by rewrite Ho.
Qed.

(** What the filter keeps, or that it matches nothing. *)
Lemma filter_selects env tests :
  match apply_testcase_filter env tests with
  | Err _ => ∃ raw, env = Some raw ∧ patterns raw ≠ [] ∧ Forall (λ t, selected (patterns raw) t = false) tests
  | Ok kept => kept = match env with
      | Some raw => if decide (patterns raw = []) then tests else filter (λ t, selected (patterns raw) t = true) tests
      | None => tests
      end
  end.
Proof.
  unfold apply_testcase_filter. destruct env as [raw|]; [|done]. destruct (patterns raw) as [|p ps] eqn:Ep; [done|].
  destruct (filter _ _) as [|t ts] eqn:Ek; [|by rewrite decide_False].
  exists raw. rewrite Ep. split_and!; [done..|]. apply Forall_forall. intros t Ht. apply not_true_is_false. intros Hs.
  assert (t ∈ filter (λ t, selected (p :: ps) t = true) tests) as Hin by (by apply list_elem_of_filter).
  rewrite Ek in Hin. by apply not_elem_of_nil in Hin.
Qed.

(** C33: the regression runs the tests in the order of file and line, those
    its filter selects: exactly the ones whose names contain one of its patterns,
    case ignored.  It reports every selected test exactly once, in that order:
    a test marked so as skipped, and every other with the outcome its own run
    came to, a pass exactly when it did what it declares ([history]); it is a
    failure exactly when a test failed.  A filter that selects no test is a
    failure and not an empty pass.  It always comes to a report, except that a
    test with a timeout the simulator cannot wait for panics it. *)
Theorem regression_report env slice seed (w : @World Any Seq) :
  collect_tests slice ≡ₚ slice ∧ in_order (λ a b, reg_cmp a b ≠ Gt) (collect_tests slice) ∧
  match regression prec top_module body show_ns env slice seed w with
  | Panic _ => ∃ t, t ∈ slice ∧ skip t = false ∧ bad_timeout t
  | Done (v, rs) =>
      match apply_testcase_filter env (collect_tests slice) with
      | Err _ => v = REGRESSION_FAIL ∧ rs = [] ∧
          ∃ raw, env = Some raw ∧ patterns raw ≠ [] ∧ Forall (λ t, selected (patterns raw) t = false) slice
      | Ok tests =>
          tests = match env with
            | Some raw => if decide (patterns raw = []) then collect_tests slice
                          else filter (λ t, selected (patterns raw) t = true) (collect_tests slice)
            | None => collect_tests slice
            end ∧
          history seed 0 w tests rs ∧
          (v = REGRESSION_FAIL ↔ ∃ r m k, r ∈ rs ∧ outcome r = Fail m k)
      end
  end.
Proof.
  assert (collect_tests slice ≡ₚ slice) as Hp by apply sort_by_perm.
  split; [done|]. split; [apply sort_in_order, reg_cmp_opp|].
  unfold regression. pose proof (filter_selects env (collect_tests slice)) as Hf.
  destruct (apply_testcase_filter env (collect_tests slice)) as [tests|e].
  - pose proof (run_tests_history 0 seed tests w) as Hh. destruct (run_tests _ _ _ _ _ _ tests w) as [[w' rs]|].
    + split_and!; [done|done|]. rewrite <- failed_spec. by destruct (failed rs).
    + destruct Hh as (t & Ht & Hb). exists t. split; [|done]. rewrite <- Hp. rewrite Hf in Ht.
      destruct env as [raw|]; [|done]. case_decide; [done|]. by apply list_elem_of_filter in Ht as [_ ?].
  - split_and!; [done|done|]. destruct Hf as (raw & He & Hr & Hall). exists raw. by rewrite <- Hp.
Qed.
End RunnerTheorems.

End Runner.

Module RunnerWitnesses.
Import Runner Component.

Definition reg (n : string) (l : nat) : TestRegistration :=
  {| name := n; module_ := "m"; file := "t.rs"; line := l; timeout := Some (100, "us"%string)%Z; skip := false;
     expect_fail := false; expect_error := None |}.
Definition World0 := @World unit nat.
Definition fresh_world : World0 :=
  {| db := Config.initial; log := Log.initial; seq_overrides := ∅; seq_seed := 1; background := None;
     phase := PhaseHub.Normal; next_task := 1; live := [0] |}.

(** The test "swaps" installs a sequence override; the test "plain" creates a
    sequence and fails unless it is the default one; the test "seeded" fails
    unless its sequences' seed is the seed it was given. *)
Definition body (r : TestRegistration) (seed : Z) (w : World0) : World0 * Result (Result unit TestError) string * bool :=
  if decide (name r = "swaps"%string) then
    ({| db := db w; log := log w; seq_overrides := Overrides.set_seq_override "Base" "Other" 7 (seq_overrides w);
        seq_seed := seq_seed w; background := background w; phase := phase w; next_task := next_task w; live := live w |},
     Ok (Ok tt), false)
  else if decide (name r = "plain"%string) then
    (w, Ok (match Overrides.get (Overrides.create_seq "Base" 0 (seq_overrides w)) with
            | Ok 0 => Ok tt | _ => Err (te_new "not the default sequence") end), false)
  else (w, Ok (if decide (seq_seed w = seed) then Ok tt else Err (te_new "another seed")), false).

Definition regress (ts : list TestRegistration) (seed : Z) : Exec (Verdict * list TestResult) :=
  regression (-12) (Ok tt) body (λ _, "0.00"%string) None ts seed fresh_world.
Definition verdict_of (r : Exec (Verdict * list TestResult)) : option Verdict :=
  match r with Done (v, _) => Some v | Panic _ => None end.

(** The state sequences keep is not reset between tests: a sequence
    override installed by one test is still in force in the next, which passes
    alone and fails after it, and the seed a sequence draws from is not the
    seed of its test. *)
Theorem sequence_state_not_reset :
  verdict_of (regress [reg "plain" 2] 5) = Some REGRESSION_PASS ∧
  verdict_of (regress [reg "swaps" 1; reg "plain" 2] 5) = Some REGRESSION_FAIL ∧
  verdict_of (regress [reg "seeded" 1] 5) = Some REGRESSION_FAIL ∧
  (∀ (w : World0), seq_overrides (clean w) = seq_overrides w ∧ seq_seed (clean w) = seq_seed w).
Proof. split_and_all; [vm_compute; reflexivity..|done]. Qed.

(** An ampersand reaches the report's attribute as it is. *)
Lemma sanitize_keeps_ampersand : sanitize "a & b" = "a & b"%string.
Proof. vm_compute. reflexivity. Qed.

Definition other_world : World0 :=
  {| db := Config.set_tracing true Config.initial; log := Log.set_level Log.Critical Log.initial;
     seq_overrides := ∅; seq_seed := 1; background := None; phase := PhaseHub.Normal; next_task := 1; live := [0] |}.

Lemma test_isolation_witness :
  fresh_world ≠ other_world ∧
  run_one (-12) (Ok tt) body (reg "plain" 2) 5 fresh_world = run_one (-12) (Ok tt) body (reg "plain" 2) 5 other_world.
Proof.
  split; [discriminate|]. exact (proj1 (test_isolation (-12) (Ok tt) body (reg "plain" 2) 5 fresh_world other_world
    eq_refl eq_refl eq_refl eq_refl eq_refl eq_refl)).
Defined.

End RunnerWitnesses.
