(* ===== verification/Callback.v ===== *)
(** * Callback: registration, firing and release of simulator callbacks
    (rustdv-gpi/src/rustdv_gpi.rs, the unsafe part).

    A [CbShared] cell is reference counted by hand: the [CallbackHandle] owns
    one reference, the simulator's user data another until the callback is
    released, and a running trampoline one for its duration.  The model counts
    the references and marks a cell freed when the count reaches zero, so using
    a freed cell, dropping a reference that is not there and removing a callback
    that is not registered are observable as [UB].  A closure is what it does: a
    list of operations, callbacks fired by its writes included, so calls nest.
    A panic outside [catch_unwind] cannot leave an [extern "C"] function and
    aborts the process. *)
From S2P Require Import Prelude.

Module Callback.

Inductive CbKind := OneShot | Recurring.

Record CbShared := {
  kind : CbKind;
  registered : bool;          (* the simulator holds the registration *)
  released : bool;
  once : bool;                (* the FnOnce has not been taken *)
  borrowed : bool;            (* the FnMut is mutably borrowed *)
  strong : nat;
  freed : bool;
  handle : bool;              (* the CallbackHandle is alive *)
  detached : bool;            (* it was forgotten *)
  active : nat;               (* trampolines running on this cell *)
  runs : nat;                 (* times its closure was called *)
}.

Notation Cells := (gmap nat CbShared).

Inductive Out := Fine (m : Cells) | UB | Abort.

Definition bind_out (o : Out) (k : Cells → Out) : Out := match o with Fine m => k m | UB => UB | Abort => Abort end.

(** Update one cell; [None] is undefined behaviour. *)
Definition on_cell (id : nat) (f : CbShared → option CbShared) (m : Cells) : Out :=
  match m !! id with
  | Some c => match f c with Some c' => Fine (<[id := c']> m) | None => UB end
  | None => UB
  end.

(** Every access goes through a live allocation. *)
Definition live_cell (f : CbShared → option CbShared) (c : CbShared) : option CbShared :=
  if freed c then None else f c.

Definition set_strong (n : nat) (c : CbShared) : CbShared :=
  Build_CbShared (kind c) (registered c) (released c) (once c) (borrowed c) n (bool_decide (n = 0)) (handle c)
    (detached c) (active c) (runs c).
Definition incr (c : CbShared) : option CbShared := Some (set_strong (S (strong c)) c).
(** Dropping an [Rc]. *)
Definition decr (c : CbShared) : option CbShared :=
  match strong c with 0 => None | S n => Some (set_strong n c) end.
Definition remove_cb (c : CbShared) : option CbShared :=
  if registered c then
    Some (Build_CbShared (kind c) false (released c) (once c) (borrowed c) (strong c) (freed c) (handle c)
      (detached c) (active c) (runs c))
  else None.
Definition set_released (c : CbShared) : option CbShared :=
  Some (Build_CbShared (kind c) (registered c) true (once c) (borrowed c) (strong c) (freed c) (handle c)
    (detached c) (active c) (runs c)).
Definition take_once (c : CbShared) : option CbShared :=
  Some (Build_CbShared (kind c) (registered c) (released c) false (borrowed c) (strong c) (freed c) (handle c)
    (detached c) (active c) (if once c then S (runs c) else runs c)).
Definition set_borrowed (b : bool) (c : CbShared) : option CbShared :=
  Some (Build_CbShared (kind c) (registered c) (released c) (once c) b (strong c) (freed c) (handle c)
    (detached c) (active c) (if b then S (runs c) else runs c)).
Definition enter (c : CbShared) : option CbShared :=
  Some (Build_CbShared (kind c) (registered c) (released c) (once c) (borrowed c) (strong c) (freed c) (handle c)
    (detached c) (S (active c)) (runs c)).
Definition leave (c : CbShared) : option CbShared :=
  Some (Build_CbShared (kind c) (registered c) (released c) (once c) (borrowed c) (strong c) (freed c) (handle c)
    (detached c) (active c - 1) (runs c)).
Definition drop_owner (forget : bool) (c : CbShared) : option CbShared :=
  Some (Build_CbShared (kind c) (registered c) (released c) (once c) (borrowed c) (strong c) (freed c) false
    forget (active c) (runs c)).

Definition then_ (f g : CbShared → option CbShared) (c : CbShared) : option CbShared := f c ≫= g.
Local Infix ">>>" := then_ (at level 60, right associativity).

(** ** The functions *)

(** [register]: the handle's reference and the C-side one. *)
Definition register (k : CbKind) (m : Cells) : Cells :=
  <[fresh (dom m) := Build_CbShared k true false (match k with OneShot => true | Recurring => false end)
      false 2 false true false 0 0]> m.

(** [Drop for CallbackHandle], then its [Rc] field. *)
Definition drop_handle (c : CbShared) : option CbShared :=
  (live_cell (if released c then Some else set_released >>> remove_cb >>> decr) >>> live_cell decr
   >>> drop_owner false) c.

(** [forget]: detached, so only the field is dropped. *)
Definition forget (c : CbShared) : option CbShared := (live_cell decr >>> drop_owner true) c.

(** The trampoline up to the call of a one-shot closure, and after it. *)
Definition fire_once (c : CbShared) : option CbShared :=
  (live_cell incr >>> enter >>>
   (if released c then Some else set_released >>> take_once >>> remove_cb >>> decr)) c.
Definition fire_repeat (c : CbShared) : option CbShared := (live_cell incr >>> enter >>> set_borrowed true) c.
Definition exit (c : CbShared) : option CbShared := (live_cell leave >>> decr) c.
Definition exit_repeat (c : CbShared) : option CbShared := (live_cell (set_borrowed false) >>> exit) c.

Inductive Op := ORegister (k : CbKind) | ODrop (id : nat) | OForget (id : nat) | OFire (id : nat) (closure : list Op).

(** The simulator fires registered callbacks only; a handle is dropped once. *)
Fixpoint exec (o : Op) (m : Cells) {struct o} : Out :=
  let run := fix run (os : list Op) (m : Cells) : Out :=
    match os with [] => Fine m | o :: r => bind_out (exec o m) (run r) end in
  match o with
  | ORegister k => Fine (register k m)
  | ODrop id =>
      match m !! id with
      | Some c => if handle c then on_cell id drop_handle m else Fine m
      | None => Fine m
      end
  | OForget id =>
      match m !! id with
      | Some c => if handle c then on_cell id forget m else Fine m
      | None => Fine m
      end
  | OFire id closure =>
      match m !! id with
      | Some c =>
          if negb (registered c) then Fine m
          else match kind c with
            | OneShot =>
                bind_out (on_cell id fire_once m) (λ m1,
                bind_out (if released c then Fine m1 else run closure m1) (λ m2, on_cell id exit m2))
            | Recurring =>
                if freed c then UB
                else if borrowed c then Abort         (* [repeat.borrow_mut()] panics *)
                else
                  bind_out (on_cell id fire_repeat m) (λ m1,
                  bind_out (run closure m1) (λ m2, on_cell id exit_repeat m2))
            end
      | None => Fine m
      end
  end.
Fixpoint run (os : list Op) (m : Cells) : Out :=
  match os with [] => Fine m | o :: r => bind_out (exec o m) (run r) end.

(** ** The invariant of a cell *)

Definition b2n (b : bool) : nat := if b then 1 else 0.

Record cell_ok (c : CbShared) : Prop := {
  ok_count : strong c = b2n (handle c) + b2n (negb (released c)) + active c;
  ok_freed : freed c = bool_decide (strong c = 0);
  ok_reg : registered c = negb (released c);
  ok_once : kind c = OneShot → runs c ≤ 1 ∧ (released c = false → once c = true ∧ runs c = 0);
  ok_kept : handle c = false → detached c = false → released c = true;
  ok_borrow : kind c = Recurring → borrowed c = bool_decide (active c ≠ 0);
}.

Definition ok (m : Cells) : Prop := map_Forall (λ _, cell_ok) m.

(** What the running frames rely on: cells persist with their active counts,
    and a cell made meanwhile is left by every frame that entered it. *)
Definition frames_kept (m m' : Cells) : Prop :=
  (∀ id c, m !! id = Some c → ∃ c', m' !! id = Some c' ∧ active c' = active c ∧ kind c' = kind c) ∧
  (∀ id c', m' !! id = Some c' → m !! id = None → active c' = 0).

#[local] Instance frames_kept_preorder : PreOrder frames_kept.
Proof.
  split.
  - intros m. split; [eauto|]. intros id c' ??. by simplify_eq.
  - intros m1 m2 m3 [H12 N12] [H23 N23]. split.
    + intros id c Hc. destruct (H12 _ _ Hc) as (c2 & Hc2 & Ha & Hk).
      destruct (H23 _ _ Hc2) as (c3 & Hc3 & Ha' & Hk'). exists c3. split_and_all; [done|congruence..].
    + intros id c3 Hc3 H1. destruct (m2 !! id) as [c2|] eqn:E2; [|eauto].
      destruct (H23 _ _ E2) as (c & ? & ? & ?). simplify_eq. rewrite (N12 _ _ E2 H1) in *. done.
Qed.

Ltac open_cell c :=
  destruct c as [k reg rel on bo st fr ha de ac ru];
  unfold drop_handle, forget, fire_once, fire_repeat, exit_repeat, exit, then_, live_cell, set_released, remove_cb, decr, incr,
    enter, leave, take_once, set_borrowed, drop_owner, set_strong, mbind, option_bind in *;
  match goal with H : cell_ok _ |- _ => destruct H; simpl in *; simplify_eq end.
(** The result is computed; its invariant is arithmetic. *)
Ltac close_cell :=
  simpl; try (eexists; split; [reflexivity|]); simpl; split_and?; try done;
  try (constructor; simpl; naive_solver lia).

(** Dropping a live handle. *)
Lemma drop_handle_ok c : cell_ok c → handle c = true →
  ∃ c', drop_handle c = Some c' ∧ cell_ok c' ∧ active c' = active c ∧ kind c' = kind c ∧ registered c' = false.
Proof. intros Hok Hh. open_cell c. destruct rel; close_cell. Qed.

Lemma forget_ok c : cell_ok c → handle c = true →
  ∃ c', forget c = Some c' ∧ cell_ok c' ∧ active c' = active c ∧ kind c' = kind c.
Proof. intros Hok Hh. open_cell c. close_cell. Qed.

(** Entering and leaving the trampoline. *)
Lemma fire_once_ok c : cell_ok c → registered c = true → kind c = OneShot →
  ∃ c', fire_once c = Some c' ∧ cell_ok c' ∧ active c' = S (active c) ∧ kind c' = kind c.
Proof.
  intros Hok Hr Hk. open_cell c. destruct rel; [done|]. destruct (ok_once0 eq_refl) as [_ [-> ->]]; [done|].
  destruct ha; close_cell.
Qed.

Lemma fire_repeat_ok c : cell_ok c → registered c = true → kind c = Recurring →
  freed c = false ∧ ∃ c', fire_repeat c = Some c' ∧ cell_ok c' ∧ active c' = S (active c) ∧ kind c' = kind c.
Proof.
  intros Hok Hr Hk. open_cell c. destruct rel; [done|]. split; [apply bool_decide_eq_false_2; simpl; lia|].
  destruct ha; close_cell.
Qed.

(** Ending the borrow of a recurring closure and dropping the trampoline's own
    reference. *)
Lemma exit_once_ok c : cell_ok c → 0 < active c → kind c = OneShot →
  ∃ c', exit c = Some c' ∧ cell_ok c' ∧ active c' = active c - 1 ∧ kind c' = kind c.
Proof.
  intros Hok Ha Hk. open_cell c. destruct ac as [|ac]; [lia|]. destruct ha, rel; close_cell.
Qed.

Lemma exit_repeat_ok c : cell_ok c → active c = 1 → kind c = Recurring →
  ∃ c', exit_repeat c = Some c' ∧ cell_ok c' ∧ active c' = 0 ∧ kind c' = kind c.
Proof.
  intros Hok Ha Hk. open_cell c. destruct ha, rel; close_cell.
Qed.

Lemma on_cell_ok id f m c c' : ok m → m !! id = Some c → f c = Some c' → cell_ok c' →
  on_cell id f m = Fine (<[id := c']> m) ∧ ok (<[id := c']> m).
Proof.
  intros Hm Hc Hf Hok. unfold on_cell. rewrite Hc, Hf. split; [done|]. by apply map_Forall_insert_2.
Qed.

Lemma insert_frames id c c' m :
  m !! id = Some c → active c' = active c → kind c' = kind c → frames_kept m (<[id := c']> m).
Proof.
  intros Hc Ha Hk. split; intros id' c0; (destruct (decide (id' = id)) as [->|Hn];
    [rewrite ?lookup_insert_eq|rewrite ?lookup_insert_ne by done]); naive_solver.
Qed.

(** The frame that entered a cell finds it again, and leaves it as it was. *)
Lemma enter_frames id c c1 m m2 :
  m !! id = Some c → active c1 = S (active c) → kind c1 = kind c → frames_kept (<[id := c1]> m) m2 →
  ∃ c2, m2 !! id = Some c2 ∧ active c2 = S (active c) ∧ kind c2 = kind c.
Proof.
  intros Hc Ha1 Hk1 [Hf _]. destruct (Hf id c1) as (c' & Hc' & Ha' & Hk'); [by rewrite lookup_insert_eq|].
  exists c'. split_and!; [done|congruence..].
Qed.

Lemma leave_frames id c c1 c3 m m2 :
  m !! id = Some c → frames_kept (<[id := c1]> m) m2 → active c3 = active c → kind c3 = kind c →
  frames_kept m (<[id := c3]> m2).
Proof.
  intros Hc [Hf Hn] Ha3 Hk3. split; intros id' c0; (destruct (decide (id' = id)) as [->|Hne];
    [rewrite ?lookup_insert_eq; naive_solver|rewrite ?lookup_insert_ne by done]).
  - intros H0. apply Hf. by rewrite lookup_insert_ne.
  - intros H0 H1. apply (Hn id' c0 H0). by rewrite lookup_insert_ne.
Qed.

(** ** Every program of operations *)

(** No closure, however deep, makes the simulator fire a callback it runs in. *)
Fixpoint no_reentry (path : list nat) (o : Op) {struct o} : bool :=
  match o with
  | OFire id closure => bool_decide (id ∉ path) && forallb (no_reentry (id :: path)) closure
  | _ => true
  end.

Definition within (path : list nat) (m : Cells) : Prop :=
  ∀ id c, m !! id = Some c → active c ≠ 0 → id ∈ path.

Definition good (m : Cells) (safe : bool) (o : Out) : Prop :=
  match o with UB => False | Abort => safe = false | Fine m' => ok m' ∧ frames_kept m m' end.

Lemma within_frames path m m' : within path m → frames_kept m m' → within path m'.
Proof.
  intros Hw [Hf Hn] id c' Hc' Ha. destruct (m !! id) as [c|] eqn:E.
  - destruct (Hf _ _ E) as (c2 & ? & Heq & _). simplify_eq. apply (Hw id c E). lia.
  - by rewrite (Hn _ _ Hc' E) in Ha.
Qed.

Lemma within_enter path id c1 m : within path m → within (id :: path) (<[id := c1]> m).
Proof.
  intros Hw id' c'. destruct (decide (id' = id)) as [->|Hn]; [set_solver|].
  rewrite lookup_insert_ne by done. intros Hc Ha. apply list_elem_of_further. by eapply Hw.
Qed.

Lemma Op_rect_nested (P : Op → Prop) :
  (∀ k, P (ORegister k)) → (∀ id, P (ODrop id)) → (∀ id, P (OForget id)) →
  (∀ id cl, Forall P cl → P (OFire id cl)) → ∀ o, P o.
Proof.
  intros H1 H2 H3 H4. fix IH 1. intros [k|id|id|id cl]; [apply H1|apply H2|apply H3|]. apply H4.
  induction cl as [|o cl IHcl]; constructor; [apply IH|apply IHcl].
Qed.

Lemma run_good cl path m :
  Forall (λ o, ∀ path m, ok m → within path m → good m (no_reentry path o) (exec o m)) cl →
  ok m → within path m → good m (forallb (no_reentry path) cl) (run cl m).
Proof.
  intros Hcl. revert m. induction Hcl as [|o cl Ho Hcl IH]; intros m Hm Hw; simpl; [split; [done|reflexivity]|].
  specialize (Ho path m Hm Hw). destruct (exec o m) as [m1| |]; simpl in *; [|done|by rewrite Ho].
  destruct Ho as [Hm1 Hf1]. specialize (IH m1 Hm1 (within_frames _ _ _ Hw Hf1)).
  destruct (run cl m1) as [m2| |]; simpl in *; [|done|by rewrite IH, andb_false_r].
  destruct IH as [Hm2 Hf2]. split; [done|]. by etrans.
Qed.

Lemma register_good k m : ok m → ok (register k m) ∧ frames_kept m (register k m).
Proof.
  intros Hm. unfold register. assert (m !! fresh (dom m) = None) as Hf by (apply not_elem_of_dom, is_fresh).
  split; [apply map_Forall_insert_2; [|done]; destruct k; constructor; simpl; naive_solver|].
  split; intros id c; (destruct (decide (id = fresh (dom m))) as [->|Hn];
    [rewrite ?lookup_insert_eq|rewrite ?lookup_insert_ne by done]); naive_solver.
Qed.

Lemma fire_eq id cl m : exec (OFire id cl) m =
  match m !! id with
  | Some c =>
      if negb (registered c) then Fine m
      else match kind c with
        | OneShot =>
            bind_out (on_cell id fire_once m) (λ m1,
            bind_out (if released c then Fine m1 else run cl m1) (λ m2, on_cell id exit m2))
        | Recurring =>
            if freed c then UB else if borrowed c then Abort
            else bind_out (on_cell id fire_repeat m) (λ m1, bind_out (run cl m1) (λ m2, on_cell id exit_repeat m2))
        end
  | None => Fine m
  end.
Proof. reflexivity. Qed.

(** A frame around a closure: it enters the cell, runs, and leaves it. *)
Lemma frame_good id c c1 cl path m f (leave_cell : CbShared → option CbShared) :
  Forall (λ o, ∀ path m, ok m → within path m → good m (no_reentry path o) (exec o m)) cl →
  ok m → within path m → m !! id = Some c →
  f c = Some c1 → cell_ok c1 → active c1 = S (active c) → kind c1 = kind c →
  (∀ c2, cell_ok c2 → active c2 = S (active c) → kind c2 = kind c →
     ∃ c3, leave_cell c2 = Some c3 ∧ cell_ok c3 ∧ active c3 = active c ∧ kind c3 = kind c) →
  good m (forallb (no_reentry (id :: path)) cl)
    (bind_out (on_cell id f m) (λ m1, bind_out (run cl m1) (λ m2, on_cell id leave_cell m2))).
Proof.
  intros Hcl Hm Hw Hc Hf Hok1 Ha1 Hk1 Hleave. destruct (on_cell_ok id f m c c1 Hm Hc Hf Hok1) as [-> Hm1]. simpl.
  pose proof (run_good cl (id :: path) _ Hcl Hm1 (within_enter path id c1 m Hw)) as Hrun.
  destruct (run cl _) as [m2| |]; simpl in *; [|done..]. destruct Hrun as [Hm2 Hf2].
  destruct (enter_frames id c c1 m m2) as (c2 & Hc2 & Ha2 & Hk2); try done.
  destruct (Hleave c2 (Hm2 id c2 Hc2) Ha2 Hk2) as (c3 & He3 & Hok3 & Ha3 & Hk3).
  destruct (on_cell_ok id leave_cell m2 c2 c3 Hm2 Hc2 He3 Hok3) as [-> Hm3]. split; [done|].
  by apply (leave_frames id c c1).
Qed.

Lemma good_weaken m (b safe : bool) o : good m safe o → good m (b && safe) o.
Proof. destruct o; simpl; [done..|]. intros ->. apply andb_false_r. Qed.

Lemma fire_good id cl path m :
  Forall (λ o, ∀ path m, ok m → within path m → good m (no_reentry path o) (exec o m)) cl →
  ok m → within path m → good m (no_reentry path (OFire id cl)) (exec (OFire id cl) m).
Proof.
  intros Hcl Hm Hw. rewrite fire_eq. destruct (m !! id) as [c|] eqn:Hc; [|by split].
  pose proof (Hm id c Hc) as Hok. destruct (registered c) eqn:Hr; simpl; [|by split].
  destruct (kind c) eqn:Hk.
  - assert (released c = false) as -> by (pose proof (ok_reg c Hok) as Hreg; rewrite Hr in Hreg; by destruct (released c)).
    destruct (fire_once_ok c Hok Hr Hk) as (c1 & Hf1 & Hok1 & Ha1 & Hk1).
    assert (good m (forallb (no_reentry (id :: path)) cl)
      (bind_out (on_cell id fire_once m) (λ m1, bind_out (run cl m1) (λ m2, on_cell id exit m2)))) as Hg.
    { apply (frame_good id c c1); try done. intros c2 Hok2 Ha2 Hk2.
      destruct (exit_once_ok c2 Hok2) as (c3 & ? & ? & ? & ?); [lia|congruence|].
      exists c3. split_and!; [done..|lia|congruence]. }
    apply (good_weaken _ _ _ _ Hg).
  - destruct (fire_repeat_ok c Hok Hr Hk) as (-> & c1 & Hf1 & Hok1 & Ha1 & Hk1).
    rewrite (ok_borrow c Hok Hk). destruct (bool_decide_reflect (active c ≠ 0)) as [Ha|Ha].
    + apply andb_false_intro1, bool_decide_eq_false_2. intros Hp. by apply Hp, (Hw id c).
    + assert (active c = 0) as Ha0 by lia.
      assert (good m (forallb (no_reentry (id :: path)) cl)
        (bind_out (on_cell id fire_repeat m) (λ m1, bind_out (run cl m1) (λ m2, on_cell id exit_repeat m2)))) as Hg.
      { apply (frame_good id c c1); try done. intros c2 Hok2 Ha2 Hk2.
        destruct (exit_repeat_ok c2 Hok2) as (c3 & ? & ? & ? & ?); [lia|congruence|].
        exists c3. split_and!; [done..|lia|congruence]. }
      apply (good_weaken _ _ _ _ Hg).
Qed.

(** A handle's operation on its own cell. *)
Lemma handle_good id c f path m :
  ok m → m !! id = Some c → (∃ c', f c = Some c' ∧ cell_ok c' ∧ active c' = active c ∧ kind c' = kind c) →
  good m path (on_cell id f m).
Proof.
  intros Hm Hc (c' & Hf & Hok & Ha & Hk). destruct (on_cell_ok id f m c c' Hm Hc Hf Hok) as [-> Hm'].
  split; [done|]. by apply (insert_frames id c).
Qed.

Lemma exec_good o : ∀ path m, ok m → within path m → good m (no_reentry path o) (exec o m).
Proof.
  induction o as [k|id|id|id cl IH] using Op_rect_nested; intros path m Hm Hw.
  - apply register_good, Hm.
  - simpl. destruct (m !! id) as [c|] eqn:Hc; [|by split]. destruct (handle c) eqn:Hh; [|by split].
    apply (handle_good id c); [done..|]. destruct (drop_handle_ok c (Hm id c Hc) Hh) as (c' & ? & ? & ? & ? & ?). eauto.
  - simpl. destruct (m !! id) as [c|] eqn:Hc; [|by split]. destruct (handle c) eqn:Hh; [|by split].
    apply (handle_good id c); [done..|]. apply forget_ok; [by apply (Hm id)|done].
  - by apply fire_good.
Qed.

(** What the program may rely on between two simulator events. *)
Record settled (c : CbShared) : Prop := {
  no_frame : active c = 0;
  freed_exactly : freed c = true ↔ handle c = false ∧ registered c = false;
  runs_once : kind c = OneShot → runs c ≤ 1 ∧ (registered c = true → runs c = 0);
  removed_by_drop : handle c = false → detached c = false → registered c = false;
}.

Lemma cell_settled c : cell_ok c → active c = 0 → settled c.
Proof.
  intros Hok Ha. open_cell c. constructor; simpl; [done| | |].
  - rewrite bool_decide_eq_true. destruct ha, rel; simpl; intuition lia.
  - intros Hk. destruct (ok_once0 Hk) as [? Hu]. split; [done|]. destruct rel; [done|]. intros _. by apply Hu.
  - intros -> ->. by rewrite ok_kept0.
Qed.

(** C7: Whatever is registered, fired, dropped and forgotten, also from inside
    running closures, no freed cell is touched, no reference is dropped twice and
    no unregistered callback is removed.  Between simulator events a cell is freed
    exactly when its handle is gone and the simulator has let go of it, a one-shot
    closure has run at most once (and not yet while it is registered), and a
    dropped handle leaves no registration behind.  The process aborts only when a
    callback is fired while its own closure runs. *)
Theorem callback_safety ops :
  match run ops ∅ with
  | Fine m => map_Forall (λ _, settled) m
  | UB => False
  | Abort => forallb (no_reentry []) ops = false
  end.
Proof.
  assert (within [] ∅) as Hw by (intros id c Hc; by rewrite lookup_empty in Hc).
  pose proof (run_good ops [] ∅ (proj2 (Forall_forall _ ops) (λ o _, exec_good o)) (map_Forall_empty _) Hw) as H.
  destruct (run ops ∅) as [m| |]; simpl in *; [|done..]. destruct H as [Hm Hf]. intros id c Hc.
  apply cell_settled; [by apply (Hm id)|]. pose proof (within_frames _ _ _ Hw Hf) as Hw'.
  destruct (decide (active c = 0)) as [|Ha]; [done|]. by specialize (Hw' id c Hc Ha); apply not_elem_of_nil in Hw'.
Qed.

(** A recurring callback fired from inside its own closure aborts the process,
    whatever the nested closure would do; a one-shot callback does not. *)
Theorem recurring_reentry_aborts cl :
  run [ORegister Recurring; OFire 0 [OFire 0 cl]] ∅ = Abort ∧
  run [ORegister OneShot; OFire 0 [OFire 0 cl]] ∅ = run [ORegister OneShot; OFire 0 []] ∅.
Proof. split; vm_compute; reflexivity. Qed.

End Callback.
