(* ===== verification/Signals.v ===== *)
(** * Signals: reading and writing signals through VPI vector words
    (rustdv-gpi/src/rustdv_gpi.rs, util.rs).

    A handle caches the width of its signal.  The simulator is what it answers
    to [vpi_get_value]: a pointer to vector words, or null; VPI documents that
    it points at [ceil (size / 32)] words.  A write is the list of words handed
    to [vpi_put_value].  Reads are written as the code has them, on the words;
    the theorems relate them to the four-state values of value.rs. *)
From Stdlib Require Import Ascii.
From S2P Require Import Prelude Words Values.
Local Open Scope Z_scope.
Local Open Scope rustdv_scope.

Module Signals.
Import LogicArray.

Record t_vpi_vecval := { aval : Z; bval : Z }.
#[global] Instance t_vpi_vecval_eq_dec : EqDecision t_vpi_vecval.
Proof. solve_decision. Defined.
Definition default_vecval : t_vpi_vecval := {| aval := 0; bval := 0 |}.

(** What [vpi_get_value] gives for one signal: [None] is a null pointer. *)
Abbreviation VpiValue := (option (list t_vpi_vecval)).

Record LogicHandle := { size : nat }.

(** A fallible computation that may also panic. *)
Definition er_bind {A C} (c : Exec (Result A ValueError)) (k : A → Exec (Result C ValueError)) :
  Exec (Result C ValueError) :=
  match c with Done (Ok a) => k a | Done (Err e) => Done (Err e) | Panic m => Panic m end.
Local Notation "x <-? c ;; k" := (er_bind c (λ x, k)) (at level 100, c at next level, right associativity).

(** ** Two-state values as words (util.rs) *)

Definition word (v : Z) : t_vpi_vecval := {| aval := wrap 32 v; bval := 0 |}.
Definition bool_to_vpi_words (v : bool) : list t_vpi_vecval := [word (if v then 1 else 0)].
Definition u8_to_vpi_words (v : Z) : list t_vpi_vecval := [word v].
Definition u16_to_vpi_words (v : Z) : list t_vpi_vecval := [word v].
Definition u32_to_vpi_words (v : Z) : list t_vpi_vecval := [word v].
Definition u64_to_vpi_words (v : Z) : list t_vpi_vecval := [word v; word (Z.shiftr v 32)].
Definition u128_to_vpi_words (v : Z) : list t_vpi_vecval :=
  [word v; word (Z.shiftr v 32); word (Z.shiftr v 64); word (Z.shiftr v 96)].

Section Ops.
Context {B : Type} `{BigUint B}.

(** ** Reads *)

(** [slice::from_raw_parts] takes as many words as the width needs. *)
Definition get_vpi_words (h : LogicHandle) (val : VpiValue) : Result (list t_vpi_vecval) ValueError :=
  match val with
  | None => Err Unavailable
  | Some words => Ok (take (div_ceil (size h) 32) words)
  end.

Definition get_logic (h : LogicHandle) (val : VpiValue) : Exec (Result (LogicArray B) ValueError) :=
  words <-? Done (get_vpi_words h val) ;;
  match from_vpi_words (map (λ w, (aval w, bval w)) words) (size h) with
  | Done v => Done (Ok v)
  | Panic m => Panic m
  end.

Definition get_vpi_word (h : LogicHandle) (val : VpiValue) (w : t_vpi_vecval) (width : nat) (last : bool) :
  Exec (Result Z ValueError) :=
  let used_bits := if last && negb (Nat.eqb (width mod 32) 0) then (width mod 32)%nat else 32%nat in
  let mask := if Nat.eqb used_bits 32 then u32_max else Z.shiftl 1 (Z.of_nat used_bits) - 1 in
  if Z.land (bval w) mask =? 0 then Done (Ok (Z.land (aval w) mask))
  else v <-? get_logic h val ;; Done (Err (FourState (to_binstr v))).

Definition check_size (h : LogicHandle) (want : nat) : Exec (Result unit ValueError) :=
  Done (if Nat.ltb want (size h) then Err (Width (Z.of_nat want) (size h)) else Ok tt).

(** [self.get_vpi_words()?[0]]. *)
Definition first_word (h : LogicHandle) (val : VpiValue) : Exec (Result t_vpi_vecval ValueError) :=
  words <-? Done (get_vpi_words h val) ;;
  match words with w :: _ => Done (Ok w) | [] => Panic "index out of bounds" end.

Definition get_bool (h : LogicHandle) (val : VpiValue) : Exec (Result bool ValueError) :=
  _ <-? check_size h 1 ;; w <-? first_word h val ;; x <-? get_vpi_word h val w (size h) true ;;
  Done (Ok (negb (x =? 0))).
Definition get_u8 (h : LogicHandle) (val : VpiValue) : Exec (Result Z ValueError) :=
  _ <-? check_size h 8 ;; w <-? first_word h val ;; x <-? get_vpi_word h val w (size h) true ;;
  Done (Ok (wrap 8 x)).
Definition get_u16 (h : LogicHandle) (val : VpiValue) : Exec (Result Z ValueError) :=
  _ <-? check_size h 16 ;; w <-? first_word h val ;; x <-? get_vpi_word h val w (size h) true ;;
  Done (Ok (wrap 16 x)).
Definition get_u32 (h : LogicHandle) (val : VpiValue) : Exec (Result Z ValueError) :=
  _ <-? check_size h 32 ;; w <-? first_word h val ;; get_vpi_word h val w (size h) true.

(** The loop over the words of [get_u64], [get_u128] and [get_bigint]. *)
Fixpoint for_words {A} (h : LogicHandle) (val : VpiValue) (total : nat) (step : nat → Z → A → Exec A)
  (index : nat) (words : list t_vpi_vecval) (result : A) : Exec (Result A ValueError) :=
  match words with
  | [] => Done (Ok result)
  | w :: r =>
      x <-? get_vpi_word h val w (size h) (Nat.eqb (index + 1) total) ;;
      match step index x result with
      | Done result' => for_words h val total step (S index) r result'
      | Panic m => Panic m
      end
  end.

(** [result |= (word as uN) << (index * 32)]: the shift is checked. *)
Definition or_shifted (bits : nat) (index : nat) (x result : Z) : Exec Z :=
  if Nat.leb bits (index * 32) then Panic "attempt to shift left with overflow"
  else Done (Z.lor result (wrap (Z.of_nat bits) (Z.shiftl x (Z.of_nat (index * 32))))).

Definition get_u64 (h : LogicHandle) (val : VpiValue) : Exec (Result Z ValueError) :=
  _ <-? check_size h 64 ;; words <-? Done (get_vpi_words h val) ;;
  for_words h val (length words) (or_shifted 64) 0 words 0.
Definition get_u128 (h : LogicHandle) (val : VpiValue) : Exec (Result Z ValueError) :=
  _ <-? check_size h 128 ;; words <-? Done (get_vpi_words h val) ;;
  for_words h val (length words) (or_shifted 128) 0 words 0.
Definition get_bigint (h : LogicHandle) (val : VpiValue) : Exec (Result B ValueError) :=
  words <-? Done (get_vpi_words h val) ;;
  digits <-? for_words h val (length words) (λ _ x ds, Done (ds ++ [x])) 0 words [] ;;
  Done (Ok (bu_from_slice digits)).

(** ** Writes *)

Definition mask_word (mask : Z) (w : t_vpi_vecval) : t_vpi_vecval :=
  {| aval := Z.land (aval w) mask; bval := Z.land (bval w) mask |}.

Definition mask_vector_words (h : LogicHandle) (words : list t_vpi_vecval) : Exec (list t_vpi_vecval) :=
  if Nat.eqb (size h mod 32) 0 then Done words
  else match words with
    | [] => Panic "partial width has a vector word"
    | _ => Done (update_last (mask_word (Z.shiftl 1 (Z.of_nat (size h mod 32)) - 1)) words)
    end.

(** The words given to [vpi_put_value]. *)
Definition set_vector_words (h : LogicHandle) (words : list t_vpi_vecval) : Exec (list t_vpi_vecval) :=
  let word_count := div_ceil (size h) 32 in
  if Nat.eqb (length words) word_count then mask_vector_words h words
  else if Nat.ltb word_count (length words) then mask_vector_words h (take word_count words)
  else Done (words ++ replicate (word_count - length words) default_vecval).

Definition set_bool (h : LogicHandle) (v : bool) := set_vector_words h (bool_to_vpi_words v).
Definition set_u8 (h : LogicHandle) (v : Z) := set_vector_words h (u8_to_vpi_words v).
Definition set_u16 (h : LogicHandle) (v : Z) := set_vector_words h (u16_to_vpi_words v).
Definition set_u32 (h : LogicHandle) (v : Z) := set_vector_words h (u32_to_vpi_words v).
Definition set_u64 (h : LogicHandle) (v : Z) := set_vector_words h (u64_to_vpi_words v).
Definition set_u128 (h : LogicHandle) (v : Z) := set_vector_words h (u128_to_vpi_words v).
Definition set_bigint (h : LogicHandle) (v : B) :=
  set_vector_words h (map (λ d, {| aval := d; bval := 0 |}) (bu_iter_u32_digits v)).
Definition set_logic (h : LogicHandle) (v : LogicArray B) :=
  set_vector_words h (map (λ '(a, b), {| aval := a; bval := b |}) (to_vpi_words v)).

End Ops.

Section Laws.
Context {B : Type} `{BigUintLaws B}.
Implicit Types h : LogicHandle.

Definition vecs_fit (ws : list t_vpi_vecval) : Prop :=
  Forall (fits 32) (map aval ws) ∧ Forall (fits 32) (map bval ws).

(** ** The read loop *)

(** A read that met an X or Z bit: the whole value is printed. *)
Definition four_state {A} h (val : VpiValue) : Exec (Result A ValueError) :=
  er_bind (get_logic (B:=B) h val) (λ v, Done (Err (FourState (to_binstr v)))).

Lemma four_state_bind {A C} h val (k : A → Exec (Result C ValueError)) :
  er_bind (four_state h val) k = four_state h val.
Proof. unfold four_state. by destruct (get_logic h val) as [[|]|]. Qed.

(** The mask of one word, as a reduction. *)
Definition word_mask (n : nat) (last : bool) (x : Z) : Z :=
  if last && negb (Nat.eqb (n mod 32) 0) then Z.land x (Z.shiftl 1 (Z.of_nat (n mod 32)) - 1) else x.

Lemma land_u32_max x : fits 32 x → Z.land x u32_max = x.
Proof. intros Hx. unfold u32_max. rewrite land_ones_wrap by lia. by apply wrap_id. Qed.

Lemma get_vpi_word_eq h val w last : fits 32 (aval w) → fits 32 (bval w) →
  get_vpi_word (B:=B) h val w (size h) last =
  if 0 =? word_mask (size h) last (bval w) then Done (Ok (word_mask (size h) last (aval w))) else four_state h val.
Proof.
  intros Ha Hb. unfold get_vpi_word, word_mask, four_state. rewrite (Z.eqb_sym 0).
  destruct (last && negb (Nat.eqb (size h mod 32) 0)) eqn:E; [|by rewrite !land_u32_max].
  pose proof (Nat.mod_upper_bound (size h) 32 ltac:(lia)).
  by rewrite (proj2 (Nat.eqb_neq (size h mod 32) 32)) by lia.
Qed.

Lemma trim_cons n x y r : trim n (x :: y :: r) = x :: trim n (y :: r).
Proof. unfold trim. by case_decide. Qed.

Lemma trim_word n x : trim n [x] = [word_mask n true x].
Proof.
  unfold trim, word_mask. case_decide as Hn; [by rewrite Hn|]. by rewrite (proj2 (Nat.eqb_neq _ _) Hn).
Qed.

(** What the loop folds over the masked words. *)
Fixpoint fold_words {A} (f : nat → Z → A → A) (index : nat) (xs : list Z) (acc : A) : A :=
  match xs with [] => acc | x :: r => fold_words f (S index) r (f index x acc) end.

Lemma for_words_eq {A} h val total (step : nat → Z → A → Exec A) f :
  (∀ i x acc, (i < total)%nat → step i x acc = Done (f i x acc)) →
  ∀ ws i acc, (i + length ws = total)%nat → vecs_fit ws →
  for_words (B:=B) h val total step i ws acc =
  if forallb (Z.eqb 0) (trim (size h) (map bval ws))
  then Done (Ok (fold_words f i (trim (size h) (map aval ws)) acc)) else four_state h val.
Proof.
  intros Hstep. induction ws as [|w ws IH]; intros i acc Hlen [Ha Hb].
  { simpl. unfold trim. by case_decide. }
  simpl in Ha, Hb, Hlen. apply Forall_cons in Ha as [Ha Has], Hb as [Hb Hbs].
  cbn [for_words]. rewrite get_vpi_word_eq by done. destruct ws as [|w' ws].
  - simpl in Hlen. rewrite (proj2 (Nat.eqb_eq (i + 1) total)) by lia. cbn [map]. rewrite !trim_word.
    cbn [forallb fold_words]. rewrite andb_true_r. destruct (0 =? _); [|by rewrite four_state_bind].
    cbn [er_bind]. by rewrite Hstep by lia.
  - simpl in Hlen. rewrite (proj2 (Nat.eqb_neq (i + 1) total)) by lia. cbn [map]. rewrite !trim_cons.
    cbn [forallb fold_words]. unfold word_mask. cbn [andb]. destruct (0 =? _); [|by rewrite four_state_bind].
    cbn [er_bind andb]. rewrite Hstep by lia. apply IH; [simpl; lia|by split].
Qed.

(** Or-ing shifted words is their value. *)
Lemma fold_or_val bits xs i acc :
  Forall (fits 32) xs → ((i + length xs) * 32 ≤ bits)%nat → fits (32 * Z.of_nat i) acc →
  fold_words (λ i x acc, Z.lor acc (wrap (Z.of_nat bits) (Z.shiftl x (Z.of_nat (i * 32))))) i xs acc
  = acc + 2 ^ (32 * Z.of_nat i) * le_val xs.
Proof.
  intros Hxs. revert i acc. induction Hxs as [|x xs Hx Hxs IH]; intros i acc Hlen Hacc; [simpl; lia|].
  simpl in Hlen. cbn [fold_words le_val].
  assert (0 < 2 ^ (32 * Z.of_nat i)) by (apply Z.pow_pos_nonneg; lia).
  assert (wrap (Z.of_nat bits) (Z.shiftl x (Z.of_nat (i * 32))) = Z.shiftl x (32 * Z.of_nat i)) as ->.
  { replace (Z.of_nat (i * 32)) with (32 * Z.of_nat i) by lia. apply wrap_id. rewrite Z.shiftl_mul_pow2 by lia.
    destruct Hx as [??]. split; [nia|]. apply Z.lt_le_trans with (2 ^ 32 * 2 ^ (32 * Z.of_nat i)); [nia|].
    rewrite <- Z.pow_add_r by lia. apply Z.pow_le_mono_r; lia. }
  rewrite lor_shiftl_add by (done || lia).
  replace (32 * Z.of_nat (S i)) with (32 * Z.of_nat i + 32) in * by lia.
  rewrite IH.
  - replace (32 * Z.of_nat (S i)) with (32 * Z.of_nat i + 32) by lia. rewrite Z.pow_add_r by lia. ring.
  - lia.
  - replace (32 * Z.of_nat (S i)) with (32 * Z.of_nat i + 32) by lia. unfold fits in *.
    rewrite Z.pow_add_r by lia. nia.
Qed.

Lemma fold_push xs i acc : fold_words (λ _ x ds, ds ++ [x]) i xs acc = acc ++ xs.
Proof.
  revert i acc. induction xs as [|x xs IH]; intros i acc; cbn [fold_words]; [by rewrite app_nil_r|].
  rewrite IH. by rewrite <- app_assoc.
Qed.

(** ** What a read answers *)

Lemma map_take_fit n ws : vecs_fit ws → vecs_fit (take n ws).
Proof. intros [Ha Hb]. split; rewrite <- firstn_map; by apply Forall_take. Qed.

(** The bits read, and what they say. *)
Record read_as h (ws : list t_vpi_vecval) (v : LogicArray B) : Prop := {
  ra_get : get_logic h (Some ws) = Done (Ok v);
  ra_width : width v = size h;
  ra_wf : wf v;
  ra_a : bu_val (a_val v) = le_val (trim (size h) (map aval (take (div_ceil (size h) 32) ws)));
  ra_b : bu_val (b_val v) = le_val (trim (size h) (map bval (take (div_ceil (size h) 32) ws)));
}.

Lemma get_logic_spec h ws :
  (div_ceil (size h) 32 ≤ length ws)%nat → vecs_fit ws → ∃ v, read_as h ws v.
Proof.
  intros Hlen Hfit. pose proof (map_take_fit (div_ceil (size h) 32) ws Hfit) as [Ha Hb].
  set (words := take (div_ceil (size h) 32) ws) in *.
  assert (length words = div_ceil (size h) 32) as Hn by (subst words; rewrite length_take; lia).
  pose proof (from_vpi_words_spec (B:=B) (map (λ w, (aval w, bval w)) words) (size h)) as Hs.
  unfold words_fit in Hs. rewrite !map_map in Hs. cbn [fst snd] in Hs. specialize (Hs (conj Ha Hb)).
  rewrite length_map, decide_True in Hs by done. destruct Hs as (v & Hv & Hw & Hwf & Ea & Eb).
  exists v. constructor; [|done|done|rewrite le_val_trim; [done..|by rewrite length_map]|
    rewrite le_val_trim; [done..|by rewrite length_map]].
  unfold get_logic, get_vpi_words. cbn [er_bind]. fold words. by rewrite Hv.
Qed.

Lemma resolvable_trim h ws v : read_as h ws v → vecs_fit ws →
  forallb (Z.eqb 0) (trim (size h) (map bval (take (div_ceil (size h) 32) ws))) = is_resolvable v.
Proof.
  intros Hr Hfit. pose proof (map_take_fit (div_ceil (size h) 32) ws Hfit) as [_ Hb].
  unfold is_resolvable. rewrite bu_eq_spec, bu_val_ZERO, (ra_b _ _ _ Hr). apply le_val_zero, trim_fits, Hb.
Qed.

Lemma four_state_read {A} h ws v : read_as h ws v → four_state (A:=A) h (Some ws) = Done (Err (FourState (to_binstr v))).
Proof. intros Hr. unfold four_state. by rewrite (ra_get _ _ _ Hr). Qed.

(** A loop over the words answers as the value does. *)
Lemma read_loop {A} h ws v (step : nat → Z → A → Exec A) f acc :
  read_as h ws v → (div_ceil (size h) 32 ≤ length ws)%nat → vecs_fit ws →
  (∀ i x acc, (i < div_ceil (size h) 32)%nat → step i x acc = Done (f i x acc)) →
  let words := take (div_ceil (size h) 32) ws in
  for_words (B:=B) h (Some ws) (length words) step 0 words acc =
  Done (guard_resolvable v (fold_words f 0 (trim (size h) (map aval words)) acc)).
Proof.
  intros Hr Hlen Hfit Hstep words.
  assert (length words = div_ceil (size h) 32) as Hn by (subst words; rewrite length_take; lia).
  rewrite (for_words_eq h (Some ws) (length words) step f); [|by rewrite Hn|done|by apply map_take_fit].
  subst words. rewrite (resolvable_trim h ws v), (four_state_read h ws v) by done.
  unfold guard_resolvable. by destruct (is_resolvable v).
Qed.

(** A signal of at most 32 bits is one word. *)
Lemma read_one h ws v :
  read_as h ws v → (1 ≤ size h ≤ 32)%nat → (div_ceil (size h) 32 ≤ length ws)%nat → vecs_fit ws →
  ∃ w, first_word h (Some ws) = Done (Ok w) ∧
    get_vpi_word (B:=B) h (Some ws) w (size h) true = Done (guard_resolvable v (bu_val (a_val v))).
Proof.
  intros Hr Hs Hlen Hfit. pose proof (div_ceil_32 (size h)).
  assert (div_ceil (size h) 32 = 1%nat) as Hone by lia. pose proof Hfit as [Ha Hb].
  pose proof (resolvable_trim h ws v Hr Hfit) as Hres. pose proof (ra_a _ _ _ Hr) as Hav.
  rewrite Hone in *. destruct ws as [|w ws]; simpl in Hlen; [lia|].
  simpl in Ha, Hb. apply Forall_cons in Ha as [Ha _], Hb as [Hb _]. simpl in Hres, Hav. rewrite trim_word in Hres, Hav.
  cbn [forallb le_val] in Hres, Hav. rewrite andb_true_r in Hres. rewrite Z.mul_0_r, Z.add_0_r in Hav.
  exists w. split; [unfold first_word, get_vpi_words; by rewrite Hone|].
  rewrite get_vpi_word_eq, Hres, <- Hav, (four_state_read h (w :: ws) v) by done.
  unfold guard_resolvable. by destruct (is_resolvable v).
Qed.

(** The answer of a read of at most [want] bits. *)
Definition sized {A} (want : nat) h (r : Result A ValueError) : Exec (Result A ValueError) :=
  Done (if Nat.ltb want (size h) then Err (Width (Z.of_nat want) (size h)) else r).

Lemma check_size_sized {A} want h (k : Exec (Result A ValueError)) r :
  ((size h ≤ want)%nat → k = Done r) → er_bind (check_size h want) (λ _, k) = sized want h r.
Proof.
  intros Hk. unfold check_size, sized. destruct (Nat.ltb_spec want (size h)); [done|]. by apply Hk.
Qed.

Lemma guard_map {A C} (v : LogicArray B) (x : A) (f : A → C) :
  er_bind (Done (guard_resolvable v x)) (λ y, Done (Ok (f y))) = Done (guard_resolvable v (f x)).
Proof. unfold guard_resolvable. by destruct (is_resolvable v). Qed.

Lemma or_loop bits h ws v :
  read_as h ws v → (size h ≤ bits)%nat → (32 | bits)%nat → (div_ceil (size h) 32 ≤ length ws)%nat → vecs_fit ws →
  let words := take (div_ceil (size h) 32) ws in
  for_words (B:=B) h (Some ws) (length words) (or_shifted bits) 0 words 0 = Done (guard_resolvable v (bu_val (a_val v))).
Proof.
  intros Hr Hs [k Hk] Hlen Hfit words. pose proof (div_ceil_32 (size h)).
  rewrite (read_loop h ws v _ (λ i x acc, Z.lor acc (wrap (Z.of_nat bits) (Z.shiftl x (Z.of_nat (i * 32)))))); try done.
  - pose proof (map_take_fit (div_ceil (size h) 32) ws Hfit) as [Ha _].
    rewrite fold_or_val; [|by apply trim_fits| |split; [done|apply Z.pow_pos_nonneg; lia]].
    + rewrite (ra_a _ _ _ Hr). do 2 f_equal. rewrite Z.mul_0_r. change (2 ^ 0) with 1. lia.
    + unfold trim. case_decide; rewrite ?length_update_last, length_map, length_take; lia.
  - intros i x acc Hi. unfold or_shifted. destruct (Nat.leb_spec bits (i * 32)); [lia|done].
Qed.

(** Answers that carry the same number, or the same error. *)
Definition same_read (r r' : Result B ValueError) : Prop :=
  match r, r' with
  | Ok a, Ok b => bu_val a = bu_val b
  | Err e, Err e' => e = e'
  | _, _ => False
  end.

Lemma narrow_read want h ws v {A} (f : Z → A) :
  read_as h ws v → (1 ≤ size h)%nat → (want ≤ 32)%nat → (div_ceil (size h) 32 ≤ length ws)%nat → vecs_fit ws →
  er_bind (check_size h want) (λ _, er_bind (first_word h (Some ws)) (λ w,
    er_bind (get_vpi_word (B:=B) h (Some ws) w (size h) true) (λ x, Done (Ok (f x)))))
  = sized want h (guard_resolvable v (f (bu_val (a_val v)))).
Proof.
  intros Hr Hs Hw Hlen Hfit. apply check_size_sized. intros Hle.
  destruct (read_one h ws v) as (w & -> & Hg); [done|lia|done..|]. cbn [er_bind]. rewrite Hg. apply guard_map.
Qed.

Lemma wide_read want h ws v :
  read_as h ws v → (32 | want)%nat → (div_ceil (size h) 32 ≤ length ws)%nat → vecs_fit ws →
  er_bind (check_size h want) (λ _, er_bind (Done (get_vpi_words h (Some ws))) (λ words,
    for_words (B:=B) h (Some ws) (length words) (or_shifted want) 0 words 0))
  = sized want h (guard_resolvable v (bu_val (a_val v))).
Proof. intros Hr Hw Hlen Hfit. apply check_size_sized. intros Hle. by apply or_loop. Qed.

(** A number of at most [want] bits is not changed by reading its low bits. *)
Lemma sized_wrap want h ws v {A} (f g : Z → A) :
  read_as h ws v → (∀ x, fits (Z.of_nat want) x → f x = g x) →
  sized want h (guard_resolvable v (f (bu_val (a_val v)))) = sized want h (guard_resolvable v (g (bu_val (a_val v)))).
Proof.
  intros Hr Hfg. unfold sized. destruct (Nat.ltb_spec want (size h)); [done|]. rewrite Hfg; [done|].
  apply (fits_mono (Z.of_nat (size h))); [lia|]. rewrite <- (ra_width _ _ _ Hr). apply Hr.
Qed.

(** C28: Every integer read of a signal, on the words, answers what the four-state
    value answers: the width error when the signal is wider than the type, the
    X/Z error with the printed value, or the number, which is then exact. *)
Theorem signal_reads_agree h ws :
  (1 ≤ size h)%nat → (div_ceil (size h) 32 ≤ length ws)%nat → vecs_fit ws →
  ∃ v, get_logic (B:=B) h (Some ws) = Done (Ok v) ∧ wf v ∧ width v = size h ∧
    get_bool (B:=B) h (Some ws) = sized 1 h (try_bool v) ∧
    get_u8 (B:=B) h (Some ws) = sized 8 h (try_u8 v) ∧
    get_u16 (B:=B) h (Some ws) = sized 16 h (try_u16 v) ∧
    get_u32 (B:=B) h (Some ws) = sized 32 h (try_u32 v) ∧
    get_u64 (B:=B) h (Some ws) = sized 64 h (try_u64 v) ∧
    get_u128 (B:=B) h (Some ws) = sized 128 h (try_u128 v) ∧
    (∃ r, get_bigint (B:=B) h (Some ws) = Done r ∧ same_read r (try_bigint v)) ∧
    (is_resolvable v = true → (size h ≤ 64)%nat → get_u64 (B:=B) h (Some ws) = Done (Ok (bu_val (a_val v)))).
Proof.
  intros Hs Hlen Hfit. destruct (get_logic_spec h ws Hlen Hfit) as [v Hr]. exists v.
  split; [apply Hr|]. split; [apply Hr|]. split; [apply Hr|].
  assert (get_u64 (B:=B) h (Some ws) = sized 64 h (guard_resolvable v (bu_val (a_val v)))) as H64
    by (apply wide_read; try done; by exists 2%nat).
  unfold try_bool, try_u8, try_u16, try_u32, try_u64, try_u128, try_bigint.
  rewrite u32_digit0_val, !u64_digit_val, bu_eq_spec, bu_val_ZERO.
  change (64 * Z.of_nat 0) with 0. change (64 * Z.of_nat 1) with 64. rewrite Z.shiftr_0_r, wrap_128_split.
  split; [by apply (narrow_read 1); try done; lia|].
  split; [rewrite wrap_wrap_le by lia; by apply (narrow_read 8); try done; lia|].
  split; [rewrite wrap_wrap_le by lia; by apply (narrow_read 16); try done; lia|].
  split.
  { rewrite (sized_wrap 32 h ws v (wrap 32) (λ x, x)) by (done || apply wrap_id).
    apply check_size_sized. intros Hle. destruct (read_one h ws v) as (w & -> & Hg); [done|lia|done..]. }
  split; [by rewrite (sized_wrap 64 h ws v (wrap 64) (λ x, x)) by (done || apply wrap_id)|].
  split.
  { rewrite (sized_wrap 128 h ws v (wrap 128) (λ x, x)) by (done || apply wrap_id).
    apply wide_read; try done. by exists 4%nat. }
  split.
  - eexists. split.
    + unfold get_bigint, get_vpi_words. cbn [er_bind].
      rewrite (read_loop h ws v _ (λ _ x ds, ds ++ [x])), fold_push, guard_map by done. reflexivity.
    + unfold guard_resolvable. destruct (is_resolvable v); [|done]. simpl. rewrite (ra_a _ _ _ Hr).
      apply bu_val_from_slice, trim_fits. by apply (map_take_fit _ ws Hfit).
  - intros Hres Hle. rewrite H64. unfold sized, guard_resolvable. rewrite Hres.
    by rewrite (proj2 (Nat.ltb_ge 64 (size h))).
Qed.

(** ** What a write stores *)

Lemma map_mask_last (f : t_vpi_vecval → Z) m ws :
  (∀ w, f (mask_word m w) = Z.land (f w) m) →
  map f (update_last (mask_word m) ws) = update_last (λ x, Z.land x m) (map f ws).
Proof.
  intros Hf. destruct ws as [|w ws _] using rev_ind; [done|].
  by rewrite map_app, !update_last_snoc, map_app; simpl; rewrite update_last_snoc, Hf.
Qed.

Lemma mask_vector_words_spec h ws :
  length ws = div_ceil (size h) 32 →
  ∃ ws', mask_vector_words h ws = Done ws' ∧ length ws' = length ws ∧
    map aval ws' = trim (size h) (map aval ws) ∧ map bval ws' = trim (size h) (map bval ws).
Proof.
  intros Hlen. unfold mask_vector_words, trim. destruct (Nat.eqb_spec (size h mod 32) 0) as [Hm|Hm].
  - exists ws. by rewrite !decide_True by done.
  - rewrite !decide_False by done. destruct ws as [|w ws].
    + cbn [length] in Hlen. pose proof (div_ceil_32 (size h)). assert (size h = 0)%nat as Hz by lia. by rewrite Hz in Hm.
    + eexists. split; [done|]. split; [apply length_update_last|].
      split; apply map_mask_last; by intros [].
Qed.

(** One plane of the words a write hands over. *)
Definition plane_of h (xs ys : list Z) : Prop :=
  Forall (fits 32) ys ∧ le_val ys = wrap (Z.of_nat (size h)) (le_val xs).

Lemma trim_plane h xs : Forall (fits 32) xs → length xs = div_ceil (size h) 32 → plane_of h xs (trim (size h) xs).
Proof. intros Hx Hl. split; [by apply trim_fits|by apply le_val_trim]. Qed.

Lemma take_pad n xs : (n ≤ length xs)%nat → take n xs = pad_digits n xs.
Proof.
  revert xs. induction n as [|n IH]; intros [|x xs] Hl; simpl in *; try done; [lia|].
  by rewrite IH by lia.
Qed.

Lemma take_plane h xs :
  Forall (fits 32) xs → (div_ceil (size h) 32 ≤ length xs)%nat →
  plane_of h xs (trim (size h) (take (div_ceil (size h) 32) xs)).
Proof.
  intros Hx Hl. pose proof (div_ceil_32 (size h)).
  split; [by apply trim_fits, Forall_take|].
  rewrite le_val_trim; [|by apply Forall_take|rewrite length_take; lia].
  rewrite take_pad, le_val_pad by done. apply wrap_wrap_le. lia.
Qed.

Lemma pad_plane h xs :
  Forall (fits 32) xs → (length xs < div_ceil (size h) 32)%nat →
  plane_of h xs (xs ++ replicate (div_ceil (size h) 32 - length xs) 0).
Proof.
  intros Hx Hl. pose proof (div_ceil_32 (size h)). split.
  - apply Forall_app. split; [done|]. by apply Forall_replicate.
  - rewrite le_val_app. assert (∀ n, le_val (replicate n 0) = 0) as ->
      by (intros n; induction n as [|n IH]; [done|]; simpl replicate; cbn [le_val]; rewrite IH; lia).
    rewrite Z.mul_0_r, Z.add_0_r. symmetry. apply wrap_id. eapply fits_mono; [|by apply le_val_fits]. lia.
Qed.

(** Whatever the number of words given, the words stored have the signal's
    length and hold the value reduced to the signal's width, on both planes. *)
Lemma set_vector_words_spec h ws : vecs_fit ws →
  ∃ ws', set_vector_words h ws = Done ws' ∧ length ws' = div_ceil (size h) 32 ∧
    plane_of h (map aval ws) (map aval ws') ∧ plane_of h (map bval ws) (map bval ws').
Proof.
  intros [Ha Hb]. unfold set_vector_words. destruct (Nat.eqb_spec (length ws) (div_ceil (size h) 32)) as [He|He].
  - destruct (mask_vector_words_spec h ws He) as (ws' & -> & Hl & Ea & Eb). exists ws'. rewrite Ea, Eb.
    split_and_all; [done|lia|apply trim_plane..]; rewrite ?length_map; done.
  - destruct (Nat.ltb_spec (div_ceil (size h) 32) (length ws)) as [Hlt|Hge].
    + destruct (mask_vector_words_spec h (take (div_ceil (size h) 32) ws)) as (ws' & -> & Hl & Ea & Eb);
        [rewrite length_take; lia|]. exists ws'. rewrite Ea, Eb, <- !firstn_map.
      split_and_all; [done|rewrite Hl, length_take; lia|apply take_plane..]; rewrite ?length_map; try done; lia.
    + eexists. split; [done|]. rewrite !map_app, length_app, length_replicate.
      rewrite (fmap_replicate aval), (fmap_replicate bval). cbn [aval bval default_vecval].
      split; [lia|]. pose proof (pad_plane h (map aval ws) Ha) as Hpa. pose proof (pad_plane h (map bval ws) Hb) as Hpb.
      rewrite length_map in Hpa, Hpb. split; [apply Hpa|apply Hpb]; lia.
Qed.

(** A stored value is read back as it is. *)
Lemma read_stored h ws ws' : length ws' = div_ceil (size h) 32 →
  plane_of h (map aval ws) (map aval ws') → plane_of h (map bval ws) (map bval ws') →
  ∃ v, read_as h ws' v ∧ vecs_fit ws' ∧
    bu_val (a_val v) = wrap (Z.of_nat (size h)) (le_val (map aval ws)) ∧
    bu_val (b_val v) = wrap (Z.of_nat (size h)) (le_val (map bval ws)).
Proof.
  intros Hl [Ha Ea] [Hb Eb]. destruct (get_logic_spec h ws') as [v Hr]; [lia|by split|]. exists v.
  split; [done|]. split; [by split|]. rewrite (ra_a _ _ _ Hr), (ra_b _ _ _ Hr), take_ge by lia.
  rewrite !le_val_trim, Ea, Eb by (rewrite ?length_map; (done || lia)). by rewrite !wrap_wrap_le by lia.
Qed.

(** The signal holds the number [y], whichever way it is read. *)
Record holds h (ws : list t_vpi_vecval) (y : Z) : Prop := {
  holds_len : length ws = div_ceil (size h) 32;
  holds_u64 : (size h ≤ 64)%nat → get_u64 (B:=B) h (Some ws) = Done (Ok y);
  holds_u128 : (size h ≤ 128)%nat → get_u128 (B:=B) h (Some ws) = Done (Ok y);
  holds_bigint : ∃ r, get_bigint (B:=B) h (Some ws) = Done (Ok r) ∧ bu_val r = y;
}.

Lemma read_as_holds h ws v y :
  read_as h ws v → vecs_fit ws → length ws = div_ceil (size h) 32 →
  bu_val (a_val v) = y → bu_val (b_val v) = 0 → holds h ws y.
Proof.
  intros Hr Hfit Hl Hy Hb. assert (is_resolvable v = true) as Hres by by apply is_resolvable_zero.
  constructor; [done| | |].
  - intros Hs. rewrite <- Hy. unfold get_u64. rewrite (wide_read 64 h ws v Hr) by (done || lia || by exists 2%nat).
    unfold sized, guard_resolvable. by rewrite Hres, (proj2 (Nat.ltb_ge 64 (size h))).
  - intros Hs. rewrite <- Hy. unfold get_u128. rewrite (wide_read 128 h ws v Hr) by (done || lia || by exists 4%nat).
    unfold sized, guard_resolvable. by rewrite Hres, (proj2 (Nat.ltb_ge 128 (size h))).
  - unfold get_bigint, get_vpi_words. cbn [er_bind]. eexists.
    rewrite (read_loop h ws v _ (λ _ x ds, ds ++ [x])), fold_push, guard_map by (done || lia).
    unfold guard_resolvable. rewrite Hres. split; [reflexivity|]. rewrite <- Hy, (ra_a _ _ _ Hr).
    apply bu_val_from_slice, trim_fits. by apply (map_take_fit _ ws Hfit).
Qed.

(** The words themselves: as many as the width needs, two-state, of value [y]. *)
Record stored h (ws : list t_vpi_vecval) (y : Z) : Prop := {
  stored_len : length ws = div_ceil (size h) 32;
  stored_fit : Forall (fits 32) (map aval ws);
  stored_a : le_val (map aval ws) = y;
  stored_b : Forall (eq 0) (map bval ws);
}.

Lemma zero_plane (xs : list Z) : Forall (eq 0) xs → le_val xs = 0.
Proof. induction 1 as [|d r <- _ IH]; [done|]. cbn [le_val]. rewrite IH. lia. Qed.

Lemma plane_zero (xs : list Z) : Forall (fits 32) xs → le_val xs = 0 → Forall (eq 0) xs.
Proof.
  intros Hf Hz. pose proof (le_val_zero xs Hf) as Hb. rewrite Hz, forallb_forall in Hb.
  apply Forall_forall. intros x Hx. apply Z.eqb_eq, Hb. by apply list_elem_of_In.
Qed.

(** Two-state words of value [x]. *)
Lemma write_holds h ws x :
  Forall (fits 32) (map aval ws) → Forall (eq 0) (map bval ws) → le_val (map aval ws) = x →
  ∃ ws', set_vector_words h ws = Done ws' ∧ holds h ws' (wrap (Z.of_nat (size h)) x) ∧
    stored h ws' (wrap (Z.of_nat (size h)) x).
Proof.
  intros Ha Hb <-. pose proof (zero_plane _ Hb) as Hz.
  destruct (set_vector_words_spec h ws) as (ws' & Hs & Hl & Hpa & Hpb).
  { split; [done|]. eapply Forall_impl; [exact Hb|]. by intros ? <-. }
  assert (wrap (Z.of_nat (size h)) 0 = 0) as Hw0 by (apply wrap_id; split; [done|apply Z.pow_pos_nonneg; lia]).
  exists ws'. split; [done|]. destruct (read_stored h ws ws' Hl Hpa Hpb) as (v & Hr & Hfit & Ea & Eb). split.
  - apply (read_as_holds h ws' v); try done. by rewrite Eb, Hz.
  - destruct Hpa as [Hfa Hva], Hpb as [Hfb Hvb]. constructor; try done. apply plane_zero; [done|]. by rewrite Hvb, Hz.
Qed.

Lemma split_word x : x = wrap 32 x + 2 ^ 32 * Z.shiftr x 32.
Proof. unfold wrap. rewrite Z.shiftr_div_pow2 by lia. pose proof (Z.div_mod x (2 ^ 32)). lia. Qed.

Lemma u64_words_val x : fits 64 x → le_val (map aval (u64_to_vpi_words x)) = x.
Proof.
  intros [??]. cbn [map u64_to_vpi_words word aval le_val]. rewrite (wrap_id 32 (Z.shiftr x 32)).
  - rewrite Z.mul_0_r, Z.add_0_r. symmetry. apply split_word.
  - rewrite Z.shiftr_div_pow2 by lia. split; [apply Z.div_pos; lia|apply Z.div_lt_upper_bound; lia].
Qed.

Lemma u128_words_val x : fits 128 x → le_val (map aval (u128_to_vpi_words x)) = x.
Proof.
  intros [??]. cbn [map u128_to_vpi_words word aval le_val]. rewrite (wrap_id 32 (Z.shiftr x 96)).
  - pose proof (split_word x) as S1. pose proof (split_word (Z.shiftr x 32)) as S2.
    pose proof (split_word (Z.shiftr x 64)) as S3. rewrite Z.shiftr_shiftr in S2, S3 by lia.
    change (32 + 32) with 64 in S2. change (64 + 32) with 96 in S3. lia.
  - rewrite Z.shiftr_div_pow2 by lia. split; [apply Z.div_pos; lia|apply Z.div_lt_upper_bound; lia].
Qed.

Lemma word_fits x : fits 32 (aval (word x)).
Proof. apply wrap_fits. lia. Qed.

Lemma logic_write_read h (v : LogicArray B) : wf v →
  ∃ ws v', set_logic h v = Done ws ∧ get_logic h (Some ws) = Done (Ok v') ∧ width v' = size h ∧
    bu_val (a_val v') = wrap (Z.of_nat (size h)) (bu_val (a_val v)) ∧
    bu_val (b_val v') = wrap (Z.of_nat (size h)) (bu_val (b_val v)).
Proof.
  intros Hwf. assert (∀ l : list (Z * Z), map aval (map (λ '(a, b), {| aval := a; bval := b |}) l) = map fst l ∧
     map bval (map (λ '(a, b), {| aval := a; bval := b |}) l) = map snd l) as Hmap.
  { intros l. rewrite !map_map. split; apply map_ext; by intros []. }
  destruct (Hmap (to_vpi_words v)) as [Ea Eb]. unfold set_logic.
  destruct (set_vector_words_spec h (map (λ '(a, b), {| aval := a; bval := b |}) (to_vpi_words v)))
    as (ws' & Hs & Hl & Hpa & Hpb). { unfold vecs_fit. rewrite Ea, Eb. apply to_vpi_words_fit. }
  destruct (read_stored h _ ws' Hl Hpa Hpb) as (v' & Hr & Hfit & Hav & Hbv).
  exists ws', v'. split; [done|]. split; [apply Hr|]. split; [apply Hr|].
  rewrite Hav, Hbv, Ea, Eb, map_fst_to_vpi_words, map_snd_to_vpi_words, !le_val_pad, !bu_u32_val by apply bu_u32_fits.
  destruct Hwf as [Hwa Hwb]. pose proof (div_ceil_32 (width v)).
  rewrite !(wrap_id (32 * _)); [done|eapply fits_mono; [|done]; lia..].
Qed.

Lemma narrow_write h x : fits 32 x → ∃ ws, set_vector_words h [word x] = Done ws ∧
  holds h ws (wrap (Z.of_nat (size h)) x) ∧ stored h ws (wrap (Z.of_nat (size h)) x).
Proof.
  intros Hx. apply write_holds; [by repeat constructor; apply word_fits|by repeat constructor|].
  cbn [map word aval le_val]. rewrite wrap_id by done. lia.
Qed.

(** What each integer write hands to the simulator. *)
Definition lands h (r : Exec (list t_vpi_vecval)) (x : Z) : Prop :=
  ∃ ws, r = Done ws ∧ holds h ws (wrap (Z.of_nat (size h)) x) ∧ stored h ws (wrap (Z.of_nat (size h)) x).

Lemma set_lands h x (b : B) :
  (∀ t : bool, lands h (set_bool h t) (if t then 1 else 0)) ∧
  (fits 8 x → lands h (set_u8 h x) x) ∧ (fits 16 x → lands h (set_u16 h x) x) ∧
  (fits 32 x → lands h (set_u32 h x) x) ∧ (fits 64 x → lands h (set_u64 h x) x) ∧
  (fits 128 x → lands h (set_u128 h x) x) ∧ lands h (set_bigint h b) (bu_val b).
Proof.
  split_and_all; intros.
  - apply narrow_write. by destruct t.
  - apply narrow_write. by apply (fits_mono 8).
  - apply narrow_write. by apply (fits_mono 16).
  - by apply narrow_write.
  - apply write_holds; [by repeat constructor; apply word_fits|by repeat constructor|by apply u64_words_val].
  - apply write_holds; [by repeat constructor; apply word_fits|by repeat constructor|by apply u128_words_val].
  - apply write_holds; rewrite map_map; cbn [aval bval].
    + rewrite map_id. apply bu_u32_fits.
    + apply Forall_fmap. apply Forall_true. done.
    + rewrite map_id. apply bu_u32_val.
Qed.

(** C29: Writing a number and reading it back gives the number reduced to the width
    of the signal, whatever the width of the type written and of the signal; a
    four-state value keeps both planes, reduced or zero-extended to the width. *)
Theorem signal_write_read h x (b : B) (v : LogicArray B) :
  let w := Z.of_nat (size h) in
  (∀ t : bool, ∃ ws, set_bool h t = Done ws ∧ holds h ws (wrap w (if t then 1 else 0))) ∧
  (fits 8 x → ∃ ws, set_u8 h x = Done ws ∧ holds h ws (wrap w x)) ∧
  (fits 16 x → ∃ ws, set_u16 h x = Done ws ∧ holds h ws (wrap w x)) ∧
  (fits 32 x → ∃ ws, set_u32 h x = Done ws ∧ holds h ws (wrap w x)) ∧
  (fits 64 x → ∃ ws, set_u64 h x = Done ws ∧ holds h ws (wrap w x)) ∧
  (fits 128 x → ∃ ws, set_u128 h x = Done ws ∧ holds h ws (wrap w x)) ∧
  (∃ ws, set_bigint h b = Done ws ∧ holds h ws (wrap w (bu_val b))) ∧
  (wf v → ∃ ws v', set_logic h v = Done ws ∧ get_logic h (Some ws) = Done (Ok v') ∧ width v' = size h ∧
     bu_val (a_val v') = wrap w (bu_val (a_val v)) ∧ bu_val (b_val v') = wrap w (bu_val (b_val v))).
Proof.
  intros w. destruct (set_lands h x b) as (H1 & H2 & H3 & H4 & H5 & H6 & H7). unfold lands in *.
  split_and_all; [naive_solver..|by apply logic_write_read].
Qed.

End Laws.
End Signals.

Module SignalsWitnesses.
Import LogicArray Signals.

Lemma signal_reads_agree_witness :
  get_u64 (B:=N) {| size := 37 |} (Some [{| aval := 0x89abcdef; bval := 0 |}; {| aval := 0xfffffff5; bval := 0xffffffe0 |}])
  = Done (Ok 0x1589abcdef).
Proof.
  destruct (signal_reads_agree (B:=N) {| size := 37 |}
    [{| aval := 0x89abcdef; bval := 0 |}; {| aval := 0xfffffff5; bval := 0xffffffe0 |}]) as
    (v & Hv & _ & _ & _ & _ & _ & _ & H64 & _).
  - vm_compute. lia.
  - vm_compute. lia.
  - split; repeat constructor; vm_compute; done.
  - rewrite H64. injection Hv as <-. reflexivity.
Defined.

Lemma signal_write_read_witness :
  ∃ ws, set_u64 {| size := 8 |} 0xffffffffffffffa5 = Done ws ∧ get_u64 (B:=N) {| size := 8 |} (Some ws) = Done (Ok 0xa5).
Proof.
  destruct (signal_write_read (B:=N) {| size := 8 |} 0xffffffffffffffa5 0%N (from_binstr "0"))
    as (_ & _ & _ & _ & H64 & _).
  destruct H64 as (ws & Hs & Hh); [by vm_compute|]. exists ws. split; [exact Hs|].
  rewrite (holds_u64 _ _ _ Hh); [reflexivity|simpl; lia].
Defined.

(** A signal without bits has no first word: the narrow reads index an empty
    slice, while the wide ones answer zero. *)
Lemma zero_width_read_panics :
  get_bool (B:=N) {| size := 0 |} (Some []) = Panic "index out of bounds" ∧
  get_u32 (B:=N) {| size := 0 |} (Some []) = Panic "index out of bounds" ∧
  get_u64 (B:=N) {| size := 0 |} (Some []) = Done (Ok 0).
Proof. done. Defined.

End SignalsWitnesses.
