(* ===== verification/Handles.v ===== *)
(** * Handles: simulator objects and the typed handles over them
    (rustdv-gpi/src/rustdv_gpi.rs, rustdv-sim/src/handle.rs and handle/).

    The simulator is a class of calls on its state [W]: an object is a number,
    0 the null pointer.  [Gpi] has the handles of rustdv-gpi, which classify an
    object by its VPI type and act on it at once; [Sim] those of rustdv-sim,
    which wrap them and send writes through the phase hub.  [VpiLaws] states
    what a simulator promises about its design and about two-state writes. *)
From stdpp Require Import pretty.
From S2P Require Import Prelude Words Values PhaseHub Signals.
Local Open Scope Z_scope.

(** ** The simulator's calls (rustdv-gpi-sys) *)

Abbreviation vpiHandle := nat (only parsing).

Definition vpiType : Z := 1.
Definition vpiName : Z := 2.
Definition vpiFullName : Z := 3.
Definition vpiSize : Z := 4.
Definition vpiIntegerVar : Z := 25.
Definition vpiMemory : Z := 29.
Definition vpiModule : Z := 32.
Definition vpiNet : Z := 36.
Definition vpiPort : Z := 44.
Definition vpiRealVar : Z := 47.
Definition vpiReg : Z := 48.
Definition vpiLongIntVar : Z := 610.
Definition vpiShortIntVar : Z := 611.
Definition vpiIntVar : Z := 612.
Definition vpiByteVar : Z := 614.
Definition vpiStringVar : Z := 616.
Definition vpiEnumVar : Z := 617.
Definition vpiStructVar : Z := 618.
Definition vpiUnionVar : Z := 619.
Definition vpiBitVar : Z := 620.
Definition vpiMember : Z := 742.

(** [F] is [f64].  An iteration is the objects [vpi_scan] gives before null,
    and [None] a null iterator; a text is [None] for a null pointer.  A real or
    string read is [None] when the value comes back in another format. *)
Class Vpi (W F : Type) := {
  vpi_handle_by_name : string → vpiHandle → W → vpiHandle;
  vpi_get : Z → vpiHandle → W → Z;
  vpi_get_str : Z → vpiHandle → W → option string;
  vpi_iterate : Z → vpiHandle → W → option (list vpiHandle);
  vpi_get_vector : vpiHandle → W → option (list Signals.t_vpi_vecval);
  vpi_put_vector : vpiHandle → list Signals.t_vpi_vecval → W → W;
  vpi_get_real : vpiHandle → W → option F;
  vpi_put_real : vpiHandle → F → W → W;
  vpi_get_string : vpiHandle → W → option (option string);
  vpi_put_string : vpiHandle → string → W → W;
}.

Definition logic_types : list Z :=
  [vpiNet; vpiReg; vpiIntegerVar; vpiPort; vpiMemory; vpiLongIntVar; vpiShortIntVar; vpiIntVar; vpiByteVar; vpiEnumVar; vpiBitVar].

(** [CString::new(..).expect(..)]. *)
Definition cstring_expect (s what : string) : Exec string := if has_nul s then Panic what else Done s.

(** ** rustdv-gpi *)

Module Gpi.
Section Gpi.
Context {W F : Type} `{!Vpi W F} {B : Type} `{!BigUint B}.
Implicit Types (w : W).

Inductive HandleError :=
| NotFound (name scope : string)
| WrongKind (name expected actual : string)
| NoTopModule.

Definition handle_error_to_string (e : HandleError) : string :=
  match e with
  | NotFound name scope => "no object named '" +:+ name +:+ "' in scope '" +:+ scope +:+ "'"
  | WrongKind name expected actual => "'" +:+ name +:+ "' is a " +:+ actual +:+ ", expected " +:+ expected
  | NoTopModule => "no top-level module found"
  end.

Definition value_error_to_string (e : ValueError) : string :=
  match e with
  | FourState s => "value '" +:+ s +:+ "' has x/z bits"
  | Unavailable => "simulator did not return the requested value"
  | InteriorNul => "VPI string contains an embedded NUL byte"
  | Width want have => "width mismatch: want " +:+ pretty want +:+ ", have " +:+ pretty (N.of_nat have)
  end.

Record ObjHandle := Obj { ptr : vpiHandle }.
Definition obj_new (h : vpiHandle) : option ObjHandle := if Nat.eqb h 0 then None else Some (Obj h).
Definition obj_get (h : ObjHandle) (prop : Z) w : Z := vpi_get prop (ptr h) w.
Definition get_str (h : ObjHandle) (prop : Z) w : string :=
  match vpi_get_str prop (ptr h) w with None => EmptyString | Some s => s end.

Record HierarchyHandle := { hier_h : ObjHandle }.
Record RealHandle := { real_h : ObjHandle }.
Record StringHandle := { string_h : ObjHandle }.
Record AggregateHandle := { agg_h : ObjHandle }.
Record LogicHandle := { logic_h : ObjHandle; width : nat }.

Inductive AnyHandle :=
| Hierarchy (h : HierarchyHandle)
| Logic (h : LogicHandle)
| Real (h : RealHandle)
| String_ (h : StringHandle)
| Struct_ (h : AggregateHandle)
| Union_ (h : AggregateHandle)
| Other (h : ObjHandle).

Definition classify (h : ObjHandle) w : AnyHandle :=
  let t := obj_get h vpiType w in
  if t =? vpiModule then Hierarchy {| hier_h := h |}
  else if t =? vpiRealVar then Real {| real_h := h |}
  else if t =? vpiStringVar then String_ {| string_h := h |}
  else if t =? vpiStructVar then Struct_ {| agg_h := h |}
  else if t =? vpiUnionVar then Union_ {| agg_h := h |}
  else if bool_decide (t ∈ logic_types) then
    Logic {| logic_h := h; width := Z.to_nat (Z.max (obj_get h vpiSize w) 0) |}
  else Other h.

Definition object (a : AnyHandle) : ObjHandle :=
  match a with
  | Hierarchy h => hier_h h
  | Logic h => logic_h h
  | Real h => real_h h
  | String_ h => string_h h
  | Struct_ h | Union_ h => agg_h h
  | Other h => h
  end.

Definition wrong_kind (a : AnyHandle) (expected : string) w : HandleError :=
  let h := object a in
  WrongKind (get_str h vpiFullName w) expected ("vpiType " +:+ pretty (obj_get h vpiType w)).

Definition as_logic (a : AnyHandle) w : Result LogicHandle HandleError :=
  match a with Logic h => Ok h | other => Err (wrong_kind other "signal" w) end.
Definition as_hierarchy (a : AnyHandle) w : Result HierarchyHandle HandleError :=
  match a with Hierarchy h => Ok h | other => Err (wrong_kind other "module" w) end.
Definition as_real (a : AnyHandle) w : Result RealHandle HandleError :=
  match a with Real h => Ok h | other => Err (wrong_kind other "real" w) end.
Definition as_string (a : AnyHandle) w : Result StringHandle HandleError :=
  match a with String_ h => Ok h | other => Err (wrong_kind other "string" w) end.
Definition as_aggregate (a : AnyHandle) w : Result AggregateHandle HandleError :=
  match a with Struct_ h | Union_ h => Ok h | other => Err (wrong_kind other "struct or union" w) end.

(** [?] on the result of a lookup that may panic. *)
Definition and_then {A C} (c : Exec (Result A HandleError)) (k : A → Result C HandleError) : Exec (Result C HandleError) :=
  match c with Done (Ok a) => Done (k a) | Done (Err e) => Done (Err e) | Panic m => Panic m end.

(** *** Modules *)

Definition hier_name (s : HierarchyHandle) w : string := get_str (hier_h s) vpiName w.
Definition hier_full_name (s : HierarchyHandle) w : string := get_str (hier_h s) vpiFullName w.
Definition hier_null_for_test : HierarchyHandle := {| hier_h := Obj 0 |}.

Definition hier_child (s : HierarchyHandle) (name : string) w : Exec (Result AnyHandle HandleError) :=
  match cstring_expect name "NUL in signal name" with
  | Panic m => Panic m
  | Done cname =>
      match obj_new (vpi_handle_by_name cname (ptr (hier_h s)) w) with
      | Some h => Done (Ok (classify h w))
      | None => Done (Err (NotFound name (hier_full_name s w)))
      end
  end.

Definition hier_signal s name w := and_then (hier_child s name w) (λ a, as_logic a w).
Definition hier_real s name w := and_then (hier_child s name w) (λ a, as_real a w).
Definition hier_string s name w := and_then (hier_child s name w) (λ a, as_string a w).
Definition hier_aggregate s name w := and_then (hier_child s name w) (λ a, as_aggregate a w).

(** The objects of one iteration, up to null. *)
Definition scan (t : Z) (scope : vpiHandle) w : list ObjHandle :=
  match vpi_iterate t scope w with None => [] | Some l => omap obj_new l end.
Definition hier_children (s : HierarchyHandle) w : list AnyHandle :=
  mjoin (map (λ t, map (λ h, classify h w) (scan t (ptr (hier_h s)) w)) [vpiModule; vpiNet; vpiReg]).

(** *** Structs and unions *)

Definition agg_name (s : AggregateHandle) w : string := get_str (agg_h s) vpiName w.
Definition agg_full_name (s : AggregateHandle) w : string := get_str (agg_h s) vpiFullName w.
Definition agg_child (s : AggregateHandle) (name : string) w : Exec (Result AnyHandle HandleError) :=
  match cstring_expect (agg_full_name s w +:+ "." +:+ name) "NUL in member name" with
  | Panic m => Panic m
  | Done path =>
      match obj_new (vpi_handle_by_name path 0 w) with
      | Some h => Done (Ok (classify h w))
      | None => Done (Err (NotFound name (agg_full_name s w)))
      end
  end.
Definition agg_children (s : AggregateHandle) w : list AnyHandle :=
  map (λ h, classify h w) (scan vpiMember (ptr (agg_h s)) w).
Definition agg_signal s name w := and_then (agg_child s name w) (λ a, as_logic a w).
Definition agg_real s name w := and_then (agg_child s name w) (λ a, as_real a w).
Definition agg_string s name w := and_then (agg_child s name w) (λ a, as_string a w).
Definition agg_aggregate s name w := and_then (agg_child s name w) (λ a, as_aggregate a w).

(** *** Reals and strings *)

Definition real_full_name (s : RealHandle) w : string := get_str (real_h s) vpiFullName w.
Definition real_get (s : RealHandle) w : Result F ValueError :=
  match vpi_get_real (ptr (real_h s)) w with Some x => Ok x | None => Err Unavailable end.
Definition real_set_now (s : RealHandle) (value : F) w : W := vpi_put_real (ptr (real_h s)) value w.

Definition string_full_name (s : StringHandle) w : string := get_str (string_h s) vpiFullName w.
Definition string_get (s : StringHandle) w : Result string ValueError :=
  match vpi_get_string (ptr (string_h s)) w with Some (Some x) => Ok x | _ => Err Unavailable end.
Definition string_set_now (s : StringHandle) (value : string) w : Result W ValueError :=
  if has_nul value then Err InteriorNul else Ok (vpi_put_string (ptr (string_h s)) value w).

(** *** Logic *)

Definition logic_full_name (s : LogicHandle) w : string := get_str (logic_h s) vpiFullName w.
Definition sig (s : LogicHandle) : Signals.LogicHandle := {| Signals.size := width s |}.
Definition value (s : LogicHandle) w : option (list Signals.t_vpi_vecval) := vpi_get_vector (ptr (logic_h s)) w.

(** A write: the words [Signals] computes, handed to the simulator. *)
Definition put (s : LogicHandle) (ws : Exec (list Signals.t_vpi_vecval)) w : Exec W :=
  match ws with Done l => Done (vpi_put_vector (ptr (logic_h s)) l w) | Panic m => Panic m end.
Definition set_bool_now s (v : bool) w := put s (Signals.set_bool (sig s) v) w.
Definition set_u8_now s (v : Z) w := put s (Signals.set_u8 (sig s) v) w.
Definition set_u16_now s (v : Z) w := put s (Signals.set_u16 (sig s) v) w.
Definition set_u32_now s (v : Z) w := put s (Signals.set_u32 (sig s) v) w.
Definition set_u64_now s (v : Z) w := put s (Signals.set_u64 (sig s) v) w.
Definition set_u128_now s (v : Z) w := put s (Signals.set_u128 (sig s) v) w.
Definition set_bigint_now s (v : B) w := put s (Signals.set_bigint (sig s) v) w.
Definition set_logic_now s (v : LogicArray.LogicArray B) w := put s (Signals.set_logic (sig s) v) w.

(** *** The top module *)

Definition top_modules w : list HierarchyHandle := map (λ h, {| hier_h := h |}) (scan vpiModule 0 w).

Definition select_top_module (explicit_name : option string) w : Exec (Result HierarchyHandle HandleError) :=
  match explicit_name with
  | Some name =>
      match cstring_expect name "NUL in RUSTDV_TOP" with
      | Panic m => Panic m
      | Done cname =>
          match obj_new (vpi_handle_by_name cname 0 w) with
          | None => Done (Err (NotFound name "<top-level>"))
          | Some h => Done (as_hierarchy (classify h w) w)
          end
      end
  | None => Done (match head (top_modules w) with Some m => Ok m | None => Err NoTopModule end)
  end.

(** [env] is the variable [RUSTDV_TOP], if it is set and valid Unicode. *)
Definition top_module (env : option string) w : Exec (Result HierarchyHandle HandleError) :=
  select_top_module (n ← env; let t := str_trim n in if decide (t = EmptyString) then None else Some t) w.
End Gpi.
End Gpi.

(** ** rustdv-sim *)

Module Sim.
Section Sim.
Context {W F : Type} `{!Vpi W F} {B : Type} `{!BigUint B}.
Implicit Types (w : W).

Record HierarchyHandle := { raw_hier : Gpi.HierarchyHandle }.
Record LogicHandle := { raw_logic : Gpi.LogicHandle }.
Record RealHandle := { raw_real : Gpi.RealHandle }.
Record StringHandle := { raw_string : Gpi.StringHandle }.
Record AggregateHandle := { raw_agg : Gpi.AggregateHandle }.

Inductive SimHandle :=
| Hierarchy (h : HierarchyHandle)
| Logic (h : LogicHandle)
| Real (h : RealHandle)
| String_ (h : StringHandle)
| Struct_ (h : AggregateHandle)
| Union_ (h : AggregateHandle)
| Other.

Definition wrap (h : Gpi.AnyHandle) : SimHandle :=
  match h with
  | Gpi.Hierarchy raw => Hierarchy {| raw_hier := raw |}
  | Gpi.Logic raw => Logic {| raw_logic := raw |}
  | Gpi.Real raw => Real {| raw_real := raw |}
  | Gpi.String_ raw => String_ {| raw_string := raw |}
  | Gpi.Struct_ raw => Struct_ {| raw_agg := raw |}
  | Gpi.Union_ raw => Union_ {| raw_agg := raw |}
  | Gpi.Other _ => Other
  end.

Definition wrong_kind (s : SimHandle) (expected : string) w : Gpi.HandleError :=
  let '(name, actual) := match s with
    | Hierarchy h => (Gpi.hier_full_name (raw_hier h) w, "module")
    | Logic h => (Gpi.logic_full_name (raw_logic h) w, "signal")
    | Real h => (Gpi.real_full_name (raw_real h) w, "real")
    | String_ h => (Gpi.string_full_name (raw_string h) w, "string")
    | Struct_ h => (Gpi.agg_full_name (raw_agg h) w, "struct")
    | Union_ h => (Gpi.agg_full_name (raw_agg h) w, "union")
    | Other => ("<unknown>", "unsupported simulator object")
    end in
  Gpi.WrongKind name expected actual.

Definition as_hierarchy (s : SimHandle) w : Result HierarchyHandle Gpi.HandleError :=
  match s with Hierarchy h => Ok h | other => Err (wrong_kind other "module" w) end.
Definition as_signal (s : SimHandle) w : Result LogicHandle Gpi.HandleError :=
  match s with Logic h => Ok h | other => Err (wrong_kind other "signal" w) end.
Definition as_real (s : SimHandle) w : Result RealHandle Gpi.HandleError :=
  match s with Real h => Ok h | other => Err (wrong_kind other "real" w) end.
Definition as_string (s : SimHandle) w : Result StringHandle Gpi.HandleError :=
  match s with String_ h => Ok h | other => Err (wrong_kind other "string" w) end.
Definition as_aggregate (s : SimHandle) w : Result AggregateHandle Gpi.HandleError :=
  match s with Struct_ h | Union_ h => Ok h | other => Err (wrong_kind other "struct or union" w) end.
Definition is_other (s : SimHandle) : bool := match s with Other => true | _ => false end.

(** The trait [HandleChildren] and its provided methods. *)
Class HandleChildren (C : Type) := {
  child : C → string → W → Exec (Result SimHandle Gpi.HandleError);
  children : C → W → list SimHandle;
}.
Section Provided.
Context {C : Type} `{!HandleChildren C}.
Definition signal (s : C) (name : string) w := Gpi.and_then (child s name w) (λ a, as_signal a w).
Definition real (s : C) (name : string) w := Gpi.and_then (child s name w) (λ a, as_real a w).
Definition string_ (s : C) (name : string) w := Gpi.and_then (child s name w) (λ a, as_string a w).
Definition hierarchy (s : C) (name : string) w := Gpi.and_then (child s name w) (λ a, as_hierarchy a w).
Definition aggregate (s : C) (name : string) w := Gpi.and_then (child s name w) (λ a, as_aggregate a w).
End Provided.

#[global] Instance hierarchy_children : HandleChildren HierarchyHandle := {
  child s name w := Gpi.and_then (Gpi.hier_child (raw_hier s) name w) (λ a, Ok (wrap a));
  children s w := map wrap (Gpi.hier_children (raw_hier s) w);
}.
#[global] Instance aggregate_children : HandleChildren AggregateHandle := {
  child s name w := Gpi.and_then (Gpi.agg_child (raw_agg s) name w) (λ a, Ok (wrap a));
  children s w := map wrap (Gpi.agg_children (raw_agg s) w);
}.

Definition top_module (env : option string) w : Exec (Result HierarchyHandle Gpi.HandleError) :=
  Gpi.and_then (Gpi.top_module env w) (λ raw, Ok {| raw_hier := raw |}).

(** *** Reads *)

Definition get_binstr (s : LogicHandle) w : Exec (Result string ValueError) :=
  Signals.er_bind (Signals.get_logic (B:=B) (Gpi.sig (raw_logic s)) (Gpi.value (raw_logic s) w))
    (λ v, Done (Ok (LogicArray.to_binstr v))).
Definition get_bool (s : LogicHandle) w : Exec (Result bool ValueError) :=
  Signals.get_bool (B:=B) (Gpi.sig (raw_logic s)) (Gpi.value (raw_logic s) w).
Definition is_value (b : bool) (s : LogicHandle) w : Exec bool :=
  match get_bool s w with Done (Ok x) => Done (Bool.eqb x b) | Done (Err _) => Done false | Panic m => Panic m end.
Definition is_high := is_value true.
Definition is_low := is_value false.

(** *** Writes: the phase hub and the simulator together *)

Abbreviation Val := (PhaseHub.WriteVal (LogicArray.LogicArray B) B F).
Abbreviation HubSys := (@PhaseHub.Sys (LogicArray.LogicArray B) B F).
Abbreviation HubAct := (@PhaseHub.Act (LogicArray.LogicArray B) B F).

Record World := { sys : HubSys; sim : W }.

Definition of_logic (s : LogicHandle) : PhaseHub.WriteTarget :=
  PhaseHub.TLogic (Gpi.ptr (Gpi.logic_h (raw_logic s)), Gpi.width (raw_logic s)).
Definition of_real (s : RealHandle) : PhaseHub.WriteTarget := PhaseHub.TReal (Gpi.ptr (Gpi.real_h (raw_real s))).
Definition of_string (s : StringHandle) : PhaseHub.WriteTarget := PhaseHub.TString (Gpi.ptr (Gpi.string_h (raw_string s))).

Definition logic_at (pn : nat * nat) : Gpi.LogicHandle := {| Gpi.logic_h := Gpi.Obj pn.1; Gpi.width := pn.2 |}.
Definition target_name w (t : PhaseHub.WriteTarget) : string :=
  match t with
  | PhaseHub.TLogic pn => Gpi.logic_full_name (logic_at pn) w
  | PhaseHub.TReal p => Gpi.real_full_name {| Gpi.real_h := Gpi.Obj p |} w
  | PhaseHub.TString p => Gpi.string_full_name {| Gpi.string_h := Gpi.Obj p |} w
  end.

(** What [apply_write] does to the simulator. *)
Definition perform (a : HubAct) w : Exec W :=
  match a with
  | PhaseHub.AWake _ => Done w
  | PhaseHub.AWrite (PhaseHub.TReal p) (PhaseHub.WReal x) => Done (Gpi.real_set_now {| Gpi.real_h := Gpi.Obj p |} x w)
  | PhaseHub.AWrite (PhaseHub.TString p) (PhaseHub.WString x) =>
      match Gpi.string_set_now {| Gpi.string_h := Gpi.Obj p |} x w with
      | Ok w' => Done w'
      | Err _ => Panic "scheduled string was validated"
      end
  | PhaseHub.AWrite (PhaseHub.TLogic pn) v =>
      let h := logic_at pn in
      match v with
      | PhaseHub.WBool x => Gpi.set_bool_now h x w
      | PhaseHub.WU8 x => Gpi.set_u8_now h x w
      | PhaseHub.WU16 x => Gpi.set_u16_now h x w
      | PhaseHub.WU32 x => Gpi.set_u32_now h x w
      | PhaseHub.WU64 x => Gpi.set_u64_now h x w
      | PhaseHub.WU128 x => Gpi.set_u128_now h x w
      | PhaseHub.WBigInt x => Gpi.set_bigint_now h x w
      | PhaseHub.WLogic x => Gpi.set_logic_now h x w
      | _ => Panic "internal error: entered unreachable code: write target/value mismatch"
      end
  | _ => Panic "internal error: entered unreachable code: write target/value mismatch"
  end.
Fixpoint perform_all (l : list HubAct) w : Exec W :=
  match l with
  | [] => Done w
  | a :: r => match perform a w with Done w' => perform_all r w' | Panic m => Panic m end
  end.

(** The hub has moved to [y]: its new acts reach the simulator, in order. *)
Definition catch_up (s : World) (y : HubSys) : Exec World :=
  match perform_all (drop (length (PhaseHub.acts (PhaseHub.hub (sys s)))) (PhaseHub.acts (PhaseHub.hub y))) (sim s) with
  | Done w => Done {| sys := y; sim := w |}
  | Panic m => Panic m
  end.

Definition schedule (t : PhaseHub.WriteTarget) (v : Val) (s : World) : Exec World :=
  match PhaseHub.schedule (target_name (sim s)) t v (PhaseHub.hub (sys s)) with
  | Done h => catch_up s {| PhaseHub.hub := h; PhaseHub.futs := PhaseHub.futs (sys s) |}
  | Panic m => Panic m
  end.
Definition deny_write_in_read_only (t : PhaseHub.WriteTarget) (s : World) : Exec World :=
  match PhaseHub.deny_write_in_read_only (target_name (sim s)) t (PhaseHub.hub (sys s)) with
  | Done _ => Done s
  | Panic m => Panic m
  end.

Definition set_bool (l : LogicHandle) (v : bool) := schedule (of_logic l) (PhaseHub.WBool v).
Definition set_u8 (l : LogicHandle) (v : Z) := schedule (of_logic l) (PhaseHub.WU8 v).
Definition set_u16 (l : LogicHandle) (v : Z) := schedule (of_logic l) (PhaseHub.WU16 v).
Definition set_u32 (l : LogicHandle) (v : Z) := schedule (of_logic l) (PhaseHub.WU32 v).
Definition set_u64 (l : LogicHandle) (v : Z) := schedule (of_logic l) (PhaseHub.WU64 v).
Definition set_u128 (l : LogicHandle) (v : Z) := schedule (of_logic l) (PhaseHub.WU128 v).
Definition set_bigint (l : LogicHandle) (v : B) := schedule (of_logic l) (PhaseHub.WBigInt v).
Definition set_logic (l : LogicHandle) (v : LogicArray.LogicArray B) := schedule (of_logic l) (PhaseHub.WLogic v).
Definition set_real (l : RealHandle) (v : F) := schedule (of_real l) (PhaseHub.WReal v).
Definition set_string (l : StringHandle) (v : string) (s : World) : Exec (Result World ValueError) :=
  match deny_write_in_read_only (of_string l) s with
  | Panic m => Panic m
  | Done s =>
      if has_nul v then Done (Err InteriorNul)
      else match schedule (of_string l) (PhaseHub.WString v) s with Done s' => Done (Ok s') | Panic m => Panic m end
  end.

(** The immediate writes keep the read-only rule. *)
Definition write_now (t : PhaseHub.WriteTarget) (put : W → Exec W) (s : World) : Exec World :=
  match deny_write_in_read_only t s with
  | Panic m => Panic m
  | Done s => match put (sim s) with Done w => Done {| sys := sys s; sim := w |} | Panic m => Panic m end
  end.
Definition set_bool_now (l : LogicHandle) v := write_now (of_logic l) (Gpi.set_bool_now (raw_logic l) v).
Definition set_u8_now (l : LogicHandle) v := write_now (of_logic l) (Gpi.set_u8_now (raw_logic l) v).
Definition set_u16_now (l : LogicHandle) v := write_now (of_logic l) (Gpi.set_u16_now (raw_logic l) v).
Definition set_u32_now (l : LogicHandle) v := write_now (of_logic l) (Gpi.set_u32_now (raw_logic l) v).
Definition set_u64_now (l : LogicHandle) v := write_now (of_logic l) (Gpi.set_u64_now (raw_logic l) v).
Definition set_u128_now (l : LogicHandle) v := write_now (of_logic l) (Gpi.set_u128_now (raw_logic l) v).
Definition set_bigint_now (l : LogicHandle) (v : B) := write_now (of_logic l) (Gpi.set_bigint_now (raw_logic l) v).
Definition set_logic_now (l : LogicHandle) (v : LogicArray.LogicArray B) :=
  write_now (of_logic l) (Gpi.set_logic_now (raw_logic l) v).
Definition set_real_now (l : RealHandle) (v : F) := write_now (of_real l) (λ w, Done (Gpi.real_set_now (raw_real l) v w)).
Definition set_string_now (l : StringHandle) (v : string) (s : World) : Exec (Result World ValueError) :=
  match deny_write_in_read_only (of_string l) s with
  | Panic m => Panic m
  | Done s =>
      match Gpi.string_set_now (raw_string l) v (sim s) with
      | Ok w => Done (Ok {| sys := sys s; sim := w |})
      | Err e => Done (Err e)
      end
  end.

(** The simulator calls the read-write callback; [os] is what tasks then do. *)
Definition read_write (os : list PhaseHub.Op) (s : World) : Exec World :=
  match PhaseHub.rw_callback (target_name (sim s)) os (sys s) with
  | Done y => catch_up s y
  | Panic m => Panic m
  end.

End Sim.
End Sim.

(** ** What a simulator promises *)

Section Puts.
Context {W F : Type} `{!Vpi W F}.

Inductive Put :=
| PVector (h : vpiHandle) (ws : list Signals.t_vpi_vecval)
| PReal (h : vpiHandle) (x : F)
| PString (h : vpiHandle) (x : string).

Definition put_handle (p : Put) : vpiHandle := match p with PVector h _ | PReal h _ | PString h _ => h end.
Definition do_put (p : Put) (w : W) : W :=
  match p with
  | PVector h ws => vpi_put_vector h ws w
  | PReal h x => vpi_put_real h x w
  | PString h x => vpi_put_string h x w
  end.

(** Two states with the same design. *)
Definition same_design (w w' : W) : Prop :=
  (∀ p h, vpi_get p h w = vpi_get p h w') ∧ (∀ p h, vpi_get_str p h w = vpi_get_str p h w') ∧
  (∀ n h, vpi_handle_by_name n h w = vpi_handle_by_name n h w') ∧ (∀ t h, vpi_iterate t h w = vpi_iterate t h w').
(** Two states that hold the same value for an object. *)
Definition same_value (h : vpiHandle) (w w' : W) : Prop :=
  vpi_get_vector h w = vpi_get_vector h w' ∧ vpi_get_real h w = vpi_get_real h w' ∧
  vpi_get_string h w = vpi_get_string h w'.

Definition vpi_width (h : vpiHandle) (w : W) : nat := Z.to_nat (Z.max (vpi_get vpiSize h w) 0).
End Puts.

(** A write changes no design and no object but the one its handle stands for;
    two-state words put are the words read back, as are reals and texts.
    [same_object] is [vpi_compare_objects]: a simulator may give one object
    several handles. *)
Class VpiLaws (W F : Type) `{!Vpi W F} := {
  same_object : vpiHandle → vpiHandle → bool;
  same_object_refl h : same_object h h = true;
  put_design p w : same_design (do_put p w) w;
  put_other p w h : same_object (put_handle p) h = false → same_value h (do_put p w) w;
  put_vector_get h ws w y : h ≠ 0%nat → vpi_get vpiType h w ∈ logic_types →
    Signals.stored {| Signals.size := vpi_width h w |} ws y → vpi_get_vector h (vpi_put_vector h ws w) = Some ws;
  put_real_get h x w : h ≠ 0%nat → vpi_get vpiType h w = vpiRealVar → vpi_get_real h (vpi_put_real h x w) = Some x;
  put_string_get h x w : h ≠ 0%nat → vpi_get vpiType h w = vpiStringVar → has_nul x = false →
    vpi_get_string h (vpi_put_string h x w) = Some (Some x);
  iterate_modules scope w l h : vpi_iterate vpiModule scope w = Some l → h ∈ l → h ≠ 0%nat →
    vpi_get vpiType h w = vpiModule;
}.

Module Handles.
Import Gpi.

Section Types.
Context {W F : Type} `{!Vpi W F} {B : Type} `{!BigUint B}.
Implicit Types (w : W).

(** *** Well-typed handles *)

Definition of_type (ts : list Z) (h : ObjHandle) w : Prop := ptr h ≠ 0%nat ∧ vpi_get vpiType (ptr h) w ∈ ts.
Definition logic_ok (h : LogicHandle) w : Prop := of_type logic_types (logic_h h) w ∧ width h = vpi_width (ptr (logic_h h)) w.

Definition handle_ok (a : AnyHandle) w : Prop :=
  match a with
  | Hierarchy h => of_type [vpiModule] (hier_h h) w
  | Logic h => logic_ok h w
  | Real h => of_type [vpiRealVar] (real_h h) w
  | String_ h => of_type [vpiStringVar] (string_h h) w
  | Struct_ h => of_type [vpiStructVar] (agg_h h) w
  | Union_ h => of_type [vpiUnionVar] (agg_h h) w
  | Other h => ptr h ≠ 0%nat
  end.
Definition sim_ok (a : Sim.SimHandle) w : Prop := ∃ r, a = Sim.wrap r ∧ handle_ok r w.

Lemma classify_ok h w : ptr h ≠ 0%nat → handle_ok (classify h w) w.
Proof.
  intros Hn. unfold classify, obj_get.
  repeat (case_match; [unfold handle_ok, of_type; cbn [hier_h real_h string_h agg_h];
    split; [done|]; apply list_elem_of_singleton; by apply Z.eqb_eq|]).
  case_bool_decide; [|done]. by repeat split.
Qed.

Lemma obj_new_ok p h : obj_new p = Some h → ptr h = p ∧ p ≠ 0%nat.
Proof. unfold obj_new. destruct (Nat.eqb_spec p 0); intros; by simplify_eq. Qed.

Lemma object_classify h w : object (classify h w) = h.
Proof. unfold classify. by repeat case_match. Qed.

Lemma scan_ok t scope w h : h ∈ scan t scope w → ptr h ≠ 0%nat.
Proof.
  unfold scan. destruct (vpi_iterate t scope w); [|by intros ?%not_elem_of_nil].
  intros (p & _ & Hp)%list_elem_of_omap. by destruct (obj_new_ok _ _ Hp) as [-> ?].
Qed.

(** What a container of handles promises to those who look objects up in it. *)
Class HandleChildrenLaws (C : Type) `{!Sim.HandleChildren C} := {
  child_ok (s : C) name w a : Sim.child s name w = Done (Ok a) → sim_ok a w;
  children_ok (s : C) w a : a ∈ Sim.children s w → sim_ok a w;
}.

Lemma and_then_wrap_ok (c : Exec (Result AnyHandle HandleError)) w a :
  (∀ r, c = Done (Ok r) → handle_ok r w) → and_then c (λ r, Ok (Sim.wrap r)) = Done (Ok a) → sim_ok a w.
Proof. intros Hc. destruct c as [[r|]|]; simpl; intros; simplify_eq. exists r. eauto. Qed.

#[global] Instance hierarchy_children_laws : HandleChildrenLaws Sim.HierarchyHandle.
Proof.
  split.
  - intros s name w a. simpl. apply and_then_wrap_ok. intros r. unfold hier_child. case_match; [|done].
    destruct (obj_new _) as [h|] eqn:E; intros; simplify_eq. apply classify_ok. by destruct (obj_new_ok _ _ E) as [-> ?].
  - intros s w a. simpl. unfold hier_children. intros (r & -> & Hr)%list_elem_of_fmap. exists r. split; [done|].
    apply list_elem_of_join in Hr as (l & Hr & Hl). apply list_elem_of_fmap in Hl as (t & -> & _).
    apply list_elem_of_fmap in Hr as (h & -> & Hh). by apply classify_ok, (scan_ok _ _ _ _ Hh).
Qed.

#[global] Instance aggregate_children_laws : HandleChildrenLaws Sim.AggregateHandle.
Proof.
  split.
  - intros s name w a. simpl. apply and_then_wrap_ok. intros r. unfold agg_child. case_match; [|done].
    destruct (obj_new _) as [h|] eqn:E; intros; simplify_eq. apply classify_ok. by destruct (obj_new_ok _ _ E) as [-> ?].
  - intros s w a. simpl. intros (r & -> & Hr)%list_elem_of_fmap. exists r. split; [done|].
    apply list_elem_of_fmap in Hr as (h & -> & Hh). by apply classify_ok, (scan_ok _ _ _ _ Hh).
Qed.

(** *** The outcome of a lookup *)

(** The error of a lookup that failed. *)
Definition failure {A} (r : Exec (Result A HandleError)) : option HandleError :=
  match r with Done (Err e) => Some e | _ => None end.
Definition failures {C} `{!Sim.HandleChildren C} (s : C) (name : string) w : list (option HandleError) :=
  [failure (Sim.signal s name w); failure (Sim.real s name w); failure (Sim.string_ s name w);
   failure (Sim.hierarchy s name w); failure (Sim.aggregate s name w)].

Definition supported (t : Z) : bool :=
  bool_decide (t ∈ [vpiModule; vpiRealVar; vpiStringVar; vpiStructVar; vpiUnionVar] ++ logic_types).

(** Of the five accessors at most one accepts a handle. *)
Definition casts (a : Sim.SimHandle) w : list (option HandleError) :=
  [failure (Done (Sim.as_signal a w)); failure (Done (Sim.as_real a w)); failure (Done (Sim.as_string a w));
   failure (Done (Sim.as_hierarchy a w)); failure (Done (Sim.as_aggregate a w))].

Definition accepted (l : list (option HandleError)) : nat := length (filter (λ e, e = None) l).

Lemma casts_ok a w : accepted (casts a w) = (if Sim.is_other a then 0 else 1)%nat.
Proof. by destruct a. Qed.

Lemma failures_casts {C} `{!Sim.HandleChildren C} (s : C) name w a :
  Sim.child s name w = Done (Ok a) → failures s name w = casts a w.
Proof. intros E. unfold failures, Sim.signal, Sim.real, Sim.string_, Sim.hierarchy, Sim.aggregate. by rewrite E. Qed.

(** The errors of one lookup are about the object looked at. *)
Definition blames (name : string) (l : list (option HandleError)) : Prop :=
  ∀ e, Some e ∈ l → ∃ expected actual, e = WrongKind name expected actual.

Lemma casts_blame r w :
  blames (if Sim.is_other (Sim.wrap r) then "<unknown>" else get_str (object r) vpiFullName w) (casts (Sim.wrap r) w).
Proof.
  intros e He. unfold casts in He. rewrite !elem_of_cons in He.
  destruct r; simpl in *; destruct He as [He|[He|[He|[He|[He|He]]]]]; try (by apply not_elem_of_nil in He);
    simplify_eq; by eexists _, _.
Qed.

Lemma classify_other h w : Sim.is_other (Sim.wrap (classify h w)) = negb (supported (vpi_get vpiType (ptr h) w)).
Proof.
  unfold classify, obj_get, supported. generalize (vpi_get vpiType (ptr h) w) as t. intros t.
  destruct (Z.eqb_spec t vpiModule) as [-> |]; [done|]. destruct (Z.eqb_spec t vpiRealVar) as [-> |]; [done|].
  destruct (Z.eqb_spec t vpiStringVar) as [-> |]; [done|]. destruct (Z.eqb_spec t vpiStructVar) as [-> |]; [done|].
  destruct (Z.eqb_spec t vpiUnionVar) as [-> |]; [done|].
  destruct (bool_decide_reflect (t ∈ logic_types)) as [Ht|Ht]; simpl.
  - rewrite bool_decide_true; [done|]. by do 5 right.
  - rewrite bool_decide_false; [done|]. rewrite !elem_of_cons. intuition.
Qed.

End Types.

Section Lookups.
Context {W F : Type} `{!Vpi W F} `{!VpiLaws W F} {B : Type} `{!BigUint B}.
Implicit Types (w : W).

Lemma of_type_put ts h p w : of_type ts h w → of_type ts h (do_put p w).
Proof. destruct (put_design p w) as [Hg _]. unfold of_type. by rewrite Hg. Qed.

Lemma logic_ok_put h p w : logic_ok h w → logic_ok h (do_put p w).
Proof.
  intros [Ht Hw]. split; [by apply of_type_put|]. destruct (put_design p w) as [Hg _]. unfold vpi_width in *. by rewrite Hg.
Qed.


(** Looking up a name in a module has one of three outcomes: the object does
    not exist and all five typed lookups report it missing in that scope; its
    type is not supported and all five refuse it; or exactly one of them accepts
    it and the other four name the object as being of the wrong kind.  The typed
    lookups of rustdv-gpi accept exactly the same objects. *)
Theorem lookup_outcome (s : Sim.HierarchyHandle) name w :
  has_nul name = false →
  let o := vpi_handle_by_name name (ptr (hier_h (Sim.raw_hier s))) w in
  let ok := supported (vpi_get vpiType o w) in
  (if decide (o = 0%nat) then failures s name w = replicate 5 (Some (NotFound name (hier_full_name (Sim.raw_hier s) w)))
   else accepted (failures s name w) = (if ok then 1 else 0)%nat ∧
     blames (if ok then get_str (Obj o) vpiFullName w else "<unknown>") (failures s name w)) ∧
  (∀ l, Sim.signal s name w = Done (Ok l) ↔ hier_signal (Sim.raw_hier s) name w = Done (Ok (Sim.raw_logic l))) ∧
  (∀ l, Sim.real s name w = Done (Ok l) ↔ hier_real (Sim.raw_hier s) name w = Done (Ok (Sim.raw_real l))) ∧
  (∀ l, Sim.string_ s name w = Done (Ok l) ↔ hier_string (Sim.raw_hier s) name w = Done (Ok (Sim.raw_string l))) ∧
  (∀ l, Sim.aggregate s name w = Done (Ok l) ↔ hier_aggregate (Sim.raw_hier s) name w = Done (Ok (Sim.raw_agg l))).
Proof.
  intros Hn o ok.
  assert (hier_child (Sim.raw_hier s) name w = match obj_new o with
    | Some h => Done (Ok (classify h w)) | None => Done (Err (NotFound name (hier_full_name (Sim.raw_hier s) w))) end) as Hc
    by (unfold hier_child, cstring_expect; by rewrite Hn).
  assert (Sim.child s name w = and_then (hier_child (Sim.raw_hier s) name w) (λ a, Ok (Sim.wrap a))) as Hc' by done.
  unfold obj_new in Hc. destruct (Nat.eqb_spec o 0) as [E|E];
    [rewrite decide_True by done|rewrite decide_False by done]; rewrite Hc in Hc'; cbn [and_then] in Hc'.
  - unfold failures, Sim.signal, Sim.real, Sim.string_, Sim.hierarchy, Sim.aggregate,
      hier_signal, hier_real, hier_string, hier_aggregate. rewrite Hc', Hc. simpl. by split_and_all.
  - pose proof (classify_other (Obj o) w) as Ho. simpl in Ho.
    pose proof (casts_ok (Sim.wrap (classify (Obj o) w)) w) as Ha. rewrite Ho in Ha.
    pose proof (casts_blame (classify (Obj o) w) w) as Hb. rewrite Ho, object_classify in Hb. fold ok in Ha, Hb.
    rewrite (failures_casts s name w _ Hc'). split; [split; [by rewrite Ha; destruct ok|by destruct ok]|].
    unfold Sim.signal, Sim.real, Sim.string_, Sim.aggregate, hier_signal, hier_real, hier_string, hier_aggregate.
    rewrite Hc', Hc. split_and_all; intros [l]; destruct (classify (Obj o) w); simpl; naive_solver.
Qed.

(** The top module is always a module: the one [RUSTDV_TOP] names, surrounding
    blanks aside, or the first root of the design when the variable is unset or
    blank; a name that is no object, a name that is no module and a design
    without roots are the only errors. *)
Theorem top_module_spec env w :
  (∀ n, env = Some n → has_nul n = false) →
  (∀ m, Sim.top_module env w = Done (Ok m) → of_type [vpiModule] (hier_h (Sim.raw_hier m)) w) ∧
  match (if decide (env = None ∨ str_trim <$> env = Some EmptyString) then None else env) with
  | None => Sim.top_module env w = Done (match head (top_modules w) with
      | Some m => Ok {| Sim.raw_hier := m |} | None => Err NoTopModule end)
  | Some n =>
      let o := vpi_handle_by_name (str_trim n) 0%nat w in
      Sim.top_module env w = Done (if decide (o = 0%nat) then Err (NotFound (str_trim n) "<top-level>")
        else if decide (vpi_get vpiType o w = vpiModule) then Ok {| Sim.raw_hier := {| hier_h := Obj o |} |}
        else Err (WrongKind (get_str (Obj o) vpiFullName w) "module" ("vpiType " +:+ pretty (vpi_get vpiType o w))))
  end.
Proof.
  intros Hnul. unfold Sim.top_module, top_module.
  assert (∀ m, head (top_modules w) = Some m → of_type [vpiModule] (hier_h m) w) as Hhead.
  { intros m Hm. apply head_Some_elem_of, list_elem_of_fmap in Hm as (h & -> & Hh). cbn [hier_h].
    split; [by eapply scan_ok|]. apply list_elem_of_singleton. unfold scan in Hh.
    destruct (vpi_iterate vpiModule 0 w) as [l|] eqn:El; [|by apply not_elem_of_nil in Hh].
    apply list_elem_of_omap in Hh as (p & Hp & Hn). destruct (obj_new_ok _ _ Hn) as [-> ?]. by eapply iterate_modules. }
  assert (∀ m : Sim.HierarchyHandle, and_then (Done match head (top_modules w) with Some m => Ok m | None => Err NoTopModule end)
     (λ raw, Ok {| Sim.raw_hier := raw |}) = Done (Ok m) → of_type [vpiModule] (hier_h (Sim.raw_hier m)) w) as Hroot.
  { intros m. destruct (head (top_modules w)) as [m'|]; simpl; intros; simplify_eq. by apply Hhead. }
  destruct env as [n|]; simpl; [|split; [done|]; by destruct (head _)].
  destruct (decide (str_trim n = EmptyString)) as [E|E]; simpl.
  - rewrite decide_True by (right; by rewrite E). split; [done|]. by destruct (head _).
  - rewrite decide_False by (intros [?|?]; congruence).
    unfold cstring_expect. rewrite (has_nul_trim n) by eauto. set (o := vpi_handle_by_name _ _ _).
    unfold obj_new. destruct (Nat.eqb_spec o 0) as [Eo|Eo]; [rewrite decide_True by done; by split|].
    rewrite decide_False by done. simpl. unfold as_hierarchy, wrong_kind, classify, obj_get. simpl.
    destruct (Z.eqb_spec (vpi_get vpiType o w) vpiModule) as [Et|Et].
    + rewrite decide_True by done. split; [|done]. intros m Hm. simpl in Hm. simplify_eq. simpl.
      split; [done|]. by apply list_elem_of_singleton.
    + rewrite decide_False by done. by repeat case_match; simplify_eq/=.
Qed.

End Lookups.

Section Writes.
Context {W F : Type} `{!Vpi W F} `{!VpiLaws W F} {B : Type} `{!BigUint B} `{!BigUintLaws B}.
Implicit Types (w : W) (t : PhaseHub.WriteTarget).
Abbreviation Val := (PhaseHub.WriteVal (LogicArray.LogicArray B) B F).

(** *** One write *)

Definition target_handle t : vpiHandle :=
  match t with PhaseHub.TLogic pn => pn.1 | PhaseHub.TReal p | PhaseHub.TString p => p end.
Definition target_ok t w : Prop :=
  match t with
  | PhaseHub.TLogic pn => logic_ok (Sim.logic_at pn) w
  | PhaseHub.TReal p => of_type [vpiRealVar] (Obj p) w
  | PhaseHub.TString p => of_type [vpiStringVar] (Obj p) w
  end.

(** The number an integer write means. *)
Definition intended (v : Val) : option Z :=
  match v with
  | PhaseHub.WBool x => Some (if x then 1 else 0)
  | PhaseHub.WU8 x | PhaseHub.WU16 x | PhaseHub.WU32 x | PhaseHub.WU64 x | PhaseHub.WU128 x => Some x
  | PhaseHub.WBigInt x => Some (bu_val x)
  | _ => None
  end.
(** The values of the machine types are in range. *)
Definition in_range (v : Val) : Prop :=
  match v with
  | PhaseHub.WU8 x => fits 8 x
  | PhaseHub.WU16 x => fits 16 x
  | PhaseHub.WU32 x => fits 32 x
  | PhaseHub.WU64 x => fits 64 x
  | PhaseHub.WU128 x => fits 128 x
  | _ => True
  end.
(** An integer for a signal, a real for a real, a text without NUL for a string. *)
Definition landable (tv : PhaseHub.WriteTarget * Val) : Prop :=
  PhaseHub.typed tv.1 tv.2 = true ∧ in_range tv.2 ∧
  match tv.1 with PhaseHub.TLogic _ => is_Some (intended tv.2) | _ => True end.

(** What the simulator then holds. *)
Definition reads_as t (v : Val) w : Prop :=
  match t, v with
  | PhaseHub.TReal p, PhaseHub.WReal x => real_get {| real_h := Obj p |} w = Ok x
  | PhaseHub.TString p, PhaseHub.WString x => string_get {| string_h := Obj p |} w = Ok x
  | PhaseHub.TLogic pn, _ => ∃ x ws, intended v = Some x ∧ value (Sim.logic_at pn) w = Some ws ∧
      Signals.holds (B:=B) (sig (Sim.logic_at pn)) ws (wrap (Z.of_nat pn.2) x)
  | _, _ => False
  end.

Lemma reads_as_same t v w w' : same_value (target_handle t) w' w → reads_as t v w → reads_as t v w'.
Proof.
  intros (Hv & Hr & Hs). destruct t, v; simpl in *; unfold real_get, string_get, value; simpl; try done;
    rewrite ?Hv, ?Hr, ?Hs; done.
Qed.

Lemma target_ok_put t p w : target_ok t w → target_ok t (do_put p w).
Proof. destruct t; simpl; [apply logic_ok_put|apply of_type_put..]. Qed.

(** Words that land are read back. *)
Lemma put_lands pn (r : Exec (list Signals.t_vpi_vecval)) (v : Val) x w :
  logic_ok (Sim.logic_at pn) w → Signals.lands (B:=B) (sig (Sim.logic_at pn)) r x → intended v = Some x →
  ∃ p, put_handle p = pn.1 ∧ put (Sim.logic_at pn) r w = Done (do_put p w) ∧ reads_as (PhaseHub.TLogic pn) v (do_put p w).
Proof.
  intros [[Hn Ht] Hw] (ws & -> & Hh & Hst) Hx. simpl in *. exists (PVector pn.1 ws). split; [done|]. split; [done|].
  simpl. exists x, ws. split; [done|]. split; [|done]. unfold value. simpl.
  eapply put_vector_get; [done|done|]. rewrite <- Hw. exact Hst.
Qed.

Lemma perform_lands t v w : target_ok t w → landable (t, v) →
  ∃ p, put_handle p = target_handle t ∧ Sim.perform (PhaseHub.AWrite t v) w = Done (do_put p w) ∧ reads_as t v (do_put p w).
Proof.
  intros Hok (Hty & Hr & Hi). destruct t as [pn|p|p]; cbn [fst snd] in *.
  - destruct v as [x|x|x|x|x|x|x|x|x|x]; simpl in Hty, Hr, Hi; try (by destruct Hi);
      (eapply (put_lands pn _ _ _ w Hok); [|reflexivity]).
    1: exact (proj1 (Signals.set_lands _ 0 bu_ZERO) x).
    1-5: destruct (Signals.set_lands (sig (Sim.logic_at pn)) x bu_ZERO) as (_ & ? & ? & ? & ? & ? & _); eauto.
    by destruct (Signals.set_lands (sig (Sim.logic_at pn)) 0 x) as (_ & _ & _ & _ & _ & _ & ?).
  - destruct v; try done. exists (PReal p x). split_and_all; [done|done|]. simpl. unfold real_get. simpl.
    destruct Hok as [Hn Ht]. rewrite put_real_get; [done|done|]. by apply list_elem_of_singleton in Ht.
  - destruct v; try done. apply negb_true_iff in Hty. exists (PString p x). split; [done|].
    split; [simpl; unfold string_set_now; by rewrite Hty|]. simpl. unfold string_get. simpl.
    destruct Hok as [Hn Ht]. rewrite put_string_get; [done|done| |done]. by apply list_elem_of_singleton in Ht.
Qed.

(** *** Many writes *)

(** The handles written to stand for different objects. *)
Definition separate (ts : list PhaseHub.WriteTarget) : Prop :=
  ∀ t t', t ∈ ts → t' ∈ ts → t ≠ t' → same_object (target_handle t) (target_handle t') = false.

Definition untouched (ts : list PhaseHub.WriteTarget) (h : vpiHandle) : Prop :=
  ∀ t, t ∈ ts → same_object (target_handle t) h = false.

Lemma same_value_trans h w1 w2 w3 : same_value h w1 w2 → same_value h w2 w3 → same_value h w1 w3.
Proof. unfold same_value. intros (?&?&?) (?&?&?). split_and_all; congruence. Qed.

(** Writes to different objects, one after the other. *)
Lemma perform_writes (l : list (PhaseHub.WriteTarget * Val)) : ∀ w,
  NoDup l.*1 → separate l.*1 → Forall (λ tv, target_ok tv.1 w ∧ landable tv) l →
  ∃ w', Sim.perform_all (map (λ tv, PhaseHub.AWrite tv.1 tv.2) l) w = Done w' ∧
    (∀ t v, (t, v) ∈ l → reads_as t v w') ∧ (∀ h, untouched l.*1 h → same_value h w' w).
Proof.
  induction l as [|[t v] l IH]; intros w Hnd Hsep Hall; simpl.
  { exists w. split; [done|]. split; [by intros ?? ?%not_elem_of_nil|by repeat split]. }
  apply Forall_cons in Hall as [[Hok Hl] Hall]. cbn [fst snd] in *. csimpl in *. apply NoDup_cons in Hnd as [Hnew Hnd].
  destruct (perform_lands t v w Hok Hl) as (p & Hp & Hperf & Hread). simpl in Hperf. rewrite Hperf.
  destruct (IH (do_put p w)) as (w' & Hrest & Hreads & Hother); [done| | |].
  { intros t1 t2 H1 H2. apply Hsep; by right. }
  { eapply Forall_impl; [exact Hall|]. intros tv [??]. split; [by apply target_ok_put|done]. }
  exists w'. split; [done|]. split.
  - intros t' v' [Heq|Hin]%elem_of_cons; [|by apply Hreads]. simplify_eq. eapply reads_as_same; [|exact Hread].
    apply Hother. intros t' Ht'. apply Hsep; [by right|by left|]. by intros ->.
  - intros h Hh. eapply same_value_trans; [apply Hother; intros t' Ht'; apply Hh; by right|].
    apply put_other. rewrite Hp. apply Hh. by left.
Qed.

Lemma perform_all_app (l1 l2 : list (@PhaseHub.Act (LogicArray.LogicArray B) B F)) w w' :
  Sim.perform_all l1 w = Done w' → Sim.perform_all (l1 ++ l2) w = Sim.perform_all l2 w'.
Proof.
  revert w. induction l1 as [|a l1 IH]; intros w; simpl; [intros; by simplify_eq|].
  destruct (Sim.perform a w); [apply IH|done].
Qed.

Lemma perform_wakes (ws : list Waker) w : Sim.perform_all (B:=B) (map PhaseHub.AWake ws) w = Done w.
Proof. by induction ws. Qed.

Fixpoint schedule_all (ws : list (PhaseHub.WriteTarget * Val)) (s : Sim.World) : Exec (Sim.World) :=
  match ws with
  | [] => Done s
  | (t, v) :: r => match Sim.schedule t v s with Done s' => schedule_all r s' | Panic m => Panic m end
  end.

(** In the normal phase scheduling leaves the simulator alone. *)
Lemma schedule_all_normal ws : ∀ s : Sim.World, PhaseHub.phase (PhaseHub.hub (Sim.sys s)) = PhaseHub.Normal →
  schedule_all ws s = Done {| Sim.sys := PhaseHub.run_ops (Sim.target_name (Sim.sim s)) (Sim.sys s)
                                 (map (λ tv, PhaseHub.OWrite tv.1 tv.2) ws); Sim.sim := Sim.sim s |}.
Proof.
  induction ws as [|[t v] ws IH]; intros s Hp; simpl; [by destruct s|].
  unfold Sim.schedule. pose proof (PhaseHub.phase_ops (Sim.target_name (Sim.sim s)) [PhaseHub.OWrite t v] (Sim.sys s)) as Hph.
  simpl in Hph. unfold PhaseHub.schedule in *. rewrite Hp in *. simpl in *. unfold Sim.catch_up.
  match goal with |- context [PhaseHub.prime ?k ?h] => destruct (PhaseHub.prime_spec k h) as (_ & _ & _ & _ & _ & _ & _ & Ha) end.
  cbn [PhaseHub.hub]. rewrite Ha. simpl. rewrite drop_all. simpl. rewrite IH by done. done.
Qed.

(** C9: a value written through typed handles reaches the simulator.  With no
    write pending, integer, real and string writes through handles of different
    objects, made in the normal phase, leave the simulator as it is; when the
    read-write callback has run, with tasks in it that write nothing themselves,
    every handle written reads as its last value (an integer reduced to the
    signal's width), every object not written to keeps its value, and nothing
    panicked on the way.  Four-state writes are left out: a simulator need not
    keep them. *)
Theorem scheduled_writes_land nm (s : Sim.World) ws os :
  PhaseHub.reachable nm (Sim.sys s) → PhaseHub.writes (PhaseHub.hub (Sim.sys s)) = [] →
  Forall (λ tv, target_ok tv.1 (Sim.sim s) ∧ landable tv) ws → separate ws.*1 → Forall PhaseHub.writes_nothing os →
  ∃ s1 s2, schedule_all ws s = Done s1 ∧ Sim.sim s1 = Sim.sim s ∧ Sim.read_write os s1 = Done s2 ∧
    (∀ t v, PhaseHub.last_value ws t = Some v → reads_as t v (Sim.sim s2)) ∧
    (∀ h, untouched ws.*1 h → same_value h (Sim.sim s2) (Sim.sim s)).
Proof.
  intros Hr He Hws Hsep Hos. destruct (PhaseHub.reachable_hub _ _ Hr) as [Hi Hp].
  set (full_name := Sim.target_name (Sim.sim s)).
  set (y := PhaseHub.run_ops full_name (Sim.sys s) (map (λ tv, PhaseHub.OWrite tv.1 tv.2) ws)).
  destruct (PhaseHub.schedule_all full_name ws (Sim.sys s) Hp) as [Hw Ha]. fold y in Hw, Ha. rewrite He in Hw.
  assert (PhaseHub.inv y) as Hy.
  { apply PhaseHub.inv_ops; [done|]. apply Forall_map. eapply Forall_impl; [exact Hws|]. by intros tv (_ & ? & _). }
  destruct (PhaseHub.callback_entered full_name PhaseHub.KReadWrite os y Hy) as (z & Hz & Hz').
  destruct (PhaseHub.entered_acts PhaseHub.KReadWrite y Hy) as (woken & Hacts & _ & _). simpl in Hacts.
  destruct (PhaseHub.buffer_all ws) as [Hk Hv]. rewrite <- Hw in Hk, Hv.
  destruct (perform_writes (PhaseHub.writes (PhaseHub.hub y)) (Sim.sim s)) as (w' & Hperf & Hreads & Hother).
  { rewrite Hw. apply PhaseHub.buffer_all_NoDup. constructor. }
  { rewrite Hk. intros t t' Ht%PhaseHub.first_written_elem Ht'%PhaseHub.first_written_elem. by apply Hsep. }
  { rewrite Hw. apply PhaseHub.buffer_all_Forall; [done|constructor]. }
  exists {| Sim.sys := y; Sim.sim := Sim.sim s |}, {| Sim.sys := z; Sim.sim := w' |}.
  split; [by apply schedule_all_normal|]. split; [done|].
  split; [|split; [intros t v Htv; apply Hreads, PhaseHub.lookup_write_elem; by rewrite Hv|]].
  - unfold Sim.read_write. cbn [Sim.sim Sim.sys]. change (Sim.target_name (Sim.sim s)) with full_name.
    simpl in Hz. rewrite Hz. unfold Sim.catch_up. cbn [Sim.sim Sim.sys]. simpl in Hz'.
    assert (PhaseHub.acts (PhaseHub.hub z) = PhaseHub.acts (PhaseHub.entered PhaseHub.KReadWrite (PhaseHub.hub y))) as Hza
      by (rewrite Hz'; simpl; by rewrite PhaseHub.ops_no_acts).
    rewrite Hza, Hacts, drop_app_length.
    erewrite perform_all_app by exact Hperf. by rewrite perform_wakes.
  - intros h Hh. apply Hother. intros t Ht. rewrite Hk in Ht. by apply Hh, PhaseHub.first_written_elem.
Qed.

(** A write that does not wait (the [set_*_now] methods) keeps the read-only
    rule and otherwise takes effect at once, without touching the buffer of
    scheduled writes; a text with a NUL byte is refused by both ways of writing
    a string, and then nothing is changed. *)
Theorem immediate_writes (s : Sim.World) t (v : Val) :
  target_ok t (Sim.sim s) → landable (t, v) →
  let ro := bool_decide (PhaseHub.phase (PhaseHub.hub (Sim.sys s)) = PhaseHub.ReadOnly) in
  (if ro then Sim.write_now t (Sim.perform (PhaseHub.AWrite t v)) s = Panic (PhaseHub.denied (Sim.target_name (Sim.sim s)) t)
   else ∃ w, Sim.write_now t (Sim.perform (PhaseHub.AWrite t v)) s = Done {| Sim.sys := Sim.sys s; Sim.sim := w |} ∧
     reads_as t v w ∧ ∀ h, same_object (target_handle t) h = false → same_value h w (Sim.sim s)) ∧
  (∀ l x, has_nul x = true → ro = false →
     Sim.set_string l x s = Done (Err InteriorNul) ∧ Sim.set_string_now l x s = Done (Err InteriorNul)).
Proof.
  intros Hok Hl ro. split.
  - unfold Sim.write_now, Sim.deny_write_in_read_only, PhaseHub.deny_write_in_read_only. subst ro.
    case_bool_decide as Hp; [by rewrite decide_True by done|]. rewrite decide_False by done.
    destruct (perform_lands t v (Sim.sim s) Hok Hl) as (p & Hp' & -> & Hread). eexists. split; [done|]. split; [done|].
    intros h Hh. apply put_other. by rewrite Hp'.
  - intros l x Hx Hro. apply bool_decide_eq_false in Hro.
    unfold Sim.set_string, Sim.set_string_now, Sim.deny_write_in_read_only, PhaseHub.deny_write_in_read_only, string_set_now.
    rewrite decide_False by done. by rewrite Hx.
Qed.

End Writes.
End Handles.

(** ** A small simulator *)

Module HandlesWitnesses.
Import Gpi Handles.

(** A module with a register (which has two handles), a real, a string and a
    parameter; values are kept by object. *)
Record Store := { vecs : gmap nat (list Signals.t_vpi_vecval); reals : gmap nat Z; texts : gmap nat string }.
Definition object_of (h : nat) : nat := if Nat.eqb h 5 then 2%nat else h.
Definition types (h : nat) : Z :=
  match object_of h with 1%nat => vpiModule | 2%nat => vpiReg | 3%nat => vpiRealVar | 4%nat => vpiStringVar | _ => 41 end.
Definition names (h : nat) : option string :=
  match object_of h with 1%nat => Some "top" | 2%nat => Some "top.a" | 3%nat => Some "top.r" | 4%nat => Some "top.t" | 6%nat => Some "top.p" | _ => None end.

#[global] Instance store_vpi : Vpi Store Z := {
  vpi_handle_by_name n scope _ :=
    if decide (n = "top" ∧ scope = 0%nat) then 1%nat else if decide (n = "a") then 2%nat else if decide (n = "r") then 3%nat
    else if decide (n = "t") then 4%nat else if decide (n = "p") then 6%nat else 0%nat;
  vpi_get p h _ := if p =? vpiType then types h else if p =? vpiSize then 8 else 0;
  vpi_get_str p h _ := if p =? vpiFullName then names h else None;
  vpi_iterate t scope _ := if (t =? vpiModule) && (scope =? 0)%nat then Some [1%nat] else None;
  vpi_get_vector h w := vecs w !! object_of h;
  vpi_put_vector h ws w := {| vecs := <[object_of h := ws]> (vecs w); reals := reals w; texts := texts w |};
  vpi_get_real h w := reals w !! object_of h;
  vpi_put_real h x w := {| vecs := vecs w; reals := <[object_of h := x]> (reals w); texts := texts w |};
  vpi_get_string h w := Some (texts w !! object_of h);
  vpi_put_string h x w := {| vecs := vecs w; reals := reals w; texts := <[object_of h := x]> (texts w) |};
}.

#[global] Program Instance store_laws : VpiLaws Store Z := {
  same_object h h' := Nat.eqb (object_of h) (object_of h');
}.
Next Obligation. intros h. apply Nat.eqb_refl. Qed.
Next Obligation. by intros []. Qed.
Next Obligation.
  intros p w h Hn%Nat.eqb_neq. destruct p; repeat split; simpl in *; by rewrite ?lookup_insert_ne.
Qed.
Next Obligation. intros. simpl. by rewrite lookup_insert_eq. Qed.
Next Obligation. intros. simpl. by rewrite lookup_insert_eq. Qed.
Next Obligation. intros. simpl. by rewrite lookup_insert_eq. Qed.
Next Obligation.
  intros scope w l h. simpl. destruct (scope =? 0)%nat; simpl; [|done]. intros ? Hin. simplify_eq.
  by apply list_elem_of_singleton in Hin as ->.
Qed.

Definition empty_store : Store := {| vecs := ∅; reals := ∅; texts := ∅ |}.
Definition top : Sim.HierarchyHandle := {| Sim.raw_hier := {| hier_h := Obj 1 |} |}.
Definition a_sig : Sim.LogicHandle := {| Sim.raw_logic := {| logic_h := Obj 2; width := 8 |} |}.


Lemma lookup_outcome_witness :
  accepted (failures top "a" empty_store) = 1%nat ∧ accepted (failures top "p" empty_store) = 0%nat ∧
  blames "top.a" (failures top "a" empty_store).
Proof.
  destruct (lookup_outcome top "a" empty_store eq_refl) as [[H1 H2] _].
  destruct (lookup_outcome top "p" empty_store eq_refl) as [[H3 _] _]. split; [exact H1|]. split; [exact H3|exact H2].
Defined.

Lemma top_module_spec_witness :
  Sim.top_module (Some " top ") empty_store = Done (Ok top) ∧ Sim.top_module None empty_store = Done (Ok top).
Proof.
  destruct (top_module_spec (Some " top ") empty_store) as [_ H1]; [intros n E; by simplify_eq|].
  destruct (top_module_spec None empty_store) as [_ H2]; [done|]. split; [exact H1|exact H2].
Defined.

Definition start : @Sim.World Store Z N := {| Sim.sys := PhaseHub.init; Sim.sim := empty_store |}.

Lemma a_ok : target_ok (Sim.of_logic a_sig) empty_store.
Proof. split; [split; [done|]|done]. simpl. right. left. Qed.
Lemma r_ok : target_ok (PhaseHub.TReal 3) empty_store.
Proof. split; [done|]. left. Qed.
Lemma a_landable x : fits 16 x → landable (Sim.of_logic a_sig, PhaseHub.WU16 x : PhaseHub.WriteVal (LogicArray.LogicArray N) N Z).
Proof. intros Hx. split; [done|]. split; [done|]. by eexists. Qed.

(** Two writes to a signal, one to a real. *)
Lemma scheduled_writes_land_witness :
  ∃ s1 s2 : @Sim.World Store Z N,
    schedule_all [(Sim.of_logic a_sig, PhaseHub.WU16 7); (PhaseHub.TReal 3, PhaseHub.WReal 5); (Sim.of_logic a_sig, PhaseHub.WU16 0x1a5)] start = Done s1 ∧
    Sim.read_write [] s1 = Done s2 ∧ reads_as (Sim.of_logic a_sig) (PhaseHub.WU16 0x1a5) (Sim.sim s2) ∧
    reads_as (PhaseHub.TReal 3) (PhaseHub.WReal 5) (Sim.sim s2).
Proof.
  destruct (scheduled_writes_land (λ _, EmptyString) start
    [(Sim.of_logic a_sig, PhaseHub.WU16 7); (PhaseHub.TReal 3, PhaseHub.WReal 5); (Sim.of_logic a_sig, PhaseHub.WU16 0x1a5)] [])
    as (s1 & s2 & H1 & _ & H2 & H3 & _).
  - apply rtc_refl.
  - done.
  - apply Forall_cons. split; [split; [apply a_ok|by apply a_landable]|].
    apply Forall_cons. split; [split; [apply r_ok|by repeat split]|].
    apply Forall_cons. split; [split; [apply a_ok|by apply a_landable]|constructor].
  - intros t t' Ht Ht' Hn. simpl in Ht, Ht'. rewrite !elem_of_cons in Ht, Ht'.
    destruct Ht as [-> |[-> |[-> |[]%not_elem_of_nil]]], Ht' as [-> |[-> |[-> |[]%not_elem_of_nil]]]; done.
  - constructor.
  - exists s1, s2. split; [exact H1|]. split; [exact H2|]. split; apply H3; reflexivity.
Defined.

Lemma immediate_writes_witness :
  ∃ w, Sim.write_now (Sim.of_logic a_sig) (Sim.perform (PhaseHub.AWrite (Sim.of_logic a_sig) (PhaseHub.WU16 0x1a5))) start
    = Done {| Sim.sys := Sim.sys start; Sim.sim := w |} ∧ reads_as (Sim.of_logic a_sig) (PhaseHub.WU16 0x1a5 : PhaseHub.WriteVal _ N _) w.
Proof.
  destruct (immediate_writes start (Sim.of_logic a_sig) (PhaseHub.WU16 0x1a5)) as [(w & H1 & H2 & _) _].
  - apply a_ok.
  - by apply a_landable.
  - exists w. split; [exact H1|exact H2].
Defined.

(** The buffer is keyed by handle: where a simulator gives one signal two
    handles, writing 1 through the first, 2 through the second and 3 through
    the first again leaves 2, not the last value written. *)
Lemma aliased_write_lost :
  ∃ s1 s2 : @Sim.World Store Z N,
    schedule_all [(PhaseHub.TLogic (2%nat, 8%nat), PhaseHub.WU8 1); (PhaseHub.TLogic (5%nat, 8%nat), PhaseHub.WU8 2);
      (PhaseHub.TLogic (2%nat, 8%nat), PhaseHub.WU8 3)] start = Done s1 ∧
    Sim.read_write [] s1 = Done s2 ∧ same_object 2%nat 5%nat = true ∧
    Signals.get_u8 (B:=N) {| Signals.size := 8 |} (vpi_get_vector 2%nat (Sim.sim s2)) = Done (Ok 2).
Proof. eexists _, _. split; [reflexivity|]. split; [vm_compute; reflexivity|]. split; [done|]. by vm_compute. Qed.

End HandlesWitnesses.
