(* ===== verification/Triggers.v ===== *)
(** * Triggers: timers and edges over the simulator's callbacks
    (rustdv-sim/src/triggers.rs, with simtime of rustdv-gpi/src/rustdv_gpi.rs).

    A future shares a [TrigShared] cell with the closure of its callback, so
    cells live in a heap; [regs] is what is registered with the simulator, by
    the cell the closure holds.  The simulator keeps time and values: it calls a
    timer's callback when its time has come and a value change's callbacks one
    after the other, and does not advance time past a registered timer.  [step]
    interleaves the simulator with tasks that make, poll and drop futures in any
    order, which includes everything a callback's [run_until_idle] does. *)
From S2P Require Import Prelude Words Values Signals Time PhaseHub.
Local Open Scope Z_scope.

Module Triggers.
Import Signals.

Section Triggers.
Context {B : Type} `{BigUint B}.

(** ** The time structure of VPI *)

Definition simtime (steps : Z) : Z * Z := (wrap 32 (Z.shiftr steps 32), Z.land steps 0xFFFFFFFF).
(** [sim_time_steps] puts the halves together again. *)
Definition time_steps (t : Z * Z) : Z := Z.lor (Z.shiftl t.1 32) t.2.

(** ** The futures *)

Inductive EdgeKind := Rising | Falling | AnyChange.

Record Sig := { sid : nat; shandle : LogicHandle }.
Record Edge := { sig : Sig; kind : EdgeKind; e_shared : option nat }.
Record NullTrigger := { yielded : bool }.

Definition timer_steps (n : Z) : Exec Time.Timer := Time.timer_new {| Time.steps := n |}.
Definition edge_new (s : Sig) (k : EdgeKind) : Edge := {| sig := s; kind := k; e_shared := None |}.
Definition rising_edge (s : Sig) : Edge := edge_new s Rising.
Definition falling_edge (s : Sig) : Edge := edge_new s Falling.
Definition value_change (s : Sig) : Edge := edge_new s AnyChange.

(** A registration: when the simulator calls, and the closure it calls. *)
Inductive Reg := RTimer (due : Z) | REdge (s : Sig) (k : EdgeKind).

Record World := {
  now : Z;
  vals : nat → VpiValue;
  trigs : gmap nat PhaseHub.TrigShared;
  regs : gmap nat Reg;
  next : nat;
  woken : list Waker;
}.

Definition set_trig (a : nat) (t : PhaseHub.TrigShared) (w : World) : World :=
  {| now := now w; vals := vals w; trigs := <[a := t]> (trigs w); regs := regs w; next := next w; woken := woken w |}.

(** A new cell with its callback registered. *)
Definition register (t : PhaseHub.TrigShared) (r : Reg) (w : World) : World :=
  {| now := now w; vals := vals w; trigs := <[next w := t]> (trigs w); regs := <[next w := r]> (regs w);
     next := S (next w); woken := woken w |}.

Definition fire_cell (a : nat) (w : World) : World :=
  match trigs w !! a with
  | Some t => let '(t', ws) := PhaseHub.fire t in
      {| now := now w; vals := vals w; trigs := <[a := t']> (trigs w); regs := regs w; next := next w;
         woken := woken w ++ ws |}
  | None => w
  end.

(** A poll that is not the first: a live future owns its cell, so the lookup
    does not fail. *)
Definition poll_shared (a : nat) (cx : Waker) (w : World) : World * Poll unit :=
  match trigs w !! a with
  | Some t => if PhaseHub.fired t then (w, Ready tt) else (set_trig a (PhaseHub.set_waker cx t) w, Pending)
  | None => (w, Pending)
  end.

Definition poll_timer (t : Time.Timer) (cx : Waker) (w : World) : World * Time.Timer * Poll unit :=
  match Time.t_shared t with
  | None =>
      (register (PhaseHub.set_waker cx PhaseHub.trig_new) (RTimer (now w + time_steps (simtime (Time.t_steps t)))) w,
       {| Time.t_steps := Time.t_steps t; Time.t_shared := Some (next w) |}, Pending)
  | Some a => let '(w', r) := poll_shared a cx w in (w', t, r)
  end.

Definition poll_edge (e : Edge) (cx : Waker) (w : World) : World * Edge * Poll unit :=
  match e_shared e with
  | None =>
      (register (PhaseHub.set_waker cx PhaseHub.trig_new) (REdge (sig e) (kind e)) w,
       {| sig := sig e; kind := kind e; e_shared := Some (next w) |}, Pending)
  | Some a => let '(w', r) := poll_shared a cx w in (w', e, r)
  end.

Definition poll_null (n : NullTrigger) (cx : Waker) (w : World) : World * NullTrigger * Poll unit :=
  if yielded n then (w, n, Ready tt)
  else ({| now := now w; vals := vals w; trigs := trigs w; regs := regs w; next := next w; woken := woken w ++ [cx] |},
        {| yielded := true |}, Pending).

(** Dropping a future drops its callback handle, which removes a live
    registration, and the last reference to its cell. *)
Definition drop_cell (a : nat) (w : World) : World :=
  {| now := now w; vals := vals w; trigs := delete a (trigs w); regs := delete a (regs w); next := next w;
     woken := woken w |}.

(** ** The closures *)

Definition edge_hit (s : Sig) (k : EdgeKind) (w : World) : bool :=
  match k with
  | AnyChange => true
  | Rising => Nat.eqb (size (shandle s)) 1 &&
      match get_u64 (B:=B) (shandle s) (vals w (sid s)) with Done (Ok v) => v =? 1 | _ => false end
  | Falling => Nat.eqb (size (shandle s)) 1 &&
      match get_u64 (B:=B) (shandle s) (vals w (sid s)) with Done (Ok v) => v =? 0 | _ => false end
  end.

(** The one-shot's registration is gone before its closure runs. *)
Definition timer_callback (a : nat) (w : World) : World :=
  fire_cell a {| now := now w; vals := vals w; trigs := trigs w; regs := delete a (regs w); next := next w;
                 woken := woken w |}.

Definition edge_callback (a : nat) (s : Sig) (k : EdgeKind) (w : World) : World :=
  match trigs w !! a with
  | Some t => if PhaseHub.fired t then w else if edge_hit s k w then fire_cell a w else w
  | None => w
  end.

(** ** The simulator and the tasks *)

Inductive Fut := FTimer (t : Time.Timer) | FEdge (e : Edge).
Definition shared (f : Fut) : option nat := match f with FTimer t => Time.t_shared t | FEdge e => e_shared e end.
Definition poll_fut (f : Fut) (cx : Waker) (w : World) : World * Fut * Poll unit :=
  match f with
  | FTimer t => let '(w', t', r) := poll_timer t cx w in (w', FTimer t', r)
  | FEdge e => let '(w', e', r) := poll_edge e cx w in (w', FEdge e', r)
  end.
Definition drop_fut (f : Fut) (w : World) : World := match shared f with Some a => drop_cell a w | None => w end.

(** [pend]: callbacks of value changes still to be called.  [began] and
    [last_cx] record when a cell was registered and who polled it last. *)
Record Sys := {
  world : World;
  futs : gmap nat Fut;
  pend : list nat;
  began : gmap nat Z;
  last_cx : gmap nat Waker;
}.

Definition new_future (f : Fut) : Prop :=
  match f with
  | FTimer t => ∃ d, fits 64 (Time.steps d) ∧ Time.timer_new d = Done t
  | FEdge e => ∃ sg k, e = edge_new sg k
  end.

Definition set_now (t : Z) (w : World) : World :=
  {| now := t; vals := vals w; trigs := trigs w; regs := regs w; next := next w; woken := woken w |}.
Definition set_val (i : nat) (v : VpiValue) (w : World) : World :=
  {| now := now w; vals := λ j, if Nat.eqb j i then v else vals w j; trigs := trigs w; regs := regs w; next := next w;
     woken := woken w |}.

Inductive step : Sys → Sys → Prop :=
| step_new s f x : futs s !! f = None → new_future x →
    step s {| world := world s; futs := <[f := x]> (futs s); pend := pend s; began := began s; last_cx := last_cx s |}
| step_poll s f x cx w' x' r : futs s !! f = Some x → poll_fut x cx (world s) = (w', x', r) →
    step s {| world := w'; futs := <[f := x']> (futs s); pend := pend s;
              began := (match shared x, shared x' with None, Some a => <[a := now (world s)]> (began s) | _, _ => began s end);
              last_cx := (match shared x' with Some a => <[a := cx]> (last_cx s) | None => last_cx s end) |}
| step_drop s f x : futs s !! f = Some x →
    step s {| world := drop_fut x (world s); futs := delete f (futs s); pend := pend s; began := began s;
              last_cx := last_cx s |}
| step_timer s a due : regs (world s) !! a = Some (RTimer due) → due = now (world s) →
    step s {| world := timer_callback a (world s); futs := futs s; pend := pend s; began := began s; last_cx := last_cx s |}
| step_change s i v l : (∀ a, a ∈ l ↔ ∃ sg k, regs (world s) !! a = Some (REdge sg k) ∧ sid sg = i) →
    step s {| world := set_val i v (world s); futs := futs s; pend := pend s ++ l; began := began s; last_cx := last_cx s |}
| step_call s a r : pend s = a :: r →
    step s {| world := (match regs (world s) !! a with Some (REdge sg k) => edge_callback a sg k (world s) | _ => world s end);
              futs := futs s; pend := r; began := began s; last_cx := last_cx s |}
| step_advance s t : now (world s) < t → pend s = [] →
    (∀ a due, regs (world s) !! a = Some (RTimer due) → t ≤ due) →
    step s {| world := set_now t (world s); futs := futs s; pend := []; began := began s; last_cx := last_cx s |}.

Definition init (t0 : Z) (v : nat → VpiValue) : Sys :=
  {| world := {| now := t0; vals := v; trigs := ∅; regs := ∅; next := 0; woken := [] |};
     futs := ∅; pend := []; began := ∅; last_cx := ∅ |}.

(** ** The invariant *)

(** What is so of a future, of its cell, registration and history, at time [n]. *)
Definition cell_ok (x : Fut) (n : Z) (t : option PhaseHub.TrigShared) (r : option Reg) (b : option Z) (cx : option Waker) :
  Prop :=
  ∃ t' b' c', t = Some t' ∧ b = Some b' ∧ cx = Some c' ∧ (PhaseHub.fired t' = false → PhaseHub.waker t' = Some c') ∧
  match x with
  | FTimer tm => if PhaseHub.fired t' then b' + Time.t_steps tm ≤ n ∧ r = None
                 else r = Some (RTimer (b' + Time.t_steps tm)) ∧ n ≤ b' + Time.t_steps tm
  | FEdge e => r = Some (REdge (sig e) (kind e))
  end.

Definition fut_ok (s : Sys) (x : Fut) : Prop :=
  (∀ tm, x = FTimer tm → fits 64 (Time.t_steps tm) ∧ 0 < Time.t_steps tm) ∧
  ∀ a, shared x = Some a →
    cell_ok x (now (world s)) (trigs (world s) !! a) (regs (world s) !! a) (began s !! a) (last_cx s !! a).

Record inv (s : Sys) : Prop := {
  inv_futs f x : futs s !! f = Some x → fut_ok s x;
  inv_sep f f' x x' a : futs s !! f = Some x → futs s !! f' = Some x' → shared x = Some a → shared x' = Some a → f = f';
  inv_owned a : is_Some (regs (world s) !! a) → ∃ f x, futs s !! f = Some x ∧ shared x = Some a;
  inv_next a : (next (world s) ≤ a)%nat → trigs (world s) !! a = None ∧ regs (world s) !! a = None;
}.

Lemma simtime_steps d : fits 64 d → time_steps (simtime d) = d.
Proof.
  intros [??]. unfold time_steps, simtime. cbn [fst snd]. change 0xFFFFFFFF with (2 ^ 32 - 1).
  rewrite land_ones_wrap by lia.
  assert (fits 32 (Z.shiftr d 32)) as Hs.
  { rewrite Z.shiftr_div_pow2 by lia. split; [apply Z.div_pos; lia|apply Z.div_lt_upper_bound; lia]. }
  rewrite (wrap_id 32 (Z.shiftr d 32)) by done. rewrite Z.lor_comm, lor_shiftl_add by (lia || (apply wrap_fits; lia)).
  unfold wrap. rewrite Z.shiftr_div_pow2 by lia. pose proof (Z.div_mod d (2 ^ 32)). lia.
Qed.

Lemma trig_inv_init t0 v : inv (init t0 v).
Proof. constructor; unfold init; simpl; intros; rewrite ?lookup_empty in *; by try done. Qed.

(** A future whose cell is elsewhere does not notice. *)
Lemma fut_ok_frame s s' x :
  fut_ok s x → now (world s') = now (world s) →
  (∀ a, shared x = Some a → trigs (world s') !! a = trigs (world s) !! a ∧ regs (world s') !! a = regs (world s) !! a ∧
     began s' !! a = began s !! a ∧ last_cx s' !! a = last_cx s !! a) → fut_ok s' x.
Proof.
  intros [Ht Hc] Hn Heq. split; [done|]. intros a Ha. destruct (Heq a Ha) as (-> & -> & -> & ->). rewrite Hn. by apply Hc.
Qed.

(** A future that was polled before owns a cell below [next]. *)
Lemma shared_below s x a : inv s → fut_ok s x → shared x = Some a → (a < next (world s))%nat.
Proof.
  intros Hi [_ Hc] Ha. destruct (Hc a Ha) as (t & b & c & Ht & _). destruct (decide (a < next (world s))%nat); [done|].
  destruct (inv_next s Hi a); [lia|]. congruence.
Qed.

(** A step that touches one cell only, on behalf of its owner. *)
Lemma trig_inv_update s f x a w' pend' cxs :
  inv s → futs s !! f = Some x → shared x = Some a →
  now w' = now (world s) → next w' = next (world s) →
  (∀ a', a' ≠ a → trigs w' !! a' = trigs (world s) !! a' ∧ regs w' !! a' = regs (world s) !! a' ∧ cxs !! a' = last_cx s !! a') →
  cell_ok x (now (world s)) (trigs w' !! a) (regs w' !! a) (began s !! a) (cxs !! a) →
  inv {| world := w'; futs := futs s; pend := pend'; began := began s; last_cx := cxs |}.
Proof.
  intros Hi Hf Ha Hn Hx Hother Hcell. pose proof (shared_below s x a Hi (inv_futs s Hi f x Hf) Ha) as Hlt.
  constructor; simpl.
  - intros f' x' Hf'. destruct (decide (f' = f)) as [->|Hne].
    + simplify_eq. destruct (inv_futs s Hi f x Hf) as [Ht _]. split; [done|]. intros a' Ha'. simplify_eq. simpl. by rewrite Hn.
    + apply (fut_ok_frame s); [by apply (inv_futs s Hi f')|done|]. intros a' Ha'. simpl.
      assert (a' ≠ a) by (intros ->; by apply Hne, (inv_sep s Hi f' f x' x a)).
      destruct (Hother a') as (-> & -> & ->); done.
  - apply (inv_sep s Hi).
  - intros a' Hr. destruct (decide (a' = a)) as [->|Hne]; [by exists f, x|].
    apply (inv_owned s Hi). by destruct (Hother a' Hne) as (_ & <- & _).
  - intros a' Hle. rewrite Hx in Hle. destruct (Hother a') as (-> & -> & _); [lia|]. by apply (inv_next s Hi).
Qed.

(** ** Polls *)

Definition reg_of (x : Fut) (n : Z) : Reg :=
  match x with FTimer t => RTimer (n + time_steps (simtime (Time.t_steps t))) | FEdge e => REdge (sig e) (kind e) end.
Definition with_shared (x : Fut) (a : nat) : Fut :=
  match x with
  | FTimer t => FTimer {| Time.t_steps := Time.t_steps t; Time.t_shared := Some a |}
  | FEdge e => FEdge {| sig := sig e; kind := kind e; e_shared := Some a |}
  end.

Lemma shared_with x a : shared (with_shared x a) = Some a.
Proof. by destruct x. Qed.

Lemma poll_first x cx w : shared x = None →
  poll_fut x cx w =
  (register (PhaseHub.set_waker cx PhaseHub.trig_new) (reg_of x (now w)) w, with_shared x (next w), Pending).
Proof. destruct x as [t|e]; simpl; intros Hs; unfold poll_timer, poll_edge; by rewrite Hs. Qed.

Lemma poll_again x a cx w : shared x = Some a →
  poll_fut x cx w = (let '(w', r) := poll_shared a cx w in (w', x, r)).
Proof.
  destruct x as [t|e]; simpl; intros Hs; unfold poll_timer, poll_edge; rewrite Hs; by destruct (poll_shared a cx w).
Qed.

Lemma trig_inv_first_poll s f x cx :
  inv s → futs s !! f = Some x → shared x = None →
  inv {| world := register (PhaseHub.set_waker cx PhaseHub.trig_new) (reg_of x (now (world s))) (world s);
         futs := <[f := with_shared x (next (world s))]> (futs s); pend := pend s;
         began := <[next (world s) := now (world s)]> (began s); last_cx := <[next (world s) := cx]> (last_cx s) |}.
Proof.
  intros Hi Hf Hs. set (a := next (world s)).
  assert (∀ f' x' a', f' ≠ f → futs s !! f' = Some x' → shared x' = Some a' → a' ≠ a) as Hfresh.
  { intros f' x' a' _ Hf' Ha' ->. pose proof (shared_below s x' a Hi (inv_futs s Hi f' x' Hf') Ha'). subst a. lia. }
  constructor; simpl.
  - intros f' x' Hf'. destruct (decide (f' = f)) as [->|Hne].
    + rewrite lookup_insert_eq in Hf'. simplify_eq. destruct (inv_futs s Hi f x Hf) as [Ht _].
      split; [destruct x as [tm|e]; intros tm' [= <-]; simpl; by apply (Ht tm)|].
      intros a' Ha'. rewrite shared_with in Ha'. simplify_eq. simpl. rewrite !lookup_insert_eq.
      eexists _, _, _. split_and!; [done..|]. destruct x as [tm|e]; simpl; [|done].
      destruct (Ht tm eq_refl) as [??]. rewrite simtime_steps by done. split; [done|lia].
    + rewrite lookup_insert_ne in Hf' by done. apply (fut_ok_frame s); [by apply (inv_futs s Hi f')|done|].
      intros a' Ha'. simpl. assert (a' ≠ a) by eauto. by rewrite !lookup_insert_ne by done.
  - intros f1 f2 x1 x2 a' H1 H2 Ha1 Ha2. destruct (decide (f1 = f)) as [->|N1], (decide (f2 = f)) as [->|N2]; [done| | |].
    + rewrite lookup_insert_eq in H1. rewrite lookup_insert_ne in H2 by done. simplify_eq. rewrite shared_with in Ha1.
      simplify_eq. by destruct (Hfresh f2 x2 _ N2 H2 Ha2).
    + rewrite lookup_insert_ne in H1 by done. rewrite lookup_insert_eq in H2. simplify_eq. rewrite shared_with in Ha2.
      simplify_eq. by destruct (Hfresh f1 x1 _ N1 H1 Ha1).
    + rewrite lookup_insert_ne in H1, H2 by done. by apply (inv_sep s Hi f1 f2 x1 x2 a').
  - intros a' Hr. destruct (decide (a' = a)) as [->|Hne].
    + exists f, (with_shared x a). by rewrite lookup_insert_eq, shared_with.
    + rewrite lookup_insert_ne in Hr by done. destruct (inv_owned s Hi a' Hr) as (f' & x' & Hf' & Ha').
      exists f', x'. rewrite lookup_insert_ne; [done|]. intros ->. simplify_eq.
  - intros a' Hle. subst a. rewrite !lookup_insert_ne by lia. apply (inv_next s Hi). lia.
Qed.

(** ** Every step *)

Lemma new_future_spec x : new_future x → shared x = None ∧ ∀ tm, x = FTimer tm → fits 64 (Time.t_steps tm) ∧ 0 < Time.t_steps tm.
Proof.
  destruct x as [t|e]; simpl.
  - intros (d & Hd & Hn). unfold Time.timer_new in Hn. case_decide; [|done]. injection Hn as <-. split; [done|].
    intros tm [= <-]. done.
  - intros (sg & k & ->). done.
Qed.

Lemma trig_inv_new s f x : inv s → futs s !! f = None → new_future x →
  inv {| world := world s; futs := <[f := x]> (futs s); pend := pend s; began := began s; last_cx := last_cx s |}.
Proof.
  intros Hi Hf Hx. apply new_future_spec in Hx as [Hs Hx].
  assert (∀ f' x' a, <[f := x]> (futs s) !! f' = Some x' → shared x' = Some a → futs s !! f' = Some x') as Hold.
  { intros f' x' a Hf' Ha. destruct (decide (f' = f)) as [->|Hne]; [|by rewrite lookup_insert_ne in Hf'].
    rewrite lookup_insert_eq in Hf'. congruence. }
  constructor; simpl.
  - intros f' x' Hf'. destruct (decide (f' = f)) as [->|Hne].
    + rewrite lookup_insert_eq in Hf'. simplify_eq. split; [done|congruence].
    + rewrite lookup_insert_ne in Hf' by done. by apply (inv_futs s Hi f').
  - intros f1 f2 x1 x2 a H1 H2 Ha1 Ha2. eapply (inv_sep s Hi f1 f2 x1 x2 a); eauto.
  - intros a Ha. destruct (inv_owned s Hi a Ha) as (f' & x' & Hf' & Ha'). exists f', x'.
    rewrite lookup_insert_ne; [done|]. intros ->. congruence.
  - apply (inv_next s Hi).
Qed.

Lemma trig_inv_drop s f x : inv s → futs s !! f = Some x →
  inv {| world := drop_fut x (world s); futs := delete f (futs s); pend := pend s; began := began s; last_cx := last_cx s |}.
Proof.
  intros Hi Hf. assert (∀ a, shared x = Some a ∨ (trigs (drop_fut x (world s)) !! a = trigs (world s) !! a ∧
    regs (drop_fut x (world s)) !! a = regs (world s) !! a)) as Hcell.
  { intros a. unfold drop_fut. destruct (shared x) as [b|]; [|by right].
    destruct (decide (b = a)) as [->|Hne]; [by left|right]. simpl. by rewrite !lookup_delete_ne. }
  assert (next (drop_fut x (world s)) = next (world s) ∧ now (drop_fut x (world s)) = now (world s)) as [Hx Hn]
    by (unfold drop_fut; by destruct (shared x)).
  constructor; simpl.
  - intros f' x' Hf'. apply lookup_delete_Some in Hf' as [Hne Hf'].
    apply (fut_ok_frame s); [by apply (inv_futs s Hi f')|done|]. intros a Ha. simpl.
    destruct (Hcell a) as [Hc|[-> ->]]; [|done]. destruct Hne. by apply (inv_sep s Hi f f' x x' a).
  - intros f1 f2 x1 x2 a H1 H2. apply lookup_delete_Some in H1 as [_ H1], H2 as [_ H2]. by apply (inv_sep s Hi).
  - intros a Ha. assert (is_Some (regs (world s) !! a) ∧ shared x ≠ Some a) as [Hr Hnx].
    { unfold drop_fut in Ha. destruct (shared x) as [b|] eqn:Eb; [|done]. simpl in Ha.
      destruct (decide (b = a)) as [->|]; [by rewrite lookup_delete_eq in Ha; destruct Ha|].
      rewrite lookup_delete_ne in Ha by done. split; [done|congruence]. }
    destruct (inv_owned s Hi a Hr) as (f' & x' & Hf' & Ha'). exists f', x'. split; [|done].
    apply lookup_delete_Some. split; [|done]. intros ->. congruence.
  - intros a Hle. rewrite Hx in Hle. destruct (inv_next s Hi a Hle) as [H1 H2]. unfold drop_fut.
    destruct (shared x); [|done]. simpl. by rewrite !lookup_delete_None; auto.
Qed.

Lemma trig_inv_poll_again s f x a cx w' r :
  inv s → futs s !! f = Some x → shared x = Some a → poll_shared a cx (world s) = (w', r) →
  inv {| world := w'; futs := futs s; pend := pend s; began := began s; last_cx := <[a := cx]> (last_cx s) |}.
Proof.
  intros Hi Hf Ha Hp. destruct (inv_futs s Hi f x Hf) as [_ Hc]. pose proof (Hc a Ha) as (t & b & c & Ht & Hb & Hl & Hw & Hx).
  unfold poll_shared in Hp. rewrite Ht in Hp. apply (trig_inv_update s f x a); [done..| | | |];
    destruct (PhaseHub.fired t) eqn:Ef; simplify_eq; simpl; try done.
  - intros a' Hne. by rewrite lookup_insert_ne.
  - intros a' Hne. by rewrite !lookup_insert_ne.
  - rewrite lookup_insert_eq, Ht. exists t, b, cx. rewrite Ef. done.
  - rewrite !lookup_insert_eq. exists (PhaseHub.set_waker cx t), b, cx. unfold PhaseHub.set_waker. simpl. by rewrite Ef.
Qed.

Lemma trig_inv_timer s a : inv s → regs (world s) !! a = Some (RTimer (now (world s))) →
  inv {| world := timer_callback a (world s); futs := futs s; pend := pend s; began := began s; last_cx := last_cx s |}.
Proof.
  intros Hi Hr. destruct (inv_owned s Hi a) as (f & x & Hf & Ha); [by rewrite Hr|].
  destruct (inv_futs s Hi f x Hf) as [_ Hc]. pose proof (Hc a Ha) as (t & b & c & Ht & Hb & Hl & Hw & Hx).
  unfold timer_callback, fire_cell. simpl. rewrite Ht.
  apply (trig_inv_update s f x a); simpl; [done..| |].
  - intros a' Hne. by rewrite lookup_insert_ne, lookup_delete_ne.
  - rewrite lookup_insert_eq, lookup_delete_eq. exists {| PhaseHub.fired := true; PhaseHub.waker := None |}, b, c.
    split_and!; [done..|]. destruct x as [tm|e]; [|congruence]. simpl. rewrite Hr in Hx.
    destruct (PhaseHub.fired t); destruct Hx as [Hx ?]; simplify_eq. split; [lia|done].
Qed.

Lemma trig_inv_call s a sg k r : inv s → regs (world s) !! a = Some (REdge sg k) →
  inv {| world := edge_callback a sg k (world s); futs := futs s; pend := r; began := began s; last_cx := last_cx s |}.
Proof.
  intros Hi Hr. destruct (inv_owned s Hi a) as (f & x & Hf & Ha); [by rewrite Hr|].
  destruct (inv_futs s Hi f x Hf) as [_ Hc]. pose proof (Hc a Ha) as (t & b & c & Ht & Hb & Hl & Hw & Hx).
  assert (∃ e, x = FEdge e) as [e ->].
  { destruct x as [tm|e]; [|by exists e]. rewrite Hr in Hx. destruct (PhaseHub.fired t); by destruct Hx. }
  unfold edge_callback, fire_cell. rewrite Ht.
  assert (∀ w', now w' = now (world s) → next w' = next (world s) → regs w' = regs (world s) →
    (w' = world s ∨ trigs w' = <[a := {| PhaseHub.fired := true; PhaseHub.waker := None |}]> (trigs (world s))) →
    inv {| world := w'; futs := futs s; pend := r; began := began s; last_cx := last_cx s |}) as Hgo.
  { intros w' Hn Hx' Hrg Htr. apply (trig_inv_update s f (FEdge e) a); [done..| |].
    - intros a' Hne. rewrite Hrg. split; [|done]. destruct Htr as [-> | ->]; [done|]. by rewrite lookup_insert_ne.
    - rewrite Hrg. destruct Htr as [-> | ->]; [by exists t, b, c|]. rewrite lookup_insert_eq.
      exists {| PhaseHub.fired := true; PhaseHub.waker := None |}, b, c. done. }
  destruct (PhaseHub.fired t); [apply Hgo; auto|]. destruct (edge_hit sg k (world s)); apply Hgo; simpl; auto.
Qed.

Lemma trig_inv_advance s t : inv s → now (world s) < t → (∀ a due, regs (world s) !! a = Some (RTimer due) → t ≤ due) →
  inv {| world := set_now t (world s); futs := futs s; pend := []; began := began s; last_cx := last_cx s |}.
Proof.
  intros Hi Hlt Hdue. constructor; simpl; [|apply (inv_sep s Hi)|apply (inv_owned s Hi)|apply (inv_next s Hi)].
  intros f x Hf. destruct (inv_futs s Hi f x Hf) as [Ht Hc]. split; [done|]. intros a Ha. simpl.
  destruct (Hc a Ha) as (t' & b & c & H1 & H2 & H3 & H4 & H5). exists t', b, c. split_and!; try done.
  destruct x as [tm|e]; [|done]. destruct (PhaseHub.fired t'); destruct H5 as [H5 H6]; [split; [lia|done]|].
  split; [done|]. by apply (Hdue a).
Qed.

Lemma trig_inv_step s s' : step s s' → inv s → inv s'.
Proof.
  intros Hs Hi. destruct Hs as [s f x Hf Hx|s f x cx w' x' r Hf Hp|s f x Hf|s a due Hr Hd|s i v l Has|s a r Hp|s t Hlt Hp Hd].
  - by apply trig_inv_new.
  - destruct (shared x) as [a|] eqn:Ea.
    + rewrite (poll_again x a) in Hp by done. destruct (poll_shared a cx (world s)) as [w1 r1] eqn:Ep. simplify_eq.
      rewrite Ea, insert_id by done. by eapply trig_inv_poll_again.
    + rewrite poll_first in Hp by done. simplify_eq. rewrite shared_with. by apply trig_inv_first_poll.
  - by apply trig_inv_drop.
  - apply trig_inv_timer; [done|]. by rewrite <- Hd.
  - destruct Hi as [H1 H2 H3 H4]. constructor; simpl; [|done..]. intros f x Hf. by apply H1 in Hf.
  - destruct (regs (world s) !! a) as [[due|sg k]|] eqn:Er; [|by apply trig_inv_call|]; destruct Hi; by constructor.
  - by apply trig_inv_advance.
Qed.

Lemma trig_reachable_inv t0 v s : rtc step (init t0 v) s → inv s.
Proof. intros Hr. eapply (rtc_preserves step inv); [apply trig_inv_step|done|apply trig_inv_init]. Qed.

(** ** What the waits promise *)

(** C12: A timer, once polled, is never done before its time; while it waits, its
    callback is registered for exactly the time of its first poll plus its
    duration, that time has not passed, and the callback wakes the task that
    polled last and makes the next poll ready. *)
Theorem timer_exact t0 v s f tm a cx :
  rtc step (init t0 v) s → futs s !! f = Some (FTimer tm) → Time.t_shared tm = Some a →
  ∃ b c, began s !! a = Some b ∧ last_cx s !! a = Some c ∧
    match (poll_timer tm cx (world s)).2 with
    | Ready _ => b + Time.t_steps tm ≤ now (world s)
    | Pending =>
        now (world s) ≤ b + Time.t_steps tm ∧ regs (world s) !! a = Some (RTimer (b + Time.t_steps tm)) ∧
        woken (timer_callback a (world s)) = woken (world s) ++ [c] ∧
        (poll_timer tm cx (timer_callback a (world s))).2 = Ready tt
    end.
Proof.
  intros Hr Hf Ha. apply trig_reachable_inv in Hr as Hi. destruct (inv_futs s Hi f _ Hf) as [_ Hc].
  destruct (Hc a Ha) as (t & b & c & Ht & Hb & Hl & Hw & Hx). exists b, c. split; [done|]. split; [done|].
  unfold poll_timer, poll_shared, timer_callback, fire_cell. rewrite Ha. simpl. rewrite Ht.
  destruct (PhaseHub.fired t); simpl; destruct Hx as [Hx Hx']; [done|]. rewrite lookup_insert_eq. simpl.
  rewrite Hw by done. done.
Qed.

(** Who fires a cell. *)
Lemma fired_by s s' a t t' :
  inv s → step s s' → trigs (world s) !! a = Some t → PhaseHub.fired t = false →
  trigs (world s') !! a = Some t' → PhaseHub.fired t' = true →
  (∃ due, regs (world s) !! a = Some (RTimer due)) ∨
  (∃ sg k, regs (world s) !! a = Some (REdge sg k) ∧ edge_hit sg k (world s) = true).
Proof.
  intros Hi Hs Ht Hf Ht' Hf'. destruct Hs as [s f x Hx Hnew|s f x cx w1 x1 r Hx Hp|s f x Hx|s b due Hr Hd|s i v l Has|s b r Hp|s n Hlt Hp Hd];
    simpl in *; try congruence.
  - destruct (shared x) as [b|] eqn:Ea.
    + rewrite (poll_again x b) in Hp by done. unfold poll_shared in Hp.
      destruct (trigs (world s) !! b) as [tb|] eqn:Etb; [destruct (PhaseHub.fired tb) eqn:Efb|]; simplify_eq/=; try congruence.
      destruct (decide (a = b)) as [->|Hne]; [rewrite lookup_insert_eq in Ht'|rewrite lookup_insert_ne in Ht' by done];
        simplify_eq/=; congruence.
    + rewrite poll_first in Hp by done. simplify_eq/=. destruct (inv_next s Hi (next (world s))) as [Hnone _]; [lia|].
      rewrite lookup_insert_ne in Ht' by congruence. congruence.
  - unfold drop_fut in Ht'. destruct (shared x); simpl in *; [|congruence]. apply lookup_delete_Some in Ht' as [_ ?]. congruence.
  - left. unfold timer_callback, fire_cell in Ht'. simpl in Ht'. destruct (decide (a = b)) as [->|Hne]; [by exists due|].
    destruct (trigs (world s) !! b); simpl in Ht'; [rewrite lookup_insert_ne in Ht' by done|]; congruence.
  - destruct (regs (world s) !! b) as [[due|sg k]|] eqn:Er; try congruence. unfold edge_callback, fire_cell in Ht'.
    destruct (trigs (world s) !! b) as [tb|] eqn:Etb; [|congruence].
    destruct (PhaseHub.fired tb); [congruence|]. destruct (edge_hit sg k (world s)) eqn:Eh; [|congruence]. simpl in Ht'.
    destruct (decide (a = b)) as [->|Hne]; [right; by exists sg, k|]. rewrite lookup_insert_ne in Ht' by done. congruence.
Qed.


(** Every registration with the simulator belongs to a live future, so that
    cancelling tasks, which drops their futures, leaves none behind. *)
Lemma registrations_owned t0 v s :
  rtc step (init t0 v) s →
  (∀ a r, regs (world s) !! a = Some r → ∃ f x, futs s !! f = Some x ∧ shared x = Some a) ∧ (futs s = ∅ → regs (world s) = ∅).
Proof.
  intros Hr. apply trig_reachable_inv in Hr as Hi. split; [intros a r Ha; apply (inv_owned s Hi); by rewrite Ha|].
  intros He. apply map_eq. intros a. rewrite lookup_empty. destruct (regs (world s) !! a) eqn:Ea; [|done].
  destruct (inv_owned s Hi a) as (f & x & Hf & _); [by rewrite Ea|]. by rewrite He, lookup_empty in Hf.
Qed.

End Triggers.
End Triggers.

Module TriggersWitnesses.
Import Signals Triggers.

Definition level (b : Z) : VpiValue := Some [{| aval := b; bval := 0 |}].
Definition clk : Sig := {| sid := 0; shandle := {| size := 1 |} |}.

(** A future made and polled once by task 7. *)
Definition after_poll (x : Fut) : Sys :=
  let '(w, x', _) := poll_fut x 7 (world (init 0 (λ _, level 0))) in
  {| world := w; futs := <[0%nat := x']> (<[0%nat := x]> ∅); pend := []; began := <[0%nat := 0]> ∅;
     last_cx := <[0%nat := 7%nat]> ∅ |}.

Lemma after_poll_reachable (x : Fut) : new_future x → rtc (step (B:=N)) (init 0 (λ _, level 0)) (after_poll x).
Proof.
  intros Hx. eapply rtc_l; [by apply (step_new _ 0%nat x)|]. eapply rtc_l; [|apply rtc_refl].
  apply new_future_spec in Hx as [Hs _].
  pose proof (step_poll (B:=N) {| world := world (init 0 (λ _, level 0)); futs := <[0%nat := x]> ∅; pend := [];
    began := ∅; last_cx := ∅ |} 0%nat x 7%nat) as Hp.
  rewrite poll_first in Hp by done. specialize (Hp _ _ _ (lookup_insert_eq _ _ _) eq_refl).
  rewrite shared_with, Hs in Hp. unfold after_poll. rewrite poll_first by done. exact Hp.
Qed.

Lemma timer_exact_witness :
  ∃ b c, began (after_poll (FTimer {| Time.t_steps := 5; Time.t_shared := None |})) !! 0%nat = Some b ∧ c = 7%nat ∧
    regs (world (after_poll (FTimer {| Time.t_steps := 5; Time.t_shared := None |}))) !! 0%nat = Some (RTimer (b + 5)).
Proof.
  destruct (timer_exact (B:=N) 0 (λ _, level 0) (after_poll (FTimer {| Time.t_steps := 5; Time.t_shared := None |})) 0 {| Time.t_steps := 5; Time.t_shared := Some 0%nat |} 0 9)
    as (b & c & Hb & Hc & Hw).
  - apply after_poll_reachable. exists {| Time.steps := 5 |}. split; [split; done|reflexivity].
  - reflexivity.
  - reflexivity.
  - exists b, c. split; [exact Hb|]. split; [vm_compute in Hc; congruence|]. exact (proj1 (proj2 Hw)).
Defined.


(** The closure of a rising edge sees a one-bit signal that reads 1, not an X. *)
Lemma rising_edge_hit :
  edge_hit (B:=N) clk Rising (set_val 0 (level 1) (world (init 0 (λ _, level 0)))) = true ∧
  edge_hit (B:=N) clk Rising (set_val 0 (Some [{| aval := 1; bval := 1 |}]) (world (init 0 (λ _, level 0)))) = false ∧
  edge_hit (B:=N) clk Falling (world (init 0 (λ _, level 0))) = true.
Proof. vm_compute. done. Qed.

End TriggersWitnesses.
