(* ===== verification/Cycle.v ===== *)
(** * Cycle: value models behind the direct ABI and behind VPI
    (rustdv-cycle/src/rustdv_cycle.rs, src/rustdv/src/cycle_vpi.rs).

    A [CycleModel] is user code: it may answer, fail or panic, and what it
    wrote to the outputs before stays written.  The ABI hands the model out as
    an untyped pointer to a boxed context; boxes live in a heap, and using a
    pointer whose box is gone is undefined ([None]).  [abi_steps] is a client
    that steps the context once per cycle until it stops; [vpi_loop] is the
    adapter's loop, given what the sampled inputs are at each rising edge. *)
From Stdlib Require Import Ascii.
From S2P Require Import Prelude.
Local Open Scope Z_scope.

Module Cycle.

Inductive CycleStatus := Continue | Pass | Fail.

Definition from_raw (value : Z) : option CycleStatus :=
  if decide (value = 0) then Some Continue
  else if decide (value = 1) then Some Pass
  else if decide (value = 2) then Some Fail
  else None.
(** [status as u32]. *)
Definition to_raw (s : CycleStatus) : Z := match s with Continue => 0 | Pass => 1 | Fail => 2 end.

(** A panic's payload, and the outcome of [catch_unwind]. *)
Inductive Payload := PStr (s : string) | PString (s : string) | POther.
Inductive Caught (A : Type) := Returned (a : A) | Panicked (p : Payload).
Arguments Returned {A} _.
Arguments Panicked {A} _.

Definition panic_message (p : Payload) : string :=
  match p with PStr s => s | PString s => s | POther => "non-string panic in cycle model" end.

Record CycleModel (M I O : Type) := {
  new : O → O * Caught (Result M string);
  step : M → I → O → M * O * Caught (Result CycleStatus string);
  finish : M → M * Caught (Result unit string);
}.
Arguments new {M I O} _.
Arguments step {M I O} _.
Arguments finish {M I O} _.

(** ** The ABI *)

Section Abi.
Context {M I O : Type} (cm : CycleModel M I O).

Record ExportContext := { model : M; error : string }.
Abbreviation Heap := (gmap nat ExportContext).

(** [replace('\0', "\\0")]. *)
Fixpoint replace_nul (s : string) : string :=
  match s with
  | EmptyString => EmptyString
  | String c r => if decide (c = nul) then String "\" (String "0" (replace_nul r)) else String c (replace_nul r)
  end.
(** [CString::new]: the text, unless it has a NUL. *)
Definition cstring_new (s : string) : Exec string :=
  if has_nul s then Panic "NULs were replaced" else Done s.
Definition set_error (c : ExportContext) (message : string) : Exec ExportContext :=
  match cstring_new (replace_nul message) with
  | Done e => Done {| model := model c; error := e |}
  | Panic m => Panic m
  end.

Definition create_context (outputs : option O) (h : Heap) : Heap * option O * option nat :=
  match outputs with
  | None => (h, None, None)
  | Some o =>
      let '(o', r) := new cm o in
      match r with
      | Returned (Ok m) => let a := fresh (dom h) in (<[a := {| model := m; error := "" |}]> h, Some o', Some a)
      | Returned (Err _) => (h, Some o', None)
      | Panicked _ => (h, Some o', None)
      end
  end.

(** The status returned, with the error kept in the context. *)
Definition fail_with (a : nat) (c : ExportContext) (message : string) (h : Heap) : option (Heap * Z) :=
  match set_error c message with Done c' => Some (<[a := c']> h, to_raw Fail) | Panic _ => None end.

Definition step_context (raw : option nat) (inputs : option I) (outputs : option O) (h : Heap) :
  option (Heap * option O * Z) :=
  match raw, inputs, outputs with
  | Some a, Some i, Some o =>
      c ← h !! a;
      let '(m', o', r) := step cm (model c) i o in
      let c' := {| model := m'; error := error c |} in
      let h' := <[a := c']> h in
      match r with
      | Returned (Ok status) => Some (h', Some o', to_raw status)
      | Returned (Err message) => '(h2, s) ← fail_with a c' message h'; Some (h2, Some o', s)
      | Panicked p => '(h2, s) ← fail_with a c' ("cycle model panicked: " +:+ panic_message p) h'; Some (h2, Some o', s)
      end
  | _, _, _ => Some (h, outputs, to_raw Fail)
  end.

Definition finish_context (raw : option nat) (h : Heap) : option (Heap * Z) :=
  match raw with
  | None => Some (h, to_raw Fail)
  | Some a =>
      c ← h !! a;
      let '(m', r) := finish cm (model c) in
      let c' := {| model := m'; error := error c |} in
      let h' := <[a := c']> h in
      match r with
      | Returned (Ok _) => Some (h', to_raw Pass)
      | Returned (Err message) => fail_with a c' message h'
      | Panicked p => fail_with a c' ("cycle model panicked during finish: " +:+ panic_message p) h'
      end
  end.

Definition context_error (raw : option nat) (h : Heap) : option (option string) :=
  match raw with
  | None => Some None
  | Some a => c ← h !! a; Some (Some (error c))
  end.

Definition destroy_context (raw : option nat) (h : Heap) : option Heap :=
  match raw with
  | None => Some h
  | Some a => _ ← h !! a; Some (delete a h)
  end.

(** ** The VPI adapter *)

(** How the adapter's future ends, or that it still waits for a clock edge. *)
Inductive Ended := Waiting | Broke (r : Result CycleStatus string) | Panicking.

Variables (drive : O → Result unit string).

(** The loop of [run_cycle_model_vpi]: one element per rising edge, the answer
    of [sample] there; [driven] are the outputs driven so far. *)
Fixpoint vpi_loop (m : M) (o : O) (samples : list (Result I string)) (driven : list O) : M * list O * Ended :=
  match samples with
  | [] => (m, driven, Waiting)
  | Err e :: _ => (m, driven, Broke (Err e))
  | Ok i :: r =>
      let '(m', o', x) := step cm m i o in
      match x with
      | Panicked _ => (m', driven, Panicking)
      | Returned (Err e) => (m', driven, Broke (Err e))
      | Returned (Ok Continue) =>
          match drive o' with
          | Err e => (m', driven ++ [o'], Broke (Err e))
          | Ok _ => vpi_loop m' o' r (driven ++ [o'])
          end
      | Returned (Ok status) => (m', driven, Broke (Ok status))
      end
  end.

(** The clock is cancelled and the model finished whatever the loop's result. *)
Definition run_cycle_model_vpi (o0 : O) (samples : list (Result I string)) : list O * Ended :=
  let '(o, x) := new cm o0 in
  match x with
  | Panicked _ => ([], Panicking)
  | Returned (Err e) => ([], Broke (Err e))
  | Returned (Ok m) =>
      match drive o with
      | Err e => ([o], Broke (Err e))
      | Ok _ =>
          let '(m', driven, ended) := vpi_loop m o samples [o] in
          match ended with
          | Broke result =>
              let '(_, f) := finish cm m' in
              match f with
              | Panicked _ => (driven, Panicking)
              | Returned fr => (driven, Broke match result, fr with
                  | Err e, _ => Err e
                  | Ok _, Err e => Err e
                  | Ok status, Ok _ => Ok status
                  end)
              end
          | _ => (driven, ended)
          end
      end
  end.

(** ** Clients of the ABI, and the model by itself *)

Inductive Stop := Running | Stopped (s : CycleStatus) | Failed (message : string) | Crashed (p : Payload).

(** The model stepped once per input until it does not continue; the outputs
    after each step. *)
Fixpoint model_run (m : M) (o : O) (inputs : list I) : M * list O * Stop :=
  match inputs with
  | [] => (m, [], Running)
  | i :: r =>
      let '(m', o', x) := step cm m i o in
      match x with
      | Returned (Ok Continue) => let '(m2, os, stop) := model_run m' o' r in (m2, o' :: os, stop)
      | Returned (Ok s) => (m', [o'], Stopped s)
      | Returned (Err e) => (m', [o'], Failed e)
      | Panicked p => (m', [o'], Crashed p)
      end
  end.

(** The same through [step_context]. *)
Fixpoint abi_steps (raw : option nat) (h : Heap) (o : O) (inputs : list I) : option (Heap * list O * Z) :=
  match inputs with
  | [] => Some (h, [], to_raw Continue)
  | i :: r =>
      match step_context raw (Some i) (Some o) h with
      | Some (h', Some o', s) =>
          if decide (s = to_raw Continue)
          then '(h2, os, s2) ← abi_steps raw h' o' r; Some (h2, o' :: os, s2)
          else Some (h', [o'], s)
      | _ => None
      end
  end.

(** A whole simulation: the outputs, the last step's status, the status of
    finishing, the error text read after each, and the heap left. *)
Definition abi_session (h : Heap) (o0 : O) (inputs : list I) :
  option (list O * Z * option string * Z * option string * Heap) :=
  match create_context (Some o0) h with
  | (h1, Some o1, Some a) =>
      '(h2, os, s) ← abi_steps (Some a) h1 o1 inputs;
      e ← context_error (Some a) h2;
      '(h3, f) ← finish_context (Some a) h2;
      e' ← context_error (Some a) h3;
      h4 ← destroy_context (Some a) h3;
      Some (o1 :: os, s, e, f, e', h4)
  | _ => None
  end.

Definition stop_raw (stop : Stop) : Z :=
  match stop with Running => to_raw Continue | Stopped s => to_raw s | _ => to_raw Fail end.
(** The error text a step leaves in the context. *)
Definition stop_error (stop : Stop) (before : string) : string :=
  match stop with
  | Failed m => replace_nul m
  | Crashed p => replace_nul ("cycle model panicked: " +:+ panic_message p)
  | _ => before
  end.
Definition finish_raw (r : Caught (Result unit string)) : Z :=
  match r with Returned (Ok _) => to_raw Pass | _ => to_raw Fail end.
Definition finish_error (r : Caught (Result unit string)) (before : string) : string :=
  match r with
  | Returned (Ok _) => before
  | Returned (Err m) => replace_nul m
  | Panicked p => replace_nul ("cycle model panicked during finish: " +:+ panic_message p)
  end.

Lemma replace_nul_clean t : has_nul (replace_nul t) = false.
Proof. induction t as [|c r IH]; [done|]. simpl. case_decide; simpl; [done|]. by rewrite bool_decide_false. Qed.

Lemma fail_with_eq a c message h :
  fail_with a c message h = Some (<[a := {| model := model c; error := replace_nul message |}]> h, to_raw Fail).
Proof. unfold fail_with, set_error, cstring_new. by rewrite replace_nul_clean. Qed.

Lemma from_to_raw st : from_raw (to_raw st) = Some st.
Proof. by destruct st. Qed.

Lemma stop_never_continues m o inputs s :
  (model_run m o inputs).2 = Stopped s → s ≠ Continue.
Proof.
  revert m o. induction inputs as [|i r IH]; intros m o; simpl; [done|].
  destruct (step cm m i o) as [[m' o'] x]. destruct x as [[[| |]|e]|p]; simpl; intros Hs; try by simplify_eq.
  specialize (IH m' o'). destruct (model_run m' o' r) as [[m2 os] stop]. by apply IH.
Qed.

(** Stepping the context is stepping the model in it; nothing else in the heap
    is touched. *)
Lemma abi_steps_eq a inputs h c o :
  h !! a = Some c →
  let '(m', os, stop) := model_run (model c) o inputs in
  abi_steps (Some a) h o inputs =
  Some (<[a := {| model := m'; error := stop_error stop (error c) |}]> h, os, stop_raw stop).
Proof.
  revert h c o. induction inputs as [|i r IH]; intros h c o Hc; simpl.
  { rewrite insert_id; [done|]. rewrite Hc. by destruct c. }
  rewrite Hc. simpl. destruct (step cm (model c) i o) as [[m' o'] x]. destruct x as [[st|e]|p].
  - destruct st; simpl; [|done..].
    specialize (IH (<[a := {| model := m'; error := error c |}]> h) {| model := m'; error := error c |} o').
    rewrite lookup_insert_eq in IH. specialize (IH eq_refl). simpl in IH.
    destruct (model_run m' o' r) as [[m2 os] stop]. rewrite IH. simpl. by rewrite insert_insert_eq.
  - rewrite fail_with_eq. simpl. by rewrite insert_insert_eq.
  - rewrite fail_with_eq. simpl. by rewrite insert_insert_eq.
Qed.

Lemma finish_context_eq a h c :
  h !! a = Some c →
  finish_context (Some a) h =
  Some (<[a := {| model := (finish cm (model c)).1; error := finish_error (finish cm (model c)).2 (error c) |}]> h,
        finish_raw (finish cm (model c)).2).
Proof.
  intros Hc. unfold finish_context. rewrite Hc. simpl. destruct (finish cm (model c)) as [m' [[[]|e]|p]]; simpl; [done|..];
    by rewrite fail_with_eq, insert_insert_eq.
Qed.

(** A whole session: every call is answered, and the context is freed. *)
Lemma abi_session_eq h o0 o1 m inputs :
  new cm o0 = (o1, Returned (Ok m)) →
  let '(m', os, stop) := model_run m o1 inputs in
  let r := (finish cm m').2 in
  abi_session h o0 inputs =
  Some (o1 :: os, stop_raw stop, Some (stop_error stop ""), finish_raw r, Some (finish_error r (stop_error stop "")), h).
Proof.
  intros Hn. unfold abi_session, create_context. rewrite Hn. set (a := fresh (dom h)).
  assert (h !! a = None) as Ha by (apply not_elem_of_dom, is_fresh).
  pose proof (abi_steps_eq a inputs (<[a := {| model := m; error := "" |}]> h) {| model := m; error := "" |} o1) as Hs.
  rewrite lookup_insert_eq in Hs. specialize (Hs eq_refl). cbn [model error] in Hs.
  destruct (model_run m o1 inputs) as [[m' os] stop]. rewrite Hs. cbn [mbind option_bind]. rewrite insert_insert_eq.
  set (h2 := <[a := {| model := m'; error := stop_error stop "" |}]> h).
  assert (h2 !! a = Some {| model := m'; error := stop_error stop "" |}) as H2 by apply lookup_insert_eq.
  replace (context_error (Some a) h2) with (Some (Some (stop_error stop ""))) by (simpl; by rewrite H2).
  cbn [mbind option_bind].
  rewrite (finish_context_eq a _ _ H2). cbn [mbind option_bind model error]. subst h2. rewrite insert_insert_eq. simpl.
  rewrite lookup_insert_eq. simpl. by rewrite delete_insert_id.
Qed.

(** What the adapter drives: not the outputs of the step that ends the run. *)
Definition driven_of (stop : Stop) (os : list O) : list O :=
  match stop with Running => os | _ => removelast os end.
Definition ended_of (stop : Stop) : Ended :=
  match stop with
  | Running => Waiting
  | Stopped s => Broke (Ok s)
  | Failed e => Broke (Err e)
  | Crashed _ => Panicking
  end.

Lemma model_run_outputs m o inputs :
  let '(_, os, stop) := model_run m o inputs in stop = Running ∨ os ≠ [].
Proof.
  revert m o. induction inputs as [|i r IH]; intros m o; simpl; [by left|].
  destruct (step cm m i o) as [[m' o'] [[[| |]|e]|p]]; try by right.
  destruct (model_run m' o' r) as [[m2 os] stop]. by right.
Qed.

Lemma vpi_loop_eq inputs m o driven :
  (∀ o, drive o = Ok tt) →
  vpi_loop m o (Ok <$> inputs) driven =
  (let '(m', os, stop) := model_run m o inputs in (m', driven ++ driven_of stop os, ended_of stop)).
Proof.
  intros Hd. revert m o driven. induction inputs as [|i r IH]; intros m o driven; simpl; [by rewrite app_nil_r|].
  destruct (step cm m i o) as [[m' o'] [[[| |]|e]|p]]; simpl; rewrite ?app_nil_r; try done.
  rewrite Hd, IH. pose proof (model_run_outputs m' o' r) as Hos. destruct (model_run m' o' r) as [[m2 os] stop].
  rewrite <- app_assoc. f_equal. f_equal. f_equal. destruct stop; simpl; [done|..]; destruct os; naive_solver.
Qed.

(** What a run of the model and its finish come to at the adapter: a panic
    anywhere unwinds, else an error of the steps comes before one of the finish. *)
Definition adapter_answer (stop : Stop) (fin : Caught (Result unit string)) : Ended :=
  match stop, fin with
  | Running, _ => Waiting
  | Crashed _, _ => Panicking
  | _, Panicked _ => Panicking
  | Failed e, _ => Broke (Err e)
  | Stopped _, Returned (Err e) => Broke (Err e)
  | Stopped st, Returned (Ok _) => Broke (Ok st)
  end.

Lemma run_vpi_eq o0 o1 m inputs :
  new cm o0 = (o1, Returned (Ok m)) → (∀ o, drive o = Ok tt) →
  run_cycle_model_vpi o0 (Ok <$> inputs) =
  (let '(m', os, stop) := model_run m o1 inputs in (o1 :: driven_of stop os, adapter_answer stop (finish cm m').2)).
Proof.
  intros Hn Hd. unfold run_cycle_model_vpi. rewrite Hn, Hd, (vpi_loop_eq inputs m o1 [o1] Hd).
  destruct (model_run m o1 inputs) as [[m' os] [|st|e|p]]; simpl; try done;
    by destruct (finish cm m') as [m2 [[[]|e2]|p]].
Qed.

(** C27: The two ways to run a model agree, on any model and inputs, with pins
    that can be driven and sampled.  Both are the model stepped until it does not
    continue and then finished: the ABI answers the raw status and the error text
    of the last step and of the finish and frees its context, the adapter ends
    exactly as that run and that finish say ([adapter_answer]).  The adapter
    drives all the ABI's outputs but those of the step that ends the run; it waits
    for a clock edge exactly when the ABI says continue; a status it returns is
    the last step's, with no error text and a finish that passes; an error is the
    text of the context (NULs spelled out), of the step or else of the finish; and
    when it panics the ABI reports the same panic as an error. *)
Theorem cycle_backends_agree h o0 o1 m inputs :
  new cm o0 = (o1, Returned (Ok m)) → (∀ o, drive o = Ok tt) →
  ∃ outs s e f e' driven r,
    abi_session h o0 inputs = Some (outs, s, e, f, e', h) ∧
    run_cycle_model_vpi o0 (Ok <$> inputs) = (driven, r) ∧
    (let '(m', os, stop) := model_run m o1 inputs in
     let fin := (finish cm m').2 in
     outs = o1 :: os ∧ s = stop_raw stop ∧ e = Some (stop_error stop "") ∧
     f = finish_raw fin ∧ e' = Some (finish_error fin (stop_error stop "")) ∧ r = adapter_answer stop fin) ∧
    (if decide (s = to_raw Continue) then driven = outs else ∃ o, outs = driven ++ [o]) ∧
    (r = Waiting ↔ s = to_raw Continue) ∧
    (∀ st, r = Broke (Ok st) → st ≠ Continue ∧ s = to_raw st ∧ e = Some ""%string ∧ f = to_raw Pass) ∧
    (∀ msg, r = Broke (Err msg) →
       s = to_raw Fail ∧ e = Some (replace_nul msg) ∨
       s ≠ to_raw Continue ∧ e = Some ""%string ∧ f = to_raw Fail ∧ e' = Some (replace_nul msg)) ∧
    (r = Panicking → ∃ p,
       s = to_raw Fail ∧ e = Some (replace_nul ("cycle model panicked: " +:+ panic_message p)) ∨
       s ≠ to_raw Continue ∧ f = to_raw Fail ∧
         e' = Some (replace_nul ("cycle model panicked during finish: " +:+ panic_message p))).
Proof.
  intros Hn Hd. pose proof (abi_session_eq h o0 o1 m inputs Hn) as Hs. pose proof (run_vpi_eq o0 o1 m inputs Hn Hd) as Hv.
  pose proof (stop_never_continues m o1 inputs) as Hc. pose proof (model_run_outputs m o1 inputs) as Hos.
  destruct (model_run m o1 inputs) as [[m' os] stop]. cbv zeta in Hs.
  do 7 eexists. split; [exact Hs|]. split; [exact Hv|]. clear Hs Hv. split; [done|].
  assert (if decide (stop_raw stop = to_raw Continue) then o1 :: driven_of stop os = o1 :: os
          else ∃ o, o1 :: os = (o1 :: driven_of stop os) ++ [o]) as Hout.
  { destruct stop as [|[]| |]; simpl; try done; [by destruct (Hc Continue)|..];
      destruct Hos as [|Hos]; try done; exists (List.last os o1); f_equal; by apply app_removelast_last. }
  split; [exact Hout|]. clear Hout Hos.
  destruct stop as [|st|e|p]; simpl; [by split_and!| |..].
  - destruct st; [by destruct (Hc Continue eq_refl)|..]; destruct (finish cm m').2 as [[[]|e]|p]; simpl;
      split_and!; try done; intros; simplify_eq; eauto 10.
  - destruct (finish cm m').2 as [[[]|e2]|p]; simpl; split_and!; try done; intros; simplify_eq; eauto 10.
  - split_and!; try done. intros _. exists p. by left.
Qed.

End Abi.
End Cycle.

(** ** The layout record of the interface *)

Module CycleAbi.

(** The layout of a type: its size and its alignment in bytes. *)
Record Layout := { size_of : Z; align_of : Z }.
Definition u32 : Layout := {| size_of := 4; align_of := 4 |}.
Definition u64 : Layout := {| size_of := 8; align_of := 8 |}.
Definition array (t : Layout) (n : Z) : Layout := {| size_of := n * size_of t; align_of := align_of t |}.

(** [repr(C)]: fields in order, each at the next offset its alignment divides,
    the whole padded to the greatest alignment. *)
Definition round_up (n a : Z) : Z := (n + a - 1) / a * a.
Fixpoint place (at_ : Z) (fs : list Layout) : list Z * Z :=
  match fs with
  | [] => ([], at_)
  | f :: r => let o := round_up at_ (align_of f) in let '(os, e) := place (o + size_of f) r in (o :: os, e)
  end.
Definition offsets (fs : list Layout) : list Z := (place 0 fs).1.
Definition struct_align (fs : list Layout) : Z := foldr (λ f m, Z.max (align_of f) m) 1 fs.
Definition repr_c (fs : list Layout) : Layout := {| size_of := round_up (place 0 fs).2 (struct_align fs); align_of := struct_align fs |}.

Definition CYCLE_ABI_VERSION : Z := 1.
(** [CycleAbiHeader]: abi_version, info_size; [CycleAbiInfo] has them first. *)
Definition header_fields : list Layout := [u32; u32].
Definition info_fields : list Layout := [u32; u32; u32; u32; u32; u32; u64; array u64 4].
Record CycleAbiInfo := {
  abi_version : Z; info_size : Z; input_size : Z; input_align : Z; output_size : Z; output_align : Z; schema_hash : Z;
  reserved : list Z;
}.
Definition for_types (i o : Layout) (hash : Z) : CycleAbiInfo :=
  {| abi_version := CYCLE_ABI_VERSION; info_size := size_of (repr_c info_fields); input_size := size_of i; input_align := align_of i;
     output_size := size_of o; output_align := align_of o; schema_hash := hash; reserved := replicate 4 0 |}.

(** A reader that only knows the header finds its fields in the record. *)
Lemma header_is_prefix : offsets header_fields `prefix_of` offsets info_fields.
Proof. exists [8; 12; 16; 20; 24; 32]. reflexivity. Qed.
End CycleAbi.

Module CycleWitnesses.
Import Cycle.

(** Adds its input to its output and passes from four on. *)
Definition adder : CycleModel unit Z Z := {|
  new := λ _, (1, Returned (Ok tt));
  step := λ m i o, (m, o + i, Returned (Ok (if decide (4 ≤ o + i) then Pass else Continue)));
  finish := λ m, (m, Returned (Ok tt));
|}.

Lemma cycle_backends_agree_witness :
  run_cycle_model_vpi adder (λ _, Ok tt) 0 (Ok <$> [1; 2]) = ([1; 2], Broke (Ok Pass)) ∧
  abi_session adder ∅ 0 [1; 2] = Some ([1; 2; 4], 1, Some EmptyString, 1, Some EmptyString, ∅).
Proof.
  destruct (cycle_backends_agree adder (λ _, Ok tt) ∅ 0 1 tt [1; 2] eq_refl (λ _, eq_refl))
    as (outs & s & e & f & e' & driven & r & Hs & Hv & (-> & -> & -> & -> & -> & ->) & (o & Ho) & _).
  rewrite Hs, Hv. split; [|reflexivity]. f_equal. symmetry.
  apply (app_inj_tail [1; 2] driven 4 o) in Ho as [Ho _]. exact Ho.
Defined.

End CycleWitnesses.
