(* ===== verification/Alu.v ===== *)
(** * Alu: the transactions of the TinyALU test bench, its reference model,
    sequences, scoreboard and coverage (tinyalu_tb/src/alu_item.rs,
    sequences.rs, components.rs).

    Operands are bytes kept as integers.  A sequence runs against a sequencer
    given as two calls that may fail.  Subscribers are functions of what they
    are written; the scoreboard's check adds to the sink of the check phase. *)
From stdpp Require Import pretty countable.
From S2P Require Import Prelude Words Component Rng.
Local Open Scope Z_scope.

(** ** Transactions, stimulus and checks *)

Module Alu.

Inductive Ops := Add | And | Xor | Mul.
#[global] Instance ops_eq_dec : EqDecision Ops.
Proof. solve_decision. Defined.

Definition ALL : list Ops := [Add; And; Xor; Mul].
Definition as_u64 (o : Ops) : Z := match o with Add => 1 | And => 2 | Xor => 3 | Mul => 4 end.
Definition from_u64 (v : Z) : option Ops :=
  if v =? 1 then Some Add else if v =? 2 then Some And else if v =? 3 then Some Xor
  else if v =? 4 then Some Mul else None.

Lemma from_as_u64 o : from_u64 (as_u64 o) = Some o.
Proof. by destruct o. Qed.

#[global] Instance ops_countable : Countable Ops := inj_countable as_u64 from_u64 from_as_u64.

Record AluCommand := { a : Z; b : Z; op : Ops }.
Record AluResult := { result : Z }.
#[global] Instance alu_command_eq_dec : EqDecision AluCommand.
Proof. solve_decision. Defined.
#[global] Instance alu_result_eq_dec : EqDecision AluResult.
Proof. solve_decision. Defined.

(** The operands are bytes and the sums 16 bits wide: nothing overflows
    ([predict_fits]). *)
Definition predict (cmd : AluCommand) : AluResult :=
  {| result := match op cmd with
     | Add => a cmd + b cmd
     | And => Z.land (a cmd) (b cmd)
     | Xor => Z.lxor (a cmd) (b cmd)
     | Mul => a cmd * b cmd
     end |}.

Definition cmd_ok (c : AluCommand) : Prop := fits 8 (a c) ∧ fits 8 (b c).

Lemma predict_fits c : cmd_ok c → fits 16 (result (predict c)).
Proof.
  intros [Ha Hb]. destruct c as [x y o]. simpl in *. pose proof (fits_mono 8 16 x ltac:(lia) Ha) as Ha'.
  pose proof (fits_mono 8 16 y ltac:(lia) Hb) as Hb'. destruct o; simpl; unfold fits in *; [lia| | |nia].
  - apply fits_land; unfold fits; lia.
  - apply fits_lxor; unfold fits; lia.
Qed.

(** ** Sequences *)

Class Operands (S : Type) := { set_operands : S → Rng.Rng → AluCommand → Rng.Rng * AluCommand }.

Inductive BaseSeq := Base.
Inductive RandomSeq := Random.
Inductive MaxSeq := Max.
#[global] Instance base_operands : Operands BaseSeq := {| set_operands _ rng cmd := (rng, cmd) |}.
#[global] Instance random_operands : Operands RandomSeq := {|
  set_operands _ rng cmd :=
    let '(rng, x) := Rng.u8 rng in let '(rng, y) := Rng.u8 rng in (rng, {| a := x; b := y; op := op cmd |})
|}.
#[global] Instance max_operands : Operands MaxSeq := {|
  set_operands _ rng cmd := (rng, {| a := 0xFF; b := 0xFF; op := op cmd |})
|}.

Section Sequences.
(** The sequencer, as the context of a sequence reaches it: asking for a turn
    and handing the item over, each of which may fail. *)
Context {Ctx E S : Type} `{!Operands S}.
Variable start_item : Ctx → AluCommand → Result Ctx E.
Variable finish_item : Ctx → AluCommand → Result Ctx E.
Variable seq : S.

Definition one_op (cr : Ctx * Rng.Rng) (o : Ops) : Result (Ctx * Rng.Rng) E :=
  let '(ctx, rng) := cr in
  let cmd := {| a := 0; b := 0; op := o |} in
  match start_item ctx cmd with
  | Err e => Err e
  | Ok ctx =>
      let '(rng, cmd) := set_operands seq rng cmd in
      match finish_item ctx cmd with Err e => Err e | Ok ctx => Ok (ctx, rng) end
  end.
Fixpoint over_ops (os : list Ops) (cr : Ctx * Rng.Rng) : Result (Ctx * Rng.Rng) E :=
  match os with [] => Ok cr | o :: r => result_bind (one_op cr o) (over_ops r) end.
Fixpoint rounds (n : nat) (cr : Ctx * Rng.Rng) : Result (Ctx * Rng.Rng) E :=
  match n with O => Ok cr | Datatypes.S k => result_bind (over_ops ALL cr) (rounds k) end.
Definition all_ops (ctx : Ctx) (rng : Rng.Rng) (n : nat) : Result Ctx E :=
  match rounds n (ctx, rng) with Ok (ctx, _) => Ok ctx | Err e => Err e end.
End Sequences.

(** How often each sequence walks the operations. *)
Definition base_body {Ctx E} st fi (ctx : Ctx) rng : Result Ctx E := all_ops st fi Base ctx rng 1.
Definition random_body {Ctx E} st fi (ctx : Ctx) rng : Result Ctx E := all_ops st fi Random ctx rng 5.
Definition max_body {Ctx E} st fi (ctx : Ctx) rng : Result Ctx E := all_ops st fi Max ctx rng 1.

(** ** Scoreboard *)

Definition op_debug (o : Ops) : string := match o with Add => "Add" | And => "And" | Xor => "Xor" | Mul => "Mul" end.
Definition cmd_debug (c : AluCommand) : string :=
  "AluCommand { a: " +:+ pretty (a c) +:+ ", b: " +:+ pretty (b c) +:+ ", op: " +:+ op_debug (op c) +:+ " }".
Definition result_debug (r : AluResult) : string := "AluResult { result: " +:+ pretty (result r) +:+ " }".

Record Scoreboard := { cmds : list AluCommand; results : list AluResult; compared : nat; mismatches : nat }.
Definition sb_new : Scoreboard := {| cmds := []; results := []; compared := 0; mismatches := 0 |}.
Definition cmd_log_write (cmd : AluCommand) (s : Scoreboard) : Scoreboard :=
  {| cmds := cmds s ++ [cmd]; results := results s; compared := compared s; mismatches := mismatches s |}.
Definition result_log_write (res : AluResult) (s : Scoreboard) : Scoreboard :=
  {| cmds := cmds s; results := results s ++ [res]; compared := compared s; mismatches := mismatches s |}.

Definition mismatch_error (cmd : AluCommand) (actual : AluResult) : string :=
  "scoreboard mismatch: " +:+ cmd_debug cmd +:+ " -> got " +:+ result_debug actual +:+ ", expected " +:+ result_debug (predict cmd).

(** The loop over the two streams. *)
Fixpoint compare (l : list (AluCommand * AluResult)) (s : Scoreboard) (errors : Component.CheckSink) :
  Scoreboard * Component.CheckSink :=
  match l with
  | [] => (s, errors)
  | (cmd, actual) :: r =>
      if decide (predict cmd = actual)
      then compare r {| cmds := cmds s; results := results s; compared := Datatypes.S (compared s); mismatches := mismatches s |} errors
      else compare r {| cmds := cmds s; results := results s; compared := Datatypes.S (compared s); mismatches := Datatypes.S (mismatches s) |}
             (Component.sink_error (mismatch_error cmd actual) errors)
  end.

Definition sb_check (s : Scoreboard) (errors : Component.CheckSink) : Scoreboard * Component.CheckSink :=
  let '(s, errors) := compare (zip (cmds s) (results s)) s errors in
  let errors := if decide (length (cmds s) = length (results s)) then errors
    else Component.sink_error ("scoreboard: saw " +:+ pretty (N.of_nat (length (cmds s))) +:+ " commands and "
           +:+ pretty (N.of_nat (length (results s))) +:+ " results") errors in
  let errors := if Nat.eqb (compared s) 0 then Component.sink_error "scoreboard: nothing was compared" errors else errors in
  (s, errors).

(** ** Coverage *)

Abbreviation Seen := (gmap Ops nat) (only parsing).
Definition cov_write (cmd : AluCommand) (seen : gmap Ops nat) : gmap Ops nat :=
  <[op cmd := Datatypes.S (default O (seen !! op cmd))]> seen.
Definition cov_check (seen : gmap Ops nat) (errors : Component.CheckSink) : Component.CheckSink :=
  foldl (λ e o, match seen !! o with Some _ => e
                | None => Component.sink_error ("coverage: op " +:+ op_debug o +:+ " was never exercised") e end) errors ALL.

(** ** What the checks find *)

Definition mismatched (l : list (AluCommand * AluResult)) : list (AluCommand * AluResult) :=
  filter (λ cr, predict cr.1 ≠ cr.2) l.

Lemma compare_spec l s e :
  compare l s e =
  ({| cmds := cmds s; results := results s; compared := (compared s + length l)%nat;
      mismatches := (mismatches s + length (mismatched l))%nat |},
   {| Component.errors := Component.errors e ++ map (λ cr, mismatch_error cr.1 cr.2) (mismatched l) |}).
Proof.
  revert s e. induction l as [|[c r] l IH]; intros s e; simpl.
  { rewrite !Nat.add_0_r, app_nil_r. by destruct s, e. }
  unfold mismatched in *. rewrite filter_cons. cbn [fst snd]. destruct (decide (predict c = r)) as [E|E].
  - rewrite decide_False by (by intros []). rewrite IH. simpl. repeat f_equal; lia.
  - rewrite decide_True by done. rewrite IH. simpl. rewrite <- app_assoc. simpl. repeat f_equal; lia.
Qed.

Lemma mismatched_nil cs : ∀ rs, length cs = length rs → mismatched (zip cs rs) = [] → rs = map predict cs.
Proof.
  unfold mismatched. induction cs as [|c cs IH]; intros [|r rs] Hl; try done. simpl. rewrite filter_cons. simpl.
  case_decide as Hd; [done|]. intros Hm. rewrite <- (IH rs) by (done || (simpl in Hl; lia)). f_equal.
  destruct (decide (predict c = r)); [done|]. by destruct Hd.
Qed.

Lemma mismatched_predict cs : mismatched (zip cs (map predict cs)) = [].
Proof.
  unfold mismatched. induction cs as [|c cs IH]; [done|]. simpl. rewrite filter_cons. simpl. by rewrite decide_False by (by intros []).
Qed.

(** The scoreboard passes exactly when something was compared and every
    command has its predicted result, in order, with none missing; each wrong
    result is reported by an error of its own and counted. *)
Theorem scoreboard_verdict s :
  compared s = 0%nat → mismatches s = 0%nat →
  let '(s', e) := sb_check s Component.sink_new in
  (Component.errors e = [] ↔ results s = map predict (cmds s) ∧ cmds s ≠ []) ∧
  compared s' = Nat.min (length (cmds s)) (length (results s)) ∧
  mismatches s' = length (mismatched (zip (cmds s) (results s))) ∧
  ∀ c r, (c, r) ∈ zip (cmds s) (results s) → predict c ≠ r → mismatch_error c r ∈ Component.errors e.
Proof.
  intros Hc Hm. unfold sb_check. rewrite compare_spec, Hc, Hm. cbn [compared mismatches cmds results Component.errors Component.sink_new].
  rewrite !Nat.add_0_l, length_zip_with, app_nil_l.
  set (l := map _ _).
  assert (∀ c r, (c, r) ∈ zip (cmds s) (results s) → predict c ≠ r → mismatch_error c r ∈ l) as Hin.
  { intros c r Hcr Hne. subst l. apply list_elem_of_fmap. exists (c, r). split; [done|]. unfold mismatched.
    by apply list_elem_of_filter. }
  split_and_all; [|done|done|].
  - split.
    + intros He. destruct (decide (length (cmds s) = length (results s))) as [El|El].
      2: { by destruct (Nat.eqb _ 0); apply (f_equal length) in He; simpl in He; rewrite ?length_app in He; simpl in He; lia. }
      destruct (Nat.eqb_spec (length (cmds s) `min` length (results s)) 0) as [E0|E0];
        [apply (f_equal length) in He; simpl in He; rewrite length_app in He; simpl in He; lia|].
      simpl in He. subst l. apply map_eq_nil in He. split; [by apply mismatched_nil|].
      intros En. by rewrite En in E0.
    + intros [Hr Hne]. subst l. rewrite Hr, mismatched_predict, length_map. simpl. rewrite decide_True by done.
      destruct (cmds s); [done|]. simpl. done.
  - intros c r Hcr Hne. pose proof (Hin c r Hcr Hne).
    destruct (decide _), (Nat.eqb _ 0); simpl; rewrite ?elem_of_app; tauto.
Qed.

(** The collector saw what is in the log. *)
Definition covered (cs : list AluCommand) : gmap Ops nat := foldl (λ m c, cov_write c m) ∅ cs.

Lemma covered_lookup cs o : is_Some (covered cs !! o) ↔ ∃ c, c ∈ cs ∧ op c = o.
Proof.
  unfold covered. induction cs as [|c cs IH] using rev_ind; [split; [by intros []|intros (c & Hc & _); by apply not_elem_of_nil in Hc]|].
  rewrite foldl_app. simpl. unfold cov_write. rewrite lookup_insert_is_Some, IH. split.
  - intros [He|[_ (c' & Hc' & He)]]; [exists c|exists c']; split; try done; apply elem_of_app; [right; by left|by left].
  - intros (c' & [Hc|Hc]%elem_of_app & He); [|apply list_elem_of_singleton in Hc as ->; by left].
    destruct (decide (op c = o)); [by left|right]. split; [done|]. by exists c'.
Qed.

Lemma cov_check_ok cs :
  Component.errors (cov_check (covered cs) Component.sink_new) = [] ↔ ∀ o, ∃ c, c ∈ cs ∧ op c = o.
Proof.
  pose proof (covered_lookup cs) as Hl. unfold cov_check, ALL. simpl. split.
  - intros He o. apply Hl. destruct (covered cs !! Add) eqn:E1, (covered cs !! And) eqn:E2,
      (covered cs !! Xor) eqn:E3, (covered cs !! Mul) eqn:E4; try done. destruct o; rewrite ?E1, ?E2, ?E3, ?E4; by eexists.
  - intros Ha. destruct (proj2 (Hl Add) (Ha Add)) as [? ->], (proj2 (Hl And) (Ha And)) as [? ->],
      (proj2 (Hl Xor) (Ha Xor)) as [? ->], (proj2 (Hl Mul) (Ha Mul)) as [? ->]. done.
Qed.

(** ** What the sequences send *)

(** With a sequencer that never fails and keeps what it was handed. *)
Definition keep_start (l : list AluCommand) (_ : AluCommand) : Result (list AluCommand) unit := Ok l.
Definition keep_finish (l : list AluCommand) (c : AluCommand) : Result (list AluCommand) unit := Ok (l ++ [c]).

Definition seq_ok {S} `{!Operands S} (sq : S) : Prop :=
  ∀ rng c, cmd_ok c → cmd_ok (set_operands sq rng c).2 ∧ op (set_operands sq rng c).2 = op c.

Lemma over_ops_sends {S} `{!Operands S} (sq : S) os : seq_ok sq → ∀ l rng, Forall cmd_ok l →
  ∃ l' rng', over_ops keep_start keep_finish sq os (l, rng) = Ok (l ++ l', rng') ∧ map op l' = os ∧ Forall cmd_ok (l ++ l').
Proof.
  intros Hs. induction os as [|o os IH]; intros l rng Hl; simpl.
  { exists [], rng. rewrite app_nil_r. by split_and_all. }
  unfold keep_start. destruct (Hs rng {| a := 0; b := 0; op := o |}) as [Hc Ho]; [by split|].
  destruct (set_operands sq rng _) as [rng' c]. simpl in *.
  destruct (IH (l ++ [c]) rng') as (l' & rng'' & He & Hm & Hok); [apply Forall_app; by split; [|constructor]|].
  exists (c :: l'), rng''. rewrite <- app_assoc in *. simpl in *. split; [exact He|]. by rewrite Ho, Hm.
Qed.

Lemma rounds_sends {S} `{!Operands S} (sq : S) n : seq_ok sq → ∀ l rng, Forall cmd_ok l →
  ∃ l' rng', rounds keep_start keep_finish sq n (l, rng) = Ok (l ++ l', rng') ∧
    map op l' = mjoin (replicate n ALL) ∧ Forall cmd_ok (l ++ l').
Proof.
  intros Hs. induction n as [|n IH]; intros l rng Hl.
  { exists [], rng. cbn [rounds]. rewrite app_nil_r. by split_and_all. }
  cbn [rounds]. destruct (over_ops_sends sq ALL Hs l rng Hl) as (l1 & r1 & -> & Hm & Hok). cbn [result_bind].
  destruct (IH (l ++ l1) r1 Hok) as (l2 & r2 & -> & Hm2 & Hok2). exists (l1 ++ l2), r2. rewrite app_assoc.
  split; [done|]. split; [|done]. by rewrite map_app, Hm, Hm2.
Qed.

End Alu.
