(* ===== verification/Tinyalu.v ===== *)
(** * Tinyalu: the bus functional model of the TinyALU test bench
    (tinyalu_tb/src/alu_bfm.rs) over its design (sim/hdl/tinyalu.sv).

    [Dut] has the registers of the design, one step per rising clock edge.
    [Bfm] has the bodies of the model's three tasks and of [wait_idle], run once
    per falling edge in any order; their writes are applied in the read-write
    phase that follows (see PhaseHub) and seen by the design at the next rising
    edge.  One-bit pins are four-state; a vector read is [None] when it has X or
    Z bits.  Unbounded queues are their contents (see Queue); the two monitor
    components wait on theirs and forward what comes at once. *)
From S2P Require Import Prelude Words Values Alu.
Local Open Scope Z_scope.

(** ** The design *)

Module Dut.

(** The inputs a test bench drives. *)
Record Pins := { reset_n : Logic.Logic; start : Logic.Logic; A : option Z; B : option Z; op : option Z }.

Record Regs := {
  aax_done : bool; aax_result : Z;
  a_int : Z; b_int : Z; mult1 : Z; mult2 : Z; mult_result : Z;
  done3 : bool; done2 : bool; done1 : bool; mult_done : bool;
}.

Definition single_cycle (p_start : bool) (x y o : Z) : bool * Z :=
  (p_start && negb (o =? 0),
   if o =? 1 then wrap 16 (x + y) else if o =? 2 then Z.land x y else if o =? 3 then Z.lxor x y else Z.shiftl x 8 + y).

Definition three_cycle (p_start : bool) (x y : Z) (r : Regs) : Regs :=
  {| aax_done := aax_done r; aax_result := aax_result r;
     a_int := x; b_int := y; mult1 := wrap 16 (a_int r * b_int r); mult2 := mult1 r; mult_result := mult2 r;
     done3 := p_start && negb (mult_done r); done2 := done3 r && negb (mult_done r);
     done1 := done2 r && negb (mult_done r); mult_done := done1 r && negb (mult_done r) |}.

Definition zero_regs : Regs :=
  {| aax_done := false; aax_result := 0; a_int := 0; b_int := 0; mult1 := 0; mult2 := 0; mult_result := 0;
     done3 := false; done2 := false; done1 := false; mult_done := false |}.

(** A rising edge out of reset, the inputs known. *)
Definition clocked (s : bool) (x y o : Z) (r : Regs) : Regs :=
  let '(d, v) := single_cycle (s && negb (Z.testbit o 2)) x y o in
  let m := three_cycle (s && Z.testbit o 2) x y r in
  {| aax_done := d; aax_result := v; a_int := a_int m; b_int := b_int m; mult1 := mult1 m; mult2 := mult2 m;
     mult_result := mult_result m; done3 := done3 m; done2 := done2 m; done1 := done1 m; mult_done := mult_done m |}.

Definition known (v : Logic.Logic) : option bool :=
  match v with Logic.Zero => Some false | Logic.One => Some true | _ => None end.

(** One rising edge.  The registers are two-valued once the design has been
    reset with known inputs; before that nothing is said of them ([unknown]). *)
Definition posedge (unknown : Regs) (p : Pins) (r : Regs) : Regs :=
  match reset_n p with
  | Logic.Zero => zero_regs
  | Logic.One =>
      match known (start p), A p, B p, op p with
      | Some s, Some x, Some y, Some o => clocked s x y o r
      | _, _, _, _ => unknown
      end
  | _ => unknown
  end.

Definition of_bool (b : bool) : Logic.Logic := if b then Logic.One else Logic.Zero.

(** The outputs, selected by the opcode. *)
Definition done (p : Pins) (r : Regs) : Logic.Logic :=
  match op p with
  | Some o => of_bool (if Z.testbit o 2 then mult_done r else aax_done r)
  | None => if Bool.eqb (mult_done r) (aax_done r) then of_bool (mult_done r) else Logic.X
  end.
Definition result (p : Pins) (r : Regs) : option Z :=
  match op p with
  | Some o => Some (if Z.testbit o 2 then mult_result r else aax_result r)
  | None => if mult_result r =? aax_result r then Some (mult_result r) else None
  end.
End Dut.

(** ** The bus functional model *)

Module Bfm.
Import Alu.
Import Dut.

Inductive Write := WReset (v : bool) | WStart (v : bool) | WA (v : Z) | WB (v : Z) | WOp (v : Z).
Definition apply_write (p : Pins) (w : Write) : Pins :=
  match w with
  | WReset v => {| reset_n := of_bool v; start := start p; A := A p; B := B p; Dut.op := Dut.op p |}
  | WStart v => {| reset_n := reset_n p; start := of_bool v; A := A p; B := B p; Dut.op := Dut.op p |}
  | WA v => {| reset_n := reset_n p; start := start p; A := Some v; B := B p; Dut.op := Dut.op p |}
  | WB v => {| reset_n := reset_n p; start := start p; A := A p; B := Some v; Dut.op := Dut.op p |}
  | WOp v => {| reset_n := reset_n p; start := start p; A := A p; B := B p; Dut.op := Some v |}
  end.

(** [wait_idle]: counting idle edges, waiting for the last edge, returned. *)
Inductive Wait := NotWaiting | Counting (idle_edges : nat) | Flushing | Returned.

Record Tb := {
  pins : Pins; regs : Regs; writes : list Write;
  driver_q : list AluCommand; cmd_q : list AluCommand; result_q : list AluResult;
  prev_start : bool; waiting : Wait;
  scoreboard : Scoreboard; coverage : gmap Ops nat;
}.

(** *** The tasks' bodies, from one falling edge to the next *)

Definition driver_body (st dn : Logic.Logic) (q : list AluCommand) : list Write * list AluCommand :=
  match st, dn with
  | Logic.Zero, Logic.Zero =>
      match q with
      | cmd :: q' => ([WA (a cmd); WB (b cmd); WOp (as_u64 (Alu.op cmd)); WStart true], q')
      | [] => ([], [])
      end
  | Logic.One, Logic.One => ([WStart false], q)
  | _, _ => ([], q)
  end.

Definition is_high (v : Logic.Logic) : bool := match v with Logic.One => true | _ => false end.
Definition is_low (v : Logic.Logic) : bool := match v with Logic.Zero => true | _ => false end.

Definition cmd_mon_body (p : Pins) (prev_start : bool) : list AluCommand * bool :=
  let st := is_high (start p) in
  let seen := if st && negb prev_start then
      match A p, B p, Dut.op p with
      | Some av, Some bv, Some opv =>
          match from_u64 opv with Some o => [{| a := wrap 8 av; b := wrap 8 bv; Alu.op := o |}] | None => [] end
      | _, _, _ => []
      end
    else [] in
  (seen, st).

Definition result_mon_body (p : Pins) (r : Regs) : list AluResult :=
  if is_high (start p) && is_high (done p r) then
    match Dut.result p r with Some v => [{| Alu.result := wrap 16 v |}] | None => [] end
  else [].

Definition wait_idle_body (p : Pins) (r : Regs) (q : list AluCommand) (w : Wait) : Wait :=
  match w with
  | Counting n =>
      if match q with [] => true | _ => false end && is_low (start p) && is_low (done p r)
      then if Nat.leb 2 (S n) then Flushing else Counting (S n)
      else Counting 0
  | Flushing => Returned
  | _ => w
  end.

(** *** One falling edge *)

Inductive Task := TDriver | TCmdMon | TResultMon | TWait.

Definition poll (s : Tb) (t : Task) : Tb :=
  let '(ws, dq) := match t with TDriver => driver_body (start (pins s)) (done (pins s) (regs s)) (driver_q s) | _ => ([], driver_q s) end in
  let '(cs, prev) := match t with TCmdMon => cmd_mon_body (pins s) (prev_start s) | _ => ([], prev_start s) end in
  let rs := match t with TResultMon => result_mon_body (pins s) (regs s) | _ => [] end in
  let wt := match t with TWait => wait_idle_body (pins s) (regs s) (driver_q s) (waiting s) | _ => waiting s end in
  {| pins := pins s; regs := regs s; writes := writes s ++ ws; driver_q := dq; cmd_q := cmd_q s ++ cs; result_q := result_q s ++ rs;
     prev_start := prev; waiting := wt; scoreboard := scoreboard s; coverage := coverage s |}.

(** The monitor components take what is queued and publish it: the scoreboard
    and the coverage collector subscribe to commands, the scoreboard to results. *)
Definition run_monitors (s : Tb) : Tb :=
  {| pins := pins s; regs := regs s; writes := writes s; driver_q := driver_q s; cmd_q := []; result_q := [];
     prev_start := prev_start s; waiting := waiting s;
     scoreboard := foldl (λ sb r, result_log_write r sb) (foldl (λ sb c, cmd_log_write c sb) (scoreboard s) (cmd_q s)) (result_q s);
     coverage := foldl (λ m c, cov_write c m) (coverage s) (cmd_q s) |}.

(** The read-write phase and the rising edge that follow. *)
Definition advance (unknown : Regs) (s : Tb) : Tb :=
  let p := foldl apply_write (pins s) (writes s) in
  {| pins := p; regs := posedge unknown p (regs s); writes := []; driver_q := driver_q s; cmd_q := cmd_q s; result_q := result_q s;
     prev_start := prev_start s; waiting := waiting s; scoreboard := scoreboard s; coverage := coverage s |}.

(** Every task is called back once, in some order; each callback runs until
    nothing is left to do. *)
Definition falling_edge (unknown : Regs) (order : list Task) (s : Tb) : Tb :=
  advance unknown (foldl (λ s t, run_monitors (poll s t)) s order).
Definition tasks : list Task := [TDriver; TCmdMon; TResultMon; TWait].

Definition send_op (cmd : AluCommand) (s : Tb) : Tb :=
  {| pins := pins s; regs := regs s; writes := writes s; driver_q := driver_q s ++ [cmd]; cmd_q := cmd_q s; result_q := result_q s;
     prev_start := prev_start s; waiting := waiting s; scoreboard := scoreboard s; coverage := coverage s |}.
Definition wait_idle (s : Tb) : Tb :=
  {| pins := pins s; regs := regs s; writes := writes s; driver_q := driver_q s; cmd_q := cmd_q s; result_q := result_q s;
     prev_start := prev_start s; waiting := Counting 0; scoreboard := scoreboard s; coverage := coverage s |}.

(** *** Reset *)

Definition schedule_writes (ws : list Write) (s : Tb) : Tb :=
  {| pins := pins s; regs := regs s; writes := writes s ++ ws; driver_q := driver_q s; cmd_q := cmd_q s; result_q := result_q s;
     prev_start := prev_start s; waiting := waiting s; scoreboard := scoreboard s; coverage := coverage s |}.
Definition drop_seen (s : Tb) : Tb :=
  {| pins := pins s; regs := regs s; writes := writes s; driver_q := driver_q s; cmd_q := []; result_q := [];
     prev_start := prev_start s; waiting := waiting s; scoreboard := scoreboard s; coverage := coverage s |}.

(** Five edges in reset, then one out of it; the writes are scheduled in the
    callback of the edge before they are applied. *)
Definition polled (order : list Task) (s : Tb) : Tb := foldl (λ s t, run_monitors (poll s t)) s order.
Definition reset (unknown : Regs) (order : nat → list Task) (s : Tb) : Tb :=
  let s := advance unknown (schedule_writes [WReset false; WStart false; WA 0; WB 0; WOp 0] s) in
  let s := foldl (λ s i, falling_edge unknown (order i) s) s (seq 0 4) in
  let s := advance unknown (schedule_writes [WReset true] (polled (order 4%nat) s)) in
  advance unknown (drop_seen (polled (order 5%nat) s)).

(** *** Every history of the running test bench *)

Inductive Event := ESend (cmd : AluCommand) | EWait | EEdge (order : list Task).
Definition step (unknown : Regs) (s : Tb) (e : Event) : Tb :=
  match e with
  | ESend cmd => send_op cmd s
  | EWait => wait_idle s
  | EEdge order => falling_edge unknown order s
  end.
Definition sent (es : list Event) : list AluCommand := omap (λ e, match e with ESend c => Some c | _ => None end) es.
Definition event_ok (e : Event) : Prop :=
  match e with ESend c => cmd_ok c | EEdge order => order ≡ₚ tasks | EWait => True end.

(** *** One edge, whatever the order of the tasks *)

Definition add_seen (cs : list AluCommand) (rs : list AluResult) (sb : Scoreboard) : Scoreboard :=
  {| cmds := cmds sb ++ cs; results := results sb ++ rs; compared := compared sb; mismatches := mismatches sb |}.
Definition add_covered (m : gmap Ops nat) (cs : list AluCommand) : gmap Ops nat := foldl (λ m c, cov_write c m) m cs.

Lemma log_seen sb cs rs :
  foldl (λ sb r, result_log_write r sb) (foldl (λ sb c, cmd_log_write c sb) sb cs) rs = add_seen cs rs sb.
Proof.
  revert sb. induction cs as [|c cs IH]; intros sb; simpl.
  - revert sb. induction rs as [|r rs IH]; intros sb; simpl.
    + unfold add_seen. rewrite !app_nil_r. by destruct sb.
    + rewrite IH. unfold add_seen. simpl. by rewrite <- app_assoc.
  - rewrite IH. unfold add_seen. simpl. by rewrite <- app_assoc.
Qed.

(** What an edge comes to before the writes are applied; [q] is the driver's
    queue as [wait_idle] sees it. *)
Definition edge_effect (q : list AluCommand) (s : Tb) : Tb :=
  let d := driver_body (start (pins s)) (done (pins s) (regs s)) (driver_q s) in
  let m := cmd_mon_body (pins s) (prev_start s) in
  {| pins := pins s; regs := regs s; writes := writes s ++ d.1; driver_q := d.2; cmd_q := []; result_q := [];
     prev_start := m.2; waiting := wait_idle_body (pins s) (regs s) q (waiting s);
     scoreboard := add_seen m.1 (result_mon_body (pins s) (regs s)) (scoreboard s);
     coverage := add_covered (coverage s) m.1 |}.

Lemma run_monitors_poll s t : cmd_q s = [] → result_q s = [] →
  run_monitors (poll s t) =
  let d := driver_body (start (pins s)) (done (pins s) (regs s)) (driver_q s) in
  let m := cmd_mon_body (pins s) (prev_start s) in
  let r := result_mon_body (pins s) (regs s) in
  {| pins := pins s; regs := regs s; writes := writes s ++ match t with TDriver => d.1 | _ => [] end;
     driver_q := match t with TDriver => d.2 | _ => driver_q s end; cmd_q := []; result_q := [];
     prev_start := match t with TCmdMon => m.2 | _ => prev_start s end;
     waiting := match t with TWait => wait_idle_body (pins s) (regs s) (driver_q s) (waiting s) | _ => waiting s end;
     scoreboard := add_seen match t with TCmdMon => m.1 | _ => [] end match t with TResultMon => r | _ => [] end (scoreboard s);
     coverage := add_covered (coverage s) match t with TCmdMon => m.1 | _ => [] end |}.
Proof.
  intros Hc Hr. unfold run_monitors, poll. cbn zeta.
  destruct (driver_body _ _ _) as [ws dq], (cmd_mon_body _ _) as [cs prev]. destruct t; simpl; rewrite Hc, Hr, log_seen; done.
Qed.

(** The order only decides what [wait_idle] sees of the queue. *)
Lemma polled_effect order s : order ≡ₚ tasks → cmd_q s = [] → result_q s = [] →
  ∃ q, polled order s = edge_effect q s ∧
    (q = driver_q s ∨ q = (driver_body (start (pins s)) (done (pins s) (regs s)) (driver_q s)).2).
Proof.
  intros Ho Hc Hr. symmetry in Ho. apply permutations_Permutation, list_elem_of_In in Ho. vm_compute in Ho. unfold polled.
  repeat (destruct Ho as [<- |Ho]); [..|done].
  all: simpl; rewrite !run_monitors_poll by done; simpl; rewrite !app_nil_r; unfold edge_effect, add_seen; simpl;
    rewrite ?app_nil_r; eexists; (split; [reflexivity|]); tauto.
Qed.

End Bfm.
