(* ===== verification/TinyaluRun.v ===== *)
(** * TinyaluRun: the TinyALU test bench run against its design.

    Between two edges the bench is idle, carries a single-cycle operation, or
    one of the four steps of a multiplication ([Flight]); the invariant says
    where the commands sent are and what the design's registers hold. *)
From S2P Require Import Prelude Words Values Component Rng Alu Tinyalu.
Local Open Scope Z_scope.

Module Run.
Import Alu.Alu Dut Bfm.

(** *** The transaction in flight *)

Inductive Flight := Idle | Single (c : AluCommand) | Mult (k : nat) (c : AluCommand).

(** The done flags of the multiplier are the first [k] of its pipeline. *)
Definition mult_flags (k : nat) (r : Regs) : Prop :=
  done3 r = Nat.leb 1 k ∧ done2 r = Nat.leb 2 k ∧ done1 r = Nat.leb 3 k ∧ mult_done r = Nat.leb 4 k.
(** The product has come as far as the flags. *)
Definition mult_data (k : nat) (c : AluCommand) (r : Regs) : Prop :=
  a_int r = a c ∧ b_int r = b c ∧ ((2 ≤ k)%nat → mult1 r = a c * b c) ∧
  ((3 ≤ k)%nat → mult2 r = a c * b c) ∧ ((4 ≤ k)%nat → mult_result r = a c * b c).
Definition drives (c : AluCommand) (p : Pins) : Prop :=
  start p = Logic.One ∧ A p = Some (a c) ∧ B p = Some (b c) ∧ Dut.op p = Some (as_u64 (Alu.op c)).

Definition obs (s : Tb) : list AluCommand := cmds (scoreboard s).
Definition res (s : Tb) : list AluResult := results (scoreboard s).

(** The commands sent are those observed, the one in flight and those queued. *)
Definition flight_ok (cs : list AluCommand) (s : Tb) (f : Flight) : Prop :=
  match f with
  | Idle => start (pins s) = Logic.Zero ∧ aax_done (regs s) = false ∧ mult_flags 0 (regs s) ∧
      cs = obs s ++ driver_q s ∧ res s = map predict (obs s)
  | Single c => drives c (pins s) ∧ Alu.op c ≠ Mul ∧ prev_start s = false ∧ aax_done (regs s) = true ∧
      aax_result (regs s) = Alu.result (predict c) ∧ mult_flags 0 (regs s) ∧
      cs = obs s ++ c :: driver_q s ∧ res s = map predict (obs s)
  | Mult k c => drives c (pins s) ∧ Alu.op c = Mul ∧ aax_done (regs s) = false ∧ (1 ≤ k ≤ 4)%nat ∧
      mult_flags k (regs s) ∧ mult_data k c (regs s) ∧ prev_start s = Nat.leb 2 k ∧
      if Nat.leb 2 k then cs = obs s ++ driver_q s ∧ ∃ o, obs s = o ++ [c] ∧ res s = map predict o
      else cs = obs s ++ c :: driver_q s ∧ res s = map predict (obs s)
  end.

Record inv (cs : list AluCommand) (s : Tb) (f : Flight) : Prop := {
  inv_writes : writes s = [];
  inv_cmd_q : cmd_q s = [];
  inv_result_q : result_q s = [];
  inv_reset : reset_n (pins s) = Logic.One;
  inv_known : is_Some (A (pins s)) ∧ is_Some (B (pins s)) ∧ is_Some (Dut.op (pins s));
  inv_ok : Forall cmd_ok cs;
  inv_counts : compared (scoreboard s) = 0%nat ∧ mismatches (scoreboard s) = 0%nat;
  inv_coverage : coverage s = covered (obs s);
  inv_flight : flight_ok cs s f;
}.

(** The flight after an edge. *)
Definition fly (f : Flight) (q : list AluCommand) : Flight :=
  match f with
  | Idle => match q with [] => Idle | c :: _ => if decide (Alu.op c = Mul) then Mult 1 c else Single c end
  | Single _ => Idle
  | Mult k c => if Nat.leb 4 k then Idle else Mult (S k) c
  end.

Lemma done_idle p r : is_Some (Dut.op p) → aax_done r = false → mult_done r = false → done p r = Logic.Zero.
Proof. intros [o Ho] Ha Hm. unfold done. rewrite Ho, Ha, Hm. by destruct (Z.testbit o 2). Qed.

Lemma as_u64_mul o : Z.testbit (as_u64 o) 2 = bool_decide (o = Mul).
Proof. by destruct o. Qed.

(** What the registers become when the pins carry a command. *)
Lemma clocked_single c r : cmd_ok c → Alu.op c ≠ Mul → mult_flags 0 r →
  let r' := clocked true (a c) (b c) (as_u64 (Alu.op c)) r in
  aax_done r' = true ∧ aax_result r' = Alu.result (predict c) ∧ mult_flags 0 r'.
Proof.
  intros Hok Hn (H3 & H2 & H1 & Hd). pose proof (predict_fits c Hok) as Hf. unfold predict in *. unfold clocked, single_cycle, three_cycle, mult_flags.
  simpl. rewrite H3, H2, H1. destruct (Alu.op c); try done; simpl; split_and_all; try done. by rewrite wrap_id.
Qed.

Lemma clocked_mult k c r : cmd_ok c → Alu.op c = Mul → (k < 4)%nat → mult_flags k r → ((1 ≤ k)%nat → mult_data k c r) →
  let r' := clocked true (a c) (b c) (as_u64 (Alu.op c)) r in
  aax_done r' = false ∧ mult_flags (S k) r' ∧ mult_data (S k) c r'.
Proof.
  intros Hok Hm Hk (H3 & H2 & H1 & Hd) Hdata. pose proof (predict_fits c Hok) as Hf. unfold predict in Hf. rewrite Hm in Hf.
  unfold clocked, single_cycle, three_cycle, mult_flags, mult_data in *. rewrite Hm. simpl in *.
  rewrite H3, H2, H1, Hd. split; [done|]. split.
  - destruct k as [|[|[|[|k]]]]; by (lia || simpl).
  - split; [done|]. split; [done|]. split_and_all; intros Hk'; destruct (Hdata ltac:(lia)) as (Ha & Hb & D1 & D2 & D3).
    + rewrite Ha, Hb. by apply wrap_id.
    + apply D1. lia.
    + apply D2. lia.
Qed.

(** Without [start] the flags go out. *)
Lemma clocked_stop k x y o r : mult_flags k r → k = 0%nat ∨ k = 4%nat →
  let r' := clocked false x y o r in aax_done r' = false ∧ mult_flags 0 r'.
Proof.
  intros (H3 & H2 & H1 & Hd) Hk. unfold clocked, single_cycle, three_cycle, mult_flags. simpl. rewrite H3, H2, H1, Hd.
  destruct Hk as [-> | ->]; by simpl.
Qed.

(** *** The invariant over an edge *)

Lemma inv_idle u cs s q : inv cs s Idle → inv cs (advance u (edge_effect q s)) (fly Idle (driver_q s)).
Proof.
  intros [Hw Hc Hr Hrst (HA & HB & HO) Hok Hcnt Hcov (Hs & Haax & Hfl & Hcs & Hres)].
  pose proof Hfl as (_ & _ & _ & Hd). pose proof (done_idle _ _ HO Haax Hd) as Hdn.
  assert (obs (advance u (edge_effect q s)) = obs s ∧ res (advance u (edge_effect q s)) = res s) as [Hobs Hres'].
  { unfold obs, res. simpl. unfold result_mon_body. by rewrite Hs; simpl; rewrite !app_nil_r. }
  assert (coverage (advance u (edge_effect q s)) = covered (obs s)) as Hcov' by (simpl; by rewrite Hs).
  unfold fly. destruct (driver_q s) as [|c dq] eqn:Eq.
  - destruct HA as [x HA], HB as [y HB], HO as [o HO].
    constructor; try done; [..|by rewrite Hobs|]; simpl; rewrite Hs, Hdn, Hw, Eq; simpl; try done; try (by eauto).
    rewrite Hobs, Hres'. unfold posedge. rewrite Hrst, Hs, HA, HB, HO. simpl.
    split; [done|]. destruct (clocked_stop 0 x y o (regs s) Hfl) as [? ?]; [by left|]. split_and_all; try done.
  - assert (cmd_ok c) as Hcok by (rewrite Hcs in Hok; apply Forall_app in Hok as [_ Hok]; by inversion Hok).
    assert (driver_q (advance u (edge_effect q s)) = dq) as Hdq by (simpl; by rewrite Hs, Hdn, Eq).
    set (p' := {| reset_n := Logic.One; start := Logic.One; A := Some (a c); B := Some (b c); Dut.op := Some (as_u64 (Alu.op c)) |}).
    assert (pins (advance u (edge_effect q s)) = p') as Hp by (simpl; rewrite Hs, Hdn, Eq, Hw; simpl; by rewrite Hrst).
    assert (regs (advance u (edge_effect q s)) = clocked true (a c) (b c) (as_u64 (Alu.op c)) (regs s)) as Hregs
      by (simpl; rewrite Hs, Hdn, Eq, Hw; simpl; unfold posedge; simpl; by rewrite Hrst).
    assert (prev_start (advance u (edge_effect q s)) = false) as Hprev by (simpl; by rewrite Hs).
    constructor; try done; [by rewrite Hp|rewrite Hp; by split_and_all; eexists|by rewrite Hobs|].
    destruct (decide (Alu.op c = Mul)) as [Hm|Hm]; unfold flight_ok; rewrite Hp, Hregs, Hprev, Hdq, Hobs, Hres'.
    + destruct (clocked_mult 0 c (regs s) Hcok Hm) as (? & ? & ?); [lia|done|lia|]. by split_and_all; try lia.
    + destruct (clocked_single c (regs s) Hcok Hm Hfl) as (? & ? & ?). by split_and_all.
Qed.

#[local] Arguments predict : simpl never.

(** The command monitor reads the command off the pins. *)
Lemma cmd_mon_drives c p : cmd_ok c → drives c p → cmd_mon_body p false = ([c], true).
Proof.
  intros [Ha Hb] (Hs & HA & HB & HO). unfold cmd_mon_body. rewrite Hs, HA, HB, HO. simpl.
  rewrite from_as_u64, !wrap_id by done. by destruct c.
Qed.

Lemma cmd_mon_seen p : start p = Logic.One → cmd_mon_body p true = ([], true).
Proof. intros Hs. unfold cmd_mon_body. by rewrite Hs. Qed.

Lemma covered_snoc l c : add_covered (covered l) [c] = covered (l ++ [c]).
Proof. unfold add_covered, covered. by rewrite foldl_app. Qed.

Lemma result_mon_done c p r v : cmd_ok c → drives c p → done p r = Logic.One → Dut.result p r = Some v → v = Alu.result (predict c) →
  result_mon_body p r = [predict c].
Proof.
  intros Hok (Hs & _) Hd Hr ->. unfold result_mon_body. rewrite Hs, Hd, Hr. cbn [is_high andb].
  rewrite wrap_id by (by apply predict_fits). by destruct (predict c).
Qed.

#[local] Opaque cmd_mon_body.

Lemma inv_single u cs s q c : inv cs s (Single c) → inv cs (advance u (edge_effect q s)) Idle.
Proof.
  intros [Hw Hc Hr Hrst (HA & HB & HO) Hok Hcnt Hcov (Hdr & Hm & Hprev & Haax & Hav & Hfl & Hcs & Hres)].
  pose proof Hdr as (Hs & EA & EB & EO).
  assert (cmd_ok c) as Hcok by (rewrite Hcs in Hok; apply Forall_app in Hok as [_ Hok]; by inversion Hok).
  assert (done (pins s) (regs s) = Logic.One) as Hdn.
  { unfold done. rewrite EO, as_u64_mul, bool_decide_false by done. by rewrite Haax. }
  assert (result_mon_body (pins s) (regs s) = [predict c]) as Hrm.
  { eapply result_mon_done; try done. unfold Dut.result. by rewrite EO, as_u64_mul, bool_decide_false by done. }
  assert (cmd_mon_body (pins s) (prev_start s) = ([c], true)) as Hmon by (rewrite Hprev; by apply cmd_mon_drives).
  constructor; simpl; rewrite ?Hw, ?Hs, ?Hdn, ?Hmon; try done; try (by eauto).
  - unfold obs in *. simpl. rewrite Hcov, Hmon. apply covered_snoc.
  - unfold obs, res in *. simpl. rewrite ?Hw, ?Hs, ?Hdn, ?Hrm, ?Hmon. simpl.
    unfold posedge. simpl. rewrite Hrst, EA, EB, EO. simpl.
    destruct (clocked_stop 0 (a c) (b c) (as_u64 (Alu.op c)) (regs s) Hfl) as [? ?]; [by left|].
    split_and_all; try done; [by rewrite <- app_assoc|by rewrite map_app, Hres].
Qed.

Lemma inv_mult u cs s q k c : inv cs s (Mult k c) →
  inv cs (advance u (edge_effect q s)) (if Nat.leb 4 k then Idle else Mult (S k) c).
Proof.
  intros [Hw Hc Hr Hrst (HA & HB & HO) Hok Hcnt Hcov (Hdr & Hm & Haax & Hk & Hfl & Hdata & Hprev & Hcs)].
  pose proof Hdr as (Hs & EA & EB & EO).
  assert (cmd_ok c) as Hcok.
  { destruct (Nat.leb 2 k); destruct Hcs as [-> Hx]; [destruct Hx as (o & Ho & _); rewrite Ho in Hok|];
      rewrite ?Forall_app in Hok; [destruct Hok as [[_ Hok] _]|destruct Hok as [_ Hok]]; by inversion Hok. }
  assert (done (pins s) (regs s) = of_bool (Nat.leb 4 k)) as Hdn.
  { unfold done. rewrite EO, as_u64_mul, bool_decide_true by done. by destruct Hfl as (_ & _ & _ & ->). }
  assert (cmd_mon_body (pins s) (prev_start s) = (if Nat.leb 2 k then [] else [c], true)) as Hmon.
  { rewrite Hprev. destruct (Nat.leb 2 k); [by apply cmd_mon_seen|by apply cmd_mon_drives]. }
  assert (coverage (advance u (edge_effect q s)) = covered (obs (advance u (edge_effect q s)))) as Hcov'.
  { unfold obs. simpl. rewrite Hmon. cbn [fst]. rewrite Hcov. destruct (Nat.leb 2 k); [by rewrite app_nil_r|].
    apply covered_snoc. }
  destruct (Nat.leb_spec 4 k) as [H4|H4].
  - assert (k = 4)%nat as -> by lia. simpl in Hdn, Hmon, Hcs. destruct Hcs as (Hcs & o & Ho & Hres).
    assert (result_mon_body (pins s) (regs s) = [predict c]) as Hrm.
    { eapply result_mon_done; try done. unfold Dut.result. rewrite EO, as_u64_mul, bool_decide_true by done.
      destruct Hdata as (_ & _ & _ & _ & ->); [|lia]. unfold predict. by rewrite Hm. }
    constructor; try done; simpl; rewrite ?Hw, ?Hs, ?Hdn; try done; try (by eauto).
    unfold obs, res in *. simpl. rewrite ?Hw, ?Hs, ?Hdn, ?Hrm, ?Hmon. simpl. unfold posedge. simpl.
    rewrite Hrst, EA, EB, EO. simpl. destruct (clocked_stop 4 (a c) (b c) (as_u64 (Alu.op c)) (regs s) Hfl) as [? ?]; [by right|].
    rewrite app_nil_r. split_and_all; try done. by rewrite Hres, Ho, map_app.
  - simpl in Hdn.
    assert (result_mon_body (pins s) (regs s) = []) as Hrm by (unfold result_mon_body; by rewrite Hs, Hdn).
    constructor; try done; simpl; rewrite ?Hw, ?Hs, ?Hdn; try done; try (by eauto).
    unfold obs, res in *. simpl. rewrite ?Hw, ?Hs, ?Hdn, ?Hrm, ?Hmon. simpl. unfold posedge. simpl. rewrite Hrst, Hs, EA, EB, EO. simpl.
    destruct (clocked_mult k c (regs s) Hcok Hm H4 Hfl) as (? & ? & ?); [done|].
    split_and_all; try done; try lia; [destruct k; [lia|done]|]. rewrite !app_nil_r.
    destruct k as [|k]; [lia|]. destruct k as [|k]; simpl in *; rewrite ?app_nil_r.
    + destruct Hcs as [-> ->]. split; [by rewrite <- app_assoc|]. by exists (cmds (scoreboard s)).
    + done.
Qed.

(** An edge moves the flight on; [wait_idle] looks at the queue before or after
    the driver. *)
Lemma inv_edge u cs s f order : inv cs s f → order ≡ₚ tasks →
  let s' := falling_edge u order s in
  inv cs s' (fly f (driver_q s)) ∧
  ∃ q, (q = driver_q s ∨ q = driver_q s') ∧ waiting s' = wait_idle_body (pins s) (regs s) q (waiting s).
Proof.
  intros Hi Ho. destruct (polled_effect order s Ho (inv_cmd_q _ _ _ Hi) (inv_result_q _ _ _ Hi)) as (q & Hp & Hq).
  unfold falling_edge. fold (polled order s). rewrite Hp. split.
  - destruct f as [|c|k c]; [by apply inv_idle|by eapply inv_single|by apply inv_mult].
  - exists q. split; [|done]. destruct Hq as [-> | ->]; [by left|by right].
Qed.

(** *** Reset *)

(** The bench before anything was sent. *)
Record fresh (s : Tb) : Prop := {
  fresh_writes : writes s = [];
  fresh_driver_q : driver_q s = [];
  fresh_cmd_q : cmd_q s = [];
  fresh_result_q : result_q s = [];
  fresh_scoreboard : scoreboard s = sb_new;
  fresh_coverage : coverage s = ∅;
}.
Definition held_pins (v : bool) : Pins :=
  {| reset_n := of_bool v; start := Logic.Zero; A := Some 0; B := Some 0; Dut.op := Some 0 |}.
Definition held (s : Tb) : Prop := fresh s ∧ pins s = held_pins false ∧ regs s = zero_regs.

#[local] Transparent cmd_mon_body.
Lemma held_polled order s : order ≡ₚ tasks → held s →
  fresh (polled order s) ∧ pins (polled order s) = held_pins false ∧ regs (polled order s) = zero_regs.
Proof.
  intros Ho ([Hw Hd Hc Hr Hsb Hcov] & Hp & Hrg). destruct (polled_effect order s Ho Hc Hr) as (q & -> & _).
  split; [|by rewrite <- Hp, <- Hrg]. constructor; simpl; rewrite ?Hp, ?Hrg, ?Hw, ?Hd, ?Hsb, ?Hcov; by vm_compute.
Qed.
#[local] Opaque cmd_mon_body.

Lemma held_edge u order s : order ≡ₚ tasks → held s → held (falling_edge u order s).
Proof.
  intros Ho Hh. destruct (held_polled order s Ho Hh) as ([Hw Hd Hc Hr Hsb Hcov] & Hp & Hrg).
  unfold falling_edge. fold (polled order s). split; [by constructor|]. simpl. by rewrite Hw, Hp, Hrg.
Qed.

Lemma reset_idle u order s : (∀ i, order i ≡ₚ tasks) → fresh s → inv [] (reset u order s) Idle.
Proof.
  intros Ho Hf. unfold reset.
  set (s1 := advance u (schedule_writes _ s)). assert (held s1) as H1.
  { destruct Hf as [Hw Hd Hc Hr Hsb Hcov]. split; [by constructor|]. simpl. by rewrite Hw. }
  set (s2 := foldl _ s1 _). assert (held s2) as H2.
  { subst s2. simpl. do 4 (apply held_edge; [done|]). done. }
  clearbody s2. clear H1. destruct (held_polled (order 4%nat) s2 (Ho _) H2) as ([Hw Hd Hc Hr Hsb Hcov] & Hp & Hrg).
  set (s3 := advance u (schedule_writes _ (polled (order 4%nat) s2))).
  assert (pins s3 = held_pins true ∧ regs s3 = zero_regs) as [Hp3 Hr3] by (simpl; by rewrite Hw, Hp, Hrg).
  assert (fresh s3) as Hf3 by by constructor. clearbody s3. clear - Ho Hf3 Hp3 Hr3. destruct Hf3 as [Hw Hd Hc Hr Hsb Hcov].
  destruct (polled_effect (order 5%nat) s3 (Ho _) Hc Hr) as (q & -> & _).
  constructor; simpl; rewrite ?Hp3, ?Hr3, ?Hw, ?Hd, ?Hsb, ?Hcov; try done; try (by split_and_all; eexists).
  - unfold obs. simpl. rewrite ?Hp3, ?Hr3, ?Hsb. by vm_compute.
  - unfold obs, res. simpl. rewrite ?Hp3, ?Hr3, ?Hw, ?Hd, ?Hsb. by vm_compute.
Qed.

(** *** Histories *)

Lemma inv_send cs s f c : cmd_ok c → inv cs s f → inv (cs ++ [c]) (send_op c s) f.
Proof.
  intros Hc [Hw Hcq Hr Hrst Hk Hok Hcnt Hcov Hfl]. constructor; try done; [apply Forall_app; by split; [|constructor]|].
  unfold flight_ok, obs, res in *. simpl. destruct f as [|c'|k c'].
  - destruct Hfl as (? & ? & ? & -> & ?). rewrite <- app_assoc. by split_and_all.
  - destruct Hfl as (? & ? & ? & ? & ? & ? & -> & ?). rewrite <- app_assoc. by split_and_all.
  - destruct Hfl as (? & ? & ? & ? & ? & ? & ? & Hcs). split_and_all; try done; try lia.
    destruct k as [|[|k]]; simpl in *; destruct Hcs as [-> ?]; rewrite <- app_assoc; by split_and_all.
Qed.

Lemma inv_wait cs s f : inv cs s f → inv cs (wait_idle s) f.
Proof. intros []. by constructor. Qed.

Lemma inv_history u es : ∀ cs s f, inv cs s f → Forall event_ok es →
  ∃ f', inv (cs ++ sent es) (foldl (step u) s es) f'.
Proof.
  induction es as [|e es IH]; intros cs s f Hi Hes; simpl; [rewrite app_nil_r; by exists f|].
  apply Forall_cons in Hes as [He Hes]. destruct e as [c| |order]; simpl in He.
  - destruct (IH (cs ++ [c]) (send_op c s) f) as [f' Hf']; [by apply inv_send|done|]. exists f'.
    change (sent (ESend c :: es)) with (c :: sent es). by rewrite <- app_assoc in Hf'.
  - apply (IH cs (wait_idle s) f); [by apply inv_wait|done].
  - destruct (inv_edge u cs s f order Hi He) as [Hi' _]. eapply IH; [exact Hi'|done].
Qed.

(** Whatever is in flight, what was observed is right so far. *)
Lemma inv_observed cs s f : inv cs s f →
  obs s `prefix_of` cs ∧ res s `prefix_of` map predict (obs s) ∧ (length (obs s) ≤ S (length (res s)))%nat.
Proof.
  intros Hi. pose proof (inv_flight _ _ _ Hi) as Hfl. destruct f as [|c|k c]; simpl in Hfl.
  - destruct Hfl as (_ & _ & _ & -> & ->). rewrite length_map. split_and_all; [by eexists|done|lia].
  - destruct Hfl as (_ & _ & _ & _ & _ & _ & -> & ->). rewrite length_map. split_and_all; [by eexists|done|lia].
  - destruct Hfl as (_ & _ & _ & _ & _ & _ & _ & Hcs). destruct k as [|[|k]].
    1-2: destruct Hcs as (-> & ->); rewrite length_map; split_and_all; [by eexists|done|lia].
    destruct Hcs as (-> & o & -> & ->). rewrite map_app, length_app, length_map.
    split_and_all; [by eexists|by eexists|simpl; lia].
Qed.

(** Whenever commands are sent, in whatever order the tasks are called at
    each edge, the bench never drives a command twice, out of order or changed:
    after reset the commands seen on the bus are a prefix of those sent, the
    results seen are those predicted for the first of these commands, and at
    most one command has no result yet; the scoreboard has no mismatch. *)
Theorem bench_observes u order s es :
  (∀ i, order i ≡ₚ tasks) → fresh s → Forall event_ok es →
  let s' := foldl (step u) (reset u order s) es in
  cmds (scoreboard s') `prefix_of` sent es ∧
  results (scoreboard s') `prefix_of` map predict (cmds (scoreboard s')) ∧
  (length (cmds (scoreboard s')) ≤ S (length (results (scoreboard s'))))%nat ∧
  mismatches (sb_check (scoreboard s') Component.sink_new).1 = 0%nat.
Proof.
  intros Ho Hf Hes s'. destruct (inv_history u es [] (reset u order s) Idle) as [f Hi]; [by apply reset_idle|done|].
  simpl in Hi. fold s' in Hi. destruct (inv_observed _ _ _ Hi) as (H1 & H2 & H3). unfold obs, res in *.
  split_and_all; try done. unfold sb_check. rewrite compare_spec. simpl. destruct (inv_counts _ _ _ Hi) as [_ ->].
  destruct H2 as [l H2]. enough (mismatched (zip (cmds (scoreboard s')) (results (scoreboard s'))) = []) as -> by done.
  clear - H2. revert l H2. generalize (results (scoreboard s')) as rs. induction (cmds (scoreboard s')) as [|c cs IH]; intros rs l H2; [done|].
  destruct rs as [|r rs]; [done|]. simpl in H2. simplify_eq. unfold mismatched in *. simpl. rewrite filter_cons. simpl.
  rewrite decide_False by (by intros []). by eapply IH.
Qed.

(** *** Coming to rest *)

Definition cost (c : AluCommand) : nat := if decide (Alu.op c = Mul) then 5 else 2.
Definition left_over (f : Flight) : nat := match f with Idle => 0 | Single _ => 1 | Mult k _ => 5 - k end.
(** Edges until the queue is empty and nothing is in flight. *)
Definition edges_left (f : Flight) (q : list AluCommand) : nat := (left_over f + list_sum (map cost q))%nat.

Lemma edge_queue u cs s f order : inv cs s f → order ≡ₚ tasks →
  driver_q (falling_edge u order s) = match f with Idle => tail (driver_q s) | _ => driver_q s end.
Proof.
  intros Hi Ho. destruct (polled_effect order s Ho (inv_cmd_q _ _ _ Hi) (inv_result_q _ _ _ Hi)) as (q & Hp & _).
  unfold falling_edge. fold (polled order s). rewrite Hp. simpl. pose proof (inv_flight _ _ _ Hi) as Hfl.
  destruct f as [|c|k c]; simpl in Hfl.
  - destruct Hfl as (Hs & Haax & (_ & _ & _ & Hd) & _). rewrite Hs, done_idle by (done || apply Hi).
    by destruct (driver_q s).
  - destruct Hfl as ((-> & _) & _). by destruct (done (pins s) (regs s)).
  - destruct Hfl as ((-> & _) & _). by destruct (done (pins s) (regs s)).
Qed.

Lemma edges_left_edge u cs s f order : inv cs s f → order ≡ₚ tasks →
  edges_left (fly f (driver_q s)) (driver_q (falling_edge u order s)) = Nat.pred (edges_left f (driver_q s)).
Proof.
  intros Hi Ho. rewrite (edge_queue u cs s f order Hi Ho). unfold edges_left. destruct f as [|c|k c]; simpl.
  - destruct (driver_q s) as [|c q]; [done|]. simpl. unfold cost at 2. case_decide; simpl; lia.
  - done.
  - pose proof (inv_flight _ _ _ Hi) as (_ & _ & _ & Hk & _). destruct (Nat.leb_spec 4 k) as [|H4]; [replace k with 4%nat by lia; done|].
    destruct k as [|[|[|[|k]]]]; simpl; lia.
Qed.

(** What [wait_idle] knows when it has counted. *)
Definition wait_ok (s : Tb) (f : Flight) : Prop :=
  match waiting s with
  | Counting 0 | NotWaiting => True
  | Counting 1 => edges_left f (driver_q s) = 0%nat ∨ start (pins s) = Logic.One
  | Counting _ => False
  | Flushing | Returned => edges_left f (driver_q s) = 0%nat
  end.

Lemma quiet_flight cs s f : inv cs s f → edges_left f (driver_q s) = 0%nat → f = Idle ∧ driver_q s = [].
Proof.
  intros Hi. unfold edges_left. destruct f as [|c|k c]; simpl; [|lia|].
  - destruct (driver_q s) as [|c q]; [done|]. simpl. unfold cost. case_decide; lia.
  - pose proof (inv_flight _ _ _ Hi) as (_ & _ & _ & Hk & _). lia.
Qed.

Lemma flying_start cs s f : inv cs s f → f ≠ Idle → start (pins s) = Logic.One.
Proof. intros Hi Hf. pose proof (inv_flight _ _ _ Hi) as Hfl. destruct f; [done| |]; simpl in Hfl; by destruct Hfl as ((? & _) & _). Qed.

Lemma wait_edge u cs s f order : inv cs s f → order ≡ₚ tasks → wait_ok s f →
  wait_ok (falling_edge u order s) (fly f (driver_q s)).
Proof.
  intros Hi Ho Hw. destruct (inv_edge u cs s f order Hi Ho) as (Hi' & q & Hq & Hwt).
  pose proof (edges_left_edge u cs s f order Hi Ho) as He. unfold wait_ok in *. rewrite Hwt. unfold wait_idle_body.
  destruct (waiting s) as [|n| |] eqn:Ew; try done; [|lia..].
  destruct q as [|c q]; cbn [andb]; [|done]. destruct (is_low (start (pins s))) eqn:Es; cbn [andb]; [|done].
  destruct (is_low (done _ _)); [|done].
  assert (start (pins s) ≠ Logic.One) as Hns by (intros E; by rewrite E in Es).
  assert (f = Idle) as ->.
  { destruct f; [done|..]; by destruct Hns; apply (flying_start _ _ _ Hi). }
  destruct n as [|[|n]]; cbn [Nat.leb]; [|destruct Hw as [Hw|Hw]; [by rewrite He, Hw|done]|done].
  pose proof (edge_queue u cs s Idle order Hi Ho) as Hdq. simpl in Hdq.
  destruct Hq as [Hq|Hq]; [left; rewrite He, <- Hq; done|]. destruct (driver_q s) as [|c q] eqn:Eq; [left; by rewrite He|].
  right. eapply flying_start; [exact Hi'|]. simpl. by case_decide.
Qed.

(** Edges until [wait_idle] returns, at most. *)
Definition wait_rank (w : Wait) : nat := match w with Counting n => 3 - n | Flushing => 1 | _ => 0 end.
Definition wait_measure (s : Tb) (f : Flight) : nat :=
  match edges_left f (driver_q s) with O => wait_rank (waiting s) | S n => S n + 3 end.

Lemma wait_rank_le w : (wait_rank w ≤ 3)%nat.
Proof. destruct w; simpl; lia. Qed.

Lemma wait_measure_edge u cs s f order : inv cs s f → order ≡ₚ tasks → wait_ok s f →
  (wait_measure (falling_edge u order s) (fly f (driver_q s)) ≤ Nat.pred (wait_measure s f))%nat.
Proof.
  intros Hi Ho Hw. unfold wait_measure. rewrite (edges_left_edge u cs s f order Hi Ho).
  destruct (edges_left f (driver_q s)) as [|n] eqn:E; cbn [Nat.pred].
  - destruct (quiet_flight cs s f Hi E) as [-> Hq]. destruct (inv_edge u cs s Idle order Hi Ho) as (_ & q & Hq' & ->).
    assert (q = []) as -> by (rewrite (edge_queue u cs s Idle order Hi Ho), Hq in Hq'; simpl in Hq'; by destruct Hq').
    pose proof (inv_flight _ _ _ Hi) as (Hs & Haax & (_ & _ & _ & Hd) & _).
    unfold wait_ok, wait_idle_body in *. destruct (waiting s) as [|n| |]; simpl; try lia.
    rewrite Hs, done_idle by (done || apply Hi). simpl. destruct n as [|[|n]]; simpl in *; try lia.
  - pose proof (wait_rank_le (waiting (falling_edge u order s))). destruct n; lia.
Qed.

Definition edges (u : Regs) (s : Tb) (orders : list (list Task)) : Tb := foldl (λ s o, falling_edge u o s) s orders.

Lemma waiting_stays u cs s f order : inv cs s f → order ≡ₚ tasks → waiting s ≠ NotWaiting →
  waiting (falling_edge u order s) ≠ NotWaiting.
Proof.
  intros Hi Ho Hw. destruct (inv_edge u cs s f order Hi Ho) as (_ & q & _ & ->). unfold wait_idle_body.
  destruct (waiting s); try done. by repeat case_match.
Qed.

Lemma settle u cs orders : Forall (λ o, o ≡ₚ tasks) orders → ∀ s f, inv cs s f → wait_ok s f → waiting s ≠ NotWaiting →
  ∃ f', inv cs (edges u s orders) f' ∧ wait_ok (edges u s orders) f' ∧ waiting (edges u s orders) ≠ NotWaiting ∧
    (wait_measure (edges u s orders) f' ≤ wait_measure s f - length orders)%nat.
Proof.
  induction 1 as [|o orders Ho Hos IH]; intros s f Hi Hw Hn; cbn [edges foldl length]; [exists f; split_and_all; try done; lia|].
  pose proof (wait_measure_edge u cs s f o Hi Ho Hw) as Hm. destruct (inv_edge u cs s f o Hi Ho) as [Hi' _].
  destruct (IH _ _ Hi' (wait_edge u cs s f o Hi Ho Hw) (waiting_stays u cs s f o Hi Ho Hn)) as (f' & H1 & H2 & H3 & H4).
  exists f'. split_and_all; try done. unfold edges in *. lia.
Qed.

Lemma edges_left_bound cs s f : inv cs s f → (edges_left f (driver_q s) ≤ 4 + 5 * length (driver_q s))%nat.
Proof.
  intros Hi. unfold edges_left. assert (left_over f ≤ 4)%nat.
  { destruct f as [|c|k c]; simpl; [lia|lia|]. pose proof (inv_flight _ _ _ Hi) as (_ & _ & _ & Hk & _). lia. }
  enough (list_sum (map cost (driver_q s)) ≤ 5 * length (driver_q s))%nat by lia.
  clear. induction (driver_q s) as [|c q IH]; simpl; [lia|]. unfold cost at 1. case_decide; lia.
Qed.

(** The bench has come to rest with every command answered. *)
Lemma returned_done cs s f : inv cs s f → wait_ok s f → waiting s = Returned →
  cmds (scoreboard s) = cs ∧ results (scoreboard s) = map predict cs ∧ coverage s = covered cs.
Proof.
  intros Hi Hw Hr. unfold wait_ok in Hw. rewrite Hr in Hw. destruct (quiet_flight _ _ _ Hi Hw) as [-> Hq].
  pose proof (inv_flight _ _ _ Hi) as (_ & _ & _ & -> & Hres). rewrite Hq, app_nil_r. unfold obs, res in *.
  split_and_all; try done. apply (inv_coverage _ _ _ Hi).
Qed.

(** The bench after [wait_idle] was awaited over some edges. *)
Lemma wait_settles u order s es orders :
  (∀ i, order i ≡ₚ tasks) → fresh s → Forall event_ok es → Forall (λ o, o ≡ₚ tasks) orders →
  let s1 := foldl (step u) (reset u order s) es in
  let s2 := edges u (wait_idle s1) orders in
  ∃ f, inv (sent es) s2 f ∧ wait_ok s2 f ∧
    ((5 * length (driver_q s1) + 7 ≤ length orders)%nat → waiting s2 = Returned).
Proof.
  intros Ho Hf Hes Hos s1 s2. destruct (inv_history u es [] (reset u order s) Idle) as [f Hi]; [by apply reset_idle|done|].
  simpl in Hi. fold s1 in Hi. apply inv_wait in Hi.
  destruct (settle u (sent es) orders Hos (wait_idle s1) f Hi) as (f' & Hi' & Hw' & Hn' & Hm'); [done|done|].
  fold s2 in Hi', Hw', Hn', Hm'. exists f'. split_and_all; try done.
  intros Hlen. pose proof (edges_left_bound _ _ _ Hi) as Hb.
  assert (wait_measure s2 f' = 0)%nat as Hz.
  { unfold wait_measure in Hm' at 2. cbn [waiting wait_idle driver_q] in *.
    destruct (edges_left f (driver_q s1)); cbn [wait_rank] in *; lia. }
  unfold wait_measure, wait_ok in *. destruct (edges_left f' (driver_q s2)); [|lia].
  destruct (waiting s2) as [|[|[|n]]| |]; simpl in *; try done; lia.
Qed.

(** [wait_idle] returns, within five edges per queued command and seven more,
    and when it does no command is queued or in flight: every command sent has
    been seen, in order, with its predicted result, whatever the order in which
    the tasks are called at each edge. *)
Theorem wait_idle_returns u order s es orders :
  (∀ i, order i ≡ₚ tasks) → fresh s → Forall event_ok es → Forall (λ o, o ≡ₚ tasks) orders →
  let s1 := foldl (step u) (reset u order s) es in
  let s2 := edges u (wait_idle s1) orders in
  ((5 * length (driver_q s1) + 7 ≤ length orders)%nat → waiting s2 = Returned) ∧
  (waiting s2 = Returned → driver_q s2 = [] ∧ cmds (scoreboard s2) = sent es ∧ results (scoreboard s2) = map predict (sent es)).
Proof.
  intros Ho Hf Hes Hos s1 s2. destruct (wait_settles u order s es orders Ho Hf Hes Hos) as (f & Hi & Hw & Hret).
  split; [exact Hret|]. intros Hr. destruct (returned_done _ _ _ Hi Hw Hr) as (H1 & H2 & _). split_and_all; try done.
  unfold wait_ok in Hw. fold s1 s2 in Hw. rewrite Hr in Hw. by destruct (quiet_flight _ _ _ Hi Hw).
Qed.

(** *** The tests *)

Lemma base_ok : seq_ok Base.
Proof. by intros rng c Hc. Qed.
Lemma max_ok : seq_ok Max.
Proof. intros rng c _. split; [|done]. by split. Qed.
Lemma random_ok : seq_ok Random.
Proof.
  intros rng c _. cbn [set_operands random_operands]. pose proof (Rng.u8_range rng) as H1. destruct (Rng.u8 rng) as [r1 x].
  pose proof (Rng.u8_range r1) as H2. destruct (Rng.u8 r1) as [r2 y].
  cbn [fst snd] in *. split; [split; unfold fits; cbn [a b]; lia|done].
Qed.

(** What each of the three sequences sends. *)
Definition stimulus (cs : list AluCommand) (rng : Rng.Rng) : Prop :=
  base_body keep_start keep_finish [] rng = Ok cs ∨ random_body keep_start keep_finish [] rng = Ok cs ∨
  max_body keep_start keep_finish [] rng = Ok cs.

Lemma all_ops_covers {S} `{!Operands S} (sq : S) rng n cs : seq_ok sq →
  all_ops keep_start keep_finish sq [] rng (Datatypes.S n) = Ok cs →
  Forall cmd_ok cs ∧ ∀ o, ∃ c, c ∈ cs ∧ Alu.op c = o.
Proof.
  intros Hs Ha. unfold all_ops in Ha. destruct (rounds_sends sq (Datatypes.S n) Hs [] rng) as (l & r & He & Hm & Hok); [constructor|].
  rewrite He in Ha. injection Ha as <-. simpl in *. split; [done|]. intros o.
  assert (o ∈ map Alu.op l) as Hin by (rewrite Hm; destruct o; rewrite !elem_of_cons; tauto).
  apply list_elem_of_fmap in Hin as (c & -> & Hc). by exists c.
Qed.

Lemma stimulus_covers cs rng : stimulus cs rng → Forall cmd_ok cs ∧ ∀ o, ∃ c, c ∈ cs ∧ Alu.op c = o.
Proof.
  intros [H|[H|H]]; [exact (all_ops_covers Base rng 0 cs base_ok H)|exact (all_ops_covers Random rng 4 cs random_ok H)|
    exact (all_ops_covers Max rng 0 cs max_ok H)].
Qed.

(** C10: each of the three sequences passes against the design: the sequence's
    commands sent at any times between the edges after reset, and [wait_idle]
    awaited, the scoreboard has compared every command and reports nothing, and
    coverage is complete. *)
Theorem tests_pass u order s rng cs es orders :
  (∀ i, order i ≡ₚ tasks) → fresh s → stimulus cs rng → sent es = cs → Forall (λ o, o ≡ₚ tasks) orders →
  Forall (λ e, match e with EEdge o => o ≡ₚ tasks | _ => True end) es →
  let s1 := foldl (step u) (reset u order s) es in
  (5 * length (driver_q s1) + 7 ≤ length orders)%nat →
  let s2 := edges u (wait_idle s1) orders in
  let '(sb, e) := sb_check (scoreboard s2) Component.sink_new in
  waiting s2 = Returned ∧ compared sb = length cs ∧ Component.errors (cov_check (coverage s2) e) = [].
Proof.
  intros Ho Hf Hst Hes Hos Hord s1 Hlen s2. destruct (stimulus_covers cs rng Hst) as [Hok Hcov].
  assert (Forall event_ok es) as Heo.
  { rewrite <- Hes in Hok. clear - Hok Hord. induction es as [|[c| |o] es IH]; [constructor|..];
      apply Forall_cons in Hord as [He Hord]; unfold sent in Hok; simpl in Hok; constructor; try done; try (by apply IH).
    - by apply Forall_cons in Hok as [? _].
    - apply Forall_cons in Hok as [_ Hok]. by apply IH. }
  destruct (wait_settles u order s es orders Ho Hf Heo Hos) as (f & Hi & Hw & Hret). specialize (Hret Hlen).
  destruct (returned_done _ _ _ Hi Hw Hret) as (H1 & H2 & H3). fold s1 s2 in H1, H2, H3, Hret. rewrite Hes in H1, H2, H3.
  unfold sb_check. rewrite compare_spec, H1, H2, mismatched_predict, H3. destruct (inv_counts _ _ _ Hi) as [Hc Hm].
  cbn [cmds results compared mismatches]. fold s1 s2 in Hc. rewrite Hc, length_map, decide_True by done.
  rewrite length_zip_with, length_map, Nat.min_id. cbn [Nat.add].
  destruct cs as [|c cs]; [destruct (Hcov Add) as (c & Hc' & _); by apply not_elem_of_nil in Hc'|].
  split_and_all; [done|done|]. cbn [length Nat.eqb Component.errors]. apply cov_check_ok. exact Hcov.
Qed.

End Run.

Module TinyaluWitnesses.
Import Alu.Alu Dut Bfm Run.

Definition power_on : Tb :=
  {| pins := {| reset_n := Logic.Z; start := Logic.Z; A := None; B := None; Dut.op := None |}; regs := zero_regs;
     writes := []; driver_q := []; cmd_q := []; result_q := []; prev_start := false; waiting := NotWaiting;
     scoreboard := sb_new; coverage := ∅ |}.
Lemma power_on_fresh : fresh power_on.
Proof. by constructor. Qed.

Definition add_cmd : AluCommand := {| a := 0xFF; b := 2; Alu.op := Add |}.
Definition mul_cmd : AluCommand := {| a := 0xFF; b := 0xFF; Alu.op := Mul |}.
Definition history : list Event := [ESend mul_cmd; EEdge tasks; ESend add_cmd; EEdge (reverse tasks)].
Lemma history_ok : Forall event_ok history.
Proof. repeat constructor; simpl; try done. apply reverse_Permutation. Qed.

Lemma bench_observes_witness :
  cmds (scoreboard (foldl (step zero_regs) (reset zero_regs (λ _, tasks) power_on) history)) `prefix_of` [mul_cmd; add_cmd].
Proof. exact (proj1 (bench_observes zero_regs (λ _, tasks) power_on history (λ _, reflexivity _) power_on_fresh history_ok)). Defined.

Lemma wait_idle_returns_witness :
  let s2 := edges zero_regs (wait_idle (foldl (step zero_regs) (reset zero_regs (λ _, tasks) power_on) history)) (replicate 12 tasks) in
  waiting s2 = Returned ∧ results (scoreboard s2) = [{| Alu.result := 65025 |}; {| Alu.result := 257 |}].
Proof.
  destruct (wait_idle_returns zero_regs (λ _, tasks) power_on history (replicate 12 tasks)) as [H1 H2].
  - intros _. reflexivity.
  - apply power_on_fresh.
  - apply history_ok.
  - by apply Forall_replicate.
  - cbv zeta in *. assert (waiting (edges zero_regs (wait_idle (foldl (step zero_regs) (reset zero_regs (λ _, tasks) power_on) history))
      (replicate 12 tasks)) = Returned) as Hr by (apply H1; vm_compute; lia).
    split; [exact Hr|]. destruct (H2 Hr) as (_ & _ & H3). exact H3.
Defined.

Definition max_cmds : list AluCommand := map (λ o, {| a := 0xFF; b := 0xFF; Alu.op := o |}) ALL.
Lemma tests_pass_witness :
  let s2 := edges zero_regs (wait_idle (foldl (step zero_regs) (reset zero_regs (λ _, tasks) power_on) (map ESend max_cmds))) (replicate 27 tasks) in
  waiting s2 = Returned ∧ compared (sb_check (scoreboard s2) Component.sink_new).1 = 4%nat.
Proof.
  pose proof (tests_pass zero_regs (λ _, tasks) power_on (Rng.new 1) max_cmds (map ESend max_cmds) (replicate 27 tasks)) as H.
  cbv zeta in *. destruct (sb_check _ _) as [sb e]. destruct H as (H1 & H2 & _).
  - intros _. reflexivity.
  - apply power_on_fresh.
  - right. right. reflexivity.
  - reflexivity.
  - by apply Forall_replicate.
  - by repeat constructor.
  - vm_compute. lia.
  - split; [exact H1|exact H2].
Defined.

Lemma scoreboard_verdict_witness :
  let sb := {| cmds := [add_cmd]; results := [{| Alu.result := 1 |}]; compared := 0; mismatches := 0 |} in
  mismatch_error add_cmd {| Alu.result := 1 |} ∈ Component.errors (sb_check sb Component.sink_new).2 ∧
  Component.errors (sb_check sb Component.sink_new).2 ≠ [].
Proof.
  pose proof (scoreboard_verdict {| cmds := [add_cmd]; results := [{| Alu.result := 1 |}]; compared := 0; mismatches := 0 |} eq_refl eq_refl) as H.
  cbv zeta. destruct (sb_check _ _) as [sb' e]. destruct H as ([H1 _] & _ & _ & H2). split; [by apply H2; [left|]|].
  intros He. destruct (H1 He) as [H _]. vm_compute in H. discriminate.
Defined.

End TinyaluWitnesses.
