(* ===== verification/Stream.v ===== *)
(** * Stream: the stream-throughput benchmark
    (benchmarks/stream-model/src/lib.rs, stream-vpi/src/lib.rs and
    stream-cycle/src/lib.rs under src/rustdv) over its design
    (benchmarks/stream-throughput/hdl/stream_bench.sv).

    [Stream] has the checker, one [step] per clock cycle on the values sampled
    from the design and the values it drives; [Dut] has the design.  Single-bit
    pins are bytes that are 0 or 1; [u64] values are integers in range and the
    cycle counter is unbounded. *)
From Stdlib Require Import Ascii.
From stdpp Require Import pretty.
From S2P Require Import Prelude Words Rng Cycle.
Local Open Scope Z_scope.

Module Stream.

Definition RESET_CYCLES : Z := 4.
Definition DATA_XOR : Z := 0xd6e8feb86659fd93.
Definition DATA_ADD : Z := 0xa5a55a5a12345678.

Record BenchInputs := {
  s_ready : Z; m_valid : Z; m_data : Z; m_id : Z; m_last : Z; m_user : Z; accepted_count : Z;
}.
Record BenchOutputs := {
  reset_n : Z; s_valid : Z; s_data : Z; s_id : Z; s_last : Z; s_user : Z; m_ready : Z; inject_error : Z;
}.
Record BenchReport := { r_transactions : Z; r_cycles : Z; r_digest : Z; r_trace_digest : Z }.
Inductive StepStatus := Continue | Pass (r : BenchReport) | Fail (msg : string).

Record BenchModel := {
  target : Z; seed : Z; inject : bool; cycles : Z; transactions : Z; digest : Z; trace_digest : Z;
}.

(** ** Values *)

Definition u8_from (b : bool) : Z := if b then 1 else 0.
Definition rotate_left (x k : Z) : Z := Z.lor (wrap 64 (Z.shiftl x k)) (Z.shiftr x (64 - k)).

Definition mix64 (value : Z) : Z := Rng.mix (Rng.wrapping_add value Rng.GAMMA).
Definition payload (seed index : Z) : Z := mix64 (Z.lxor seed (Rng.wrapping_mul index 0x9e3779b97f4a7c15)).
Definition user_value (seed index : Z) : Z := wrap 8 (Z.shiftr (mix64 (Z.lxor (Z.lxor seed index) 0x6a09e667f3bcc909)) 56).
Definition source_open (seed cycle : Z) : bool :=
  negb (Z.land (mix64 (Z.lxor seed (Rng.wrapping_mul cycle 0xd1342543de82ef95))) 0x7 =? 0).
Definition ready_open (seed cycle : Z) : bool :=
  negb (Z.land (mix64 (Z.lxor (Z.lxor seed (Rng.wrapping_mul cycle 0x94d049bb133111eb)) 0xa4093822299f31d0)) 0xf =? 0).
Definition transform_data (data id : Z) : Z :=
  Rng.wrapping_add (Rng.wrapping_add (rotate_left (Z.lxor data DATA_XOR) 13) DATA_ADD) id.
Definition digest_update (digest data id last user : Z) : Z :=
  let sidebands := Z.lor (Z.lor id (Z.shiftl last 16)) (Z.shiftl user 24) in
  Z.lxor (Z.lxor (rotate_left digest 7) data) (Rng.wrapping_mul sidebands 0x9e3779b97f4a7c15).

Definition trace_digest_update (digest cycle : Z) (i : BenchInputs) (o : BenchOutputs) : Z :=
  let m_data := if m_valid i =? 0 then 0 else m_data i in
  let s_data := if s_valid o =? 0 then 0 else s_data o in
  let '(m_id, m_last, m_user) := if m_valid i =? 0 then (0, 0, 0) else (m_id i, m_last i, m_user i) in
  let '(s_id, s_last, s_user) := if s_valid o =? 0 then (0, 0, 0) else (s_id o, s_last o, s_user o) in
  let flags := foldl Z.lor (reset_n o)
    [Z.shiftl (s_valid o) 1; Z.shiftl (s_ready i) 2; Z.shiftl (m_valid i) 3; Z.shiftl (m_ready o) 4;
     Z.shiftl m_last 5; Z.shiftl s_last 6; Z.shiftl m_user 8; Z.shiftl s_user 16] in
  let sidebands := Z.lor (Z.lor m_id (Z.shiftl s_id 16)) (Z.shiftl flags 32) in
  mix64 (foldl Z.lxor digest [mix64 cycle; mix64 (accepted_count i); mix64 m_data; mix64 s_data; mix64 sidebands]).

(** ** The checker *)

(** [{:0wx}] of a number below [16 ^ w]. *)
Definition hex_digit (d : Z) : ascii := ascii_of_nat (Z.to_nat (if d <? 10 then 48 + d else 87 + d)).
Fixpoint hex (w : nat) (x : Z) : string :=
  match w with O => EmptyString | S n => hex n (x / 16) +:+ String (hex_digit (x mod 16)) EmptyString end.
Definition bool_debug (b : bool) : string := if b then "true" else "false".

Definition last_value (index : Z) : Z := u8_from (Z.land index 0xff =? 0xff).

Definition load_source_for_cycle (m : BenchModel) (active_cycle : Z) (o : BenchOutputs) : BenchOutputs :=
  if source_open (seed m) active_cycle then
    let index := transactions m in
    {| reset_n := reset_n o; s_valid := 1; s_data := payload (seed m) index; s_id := wrap 16 index;
       s_last := last_value index; s_user := user_value (seed m) index; m_ready := m_ready o; inject_error := u8_from (inject m) |}
  else
    {| reset_n := reset_n o; s_valid := 0; s_data := s_data o; s_id := s_id o; s_last := s_last o; s_user := s_user o;
       m_ready := m_ready o; inject_error := u8_from (inject m) |}.

Definition set_ready (reset : Z) (ready : bool) (o : BenchOutputs) : BenchOutputs :=
  {| reset_n := reset; s_valid := s_valid o; s_data := s_data o; s_id := s_id o; s_last := s_last o; s_user := s_user o;
     m_ready := u8_from ready; inject_error := inject_error o |}.
Definition drop_valid (o : BenchOutputs) : BenchOutputs :=
  {| reset_n := reset_n o; s_valid := 0; s_data := s_data o; s_id := s_id o; s_last := s_last o; s_user := s_user o;
     m_ready := m_ready o; inject_error := inject_error o |}.

Definition zero_outputs (inject : bool) : BenchOutputs :=
  {| reset_n := 0; s_valid := 0; s_data := 0; s_id := 0; s_last := 0; s_user := 0; m_ready := 0; inject_error := u8_from inject |}.

Definition bench_new (target seed : Z) (inject : bool) : Exec (BenchModel * BenchOutputs) :=
  if target =? 0 then Panic "benchmark transaction count must be positive"
  else Done ({| target := target; seed := seed; inject := inject; cycles := 0; transactions := 0; digest := 0; trace_digest := 0 |},
             zero_outputs inject).

Definition tick (m : BenchModel) (i : BenchInputs) (o : BenchOutputs) : BenchModel :=
  {| target := target m; seed := seed m; inject := inject m; cycles := cycles m + 1; transactions := transactions m;
     digest := digest m; trace_digest := trace_digest_update (trace_digest m) (cycles m + 1) i o |}.
Definition count_transfer (m : BenchModel) (i : BenchInputs) : BenchModel :=
  {| target := target m; seed := seed m; inject := inject m; cycles := cycles m; transactions := transactions m + 1;
     digest := digest_update (digest m) (m_data i) (m_id i) (m_last i) (m_user i); trace_digest := trace_digest m |}.

(** The transfer expected at an index: data, id, last, user. *)
Definition expected (seed index : Z) : Z * Z * Z * Z :=
  (transform_data (payload seed index) (wrap 16 index), wrap 16 index, last_value index, user_value seed index).
Definition got (i : BenchInputs) : Z * Z * Z * Z := (m_data i, m_id i, m_last i, m_user i).

Definition payload_error (m : BenchModel) (i : BenchInputs) : string :=
  let '(ed, eid, el, eu) := expected (seed m) (transactions m) in
  "payload mismatch for transfer " +:+ pretty (transactions m) +:+ ": got data=0x" +:+ hex 16 (m_data i) +:+ " id=0x"
  +:+ hex 4 (m_id i) +:+ " last=" +:+ pretty (m_last i) +:+ " user=0x" +:+ hex 2 (m_user i) +:+ "; expected data=0x"
  +:+ hex 16 ed +:+ " id=0x" +:+ hex 4 eid +:+ " last=" +:+ pretty el +:+ " user=0x" +:+ hex 2 eu.

(** What is left once the payload is checked. *)
Definition finish_step (m : BenchModel) (i : BenchInputs) (o : BenchOutputs) (accepted : bool) :
  BenchModel * BenchOutputs * StepStatus :=
  if negb (accepted_count i =? transactions m) then
    (m, o, Fail ("DUT accepted_count mismatch at cycle " +:+ pretty (cycles m) +:+ ": got " +:+ pretty (accepted_count i)
                 +:+ ", expected " +:+ pretty (transactions m)))
  else if transactions m =? target m then
    (m, drop_valid o, Pass {| r_transactions := transactions m; r_cycles := cycles m - RESET_CYCLES;
                              r_digest := digest m; r_trace_digest := trace_digest m |})
  else
    let active_cycle := cycles m - RESET_CYCLES in
    let o := set_ready (reset_n o) (ready_open (seed m) active_cycle) o in
    (m, if accepted || (s_valid o =? 0) then load_source_for_cycle m active_cycle o else o, Continue).

Definition bench_step (m : BenchModel) (i : BenchInputs) (o : BenchOutputs) : BenchModel * BenchOutputs * StepStatus :=
  let m := tick m i o in
  if reset_n o =? 0 then
    if negb (m_valid i =? 0) || negb (accepted_count i =? 0) then
      (m, o, Fail ("DUT was active during reset: m_valid=" +:+ pretty (m_valid i) +:+ " accepted_count=" +:+ pretty (accepted_count i)))
    else if RESET_CYCLES <=? cycles m then
      (m, load_source_for_cycle m 0 (set_ready 1 (ready_open (seed m) 0) o), Continue)
    else (m, o, Continue)
  else
    let accepted := negb (s_valid o =? 0) && negb (s_ready i =? 0) in
    let emitted := negb (m_valid i =? 0) && negb (m_ready o =? 0) in
    if negb (Bool.eqb accepted emitted) then
      (m, o, Fail ("ready/valid transfer disagreement at cycle " +:+ pretty (cycles m) +:+ ": input=" +:+ bool_debug accepted
                   +:+ " output=" +:+ bool_debug emitted))
    else if negb (s_ready i =? m_ready o) then
      (m, o, Fail ("ready path mismatch at cycle " +:+ pretty (cycles m) +:+ ": s_ready=" +:+ pretty (s_ready i)
                   +:+ " m_ready=" +:+ pretty (m_ready o)))
    else if negb (m_valid i =? s_valid o) then
      (m, o, Fail ("valid path mismatch at cycle " +:+ pretty (cycles m) +:+ ": m_valid=" +:+ pretty (m_valid i)
                   +:+ " s_valid=" +:+ pretty (s_valid o)))
    else if m_valid i =? 0 then finish_step m i o accepted
    else if decide (got i = expected (seed m) (transactions m)) then
      finish_step (if emitted then count_transfer m i else m) i o accepted
    else (m, o, Fail (payload_error m i)).

End Stream.

(** ** The design *)

Module Dut.
Import Stream.

(** The rising edge, then the combinational outputs. *)
Definition posedge (o : BenchOutputs) (count : Z) : Z :=
  if reset_n o =? 0 then 0
  else if negb (s_valid o =? 0) && negb (m_ready o =? 0) then wrap 64 (count + 1) else count.
Definition comb (o : BenchOutputs) (count : Z) : BenchInputs :=
  let mixed := Z.lxor (s_data o) 0xd6e8feb86659fd93 in
  let rotated := Z.lor (Z.shiftl (wrap 51 mixed) 13) (Z.shiftr mixed 51) in
  let data := wrap 64 (rotated + 0xa5a55a5a12345678 + s_id o) in
  {| s_ready := m_ready o; m_valid := s_valid o;
     m_data := if negb (inject_error o =? 0) && (count =? 127) then Z.lxor data 1 else data;
     m_id := s_id o; m_last := s_last o; m_user := s_user o; accepted_count := count |}.
End Dut.

(** ** The checker against the design *)

Module StreamRun.
Import Stream Dut.

Definition cycle (m : BenchModel) (o : BenchOutputs) (count : Z) : BenchModel * BenchOutputs * StepStatus * Z :=
  let count := posedge o count in (bench_step m (comb o count) o, count).
Fixpoint run (n : nat) (m : BenchModel) (o : BenchOutputs) (count : Z) : BenchModel * BenchOutputs * StepStatus * Z :=
  match n with
  | O => (m, o, Continue, count)
  | S k => let '(m, o, st, count) := cycle m o count in
           match st with Continue => run k m o count | _ => (m, o, st, count) end
  end.

(** The digest of the first [n] transfers of a seed. *)
Definition digest_one (d : Z) (t : Z * Z * Z * Z) : Z := let '(data, id, last, user) := t in digest_update d data id last user.
Definition expected_digest (seed : Z) (n : nat) : Z :=
  foldl digest_one 0 (map (λ i, expected seed (Z.of_nat i)) (seq 0 n)).

Lemma expected_digest_S seed n : expected_digest seed (S n) = digest_one (expected_digest seed n) (expected seed (Z.of_nat n)).
Proof. unfold expected_digest. rewrite seq_S, map_app, foldl_app. done. Qed.

(** The rotation of the design and of the checker. *)
Lemma rotate_slices x : rotate_left x 13 = Z.lor (Z.shiftl (wrap 51 x) 13) (Z.shiftr x 51).
Proof.
  unfold rotate_left, wrap. rewrite !Z.shiftl_mul_pow2 by lia. change (2 ^ 64) with (2 ^ 51 * 2 ^ 13).
  by rewrite Z.mul_mod_distr_r by lia.
Qed.

Lemma comb_data o count :
  m_data (comb o count) = if negb (inject_error o =? 0) && (count =? 127) then Z.lxor (transform_data (s_data o) (s_id o)) 1
                          else transform_data (s_data o) (s_id o).
Proof.
  unfold comb, transform_data. simpl. rewrite <- rotate_slices. unfold Rng.wrapping_add, wrap, DATA_ADD, DATA_XOR.
  rewrite Z.add_mod_idemp_l by lia. done.
Qed.

(** What the driven values are about. *)
Definition offers (m : BenchModel) (o : BenchOutputs) : Prop :=
  s_valid o = 0 ∨ s_valid o = 1 ∧ s_data o = payload (seed m) (transactions m) ∧ s_id o = wrap 16 (transactions m) ∧
    s_last o = last_value (transactions m) ∧ s_user o = user_value (seed m) (transactions m).
Definition in_reset (m : BenchModel) (o : BenchOutputs) : Prop :=
  reset_n o = 0 ∧ s_valid o = 0 ∧ transactions m = 0 ∧ digest m = 0.
Definition running (m : BenchModel) (o : BenchOutputs) (count : Z) : Prop :=
  reset_n o = 1 ∧ count = transactions m ∧ offers m o ∧ (m_ready o = 0 ∨ m_ready o = 1) ∧
  0 ≤ transactions m < target m ∧ digest m = expected_digest (seed m) (Z.to_nat (transactions m)) ∧
  (inject m = true → transactions m ≤ 126).

Record good (t s : Z) (b : bool) (m : BenchModel) (o : BenchOutputs) (count : Z) : Prop := {
  good_target : target m = t ∧ seed m = s ∧ inject m = b;
  good_range : 0 < t < 2 ^ 64;
  good_inject : inject_error o = u8_from b;
  good_phase : in_reset m o ∨ running m o count;
}.

(** One cycle: the transfer that is offered, if the sink is ready. *)
Definition transfers (o : BenchOutputs) : bool := negb (s_valid o =? 0) && negb (m_ready o =? 0).

Lemma load_offers m c o : offers m (load_source_for_cycle m c o).
Proof. unfold load_source_for_cycle. destruct (source_open _ _); [right|left]; by simpl. Qed.

Lemma load_keeps m c o : reset_n (load_source_for_cycle m c o) = reset_n o ∧ m_ready (load_source_for_cycle m c o) = m_ready o ∧
  inject_error (load_source_for_cycle m c o) = u8_from (inject m).
Proof. unfold load_source_for_cycle. by destruct (source_open _ _). Qed.

Lemma u8_from_cases b : u8_from b = 0 ∨ u8_from b = 1.
Proof. destruct b; auto. Qed.

Lemma cycle_reset t s b m o count m' o' st count' :
  good t s b m o count → in_reset m o → cycle m o count = (m', o', st, count') →
  st = Continue ∧ good t s b m' o' count'.
Proof.
  intros [(Ht & Hs & Hb) Hr Hi _] (Hrst & Hv & Htr & Hd) Hc. unfold cycle, bench_step, posedge in Hc. rewrite Hrst in Hc.
  cbn [comb m_valid accepted_count] in Hc. rewrite Hv in Hc. cbn [Z.eqb negb orb] in Hc.
  destruct (RESET_CYCLES <=? _); simplify_eq; (split; [done|]); constructor; try done.
  - destruct (load_keeps (tick m (comb o 0) o) 0 (set_ready 1 (ready_open (seed (tick m (comb o 0) o)) 0) o)) as (_ & _ & ->). done.
  - right. set (m1 := tick m (comb o 0) o). set (o1 := set_ready 1 (ready_open (seed m1) 0) o).
    destruct (load_keeps m1 0 o1) as (E1 & E2 & _).
    split; [by rewrite E1|]. split; [done|]. split; [apply load_offers|]. rewrite E2.
    split; [apply u8_from_cases|]. cbn [tick transactions target digest seed m1]. rewrite Htr, Hd. split_and_all; try done; lia.
  - left. by split_and_all.
Qed.

(** The three ways a cycle out of reset may end. *)
Definition outcome (t s : Z) (b : bool) (m : BenchModel) (o : BenchOutputs) (st : StepStatus) (count : Z) : Prop :=
  match st with
  | Continue => good t s b m o count
  | Pass r => r_transactions r = t ∧ r_digest r = expected_digest s (Z.to_nat t) ∧ (b = true → t ≤ 126)
  | Fail msg => b = true ∧ transactions m = 126 ∧ 127 ≤ t
  end.

(** The checks passed: the source may offer its next transfer. *)
Lemma finish_outcome t s b m i o count acc m' o' st :
  target m = t → seed m = s → inject m = b → 0 < t < 2 ^ 64 → inject_error o = u8_from b → reset_n o = 1 →
  accepted_count i = transactions m → count = transactions m → 0 ≤ transactions m ≤ t →
  digest m = expected_digest s (Z.to_nat (transactions m)) → (b = true → transactions m ≤ 126) →
  (acc = true ∨ offers m o) → finish_step m i o acc = (m', o', st) → outcome t s b m' o' st count.
Proof.
  intros <- <- <- Hr Hi Hrst Hac Hc Htr Hd Hinj Hoff Hf. unfold finish_step in Hf. rewrite Hac, Z.eqb_refl in Hf. cbn [negb] in Hf.
  destruct (Z.eqb_spec (transactions m) (target m)) as [E|E]; injection Hf as <- <- <-.
  { cbn [outcome r_transactions r_digest]. rewrite Hd, E. split_and_all; try done. intros Hx. specialize (Hinj Hx). lia. }
  set (c := cycles m - RESET_CYCLES). set (o1 := set_ready (reset_n o) (ready_open (seed m) c) o).
  destruct (load_keeps m c o1) as (E1 & E2 & E3).
  assert (reset_n o1 = 1 ∧ inject_error o1 = inject_error o ∧ s_valid o1 = s_valid o) as (R1 & R2 & R3) by done.
  cbn [outcome]. change (s_valid o) with (s_valid o1).
  constructor; try done; [destruct (acc || _); [by rewrite E3|by rewrite R2]|]. right.
  assert (m_ready o1 = 0 ∨ m_ready o1 = 1) as Hrd by apply u8_from_cases.
  destruct (acc || (s_valid o1 =? 0)) eqn:Eacc; unfold running.
  - rewrite E1, E2. split_and_all; try done; try lia. apply load_offers.
  - apply orb_false_iff in Eacc as [-> Ev]. destruct Hoff as [?|Hoff]; [done|]. split_and_all; try done; try lia.
Qed.

Lemma got_comb m o count : offers m o → s_valid o ≠ 0 →
  got (comb o count) = expected (seed m) (transactions m) ↔ (negb (inject_error o =? 0) && (count =? 127)) = false.
Proof.
  intros [H|(Hv & Hd & Hid & Hl & Hu)] Hn; [done|]. unfold got, expected. rewrite comb_data. cbn [comb m_id m_last m_user].
  rewrite Hd, Hid, Hl, Hu. destruct (_ && _); split; intros E; try done.
  exfalso. injection E as E. set (x := transform_data _ _) in E. assert (Z.testbit (Z.lxor x 1) 0 = Z.testbit x 0) as Hx by by rewrite E.
  rewrite Z.lxor_spec in Hx. change (Z.testbit 1 0) with true in Hx. by destruct (Z.testbit x 0).
Qed.

Lemma cycle_running t s b m o count m' o' st count' :
  good t s b m o count → running m o count → cycle m o count = (m', o', st, count') → outcome t s b m' o' st count'.
Proof.
  intros [(<- & <- & <-) Hr Hi _] (Hrst & Hc & Hoff & Hrd & Htr & Hd & Hinj) Hcy. unfold cycle in Hcy.
  set (k := posedge o count) in Hcy. set (i := comb o k) in Hcy. set (m1 := tick m i o).
  assert (bench_step m i o = (m', o', st) ∧ count' = k) as [Hst ->] by by simplify_eq. clear Hcy.
  assert (k = if transfers o then transactions m + 1 else transactions m) as Hk.
  { subst k. unfold posedge, transfers. rewrite Hrst, Hc. simpl. destruct (_ && _); [|done]. apply wrap_id. split; lia. }
  unfold bench_step in Hst. fold m1 in Hst. rewrite Hrst in Hst. cbn [Z.eqb] in Hst.
  change (m_valid i) with (s_valid o) in Hst. change (s_ready i) with (m_ready o) in Hst. fold (transfers o) in Hst.
  rewrite Bool.eqb_reflx, !Z.eqb_refl in Hst. cbn [negb] in Hst.
  assert (accepted_count i = k) as Hac by done.
  destruct (Z.eqb_spec (s_valid o) 0) as [Ev|Ev].
  - assert (transfers o = false) as Etr by (unfold transfers; by rewrite Ev). rewrite Etr in Hk, Hst.
    eapply (finish_outcome _ _ _ m1 i o k false); try done; first [by rewrite Hac, Hk|cbn [tick transactions m1]; lia|by right].
  - pose proof (got_comb m o k Hoff Ev) as Hg. fold i in Hg. rewrite Hi in Hg.
    change (seed m1) with (seed m) in Hst. change (transactions m1) with (transactions m) in Hst.
    destruct (decide (got i = expected (seed m) (transactions m))) as [Eg|Eg].
    + pose proof (proj1 Hg Eg) as Hno. destruct (transfers o) eqn:Etr.
      * eapply (finish_outcome _ _ _ (count_transfer m1 i) i o k true); try done; cbn [count_transfer tick transactions digest seed m1];
          try (by rewrite Hac, Hk); try lia; try (by left).
        -- replace (Z.to_nat (transactions m + 1)) with (S (Z.to_nat (transactions m))) by lia.
           rewrite expected_digest_S, Z2Nat.id, <- Hd, <- Eg by lia. done.
        -- intros Hbt. rewrite Hbt in Hno. cbn in Hno. apply Z.eqb_neq in Hno. specialize (Hinj Hbt). lia.
      * eapply (finish_outcome _ _ _ m1 i o k false); try done; first [by rewrite Hac, Hk|cbn [tick transactions m1]; lia|by right].
    + injection Hst as <- <- <-. cbn [outcome]. destruct (inject m && (k =? 127)) eqn:Ef.
      * apply andb_true_iff in Ef as [Hb Ek%Z.eqb_eq]. cbn [tick transactions m1]. rewrite Ek in Hk.
        destruct (transfers o); [|specialize (Hinj Hb); lia]. split_and_all; try done; lia.
      * exfalso. apply Eg, Hg. by destruct (inject m).
Qed.

Lemma run_outcome t s b n : ∀ m o count m' o' st count',
  good t s b m o count → run n m o count = (m', o', st, count') → outcome t s b m' o' st count'.
Proof.
  induction n as [|n IH]; intros m o count m' o' st count' Hg; cbn [run]; [intros; by simplify_eq|].
  destruct (cycle m o count) as [[[m1 o1] st1] c1] eqn:Ec.
  assert (outcome t s b m1 o1 st1 c1) as Ho.
  { destruct (good_phase _ _ _ _ _ _ Hg) as [Hp|Hp]; [|by eapply cycle_running].
    destruct (cycle_reset _ _ _ _ _ _ _ _ _ _ Hg Hp Ec) as [-> ?]. done. }
  destruct st1; intros Hr; [by eapply IH|by simplify_eq|by simplify_eq].
Qed.

(** Against the design the checker never raises a false alarm and never lets
    the injected fault through: without injection no run fails, of whatever
    length, for any seed and target; a run that passes has counted exactly the
    target number of transfers and its digest is that of the transfers the seed
    prescribes, however the two sides stalled; with injection and a target of at
    least 127 no run passes, and the failure is reported at transfer 126. *)
Theorem stream_verdict t s b n m o :
  0 < t < 2 ^ 64 → bench_new t s b = Done (m, o) →
  let '(m', _, st, _) := run n m o 0 in
  match st with
  | Continue => True
  | Pass r => r_transactions r = t ∧ r_digest r = expected_digest s (Z.to_nat t) ∧ (b = false ∨ t ≤ 126)
  | Fail _ => b = true ∧ 127 ≤ t ∧ transactions m' = 126
  end.
Proof.
  intros Ht Hn. unfold bench_new in Hn. destruct (t =? 0); simplify_eq.
  match goal with |- context [run n ?m ?o 0] => destruct (run n m o 0) as [[[m' o'] st] c'] eqn:Er;
    assert (good t s b m o 0) as Hg by (constructor; try done; left; by split_and_all) end.
  pose proof (run_outcome t s b n _ _ _ _ _ _ _ Hg Er) as Ho. destruct st as [|r|msg]; simpl in Ho; [done| |naive_solver].
  destruct Ho as (? & ? & Hb). split_and_all; try done. destruct b; [right; by apply Hb|by left].
Qed.

(** *** Any design *)

(** What was transferred in a cycle. *)
Definition transferred (i : BenchInputs) (o : BenchOutputs) : list (Z * Z * Z * Z) :=
  if negb (reset_n o =? 0) && negb (m_valid i =? 0) && negb (m_ready o =? 0) then [got i] else [].

(** The checker on a trace of sampled values, with what was transferred. *)
Fixpoint observe (xs : list BenchInputs) (m : BenchModel) (o : BenchOutputs) : StepStatus * list (Z * Z * Z * Z) :=
  match xs with
  | [] => (Continue, [])
  | i :: r =>
      let '(m', o', st) := bench_step m i o in
      match st with
      | Continue => let '(st, ts) := observe r m' o' in (st, transferred i o ++ ts)
      | _ => (st, transferred i o)
      end
  end.

(** The checker's state says what was transferred so far. *)
Definition records (s : Z) (m : BenchModel) (ts : list (Z * Z * Z * Z)) : Prop :=
  seed m = s ∧ transactions m = Z.of_nat (length ts) ∧ digest m = foldl digest_one 0 ts ∧
  ts = map (λ i, expected s (Z.of_nat i)) (seq 0 (length ts)).

Lemma records_snoc s m i ts : records s m ts → got i = expected s (transactions m) → records s (count_transfer m i) (ts ++ [got i]).
Proof.
  intros (Hs & Ht & Hd & Hts) Hg. unfold records. rewrite length_app, foldl_app, Nat.add_1_r, seq_S, map_app, <- Hts.
  cbn [count_transfer seed transactions digest]. rewrite Hg, Ht in *. split_and_all; [done|lia| |done].
  rewrite Hd. cbn [foldl]. unfold got in Hg. by rewrite <- Hg.
Qed.

Lemma finish_step_records m i o acc m' o' st : finish_step m i o acc = (m', o', st) →
  m' = m ∧ ∀ r, st = Pass r → r_transactions r = transactions m ∧ r_digest r = digest m ∧ transactions m = target m.
Proof.
  unfold finish_step. intros Hf. destruct (negb _); [by simplify_eq|].
  destruct (Z.eqb_spec (transactions m) (target m)); simplify_eq; split; try done. intros r Hr. by simplify_eq.
Qed.

Lemma bench_step_records s m i o m' o' st ts : records s m ts → bench_step m i o = (m', o', st) →
  (∃ msg, st = Fail msg) ∨ target m' = target m ∧ records s m' (ts ++ transferred i o) ∧
    ∀ r, st = Pass r → r_transactions r = transactions m' ∧ r_digest r = digest m' ∧ transactions m' = target m'.
Proof.
  intros Hrec Hst. unfold bench_step in Hst. set (m1 := tick m i o) in Hst.
  assert (records s m1 ts) as Hrec1 by done. unfold transferred. destruct (reset_n o =? 0); cbn [negb andb].
  { rewrite app_nil_r. destruct (_ || _); [left; simplify_eq; eauto|]. right.
    destruct (RESET_CYCLES <=? _); simplify_eq; by split_and_all. }
  destruct (negb (Bool.eqb _ _)); [left; simplify_eq; eauto|]. destruct (negb (_ =? m_ready o)); [left; simplify_eq; eauto|].
  destruct (negb (_ =? s_valid o)); [left; simplify_eq; eauto|]. destruct (m_valid i =? 0); cbn [negb andb] in *.
  { right. destruct (finish_step_records _ _ _ _ _ _ _ Hst) as [-> ?]. rewrite app_nil_r. by split_and_all. }
  destruct (decide _) as [Hg|]; [|left; simplify_eq; eauto]. right.
  destruct (finish_step_records _ _ _ _ _ _ _ Hst) as [-> Hp]. destruct (m_ready o =? 0); cbn [negb] in *.
  - rewrite app_nil_r. by split_and_all.
  - split; [done|]. split; [|done]. apply records_snoc; [done|]. destruct Hrec1 as (<- & _). done.
Qed.

Lemma observe_sound s xs : ∀ m o ts r ts', records s m ts → observe xs m o = (Pass r, ts') →
  ∃ m', records s m' (ts ++ ts') ∧ target m' = target m ∧ r_transactions r = transactions m' ∧ r_digest r = digest m' ∧
    transactions m' = target m'.
Proof.
  induction xs as [|i xs IH]; intros m o ts r ts' Hrec; simpl; [done|].
  destruct (bench_step m i o) as [[m1 o1] st] eqn:Est.
  destruct (bench_step_records s m i o m1 o1 st ts Hrec Est) as [[msg ->]|(Ht & Hrec1 & Hp)]; [done|].
  destruct st as [|r1|msg]; [|intros; simplify_eq|done].
  - destruct (observe xs m1 o1) as [st ts1] eqn:Eo. intros. simplify_eq.
    destruct (IH m1 o1 _ r ts1 Hrec1 Eo) as (m' & H1 & H2 & H3 & H4 & H5). exists m'.
    rewrite app_assoc, <- Ht. by split_and_all.
  - destruct (Hp r eq_refl) as (? & ? & ?). exists m1. by split_and_all.
Qed.

(** Whatever the design does, the checker passes only a run in which exactly
    the target number of transfers took place, each with the data, id, last and
    user values the seed prescribes for its position; the report counts them and
    its digest is theirs. *)
Theorem checker_sound t s b m o xs r ts :
  bench_new t s b = Done (m, o) → 0 < t → observe xs m o = (Pass r, ts) →
  ts = map (λ i, expected s (Z.of_nat i)) (seq 0 (Z.to_nat t)) ∧ r_transactions r = t ∧ r_digest r = foldl digest_one 0 ts.
Proof.
  intros Hn Ht Ho. unfold bench_new in Hn. destruct (t =? 0); simplify_eq.
  match type of Ho with observe _ ?m ?o = _ => assert (records s m []) as Hrec by by split_and_all end.
  destruct (observe_sound s xs _ _ [] r ts Hrec Ho) as (m' & (Hs & Htr & Hd & Hts) & Htg & Hrt & Hrd & Heq).
  simpl in *. assert (length ts = Z.to_nat t) as Hl by lia. rewrite Hl in Hts. split_and_all; [done|lia|congruence].
Qed.

End StreamRun.

(** ** The two backends *)

Module StreamBackends.
Import Stream StreamRun.

(** *** stream-vpi *)

(** What reading each output pin as a [u64] answers. *)
Record OutputPins := {
  p_s_ready : Result Z string; p_m_valid : Result Z string; p_m_data : Result Z string; p_m_id : Result Z string;
  p_m_last : Result Z string; p_m_user : Result Z string; p_accepted_count : Result Z string;
}.

Local Open Scope rustdv_scope.
(** The data pins are only read when they are valid. *)
Definition sample (h : OutputPins) : Result BenchInputs string :=
  mv <-? p_m_valid h ;;
  let m_valid := wrap 8 mv in
  let when_valid (w : Z) (r : Result Z string) := if m_valid =? 0 then Ok 0 else x <-? r ;; Ok (wrap w x) in
  sr <-? p_s_ready h ;; d <-? when_valid 64 (p_m_data h) ;; id <-? when_valid 16 (p_m_id h) ;;
  l <-? when_valid 8 (p_m_last h) ;; u <-? when_valid 8 (p_m_user h) ;; c <-? p_accepted_count h ;;
  Ok {| s_ready := wrap 8 sr; m_valid := m_valid; m_data := d; m_id := id; m_last := l; m_user := u; accepted_count := c |}.
Local Close Scope rustdv_scope.

(** [!x] on an unsigned integer of width [w]. *)
Definition not_w (w x : Z) : Z := 2 ^ w - 1 - x.

(** A pin is only written when its value differs from the last one driven. *)
Definition drive (pins values : BenchOutputs) (previous : option BenchOutputs) : BenchOutputs * option BenchOutputs :=
  let old := default {| reset_n := not_w 8 (reset_n values); s_valid := not_w 8 (s_valid values); s_data := not_w 64 (s_data values);
      s_id := not_w 16 (s_id values); s_last := not_w 8 (s_last values); s_user := not_w 8 (s_user values);
      m_ready := not_w 8 (m_ready values); inject_error := not_w 8 (inject_error values) |} previous in
  let pick (f : BenchOutputs → Z) := if negb (f values =? f old) then f values else f pins in
  ({| reset_n := pick reset_n; s_valid := pick s_valid; s_data := pick s_data; s_id := pick s_id; s_last := pick s_last;
      s_user := pick s_user; m_ready := pick m_ready; inject_error := pick inject_error |}, Some values).

(** *** The models behind the cycle interface *)

(** The environment variables: target, seed and injection. *)
Record Env := { transactions_var : option string; seed_var : option string; inject_var : option string }.
(** [{:?}] of a text without characters to escape. *)
Definition quoted (s : string) : string := String (ascii_of_nat 34) s +:+ String (ascii_of_nat 34) EmptyString.

Section Models.
Variable parse_u64 : string → Result Z string.   (* [str::parse], with its error's text *)

Definition env_u64 (name : string) (v : option string) (dflt : Z) : Result Z string :=
  match v with
  | Some value => match parse_u64 value with
      | Ok x => Ok x
      | Err e => Err ("invalid " +:+ name +:+ "=" +:+ quoted value +:+ ": " +:+ e)
      end
  | None => Ok dflt
  end.
Definition env_flag (v : option string) : bool :=
  match v with Some s => bool_decide (s ∈ ["1"; "true"; "yes"]) | None => false end.

Record StreamModel := { model : BenchModel; values : BenchOutputs }.

Definition vpi_new (e : Env) (outputs : BenchOutputs) : BenchOutputs * Cycle.Caught (Result StreamModel string) :=
  match env_u64 "RUSTDV_BENCH_TRANSACTIONS" (transactions_var e) 100000 with
  | Err m => (outputs, Cycle.Returned (Err m))
  | Ok t =>
      match env_u64 "RUSTDV_BENCH_SEED" (seed_var e) 1 with
      | Err m => (outputs, Cycle.Returned (Err m))
      | Ok s =>
          match bench_new t s (env_flag (inject_var e)) with
          | Panic m => (outputs, Cycle.Panicked (Cycle.PStr m))
          | Done (bm, o) => (o, Cycle.Returned (Ok {| model := bm; values := o |}))
          end
      end
  end.

Definition vpi_step (m : StreamModel) (i : BenchInputs) (outputs : BenchOutputs) :
  StreamModel * BenchOutputs * Cycle.Caught (Result Cycle.CycleStatus string) :=
  let '(bm, o, st) := bench_step (model m) i (values m) in
  let m' := {| model := bm; values := o |} in
  match st with
  | Continue => (m', o, Cycle.Returned (Ok Cycle.Continue))
  | Pass _ => (m', outputs, Cycle.Returned (Ok Cycle.Pass))
  | Fail msg => (m', outputs, Cycle.Returned (Err msg))
  end.

Definition vpi_model (e : Env) : Cycle.CycleModel StreamModel BenchInputs BenchOutputs :=
  {| Cycle.new := vpi_new e; Cycle.step := vpi_step; Cycle.finish := λ m, (m, Cycle.Returned (Ok tt)) |}.

(** *** stream-cycle: the structures of the direct interface have the same fields *)

Definition write_outputs (source destination : BenchOutputs) : BenchOutputs :=
  {| reset_n := reset_n source; s_valid := s_valid source; s_data := s_data source; s_id := s_id source; s_last := s_last source;
     s_user := s_user source; m_ready := m_ready source; inject_error := inject_error source |}.

Definition cycle_new (e : Env) (outputs : BenchOutputs) : BenchOutputs * Cycle.Caught (Result StreamModel string) :=
  match env_u64 "RUSTDV_BENCH_TRANSACTIONS" (transactions_var e) 100000 with
  | Err m => (outputs, Cycle.Returned (Err m))
  | Ok t =>
      match env_u64 "RUSTDV_BENCH_SEED" (seed_var e) 1 with
      | Err m => (outputs, Cycle.Returned (Err m))
      | Ok s =>
          match bench_new t s (env_flag (inject_var e)) with
          | Panic m => (outputs, Cycle.Panicked (Cycle.PStr m))
          | Done (bm, o) => (write_outputs o outputs, Cycle.Returned (Ok {| model := bm; values := o |}))
          end
      end
  end.

Definition cycle_step (m : StreamModel) (inputs : BenchInputs) (outputs : BenchOutputs) :
  StreamModel * BenchOutputs * Cycle.Caught (Result Cycle.CycleStatus string) :=
  let i := {| s_ready := s_ready inputs; m_valid := m_valid inputs; m_data := m_data inputs; m_id := m_id inputs;
              m_last := m_last inputs; m_user := m_user inputs; accepted_count := accepted_count inputs |} in
  let '(bm, o, st) := bench_step (model m) i (values m) in
  let m' := {| model := bm; values := o |} in
  match st with
  | Continue => (m', write_outputs o outputs, Cycle.Returned (Ok Cycle.Continue))
  | Pass _ => (m', outputs, Cycle.Returned (Ok Cycle.Pass))
  | Fail msg => (m', outputs, Cycle.Returned (Err msg))
  end.

Definition cycle_model (e : Env) : Cycle.CycleModel StreamModel BenchInputs BenchOutputs :=
  {| Cycle.new := cycle_new e; Cycle.step := cycle_step; Cycle.finish := λ m, (m, Cycle.Returned (Ok tt)) |}.
End Models.

(** *** They agree *)

(** The values the direct interface hands over, and what VPI samples of them. *)
Definition pins_of (i : BenchInputs) : OutputPins :=
  {| p_s_ready := Ok (s_ready i); p_m_valid := Ok (m_valid i); p_m_data := Ok (m_data i); p_m_id := Ok (m_id i);
     p_m_last := Ok (m_last i); p_m_user := Ok (m_user i); p_accepted_count := Ok (accepted_count i) |}.
Definition inputs_ok (i : BenchInputs) : Prop :=
  fits 8 (s_ready i) ∧ fits 8 (m_valid i) ∧ fits 64 (m_data i) ∧ fits 16 (m_id i) ∧ fits 8 (m_last i) ∧ fits 8 (m_user i).
Definition masked (i : BenchInputs) : BenchInputs :=
  if m_valid i =? 0
  then {| s_ready := s_ready i; m_valid := m_valid i; m_data := 0; m_id := 0; m_last := 0; m_user := 0; accepted_count := accepted_count i |}
  else i.

Lemma sample_masked i : inputs_ok i → sample (pins_of i) = Ok (masked i).
Proof.
  intros (Hsr & Hmv & Hd & Hid & Hl & Hu). unfold sample, masked. cbn [pins_of p_m_valid p_s_ready p_m_data p_m_id p_m_last p_m_user p_accepted_count result_bind].
  rewrite (wrap_id 8 (m_valid i)), (wrap_id 8 (s_ready i)) by done. destruct (m_valid i =? 0); cbn [result_bind]; [done|].
  rewrite !wrap_id by done. by destruct i.
Qed.

Lemma step_masked m i o : bench_step m (masked i) o = bench_step m i o.
Proof.
  unfold masked. destruct (m_valid i =? 0) eqn:Ev; [|done]. unfold bench_step.
  assert (tick m {| s_ready := s_ready i; m_valid := m_valid i; m_data := 0; m_id := 0; m_last := 0; m_user := 0;
    accepted_count := accepted_count i |} o = tick m i o) as ->.
  { unfold tick, trace_digest_update. cbn [m_valid m_data m_id m_last m_user s_ready accepted_count]. by rewrite Ev. }
  cbn [m_valid s_ready accepted_count]. rewrite Ev. done.
Qed.

Lemma not_w_ne w x : 0 < w → negb (x =? not_w w x) = true.
Proof.
  intros Hw. apply negb_true_iff, Z.eqb_neq. unfold not_w. replace w with (w - 1 + 1) by lia.
  rewrite Z.pow_add_r by lia. change (2 ^ 1) with 2. lia.
Qed.

Lemma pick_same (x y : Z) : (if negb (x =? y) then x else y) = x.
Proof. by destruct (Z.eqb_spec x y). Qed.

(** C26: what the VPI backend leaves out changes nothing: skipping the writes of
    unchanged values leaves the pins as if all had been written, from the first
    drive on; both backends start alike; and not reading the data pins while they are not valid gives the
    same next state, outputs, trace digest and verdict as the direct interface,
    which hands over every value. *)
Theorem stream_backends_agree parse e (m : StreamModel) i outputs (pins v : BenchOutputs) :
  inputs_ok i →
  (drive pins v None = (v, Some v) ∧ ∀ v', drive v v' (Some v) = (v', Some v')) ∧
  Cycle.new (vpi_model parse e) outputs = Cycle.new (cycle_model parse e) outputs ∧
  ∃ i', sample (pins_of i) = Ok i' ∧ Cycle.step (vpi_model parse e) m i' outputs = Cycle.step (cycle_model parse e) m i outputs.
Proof.
  intros Hi. assert (∀ o o', write_outputs o o' = o) as Hwo by (by intros [] ?). split; [split|split].
  - unfold drive. cbn [default from_option reset_n s_valid s_data s_id s_last s_user m_ready inject_error].
    rewrite !not_w_ne by lia. by destruct v.
  - intros v'. unfold drive. cbn [default from_option]. rewrite !pick_same. by destruct v'.
  - cbn [Cycle.new vpi_model cycle_model]. unfold vpi_new, cycle_new.
    destruct (env_u64 _ _ _ _); [|done]. destruct (env_u64 _ _ _ _); [|done]. destruct (bench_new _ _ _) as [[bm o]|]; [|done].
    by rewrite Hwo.
  - exists (masked i). split; [by apply sample_masked|]. cbn [Cycle.step vpi_model cycle_model]. unfold vpi_step, cycle_step.
    rewrite step_masked. replace (Build_BenchInputs _ _ _ _ _ _ _) with i by (by destruct i).
    destruct (bench_step _ _ _) as [[bm o] st]. by rewrite Hwo.
Qed.

End StreamBackends.

Module StreamWitnesses.
Import Stream Dut StreamRun StreamBackends.

(** The vectors of the crate's own tests. *)
Example payload_vectors : payload 1 0 = 0x910a2dec89025cc1 ∧ payload 1 1 = 0xe99ff867dbf682c9 ∧ user_value 1 0 = 0x1a ∧
  transform_data 0x0123456789abcdef 0x1234 = 0x1d215858584403a5.
Proof. by vm_compute. Qed.

Definition m0 (t : Z) (b : bool) : BenchModel :=
  {| target := t; seed := 1; inject := b; cycles := 0; transactions := 0; digest := 0; trace_digest := 0 |}.

Lemma stream_verdict_witness :
  ∃ m r o c, run 12 (m0 3 false) (zero_outputs false) 0 = (m, o, Pass r, c) ∧ r_transactions r = 3 ∧ r_digest r = expected_digest 1 3.
Proof.
  pose proof (stream_verdict 3 1 false 12 (m0 3 false) (zero_outputs false) ltac:(lia) eq_refl) as H.
  destruct (run 12 (m0 3 false) (zero_outputs false) 0) as [[[m o] st] c] eqn:E. destruct st as [|r|msg].
  - exfalso. vm_compute in E. discriminate.
  - exists m, r, o, c. split; [done|]. split; apply H.
  - exfalso. destruct H as [H _]. discriminate.
Defined.

(** The trace of a design that behaves, as sampled. *)
Fixpoint trace (n : nat) (m : BenchModel) (o : BenchOutputs) (count : Z) : list BenchInputs :=
  match n with
  | O => []
  | S k => let '(m', o', _, c) := cycle m o count in comb o c :: trace k m' o' c
  end.
Lemma checker_sound_witness :
  ∃ r ts, observe (trace 12 (m0 3 false) (zero_outputs false) 0) (m0 3 false) (zero_outputs false) = (Pass r, ts) ∧
    ts = map (λ i, expected 1 (Z.of_nat i)) (seq 0 3) ∧ r_transactions r = 3.
Proof.
  pose proof (checker_sound 3 1 false (m0 3 false) (zero_outputs false) (trace 12 (m0 3 false) (zero_outputs false) 0)) as H.
  destruct (observe _ _ _) as [[|r|msg] ts] eqn:E.
  - exfalso. vm_compute in E. discriminate.
  - exists r, ts. split; [done|]. destruct (H r ts eq_refl ltac:(lia) eq_refl) as (H1 & H2 & _). by split.
  - exfalso. vm_compute in E. discriminate.
Defined.

Lemma stream_backends_agree_witness :
  drive (zero_outputs true) (zero_outputs false) None = (zero_outputs false, Some (zero_outputs false)).
Proof.
  apply (stream_backends_agree (λ _, Ok 0) {| transactions_var := None; seed_var := None; inject_var := None |} {| model := m0 3 false; values := zero_outputs false |} (comb (zero_outputs false) 0)
    (zero_outputs false) (zero_outputs true) (zero_outputs false)). by vm_compute.
Defined.

End StreamWitnesses.
