(* ===== verification/Testing.v ===== *)
(** * Testing: when the executor comes to rest, and [block_on]
    (rustdv-sim/src/executor.rs, testing.rs).

    User tasks may wake each other for ever, so [run_until_idle] need not
    return.  It does when the futures have a budget: a rank that bounds what a
    poll may spawn and suspend as ([Bounded]).  [block_on] and [assert_pending]
    drive one future by hand, with a waker that does nothing (task 0, which no
    task has), and drain the executor between its polls. *)
From S2P Require Import Prelude Executor.

Module Testing.
Import Executor.

(** ** Sums over the task table *)

Section Sums.
Context {A : Type} (w : A → nat).
Definition msum (m : gmap nat A) : nat := map_fold (λ _ x n, w x + n) 0 m.

Lemma msum_insert m i x : m !! i = None → msum (<[i := x]> m) = w x + msum m.
Proof. intros Hi. unfold msum. rewrite map_fold_insert_L; [done| |done]. intros. lia. Qed.

Lemma msum_delete m i x : m !! i = Some x → msum m = w x + msum (delete i m).
Proof. intros Hi. rewrite <- (insert_delete_id m i x Hi) at 1. apply msum_insert, lookup_delete_eq. Qed.

Lemma msum_delete_le m i : msum (delete i m) ≤ msum m.
Proof. destruct (m !! i) as [x|] eqn:E; [rewrite (msum_delete m i x E); lia|by rewrite delete_id]. Qed.

Lemma msum_put m i x : msum (<[i := x]> m) = w x + msum (delete i m).
Proof. rewrite <- insert_delete_eq. apply msum_insert, lookup_delete_eq. Qed.

Lemma msum_insert_le m i x : msum (<[i := x]> m) ≤ w x + msum m.
Proof. rewrite msum_put. pose proof (msum_delete_le m i). lia. Qed.
End Sums.

Section Term.
Context {Fut World V : Type}.
Variable poll : Fut → Waker → Prog Fut World V.
Variable drop_fut : Fut → World → World * list Waker.
Variable key_order : list TaskId → list TaskId.
Abbreviation Ex := (ExecInner Fut World V).
Abbreviation P := (Prog Fut World V).

(** ** Budgets *)

(** The rank bounds the polls a future and what it spawns may still take. *)
Variable rank : Fut → nat.
Fixpoint within (b : nat) (p : P) : Prop :=
  match p with
  | PGet k => ∀ w, within b (k w)
  | PSet _ k | PWake _ k | PCancel _ k | PCancelAfter _ k | PRunIdle k => within b k
  | PSpawn f _ k => S (rank f) ≤ b ∧ ∀ id, within (b - S (rank f)) (k id)
  | PWatermark k => ∀ id, within b (k id)
  | PReported k => ∀ l, within b (k l)
  | PState _ k => ∀ st, within b (k st)
  | PResult _ k => ∀ r, within b (k r)
  | PJoin _ k => ∀ r, within b (k r)
  | PPending f => S (rank f) ≤ b
  | PReady _ | PPanic _ => True
  end.
Definition Bounded : Prop := ∀ f cx, within (rank f) (poll f cx).

Definition weight (t : @TaskEntry Fut) : nat := match fut t with Some f => S (rank f) | None => 0 end.
Definition pend (t : @TaskEntry Fut) : nat := if decide (state t = Pending_) then 1 else 0.
Definition budget (s : Ex) : nat := msum weight (tasks s).
Definition backlog (s : Ex) : nat := length (run_queue s) + msum pend (tasks s).

(** *** What the operations cost *)

Lemma budget_eq (s s' : Ex) : tasks s' = tasks s → budget s' = budget s.
Proof. unfold budget. by intros ->. Qed.

Lemma budget_drop o (s : Ex) : tasks (drop_future drop_fut o s) = tasks s.
Proof. destruct o as [f|]; simpl; [|done]. destruct (drop_fut f (world s)) as [w ids]. by rewrite wake_all_eq. Qed.

Lemma tasks_abort id e (s : Ex) : tasks (on_abort id e s) = tasks s.
Proof. unfold on_abort. by rewrite complete_tasks, state_cell_tasks. Qed.

Lemma cancel_budget id (s : Ex) : budget (cancel drop_fut id s) ≤ budget s.
Proof.
  unfold cancel. destruct (decide _); [done|]. destruct (tasks s !! id) as [t|]; [|done].
  unfold budget. rewrite budget_drop, tasks_abort. apply msum_delete_le.
Qed.

Lemma cancel_list_budget ids : ∀ s : Ex, budget (cancel_list drop_fut ids s) ≤ budget s.
Proof. induction ids as [|i ids IH]; intros s; [done|]. etrans; [apply IH|apply cancel_budget]. Qed.

Definition suspended (r : @Polled Fut) : nat := match r with PolledPending f => S (rank f) | _ => 0 end.

(** A poll stays within its budget. *)
Lemma run_prog_budget me p : ∀ b (s : Ex), within b p →
  let '(s', r) := run_prog drop_fut key_order me p s in budget s' + suspended r ≤ budget s + b.
Proof.
  induction p as [k IH|w k IH|id k IH|f n k IH|id k IH|wm k IH|k IH|id k IH|id k IH|id k IH|k IH|k IH|v|f|m]; intros b s Hw; simpl in *.
  - by apply IH.
  - by apply (IH b (set_world w s)).
  - by apply (IH b (wake id s)).
  - destruct Hw as [Hb Hw]. pose proof (IH (next_id s) (b - S (rank f)) (fst (spawn_named f n s)) (Hw _)) as H.
    simpl in H. destruct (run_prog _ _ me (k (next_id s)) _) as [s' r].
    assert (budget (fst (spawn_named f n s)) ≤ S (rank f) + budget s) as Hs.
    { unfold budget. simpl. etrans; [apply msum_insert_le|]. done. }
    simpl in Hs. lia.
  - pose proof (IH b (cancel drop_fut id s) Hw) as H. destruct (run_prog _ _ me k _) as [s' r].
    pose proof (cancel_budget id s). lia.
  - pose proof (IH b (cancel_after drop_fut key_order wm s) Hw) as H. destruct (run_prog _ _ me k _) as [s' r].
    pose proof (cancel_list_budget (filter (λ id, wm ≤ id) (key_order (keys s))) s) as Hc. unfold cancel_after in H. lia.
  - by apply IH.
  - by apply IH.
  - destruct (handle_result id s) as [s1 r1] eqn:E. pose proof (IH r1 b s1 (Hw _)) as H.
    destruct (run_prog _ _ me (k r1) s1) as [s' r]. enough (budget s1 = budget s) by lia. apply budget_eq.
    unfold handle_result in E. destruct (shared s !! id) as [sh|]; [destruct (result sh)|]; by simplify_eq.
  - destruct (handle_poll id me s) as [s1 r1] eqn:E. pose proof (IH r1 b s1 (Hw _)) as H.
    destruct (run_prog _ _ me (k r1) s1) as [s' r]. enough (budget s1 = budget s) by lia. apply budget_eq.
    unfold handle_poll, handle_result in E. destruct (is_done _), (shared s !! id) as [sh|]; try destruct (result sh); by simplify_eq.
  - by apply IH.
  - by apply IH.
  - rewrite (budget_eq s) by (by rewrite complete_tasks, state_cell_tasks). lia.
  - lia.
  - lia.
Qed.

Lemma end_poll_budget id (s : Ex) r : budget (end_poll drop_fut id s r) ≤ budget s + suspended r.
Proof.
  destruct r as [|f|m]; simpl.
  - pose proof (msum_delete_le weight (tasks s) id). unfold budget. simpl. lia.
  - etrans; [apply cancel_list_budget|]. unfold budget at 1. simpl. destruct (tasks s !! id) as [t|]; simpl; [|unfold budget; lia].
    rewrite state_cell_tasks. simpl. etrans; [apply msum_insert_le|]. unfold weight at 1, budget. simpl. lia.
  - enough (budget (on_abort id (EPanicked m) (state_cell id Failed (set_tasks (delete id (tasks s)) s))) ≤ budget s) as H.
    { destruct (failure_sink _); unfold report, budget in *; simpl in *; lia. }
    unfold budget. rewrite tasks_abort, state_cell_tasks. simpl. apply msum_delete_le.
Qed.

(** Polling a queued task spends some of the budget, or was in vain. *)
Lemma poll_task_budget id (s : Ex) : Bounded →
  budget (poll_task poll drop_fut key_order id s) < budget s ∨ poll_task poll drop_fut key_order id s = s ∨
  ∃ t, tasks s !! id = Some t ∧ fut t = None.
Proof.
  intros Hb. unfold poll_task. destruct (tasks s !! id) as [t|] eqn:Et; [|by right; left].
  destruct (decide _); [|by right; left]. destruct (fut t) as [f|] eqn:Ef; [left|right; right; by exists t]. cbn [poll_fut].
  pose proof (run_prog_budget id (poll f id) (rank f) (begin_poll id t s) (Hb f id)) as Hr.
  destruct (run_prog _ _ id (poll f id) (begin_poll id t s)) as [s' r].
  pose proof (end_poll_budget id (set_polling None s') r) as He. change (budget (set_polling None s')) with (budget s') in He.
  assert (budget s = S (rank f) + budget (begin_poll id t s)) as ->; [|lia].
  unfold budget, begin_poll. simpl. rewrite state_cell_tasks. simpl. rewrite msum_put, (msum_delete weight _ _ _ Et).
  unfold weight at 1 3. simpl. by rewrite Ef.
Qed.

(** Draining wake-ups spends nothing. *)
Lemma drain_one_budget (s : Ex) id : budget (drain_one s id) = budget s ∧ backlog (drain_one s id) = backlog s.
Proof.
  unfold drain_one. destruct (tasks s !! id) as [t|] eqn:Et; [|done]. destruct (decide _) as [Hp|]; [|done].
  unfold budget, backlog. simpl. rewrite state_cell_tasks. simpl.
  assert (run_queue (state_cell id Scheduled (set_tasks (<[id:=Build_TaskEntry (fut t) (name t) Scheduled]> (tasks s)) s)) = run_queue s) as ->
    by (unfold state_cell; simpl; by destruct (shared s !! id)).
  rewrite !msum_put, length_app, (msum_delete weight _ _ _ Et), (msum_delete pend _ _ _ Et).
  unfold weight, pend. simpl. rewrite (decide_True (P := state t = Pending_)) by done. split; lia.
Qed.

Lemma drain_woken_budget (s : Ex) : budget (drain_woken s) = budget s ∧ backlog (drain_woken s) = backlog s.
Proof.
  unfold drain_woken. change (budget s) with (budget (set_woken [] s)). change (backlog s) with (backlog (set_woken [] s)).
  generalize (set_woken [] s). induction (woken s) as [|i ids IH]; intros s1; [done|]. simpl.
  destruct (IH (drain_one s1 i)) as [-> ->]. apply drain_one_budget.
Qed.

(** A turn that polls spends budget or shortens the backlog. *)
Lemma turn_decreases (s s' : Ex) : Bounded → inv s → currently_polling s = None → turn poll drop_fut key_order s = (s', true) →
  budget s' < budget s ∨ budget s' = budget s ∧ backlog s' < backlog s.
Proof.
  intros Hb Hi Hp Ht. unfold turn in Ht. destruct (drain_woken_budget s) as [Eb El]. destruct (drain_woken_inv s Hi) as [Hd _].
  destruct (drain_woken_fields s) as [Hpd _]. destruct (run_queue (drain_woken s)) as [|id q] eqn:Eq; [done|]. injection Ht as <-.
  set (s1 := set_run_queue q (drain_woken s)).
  destruct (poll_task_budget id s1 Hb) as [H|[-> |(t & Et & Ef)]].
  - left. by rewrite <- Eb.
  - right. split; [by rewrite <- Eb|]. rewrite <- El. unfold backlog. simpl. rewrite Eq. simpl. lia.
  - exfalso. destruct (i_entry _ Hd id t Et) as (js & _ & Hm). rewrite Hpd in Hm.
    destruct (state t); try done; destruct Hm as (_ & H1 & H2); try (destruct H1 as [f Hf]); congruence.
Qed.

Lemma loop_terminates : Bounded → ∀ s : Ex, inv s → currently_polling s = None → ∃ fuel s', loop poll drop_fut key_order fuel s = Some s'.
Proof.
  intros Hb s. remember (budget s) as n eqn:En. revert s En. induction n as [n IHn] using lt_wf_ind. intros s En.
  remember (backlog s) as l eqn:El. revert s En El. induction l as [l IHl] using lt_wf_ind. intros s En El Hi Hp.
  pose proof (turn_inv poll drop_fut key_order s Hi Hp) as Ht. destruct (turn poll drop_fut key_order s) as [s1 [|]] eqn:E.
  - destruct Ht as (Hi1 & _ & Hp1 & _). destruct (turn_decreases s s1 Hb Hi Hp E) as [Hlt|[Heq Hlt]].
    + destruct (IHn (budget s1) ltac:(lia) s1 eq_refl Hi1 Hp1) as (fuel & s' & H). exists (S fuel), s'. simpl. by rewrite E.
    + destruct (IHl (backlog s1) ltac:(lia) s1 ltac:(lia) eq_refl Hi1 Hp1) as (fuel & s' & H). exists (S fuel), s'. simpl. by rewrite E.
  - exists 1, s1. simpl. by rewrite E.
Qed.

(** More fuel changes nothing. *)
Lemma loop_mono n m (s s' : Ex) : n ≤ m → loop poll drop_fut key_order n s = Some s' → loop poll drop_fut key_order m s = Some s'.
Proof.
  revert m s. induction n as [|n IH]; intros m s Hm; [done|]. destruct m as [|m]; [lia|]. simpl.
  destruct (turn poll drop_fut key_order s) as [s1 [|]]; [|done]. apply IH. lia.
Qed.

Lemma run_mono n m (s s' : Ex) : n ≤ m →
  run_until_idle poll drop_fut key_order n s = Some s' → run_until_idle poll drop_fut key_order m s = Some s'.
Proof.
  intros Hm. unfold run_until_idle. destruct (running s); [done|].
  destruct (loop poll drop_fut key_order n _) as [s1|] eqn:E; [|done]. by rewrite (loop_mono n m _ _ Hm E).
Qed.

Lemma run_terminates (s : Ex) : Bounded → idle s → ∃ fuel s', run_until_idle poll drop_fut key_order fuel s = Some s' ∧ idle s'.
Proof.
  intros Hb [Hi Hp]. assert (∃ fuel s', run_until_idle poll drop_fut key_order fuel s = Some s') as (fuel & s' & H).
  { unfold run_until_idle. destruct (running s); [by exists 0, s|].
    destruct (loop_terminates Hb (set_running true s)) as (fuel & s' & H); [by apply (core_ok s)|done|].
    exists fuel, (set_running false s'). by rewrite H. }
  exists fuel, s'. split; [done|]. exact (proj1 (step_idle poll drop_fut key_order s s' (st_run _ _ _ fuel s s' H) (conj Hi Hp))).
Qed.

(** C8: the executor comes to rest: when every future has a budget that pays for
    its own polls and for what it spawns, [run_until_idle] returns from every
    state the executor reaches, with nothing queued or woken and every live task
    suspended; spurious wake-ups, cancellations and panics only bring the end
    closer. *)
Theorem run_until_idle_terminates w (s : Ex) :
  Bounded → rtc (step poll drop_fut key_order) (init w) s → running s = false →
  ∃ fuel s', run_until_idle poll drop_fut key_order fuel s = Some s' ∧ run_queue s' = [] ∧ woken s' = [] ∧
    ∀ id t, tasks s' !! id = Some t → state t = Pending_.
Proof.
  intros Hb Hr Hrun. pose proof (reachable_idle poll drop_fut key_order w s Hr) as Hid.
  destruct (run_terminates s Hb Hid) as (fuel & s' & H & Hid'). exists fuel, s'. split; [done|].
  unfold run_until_idle in H. rewrite Hrun in H. destruct (loop poll drop_fut key_order fuel (set_running true s)) as [s1|] eqn:Hl; [|done].
  injection H as <-. destruct Hid as [Hi Hp].
  destruct (loop_inv poll drop_fut key_order fuel _ s1 (proj1 (core_ok s (set_running true s) Hi ltac:(done))) Hp Hl) as (Hi1 & _ & Hp1 & Hq & Hw).
  split_and!; [done|done|]. intros id t Ht. simpl in Ht. destruct (i_entry _ Hi1 id t Ht) as (js & _ & Hm). rewrite Hq, Hp1 in Hm.
  destruct (state t); try done; [by destruct Hm as [?%not_elem_of_nil _]|by destruct Hm as (_ & _ & ?)].
Qed.

(** ** [block_on] *)

Definition MAX_ROUNDS : nat := N.to_nat 10000.

Inductive MainPoll := MReady (v : V) | MPending (f : Fut) | MPanic (m : string).

(** One poll of the future driven by hand: it is no task, and its waker (0) is
    nobody's.  Outside a drain a nested [run_until_idle] really runs. *)
Fixpoint run_main (fuel : nat) (p : P) (s : Ex) : option (Ex * MainPoll) :=
  match p with
  | PGet k => run_main fuel (k (world s)) s
  | PSet w k => run_main fuel k (set_world w s)
  | PWake id k => run_main fuel k (wake id s)
  | PSpawn f n k => let '(s', id) := spawn_named f n s in run_main fuel (k id) s'
  | PCancel id k => run_main fuel k (cancel drop_fut id s)
  | PCancelAfter w k => run_main fuel k (cancel_after drop_fut key_order w s)
  | PWatermark k => run_main fuel (k (watermark s)) s
  | PState id k => run_main fuel (k (handle_state id s)) s
  | PResult id k => let '(s', r) := handle_result id s in run_main fuel (k r) s'
  | PJoin id k => let '(s', r) := handle_poll id 0 s in run_main fuel (k r) s'
  | PRunIdle k => match run_until_idle poll drop_fut key_order fuel s with Some s' => run_main fuel k s' | None => None end
  | PReported k => run_main fuel (k (reported s)) s
  | PReady v => Some (s, MReady v)
  | PPending f => Some (s, MPending f)
  | PPanic m => Some (s, MPanic m)
  end.

(** What the loop of rounds comes to; [None] is a drain that does not return. *)
Inductive Driven := Finished_ (v : V) | Panicked_ (m : string) | StillPending.
Fixpoint drive (fuel rounds : nat) (f : Fut) (s : Ex) : option Driven :=
  match rounds with
  | 0 => Some StillPending
  | S n =>
      match run_main fuel (poll f 0) s with
      | None => None
      | Some (_, MReady v) => Some (Finished_ v)
      | Some (_, MPanic m) => Some (Panicked_ m)
      | Some (s', MPending f') =>
          match run_until_idle poll drop_fut key_order fuel s' with Some s'' => drive fuel n f' s'' | None => None end
      end
  end.

Definition block_on (fuel : nat) (f : Fut) (w : World) : option (Exec V) :=
  match drive fuel MAX_ROUNDS f (init w) with
  | None => None
  | Some (Finished_ v) => Some (Done v)
  | Some (Panicked_ m) => Some (Panic m)
  | Some StillPending => Some (Panic ("block_on: the future is still pending after 10000 rounds." +:+ nl +:+
      "Either it deadlocked, or it awaited simulated time — `Timer`, a clock " +:+
      "edge, `ReadOnly`/`ReadWrite`, or anything that touches a signal. Those " +:+
      "need a real simulator: write the test as a `sim-*` case under " +:+
      "output/regression/tests/ instead."))
  end.

Definition assert_pending (fuel : nat) (f : Fut) (w : World) : option (Exec unit) :=
  match drive fuel 64 f (init w) with
  | None => None
  | Some (Finished_ _) => Some (Panic "assert_pending: the future completed, but the test expected it to wait")
  | Some (Panicked_ m) => Some (Panic m)
  | Some StillPending => Some (Done tt)
  end.

(** *** Driving a future with a budget *)

Lemma idle_ok (s s' : Ex) : ok s s' → idle s → idle s'.
Proof. intros (? & _ & E & _) [_ Hp]. split; [done|congruence]. Qed.

Lemma run_main_mono n m p : n ≤ m → ∀ (s : Ex) r, run_main n p s = Some r → run_main m p s = Some r.
Proof.
  intros Hm. induction p as [k IH|w k IH|id k IH|f nm k IH|id k IH|wm k IH|k IH|id k IH|id k IH|id k IH|k IH|k IH|v|f|msg]; intros s r; simpl; auto.
  - by destruct (handle_result id s); apply IH.
  - by destruct (handle_poll id 0 s); apply IH.
  - destruct (run_until_idle poll drop_fut key_order n s) as [s1|] eqn:E; [|done]. rewrite (run_mono n m s s1 Hm E). apply IH.
Qed.

Lemma run_main_ends p : Bounded → ∀ b (s : Ex), within b p → idle s →
  ∃ fuel s' r, run_main fuel p s = Some (s', r) ∧ idle s' ∧ ∀ f, r = MPending f → S (rank f) ≤ b.
Proof.
  intros Hb. induction p as [k IH|w k IH|id k IH|f nm k IH|id k IH|wm k IH|k IH|id k IH|id k IH|id k IH|k IH|k IH|v|f|msg];
    intros b s Hw Hid; simpl in *.
  - by apply IH.
  - apply IH; [done|]. eapply idle_ok; [|exact Hid]. by apply core_ok; [apply Hid|].
  - apply IH; [done|]. eapply idle_ok; [|exact Hid]. by apply core_ok; [apply Hid|].
  - destruct Hw as [Hle Hw]. destruct (IH (next_id s) _ (fst (spawn_named f nm s)) (Hw _)) as (fuel & s' & r & H1 & H2 & H3).
    { eapply idle_ok; [apply (spawn_ok poll drop_fut key_order), Hid|exact Hid]. }
    exists fuel, s', r. split_and!; [done|done|]. intros f' Hf. specialize (H3 f' Hf). lia.
  - apply IH; [done|]. eapply idle_ok; [|exact Hid]. by apply (cancel_ok drop_fut key_order), Hid.
  - apply IH; [done|]. eapply idle_ok; [|exact Hid]. apply cancel_after_ok, Hid.
  - by apply IH.
  - by apply IH.
  - pose proof (handle_result_ok id s (proj1 Hid)) as Hok. destruct (handle_result id s) as [s1 r1].
    apply IH; [done|]. by eapply idle_ok.
  - pose proof (handle_poll_ok id 0 s (proj1 Hid)) as Hok. destruct (handle_poll id 0 s) as [s1 r1].
    apply IH; [done|]. by eapply idle_ok.
  - destruct (run_terminates s Hb Hid) as (f1 & s1 & E1 & Hid1). destruct (IH b s1 Hw Hid1) as (f2 & s2 & r & E2 & H2 & H3).
    exists (f1 `max` f2), s2, r. split_and!; [|done|done]. rewrite (run_mono f1 (f1 `max` f2) s s1 ltac:(lia) E1).
    by apply (run_main_mono f2); [lia|].
  - by apply IH.
  - exists 0, s, (MReady v). by split_and!.
  - exists 0, s, (MPending f). split_and!; [done|done|]. intros f' Hf. by injection Hf as <-.
  - exists 0, s, (MPanic msg). by split_and!.
Qed.

Lemma drive_mono n m k : n ≤ m → ∀ f s r, drive n k f s = Some r → drive m k f s = Some r.
Proof.
  intros Hm. induction k as [|k IH]; intros f s r; simpl; [done|].
  destruct (run_main n (poll f 0) s) as [[s1 o]|] eqn:E; [|done]. rewrite (run_main_mono n m _ Hm s _ E).
  destruct o as [v|f'|msg]; try done. destruct (run_until_idle poll drop_fut key_order n s1) as [s2|] eqn:E2; [|done].
  rewrite (run_mono n m s1 s2 Hm E2). apply IH.
Qed.

Lemma drive_ends : Bounded → ∀ rounds f (s : Ex), idle s →
  ∃ fuel r, drive fuel rounds f s = Some r ∧ (rank f < rounds → r ≠ StillPending).
Proof.
  intros Hb. induction rounds as [|n IH]; intros f s Hid; [exists 0, StillPending; split; [done|lia]|].
  destruct (run_main_ends (poll f 0) Hb (rank f) s (Hb f 0) Hid) as (f1 & s1 & r1 & E1 & Hid1 & Hrank).
  destruct r1 as [v|f'|msg].
  - exists f1, (Finished_ v). simpl. by rewrite E1.
  - destruct (run_terminates s1 Hb Hid1) as (f2 & s2 & E2 & Hid2). destruct (IH f' s2 Hid2) as (f3 & r & E3 & Hr).
    set (fm := f1 `max` f2 `max` f3). assert (f1 ≤ fm ∧ f2 ≤ fm ∧ f3 ≤ fm) as (L1 & L2 & L3) by lia.
    exists fm, r. simpl. rewrite (run_main_mono f1 fm _ L1 s _ E1), (run_mono f2 fm s1 s2 L2 E2). split; [by apply (drive_mono f3 fm _ L3)|].
    intros Hlt. apply Hr. specialize (Hrank f' eq_refl). lia.
  - exists f1, (Panicked_ msg). simpl. by rewrite E1.
Qed.

(** Driving a future in a unit test always ends, provided every future has a
    budget: [block_on] answers, and with a future that needs at most its number
    of rounds it answers what the future ends with, never that it is stuck;
    [assert_pending] never accepts a future that ends within its 64 rounds. *)
Theorem block_on_returns f w :
  Bounded →
  (∃ fuel r, block_on fuel f w = Some r ∧
     (rank f < MAX_ROUNDS →
        (∃ v, drive fuel MAX_ROUNDS f (init w) = Some (Finished_ v) ∧ r = Done v) ∨
        (∃ m, drive fuel MAX_ROUNDS f (init w) = Some (Panicked_ m) ∧ r = Panic m))) ∧
  (∃ fuel r, assert_pending fuel f w = Some r ∧ (rank f < 64 → r ≠ Done tt)).
Proof.
  intros Hb. assert (idle (init w : Ex)) as Hid by (split; [apply init_inv|done]). split.
  - destruct (drive_ends Hb MAX_ROUNDS f (init w) Hid) as (fuel & d & E & Hd). exists fuel. unfold block_on. rewrite E.
    destruct d as [v|m|]; (eexists; split; [done|]); intros Hlt; [left; by exists v|right; by exists m|].
    by destruct (Hd Hlt).
  - destruct (drive_ends Hb 64 f (init w) Hid) as (fuel & d & E & Hd). exists fuel. unfold assert_pending. rewrite E.
    destruct d as [v|m|]; (eexists; split; [done|]); try done. intros Hlt. by destruct (Hd Hlt).
Qed.

End Term.
End Testing.

Module TestingWitnesses.
Import Executor Testing.

(** A future that yields [n] times: it wakes itself and suspends. *)
Definition ypoll (f : nat) (me : TaskId) : Prog nat unit nat :=
  match f with 0 => PReady 7 | S n => PWake me (PPending n) end.
Definition yrank (f : nat) : nat := f.
Definition ydrop (f : nat) (w : unit) : unit * list TaskId := (w, []).
Definition yorder (l : list TaskId) : list TaskId := l.
Lemma ybounded : Bounded (World := unit) (V := nat) ypoll yrank.
Proof. intros [|n] cx; simpl; [done|]. unfold yrank. lia. Qed.

Definition yqueued : ExecInner nat unit nat := fst (spawn_named 3 None (init tt)).
Lemma yqueued_reachable : rtc (step ypoll ydrop yorder) (init tt) yqueued.
Proof. eapply rtc_l; [apply (st_spawn _ _ _ 3 None)|apply rtc_refl]. Qed.

Lemma run_until_idle_terminates_witness :
  ∃ fuel s', run_until_idle ypoll ydrop yorder fuel yqueued = Some s' ∧ woken s' = [].
Proof.
  destruct (run_until_idle_terminates ypoll ydrop yorder yrank tt yqueued ybounded yqueued_reachable eq_refl)
    as (fuel & s' & H & _ & Hw & _). exists fuel, s'. split; [exact H|exact Hw].
Defined.

Lemma block_on_returns_witness :
  ∃ fuel r, assert_pending ypoll ydrop yorder fuel 5 tt = Some r ∧ r ≠ Done tt.
Proof.
  destruct (block_on_returns ypoll ydrop yorder yrank 5 tt ybounded) as [_ (fuel & r & H & Hr)].
  exists fuel, r. split; [exact H|]. apply Hr. unfold yrank. lia.
Defined.

(** A future that yields 64 times is taken to wait, although polled once more it
    would complete and nothing else has to happen. *)
Lemma assert_pending_accepts_yielding :
  assert_pending ypoll ydrop yorder 2 64 tt = Some (Done tt) ∧
  drive ypoll ydrop yorder 2 65 64 (init tt) = Some (Finished_ 7).
Proof. by vm_compute. Qed.

End TestingWitnesses.
