(* ===== verification/Trace.v ===== *)
(** * Trace: runtime waveform capture through the simulator's trace host
    (rustdv-sim/src/simulator_trace.rs).

    The host is foreign code: the symbols the process exports ([lookup]) and
    what its control function does to its own state, the status block and the
    error buffer it is handed ([trace_control]).  [calls] records every call the
    library makes of it.  A host that reports an error writes text; what the
    caller sees of it is [String::from_utf8_lossy], which replaces each maximal
    malformed piece by U+FFFD. *)
From stdpp Require Import pretty.
From S2P Require Import Prelude PhaseHub.
Open Scope rustdv_scope.
Open Scope Z_scope.

Module Utf8.

Definition byte (c : Ascii.ascii) : Z := Z.of_N (Ascii.N_of_ascii c).

(** What may follow a lead byte: the range of each continuation byte. *)
Definition tail_byte : Z * Z := (128, 191).
Definition ranges (n : Z) : option (list (Z * Z)) :=
  if n <? 128 then Some []
  else if (194 <=? n) && (n <=? 223) then Some [tail_byte]
  else if n =? 224 then Some [(160, 191); tail_byte]
  else if n =? 237 then Some [(128, 159); tail_byte]
  else if (225 <=? n) && (n <=? 239) then Some [tail_byte; tail_byte]
  else if n =? 240 then Some [(144, 191); tail_byte; tail_byte]
  else if (241 <=? n) && (n <=? 243) then Some [tail_byte; tail_byte; tail_byte]
  else if n =? 244 then Some [(128, 143); tail_byte; tail_byte]
  else None.

(** How many bytes of [l] are in the ranges, one after the other. *)
Fixpoint matched (rs : list (Z * Z)) (l : list Ascii.ascii) : nat :=
  match rs, l with
  | (lo, hi) :: rs, c :: l => if (lo <=? byte c) && (byte c <=? hi) then S (matched rs l) else O
  | _, _ => O
  end.

(** The first chunk: how many bytes, and whether they are one character. *)
Definition chunk (l : list Ascii.ascii) : nat * bool :=
  match l with
  | [] => (O, true)
  | c :: l' => match ranges (byte c) with
      | None => (1%nat, false)
      | Some rs => (S (matched rs l'), Nat.eqb (matched rs l') (length rs))
      end
  end.

Definition replacement : list Ascii.ascii := map Ascii.ascii_of_nat [239; 191; 189]%nat.
Fixpoint lossy_go (fuel : nat) (l : list Ascii.ascii) : list Ascii.ascii :=
  match fuel, l with
  | S k, _ :: _ => let '(n, good) := chunk l in (if good then take n l else replacement) ++ lossy_go k (drop n l)
  | _, _ => []
  end.
Definition from_utf8_lossy (l : list Ascii.ascii) : list Ascii.ascii := lossy_go (length l) l.

(** Well-formed text: characters one after the other. *)
Inductive utf8 : list Ascii.ascii → Prop :=
| utf8_nil : utf8 []
| utf8_char c l : c ≠ [] → chunk c = (length c, true) → utf8 l → utf8 (c ++ l).

Lemma matched_le rs l : (matched rs l ≤ length l)%nat.
Proof. revert l. induction rs as [|[lo hi] rs IH]; intros [|c l]; simpl; try lia. destruct (_ && _); [specialize (IH l)|]; lia. Qed.

Lemma matched_app rs l r : matched rs l = length rs → matched rs (l ++ r) = length rs.
Proof. revert l. induction rs as [|[lo hi] rs IH]; intros [|c l]; simpl; try done. destruct (_ && _); [|done]. intros [=H]. by rewrite IH. Qed.

Lemma matched_take rs l : matched rs l = length rs → matched rs (take (length rs) l) = length rs.
Proof. revert l. induction rs as [|[lo hi] rs IH]; intros [|c l]; simpl; try done. destruct (_ && _); [|done]. intros [=H]. by rewrite IH. Qed.

Lemma chunk_app c l : c ≠ [] → chunk c = (length c, true) → chunk (c ++ l) = (length c, true).
Proof.
  destruct c as [|b c]; [done|]. intros _. simpl. destruct (ranges (byte b)) as [rs|]; [|by intros [=]].
  intros [=Hn Hb%Nat.eqb_eq]. rewrite (matched_app rs c l Hb), Nat.eqb_refl. f_equal. lia.
Qed.

Lemma chunk_take l n : l ≠ [] → chunk l = (n, true) → take n l ≠ [] ∧ chunk (take n l) = (length (take n l), true).
Proof.
  destruct l as [|b l]; [done|]. intros _. simpl. destruct (ranges (byte b)) as [rs|] eqn:Er; [|by intros [=]].
  intros [=<- Hb%Nat.eqb_eq]. pose proof (matched_le rs l). split; [done|]. cbn [chunk take length]. rewrite Er, Hb.
  rewrite (matched_take rs l Hb), Nat.eqb_refl, length_take. f_equal. lia.
Qed.

Lemma chunk_pos l : l ≠ [] → (1 ≤ fst (chunk l) ≤ length l)%nat.
Proof.
  destruct l as [|b l]; [done|]. intros _. simpl. destruct (ranges (byte b)) as [rs|]; simpl; [pose proof (matched_le rs l)|]; lia.
Qed.

(** Enough fuel is the length. *)
Lemma lossy_go_fuel k l : (length l ≤ k)%nat → lossy_go k l = from_utf8_lossy l.
Proof.
  unfold from_utf8_lossy. revert l. induction k as [k IH] using lt_wf_ind. intros l Hk.
  destruct l as [|b l]; [by destruct k|]. destruct k as [|k]; [simpl in Hk; lia|]. cbn [lossy_go length].
  pose proof (chunk_pos (b :: l) ltac:(done)) as Hc. destruct (chunk (b :: l)) as [n g]. simpl in Hc. f_equal.
  assert (length (drop n (b :: l)) ≤ length l)%nat as Hd by (rewrite length_drop; simpl; lia). simpl in Hk.
  destruct (decide (k = length l)) as [-> |Hne]; [done|].
  rewrite (IH k) by lia. symmetry. apply IH; lia.
Qed.

Lemma lossy_chunk l : l ≠ [] →
  from_utf8_lossy l = (if snd (chunk l) then take (fst (chunk l)) l else replacement) ++ from_utf8_lossy (drop (fst (chunk l)) l).
Proof.
  intros Hl. pose proof (chunk_pos l Hl) as Hc. unfold from_utf8_lossy at 1. destruct l as [|b l]; [done|]. cbn [lossy_go length].
  destruct (chunk (b :: l)) as [n g]. simpl in Hc. cbn [fst snd]. f_equal. apply lossy_go_fuel. rewrite length_drop. simpl. lia.
Qed.

(** Well-formed text is kept, and what comes out is always well-formed. *)
Lemma lossy_id l : utf8 l → from_utf8_lossy l = l.
Proof.
  induction 1 as [|c l Hc Hk _ IH]; [done|]. rewrite lossy_chunk by (by destruct c). rewrite chunk_app by done. cbn [fst snd].
  by rewrite take_app_length, drop_app_length, IH.
Qed.

Lemma lossy_utf8 l : utf8 (from_utf8_lossy l).
Proof.
  remember (length l) as n eqn:En. revert l En. induction n as [n IH] using lt_wf_ind. intros l ->.
  destruct (decide (l = [])) as [-> |Hl]; [constructor|]. rewrite lossy_chunk by done. pose proof (chunk_pos l Hl) as Hc.
  assert (utf8 (from_utf8_lossy (drop (fst (chunk l)) l))) as Hrest by (eapply IH; [|done]; rewrite length_drop; lia).
  destruct (chunk l) as [n [|]] eqn:E; cbn [fst snd] in *; [|by constructor].
  destruct (chunk_take l n Hl E). by constructor.
Qed.

Lemma lossy_nonempty l : from_utf8_lossy l = [] → l = [].
Proof.
  intros H. destruct (decide (l = [])) as [|Hl]; [done|]. rewrite lossy_chunk in H by done. apply app_eq_nil in H as [H _].
  pose proof (chunk_pos l Hl). destruct (chunk l) as [n [|]]; [|done]. cbn [fst snd] in *. destruct l as [|b l]; [done|].
  by destruct n; [lia|].
Qed.

End Utf8.

Module Trace.
Import Utf8.

Definition ABI_VERSION : Z := 1.
Definition COMMAND_STATUS : Z := 0.
Definition COMMAND_START : Z := 1.
Definition COMMAND_STOP : Z := 2.
Definition COMMAND_FLUSH : Z := 3.
Definition ERROR_CAPACITY : nat := 512.

Record RawTraceStatus := {
  abi_version : Z; capability : Z; raw_state : Z; reserved : Z;
  raw_start_time_steps : Z; raw_end_time_steps : Z; raw_dump_count : Z;
}.
Definition raw_default : RawTraceStatus := Build_RawTraceStatus 0 0 0 0 0 0 0.

Inductive TraceFormat := Fst | Other (n : Z).
Inductive TraceState := TUnavailable | TIdle | TActive.
Record TraceStatus := { state : TraceState; start_time_steps : Z; end_time_steps : Z; dump_count : Z }.
Inductive TraceError := Unavailable (m : string) | InvalidPath (m : string) | WrongState (m : string) | Host (m : string).

(** [fmt::Display for TraceError]. *)
Definition display (e : TraceError) : string :=
  match e with Unavailable m | InvalidPath m | WrongState m | Host m => m end.

Definition decode_status (raw : RawTraceStatus) : Result TraceStatus TraceError :=
  let status st := Ok (Build_TraceStatus st (raw_start_time_steps raw) (raw_end_time_steps raw) (raw_dump_count raw)) in
  if negb (abi_version raw =? ABI_VERSION) then
    Err (Host ("unsupported simulator trace ABI " +:+ pretty (abi_version raw) +:+ " (expected " +:+ pretty ABI_VERSION +:+ ")"))
  else if capability raw =? 0 then status TUnavailable
  else if (capability raw =? 1) && (raw_state raw =? 0) then status TIdle
  else if (capability raw =? 1) && (raw_state raw =? 1) then status TActive
  else Err (Host ("invalid simulator trace status capability=" +:+ pretty (capability raw) +:+ " state=" +:+ pretty (raw_state raw))).

(** The bytes before the first NUL, or the whole buffer. *)
Fixpoint until_nul (l : list Ascii.ascii) : list Ascii.ascii :=
  match l with [] => [] | c :: r => if decide (c = nul) then [] else c :: until_nul r end.
Definition error_message (buffer : list Ascii.ascii) : string :=
  match from_utf8_lossy (until_nul buffer) with
  | [] => "simulator trace host returned an unspecified error"
  | message => String.string_of_list_ascii message
  end.

Definition path_to_c_string (path : string) : Result string TraceError :=
  if has_nul path then Err (InvalidPath "trace path contains an interior NUL byte") else Ok path.

Section Control.
Context {A N F S : Type}.

(** The symbols of the process (functions by number), what a call of the control
    function does, and what the format probe answers. *)
Variable lookup : string → option nat.
Variable trace_control : nat → Z → option string → S → RawTraceStatus → list Ascii.ascii → S * Z * RawTraceStatus * list Ascii.ascii.
Variable trace_format : nat → Z.

Definition resolve_control : option nat :=
  match lookup "rustdv_simulator_trace_control" with
  | Some f => Some f
  | None => lookup "rustdv_verilator_trace_control"
  end.
Definition load_control : Result nat TraceError :=
  match resolve_control with
  | Some f => Ok f
  | None => Err (Unavailable "the current simulator host does not provide runtime waveform capture")
  end.
Definition host_present : bool := match load_control with Ok _ => true | Err _ => false end.
Definition host_format : option TraceFormat :=
  match lookup "rustdv_simulator_trace_format" with
  | Some probe => Some (let n := trace_format probe in if n =? 1 then Fst else Other n)
  | None => match lookup "rustdv_verilator_trace_control" with Some _ => Some Fst | None => None end
  end.

Record World := { host : S; calls : list (nat * Z * option string) }.
Definition current_phase_if_initialized (hub : option (@PhaseHub.Hub A N F)) : option PhaseHub.SimPhase := PhaseHub.phase <$> hub.

Definition control (hub : option PhaseHub.Hub) (command : Z) (path : option string) (w : World) : World * Result TraceStatus TraceError :=
  match load_control with
  | Err e => (w, Err e)
  | Ok f =>
      if decide (current_phase_if_initialized hub = Some PhaseHub.ReadOnly) then
        let '(h, result, raw, error) := trace_control f command path (host w) raw_default (replicate ERROR_CAPACITY nul) in
        ({| host := h; calls := calls w ++ [(f, command, path)] |},
         let message := error_message error in
         if result =? 0 then decode_status raw
         else if result =? 1 then Err (Unavailable message)
         else if result =? 3 then Err (InvalidPath message)
         else if result =? 4 then Err (WrongState message)
         else Err (Host message))
      else (w, Err (WrongState "simulator trace control must run on the simulator thread at settled ReadOnly"))
  end.

Definition status hub (w : World) := control hub COMMAND_STATUS None w.
Definition start hub (path : string) (w : World) :=
  match path_to_c_string path with
  | Err e => (w, Err e)
  | Ok p => control hub COMMAND_START (Some p) w
  end.
Definition flush hub (w : World) := control hub COMMAND_FLUSH None w.
Definition stop hub (w : World) := control hub COMMAND_STOP None w.

(** The four operations. *)
Inductive TraceOp := OStatus | OStart (path : string) | OFlush | OStop.
Definition exec hub (o : TraceOp) (w : World) : World * Result TraceStatus TraceError :=
  match o with OStatus => status hub w | OStart p => start hub p w | OFlush => flush hub w | OStop => stop hub w end.
Definition command (o : TraceOp) : Z :=
  match o with OStatus => COMMAND_STATUS | OStart _ => COMMAND_START | OFlush => COMMAND_FLUSH | OStop => COMMAND_STOP end.
Definition op_path (o : TraceOp) : option string := match o with OStart p => Some p | _ => None end.
Definition bad_path (o : TraceOp) : bool := match op_path o with Some p => has_nul p | None => false end.

(** *** What the host's answer means *)

(** A status block the library can read. *)
Definition readable (raw : RawTraceStatus) : Prop :=
  abi_version raw = 1 ∧ (capability raw = 0 ∨ capability raw = 1 ∧ (raw_state raw = 0 ∨ raw_state raw = 1)).
Definition state_of (raw : RawTraceStatus) : TraceState :=
  if capability raw =? 0 then TUnavailable else if raw_state raw =? 0 then TIdle else TActive.

Lemma decode_spec raw :
  match decode_status raw with
  | Ok st => readable raw ∧ st = Build_TraceStatus (state_of raw) (raw_start_time_steps raw) (raw_end_time_steps raw) (raw_dump_count raw)
  | Err e => ¬ readable raw ∧ ∃ m, e = Host m
  end.
Proof.
  unfold decode_status, readable, state_of, ABI_VERSION.
  repeat (case_match; destruct_and?; simplify_eq); try (split; [lia|by eexists]); (split; [lia|]); repeat f_equal; try lia;
    repeat case_match; try done; lia.
Qed.

Lemma message_nonempty buf : error_message buf ≠ EmptyString.
Proof. unfold error_message. by destruct (from_utf8_lossy _) as [|c l]. Qed.

(** The host's text comes through unchanged when it is text at all. *)
Lemma until_nul_text m r : nul ∉ m → until_nul (m ++ nul :: r) = m.
Proof. induction m as [|c m IH]; simpl; [done|]. intros [? ?]%not_elem_of_cons. rewrite decide_False by done. by rewrite IH. Qed.

Lemma message_verbatim m r : utf8 m → m ≠ [] → nul ∉ m → error_message (m ++ nul :: r) = String.string_of_list_ascii m.
Proof. intros Hu Hm Hn. unfold error_message. rewrite until_nul_text, lossy_id by done. by destruct m. Qed.

Lemma exec_control hub o w : bad_path o = false → exec hub o w = control hub (command o) (op_path o) w.
Proof. destruct o as [|p| |]; try done. intros Hb. unfold exec, start, path_to_c_string. unfold bad_path in Hb. simpl in Hb. by rewrite Hb. Qed.

(** What a host error comes to. *)
Definition host_error (code : Z) (e : TraceError) (m : string) : Prop :=
  (code = 1 ∧ e = Unavailable m) ∨ (code = 3 ∧ e = InvalidPath m) ∨ (code = 4 ∧ e = WrongState m) ∨
  (code ∉ [0; 1; 3; 4] ∧ e = Host m).


End Control.
End Trace.

Module TraceWitnesses.
Import Trace.

(** A host that captures: idle or active, refusing what does not fit its state
    with a text in the buffer. *)
Definition wtext : list Ascii.ascii := String.list_ascii_of_string "not in this state".
Definition wblock (active : bool) : RawTraceStatus := Build_RawTraceStatus 1 1 (if active then 1 else 0) 0 5 9 3.
Definition whost (f : nat) (command : Z) (path : option string) (active : bool) (raw : RawTraceStatus) (buf : list Ascii.ascii) :
    bool * Z * RawTraceStatus * list Ascii.ascii :=
  let refuse := (active, 4, raw, wtext ++ nul :: drop 18 buf) in
  let accept b := (b, 0, wblock b, buf) in
  if command =? COMMAND_START then if active then refuse else accept true
  else if command =? COMMAND_STOP then if active then accept false else refuse
  else accept active.
Definition wlookup (n : string) : option nat := if decide (n = "rustdv_verilator_trace_control") then Some 7%nat else None.
Definition whub (p : PhaseHub.SimPhase) : option (@PhaseHub.Hub unit unit unit) := Some (PhaseHub.set_phase p PhaseHub.init_hub).

Example capture_session :
  let w0 := {| host := false; calls := [] |} in
  let ro := whub PhaseHub.ReadOnly in
  let '(w1, r1) := exec wlookup whost ro (OStart "dump.fst") w0 in
  let '(w2, r2) := exec wlookup whost ro (OStart "dump.fst") w1 in
  let '(w3, r3) := exec wlookup whost (whub PhaseHub.Normal) OStop w2 in
  let '(w4, r4) := exec wlookup whost ro OStop w3 in
  r1 = Ok (Build_TraceStatus TActive 5 9 3) ∧ r2 = Err (WrongState "not in this state") ∧
  (∃ m, r3 = Err (WrongState m)) ∧ w3 = w2 ∧ r4 = Ok (Build_TraceStatus TIdle 5 9 3) ∧
  calls w4 = [(7%nat, 1, Some "dump.fst"%string); (7%nat, 1, Some "dump.fst"%string); (7%nat, 2, None)] ∧
  host_format wlookup (λ _, 1) = Some Fst.
Proof. vm_compute. split_and!; try reflexivity. by eexists. Qed.

(** A malformed text is made readable, never dropped. *)
Example malformed_text :
  error_message (map Ascii.ascii_of_nat [104; 195; 40; 240; 159; 0; 120]%nat) =
    String.string_of_list_ascii (map Ascii.ascii_of_nat [104; 239; 191; 189; 40; 239; 191; 189]%nat).
Proof. reflexivity. Qed.

End TraceWitnesses.
