(* ===== verification/Macros.v ===== *)
(** * Macros: the attribute [#[rustdv::test]] and [#[derive(Component)]]
    (rustdv-macros/src/rustdv_macros.rs).

    What syn parses is data here: token lists for attribute arguments, and the
    item a macro is applied to.  Parsing an expression is syn's business, the
    class [SynExpr] with what the code relies on.  What quote generates is data
    too: the registration of a test, and for a component the statements of each
    generated method in order, which [Generated] runs on a struct value.  The
    derive theorem says that the generated methods are the ones [Factory] and
    [Port] define on component nodes. *)
From S2P Require Import Prelude Words Path Config Factory Component Queue Tlm Runner.
Open Scope rustdv_scope.

Module Macros.

Inductive Lit := LStr (s : string) | LInt (n : Z) | LBool (b : bool) | LOther.
Inductive Expr := ELit (l : Lit) | EOther.
Inductive Tok := TIdent (s : string) | TEq | TComma | TLit (l : Lit) | TPunct (s : string).

(** A syntax error of syn, or one of the macro's own messages. *)
Inductive SynError := Syntax | Custom (m : string).

(** [input.parse::<Expr>()]. *)
Class SynExpr := parse_expr : list Tok → option (Expr * list Tok).
Class SynExprLaws `{SynExpr} := {
  parse_expr_front ts e r : parse_expr ts = Some (e, r) → ∃ used, ts = used ++ r;
  parse_expr_literal l r : head r = None ∨ head r = Some TComma → parse_expr (TLit l :: r) = Some (ELit l, r);
}.

(** ** Options *)

Record TestOpts := {
  o_name : option string; timeout_time : option Z; timeout_unit : option string;
  o_skip : bool; o_expect_fail : bool; o_expect_error : option string;
}.
Definition opts_default : TestOpts := Build_TestOpts None None None false false None.

Definition literal (key : string) (value : option Expr) : Result Lit SynError :=
  match value with
  | Some (ELit lit) => Ok lit
  | Some EOther => Err (Custom (key +:+ " requires a literal value"))
  | None => Err (Custom (key +:+ " requires a value"))
  end.
Definition string_value (key : string) (value : option Expr) : Result string SynError :=
  lit <-? literal key value ;;
  match lit with LStr s => Ok s | _ => Err (Custom (key +:+ " requires a string literal")) end.
(** [base10_parse::<u64>] refuses what does not fit. *)
Definition integer_value (key : string) (value : option Expr) : Result Z SynError :=
  lit <-? literal key value ;;
  match lit with
  | LInt n => if bool_decide (fits 64 n) then Ok n else Err Syntax
  | _ => Err (Custom (key +:+ " requires an integer literal"))
  end.
Definition flag_value (key : string) (value : option Expr) : Result bool SynError :=
  match value with
  | None => Ok true
  | Some v =>
      lit <-? literal key (Some v) ;;
      match lit with LBool b => Ok b | _ => Err (Custom (key +:+ " requires true or false")) end
  end.

Definition set_option (key : string) (value : option Expr) (o : TestOpts) : Result TestOpts SynError :=
  if decide (key = "name")%string then
    v <-? string_value key value ;; Ok (Build_TestOpts (Some v) (timeout_time o) (timeout_unit o) (o_skip o) (o_expect_fail o) (o_expect_error o))
  else if decide (key = "timeout_time")%string then
    v <-? integer_value key value ;; Ok (Build_TestOpts (o_name o) (Some v) (timeout_unit o) (o_skip o) (o_expect_fail o) (o_expect_error o))
  else if decide (key = "timeout_unit")%string then
    v <-? string_value key value ;; Ok (Build_TestOpts (o_name o) (timeout_time o) (Some v) (o_skip o) (o_expect_fail o) (o_expect_error o))
  else if decide (key = "skip")%string then
    v <-? flag_value key value ;; Ok (Build_TestOpts (o_name o) (timeout_time o) (timeout_unit o) v (o_expect_fail o) (o_expect_error o))
  else if decide (key = "expect_fail")%string then
    v <-? flag_value key value ;; Ok (Build_TestOpts (o_name o) (timeout_time o) (timeout_unit o) (o_skip o) v (o_expect_error o))
  else if decide (key = "expect_error")%string then
    v <-? string_value key value ;; Ok (Build_TestOpts (o_name o) (timeout_time o) (timeout_unit o) (o_skip o) (o_expect_fail o) (Some v))
  else Err (Custom "unknown #[rustdv::test] option").

(** [if input.peek(Token![=]) { .. }]. *)
Definition parse_value `{SynExpr} (ts : list Tok) : Result (option Expr * list Tok) SynError :=
  match ts with
  | TEq :: r => match parse_expr r with Some (e, r') => Ok (Some e, r') | None => Err Syntax end
  | _ => Ok (None, ts)
  end.

(** [while !input.is_empty()]; [None] is out of fuel. *)
Fixpoint parse_opts_loop `{SynExpr} (fuel : nat) (ts : list Tok) (o : TestOpts) : option (Result TestOpts SynError) :=
  match fuel with
  | 0 => None
  | S k =>
      match ts with
      | [] => Some (Ok o)
      | TIdent key :: r =>
          match (vr <-? parse_value r ;; o' <-? set_option key vr.1 o ;; Ok (o', vr.2)) with
          | Err e => Some (Err e)
          | Ok (o', []) => Some (Ok o')
          | Ok (o', TComma :: r') => parse_opts_loop k r' o'
          | Ok _ => Some (Err Syntax)
          end
      | _ => Some (Err Syntax)
      end
  end.
Definition parse_opts `{SynExpr} (ts : list Tok) : option (Result TestOpts SynError) :=
  parse_opts_loop (S (length ts)) ts opts_default.

(** ** The registration *)

Inductive TestForm := Function_ | Component_.
Inductive Item := IFn (ident : string) | IStruct (ident : string) | IType (ident : string) | IOther.
Definition form_of (it : Item) : Result (TestForm * string) SynError :=
  match it with
  | IFn n => Ok (Function_, n)
  | IStruct n | IType n => Ok (Component_, n)
  | IOther => Err (Custom "#[rustdv::test] must be applied to an async fn, a struct, or a type alias")
  end.

(** The parsed options, the item and where it stands give the registration and
    the body that is run. *)
Definition register (o : TestOpts) (form : TestForm) (item_name module_path file_ : string) (line_ : nat) :
    Runner.TestRegistration * TestForm :=
  ({| Runner.name := default item_name (o_name o); Runner.module_ := module_path; Runner.file := file_; Runner.line := line_;
      Runner.timeout := match timeout_time o with
                        | Some t => Some (t, default "ns"%string (timeout_unit o))
                        | None => None
                        end;
      Runner.skip := o_skip o; Runner.expect_fail := o_expect_fail o; Runner.expect_error := o_expect_error o |}, form).

Definition expand_test `{SynExpr} (attr : list Tok) (it : Item) (module_path file_ : string) (line_ : nat) :
    option (Result (Runner.TestRegistration * TestForm) SynError) :=
  match parse_opts attr with
  | None => None
  | Some (Err e) => Some (Err e)
  | Some (Ok o) => Some (fi <-? form_of it ;; Ok (register o fi.1 fi.2 module_path file_ line_))
  end.

(** *** What users write *)

Inductive Setting :=
| SName (s : string) | STime (n : Z) | SUnit (s : string) | SSkip (b : option bool) | SFail (b : option bool) | SError (s : string).
Definition flag_toks (b : option bool) : list Tok := match b with Some b => [TEq; TLit (LBool b)] | None => [] end.
Definition setting_toks (s : Setting) : list Tok :=
  match s with
  | SName n => [TIdent "name"; TEq; TLit (LStr n)]
  | STime n => [TIdent "timeout_time"; TEq; TLit (LInt n)]
  | SUnit u => [TIdent "timeout_unit"; TEq; TLit (LStr u)]
  | SSkip b => TIdent "skip" :: flag_toks b
  | SFail b => TIdent "expect_fail" :: flag_toks b
  | SError e => [TIdent "expect_error"; TEq; TLit (LStr e)]
  end.
(** Separated by commas, with a trailing one or not. *)
Fixpoint attr_toks (ss : list Setting) (trailing : bool) : list Tok :=
  match ss with
  | [] => []
  | [s] => setting_toks s ++ (if trailing then [TComma] else [])
  | s :: r => setting_toks s ++ TComma :: attr_toks r trailing
  end.
Definition apply_setting (o : TestOpts) (s : Setting) : TestOpts :=
  match s with
  | SName n => Build_TestOpts (Some n) (timeout_time o) (timeout_unit o) (o_skip o) (o_expect_fail o) (o_expect_error o)
  | STime n => Build_TestOpts (o_name o) (Some n) (timeout_unit o) (o_skip o) (o_expect_fail o) (o_expect_error o)
  | SUnit u => Build_TestOpts (o_name o) (timeout_time o) (Some u) (o_skip o) (o_expect_fail o) (o_expect_error o)
  | SSkip b => Build_TestOpts (o_name o) (timeout_time o) (timeout_unit o) (default true b) (o_expect_fail o) (o_expect_error o)
  | SFail b => Build_TestOpts (o_name o) (timeout_time o) (timeout_unit o) (o_skip o) (default true b) (o_expect_error o)
  | SError e => Build_TestOpts (o_name o) (timeout_time o) (timeout_unit o) (o_skip o) (o_expect_fail o) (Some e)
  end.
Definition setting_ok (s : Setting) : Prop := match s with STime n => fits 64 n | _ => True end.

Section Options.
Context `{SynExprLaws}.

(** One option, followed by the end or a comma. *)
Lemma parse_setting s k r o : setting_ok s → head r = None ∨ head r = Some TComma →
  parse_opts_loop (S k) (setting_toks s ++ r) o =
    match r with [] => Some (Ok (apply_setting o s)) | _ :: r' => parse_opts_loop k r' (apply_setting o s) end.
Proof.
  intros Hs Hr.
  assert (∀ l, parse_value (TEq :: TLit l :: r) = Ok (Some (ELit l), r)) as Hv
    by (intros l; simpl; by rewrite parse_expr_literal).
  assert (parse_value r = Ok (None, r)) as Hn by (destruct r as [|[] r]; simpl in *; naive_solver).
  assert (∀ o', match (Ok (o', r) : Result (TestOpts * list Tok) SynError) with
    | Err e => Some (Err e) | Ok (o'', []) => Some (Ok o'') | Ok (o'', TComma :: r') => parse_opts_loop k r' o'' | Ok _ => Some (Err Syntax) end =
    match r with [] => Some (Ok o') | _ :: r' => parse_opts_loop k r' o' end) as Hend
    by (intros o'; destruct r as [|[] r]; simpl in *; naive_solver).
  assert (∀ n, fits 64 n → set_option "timeout_time" (Some (ELit (LInt n))) o = Ok (apply_setting o (STime n))) as Hi
    by (intros n Hn'; unfold set_option; rewrite decide_False, decide_True by done; unfold integer_value; simpl; by rewrite bool_decide_eq_true_2).
  destruct s as [n|n|u|[b|]|[b|]|e]; cbn [setting_toks flag_toks app parse_opts_loop]; rewrite ?Hv, ?Hn; cbn [result_bind fst snd];
    rewrite ?Hi by done; apply Hend.
Qed.

Lemma parse_settings ss trailing : ∀ k o, Forall setting_ok ss → length ss < k →
  parse_opts_loop k (attr_toks ss trailing) o = Some (Ok (foldl apply_setting o ss)).
Proof.
  induction ss as [|s ss IH]; intros k o Hok Hk; [by destruct k; simpl in *; [lia|]|].
  apply Forall_cons in Hok as [Hs Hok]. destruct k as [|k]; [lia|]. simpl in Hk.
  destruct ss as [|s' ss].
  - cbn [attr_toks foldl]. destruct trailing.
    + rewrite parse_setting by (try done; by right). destruct k; [lia|done].
    + rewrite parse_setting by (try done; by left). done.
  - change (attr_toks (s :: s' :: ss) trailing) with (setting_toks s ++ TComma :: attr_toks (s' :: ss) trailing).
    rewrite parse_setting by (try done; by right). apply IH; [done|]. simpl in *. lia.
Qed.

Lemma settings_length ss trailing : length ss ≤ length (attr_toks ss trailing).
Proof.
  induction ss as [|s ss IH]; simpl; [lia|]. assert (1 ≤ length (setting_toks s)) by (destruct s; simpl; lia).
  destruct ss; rewrite length_app; simpl in *; lia.
Qed.

(** The loop consumes its input. *)
Lemma parse_opts_total k : ∀ ts o, length ts < k → ∃ r, parse_opts_loop k ts o = Some r.
Proof.
  induction k as [|k IH]; intros ts o Hk; [lia|]. simpl. destruct ts as [|[key| | | |] r]; try by eexists.
  destruct (parse_value r) as [[v r1]|e] eqn:Ev; simpl; [|by eexists].
  destruct (set_option key v o) as [o'|e]; simpl; [|by eexists].
  assert (length r1 ≤ length r) as Hlen.
  { destruct r as [|[] r2]; simpl in Ev; simplify_eq/=; try lia. destruct (parse_expr r2) as [[e r3]|] eqn:Ee; [|done].
    injection Ev as <- <-. apply parse_expr_front in Ee as [used ->]. rewrite length_app. lia. }
  destruct r1 as [|[] r1]; try by eexists. apply IH. simpl in *. lia.
Qed.

(** The test attribute says what it says: parsing always ends; a list of
    options, with or without a trailing comma, registers the item under its own
    name or the one given, with the time limit in nanoseconds unless a unit is
    named, and with its flags, a later setting replacing an earlier one; what
    is not a function, a struct or a type alias is refused, and so are an
    unknown option, a missing or wrong kind of value and a number that does not
    fit 64 bits. *)
Theorem test_attribute ts it m f l :
  (∃ r, expand_test ts it m f l = Some r) ∧
  (∀ ss trailing, ts = attr_toks ss trailing → Forall setting_ok ss →
     expand_test ts it m f l = Some (fi <-? form_of it ;; Ok (register (foldl apply_setting opts_default ss) fi.1 fi.2 m f l))) ∧
  (∀ key v r e, ts = TIdent key :: r → parse_value r = Ok v → set_option key v.1 opts_default = Err e → expand_test ts it m f l = Some (Err e)) ∧
  (∀ key v o, key ∉ ["name"; "timeout_time"; "timeout_unit"; "skip"; "expect_fail"; "expect_error"]%string →
     set_option key v o = Err (Custom "unknown #[rustdv::test] option")) ∧
  (∀ n o, ¬ fits 64 n → set_option "timeout_time" (Some (ELit (LInt n))) o = Err Syntax).
Proof.
  split_and!.
  - unfold expand_test, parse_opts. destruct (parse_opts_total (S (length ts)) ts opts_default ltac:(lia)) as [[o|e] ->]; by eexists.
  - intros ss trailing -> Hok. unfold expand_test, parse_opts. rewrite parse_settings; [done|done|].
    pose proof (settings_length ss trailing). lia.
  - intros key [v r1] r e -> Hv Hs. unfold expand_test, parse_opts. cbn [length parse_opts_loop]. rewrite Hv. simpl in *. by rewrite Hs.
  - intros key v o Hk. unfold set_option. repeat (rewrite decide_False by set_solver). done.
  - intros n o Hn. unfold set_option. rewrite decide_False, decide_True by done. unfold integer_value. simpl. by rewrite bool_decide_eq_false_2.
Qed.
End Options.
End Macros.

Module Derive.
Import Macros.

(** ** The struct a component is declared as *)

Inductive Ty := TyPath (qself : bool) (segments : list string) | TyOther.
Record Attr := { attr_path : list string; attr_args : option (list Tok) }.
Record FieldDecl := { f_ident : string; f_ty : Ty; f_attrs : list Attr }.
Inductive Data := Named (fs : list FieldDecl) | Unit_ | Unnamed | NotStruct.
Record DeriveInput := { ident : string; params : nat; data : Data }.

Inductive ChildKind := KComp | KOption | KVec | KPlain.
#[export] Instance child_kind_eq_dec : EqDecision ChildKind.
Proof. solve_decision. Defined.
Record FieldInfo := { name : string; ty : Ty; child : option ChildKind; port : option string }.

Definition type_name (t : Ty) : option string :=
  match t with TyPath false segs => last segs | _ => None end.
Definition child_kind (t : Ty) : ChildKind :=
  match type_name t with
  | Some s => if decide (s = "RustdvComp")%string then KComp
              else if decide (s = "Option")%string then KOption
              else if decide (s = "Vec")%string then KVec else KPlain
  | None => KPlain
  end.
Definition is_ident (n : string) (a : Attr) : bool := bool_decide (attr_path a = [n]).
Definition has_attr (attrs : list Attr) (n : string) : bool := existsb (is_ident n) attrs.

(** [attr.parse_args::<Ident>()]. *)
Definition parse_ident_args (a : Attr) : Result string SynError :=
  match attr_args a with Some [TIdent k] => Ok k | _ => Err Syntax end.
Definition port_attr (f : FieldDecl) : Result (option string) SynError :=
  match List.filter (is_ident "port") (f_attrs f) with
  | [] => Ok None
  | [a] => k <-? parse_ident_args a ;; Ok (Some k)
  | _ => Err (Custom "a field may have only one #[port(...)] attribute")
  end.

Definition field_info (f : FieldDecl) : Result FieldInfo SynError :=
  p <-? port_attr f ;;
  let is_child := has_attr (f_attrs f) "component" in
  if is_child && bool_decide (is_Some p) then Err (Custom "a field cannot be both #[component] and #[port(...)]")
  else Ok {| name := f_ident f; ty := f_ty f; child := if is_child then Some (child_kind (f_ty f)) else None; port := p |}.

(** [.map(..).collect::<Result<Vec<_>>>()]: the first error. *)
Fixpoint try_map {A B} (f : A → Result B SynError) (l : list A) : Result (list B) SynError :=
  match l with
  | [] => Ok []
  | x :: r => y <-? f x ;; ys <-? try_map f r ;; Ok (y :: ys)
  end.
Definition fields (inp : DeriveInput) : Result (list FieldInfo) SynError :=
  match data inp with
  | Named fs => try_map field_info fs
  | Unit_ => Ok []
  | Unnamed => Err (Custom "#[derive(Component)] requires named fields, or a unit struct")
  | NotStruct => Err (Custom "#[derive(Component)] supports only structs")
  end.

(** ** What is generated *)

(** Of a port: its match arm and its [PortInfo], and its constant. *)
Record PortGen := { pg_label : string; pg_kind : string; pg_required : bool; pg_const : string; pg_doc : string }.
Record Gen := {
  e_name : string;
  visits : list (ChildKind * string); resolves : list string; takes : list string; restores : list string;
  ports : list PortGen;
  registration : option string;
}.

Definition upper (c : Ascii.ascii) : Ascii.ascii :=
  let n := Ascii.nat_of_ascii c in if Nat.leb 97 n && Nat.leb n 122 then Ascii.ascii_of_nat (n - 32) else c.
(** [str::to_uppercase], on the ASCII names components use. *)
Definition to_uppercase (s : string) : string := string_of_list (map upper (list_of_string s)).

Definition port_kinds : list string := ["put"; "get"; "peek"; "publish"; "subscribe"; "seq_item"]%string.
Definition expand_port (fi : FieldInfo) (kind_name : string) : Result PortGen SynError :=
  if bool_decide (kind_name ∈ port_kinds) then
    Ok {| pg_label := name fi; pg_kind := kind_name;
          pg_required := negb (bool_decide (kind_name = "publish" ∨ kind_name = "subscribe")%string);
          pg_const := to_uppercase (name fi);
          pg_doc := "The `" +:+ name fi +:+ "` port, for `connect`." |}
  else Err (Custom "expected put, get, peek, publish, subscribe, or seq_item").

(** One child field adds its statement to each method it takes part in. *)
Definition expand_child (g : Gen) (fi : FieldInfo) : Gen :=
  match child fi with
  | None => g
  | Some KComp =>
      {| e_name := e_name g; visits := visits g ++ [(KComp, name fi)]; resolves := resolves g ++ [name fi];
         takes := takes g ++ [name fi]; restores := restores g ++ [name fi]; ports := ports g; registration := registration g |}
  | Some k =>
      {| e_name := e_name g; visits := visits g ++ [(k, name fi)]; resolves := resolves g;
         takes := takes g; restores := restores g; ports := ports g; registration := registration g |}
  end.

Fixpoint expand_ports (fs : list FieldInfo) : Result (list PortGen) SynError :=
  match fs with
  | [] => Ok []
  | fi :: r =>
      match port fi with
      | None => expand_ports r
      | Some k => p <-? expand_port fi k ;; ps <-? expand_ports r ;; Ok (p :: ps)
      end
  end.

Definition expand_component (inp : DeriveInput) : Result Gen SynError :=
  fs <-? fields inp ;;
  let g := foldl expand_child {| e_name := ident inp; visits := []; resolves := []; takes := []; restores := [];
             ports := []; registration := None |} fs in
  ps <-? expand_ports fs ;;
  Ok {| e_name := e_name g; visits := visits g; resolves := resolves g; takes := takes g; restores := restores g;
        ports := ps; registration := if decide (params inp = 0) then Some (ident inp) else None |}.

(** ** Running the generated methods *)

Section Generated.
Context {U : Set} {Any : Type} {TO : Config.Typed Any (@Factory.Override U)}.

(** The value of a field. *)
Inductive Val :=
| VComp (s : @Factory.RustdvComp U)
| VOption (c : option (@Factory.Node U))
| VVec (cs : list (@Factory.Node U))
| VPlain (c : @Factory.Node U)
| VPort (cell : nat)
| VData.
Abbreviation Self := (list (string * Val)).

(** [self.field]. *)
Fixpoint get (self : Self) (l : string) : option Val :=
  match self with [] => None | (n, v) :: r => if decide (n = l) then Some v else get r l end.
Definition upd (self : Self) (l : string) (g : Val → Val) : Self :=
  map (λ nv, if decide (nv.1 = l) then (nv.1, g nv.2) else nv) self.

Definition visit (l : string) (k : ChildKind) (v : option Val) : list (string * @Factory.Node U) :=
  match k, v with
  | KComp, Some (VComp s) => match Factory.inner s with Some c => [(l, c)] | None => [] end
  | KOption, Some (VOption (Some c)) => [(l, c)]
  | KVec, Some (VVec cs) => imap (λ i c, (l +:+ "[" +:+ pretty.pretty (N.of_nat i) +:+ "]", c)) cs
  | KPlain, Some (VPlain c) => [(l, c)]
  | _, _ => []
  end.
Definition gen_children (g : Gen) (self : Self) : list (string * @Factory.Node U) :=
  concat (map (λ kl, visit kl.2 kl.1 (get self kl.2)) (visits g)).

Definition resolve_val (ctx_path l : string) (d : Config.ConfigDb Any) (v : Val) : Val :=
  match v with VComp s => VComp (Factory.resolve ctx_path l d s) | _ => v end.
Definition gen_resolve (ctx_path : string) (d : Config.ConfigDb Any) (g : Gen) (self : Self) : Self :=
  foldl (λ self l, upd self l (resolve_val ctx_path l d)) self (resolves g).

Definition take_val (v : Val) : Val := match v with VComp s => VComp (fst (Factory.take_node s)) | _ => v end.
Definition taken_val (l : string) (v : option Val) : list (string * @Factory.Node U) :=
  match v with Some (VComp s) => match snd (Factory.take_node s) with Some c => [(l, c)] | None => [] end | _ => [] end.
Definition gen_take (g : Gen) (self : Self) : Self * list (string * @Factory.Node U) :=
  foldl (λ so l, (upd so.1 l take_val, so.2 ++ taken_val l (get so.1 l))) (self, []) (takes g).

Definition put_val (c : @Factory.Node U) (v : Val) : Val := match v with VComp s => VComp (Factory.put_node c s) | _ => v end.
Definition gen_restore (g : Gen) (taken : list (string * @Factory.Node U)) (self : Self) : Self :=
  foldl (λ self nc, if decide (nc.1 ∈ restores g) then upd self nc.1 (put_val nc.2) else self) self taken.

Definition gen_port_slot (g : Gen) (self : Self) (n : string) : option nat :=
  match find_first (λ p, bool_decide (pg_label p = n)) (ports g) with
  | Some p => match get self (pg_label p) with Some (VPort a) => Some a | _ => None end
  | None => None
  end.
Definition gen_port_infos (bound : nat → bool) (g : Gen) (self : Self) : list Factory.PortInfo :=
  map (λ p, {| Factory.p_name := pg_label p; Factory.p_kind := pg_kind p; Factory.required := pg_required p;
               Factory.connected := match get self (pg_label p) with Some (VPort a) => bound a | _ => false end |}) (ports g).

(** ** The component node of a struct value *)

(** A value of the field's type. *)
Definition has_type (fi : FieldInfo) (v : Val) : Prop :=
  match child fi, port fi, v with
  | Some KComp, _, VComp _ | Some KOption, _, VOption _ | Some KVec, _, VVec _ | Some KPlain, _, VPlain _ => True
  | None, Some _, VPort _ => True
  | None, None, _ => True
  | _, _, _ => False
  end.
Definition declared (fi : FieldInfo) (v : Val) : option (@Factory.Field U) :=
  match child fi, port fi, v with
  | Some KComp, _, VComp s => Some (Factory.field_of s)
  | Some KOption, _, VOption c => Some (Factory.FOption c)
  | Some KVec, _, VVec cs => Some (Factory.FVec cs)
  | Some KPlain, _, VPlain c => Some (Factory.FPlain c)
  | None, Some k, VPort a => Some (Factory.FPort k a)
  | _, _, _ => None
  end.
Definition node_fields (fs : list FieldInfo) (self : Self) : list (string * @Factory.Field U) :=
  omap (λ p, (λ f, (name p.1, f)) <$> declared p.1 p.2.2) (zip fs self).
Definition node_of (inp : DeriveInput) (u : U) (fs : list FieldInfo) (self : Self) : @Factory.Node U :=
  Factory.mkNode (ident inp) u (node_fields fs self).
(** Rust's typing of a struct value: the fields in order, distinct, typed. *)
Definition struct_ok (fs : list FieldInfo) (self : Self) : Prop :=
  self.*1 = map name fs ∧ NoDup (map name fs) ∧ Forall2 has_type fs self.*2.

(** ** What the expansion holds *)

Definition vis (fi : FieldInfo) : option (ChildKind * string) := (λ k, (k, name fi)) <$> child fi.
Definition comp (fi : FieldInfo) : option string := if decide (child fi = Some KComp) then Some (name fi) else None.
Definition port_gen (fi : FieldInfo) : option PortGen := port fi ≫= λ k, result_ok (expand_port fi k).

Lemma expand_children_spec fs : ∀ g,
  visits (foldl expand_child g fs) = visits g ++ omap vis fs ∧ resolves (foldl expand_child g fs) = resolves g ++ omap comp fs ∧
  takes (foldl expand_child g fs) = takes g ++ omap comp fs ∧ restores (foldl expand_child g fs) = restores g ++ omap comp fs.
Proof.
  induction fs as [|fi fs IH]; intros g; [by rewrite !app_nil_r|]. cbn [foldl omap list_omap].
  destruct (IH (expand_child g fi)) as (-> & -> & -> & ->). unfold expand_child, vis, comp.
  destruct (child fi) as [[]|]; simpl; rewrite <- ?app_assoc; by split_and_all.
Qed.

Lemma expand_ports_spec fs ps : expand_ports fs = Ok ps →
  ps = omap port_gen fs ∧ Forall (λ fi, ∀ k, port fi = Some k → k ∈ port_kinds) fs.
Proof.
  revert ps. induction fs as [|fi fs IH]; intros ps; simpl; [by intros [=<-]|]. unfold port_gen. destruct (port fi) as [k|] eqn:Ek; simpl.
  - destruct (expand_port fi k) as [p|e] eqn:Ep; simpl; [|done]. destruct (expand_ports fs) as [qs|e]; simpl; [|done]. intros [=<-].
    destruct (IH qs eq_refl) as [-> Hk]. split; [done|]. constructor; [|done]. intros k' Hk'. rewrite Ek in Hk'. injection Hk' as <-.
    unfold expand_port in Ep. by case_bool_decide.
  - intros H. destruct (IH ps H) as [-> Hk]. split; [done|]. constructor; [|done]. by rewrite Ek.
Qed.

Lemma expand_spec inp g : expand_component inp = Ok g → ∃ fs, fields inp = Ok fs ∧
  visits g = omap vis fs ∧ resolves g = omap comp fs ∧ takes g = omap comp fs ∧ restores g = omap comp fs ∧
  ports g = omap port_gen fs ∧ Forall (λ fi, ∀ k, port fi = Some k → k ∈ port_kinds) fs ∧
  e_name g = ident inp ∧ registration g = (if decide (params inp = 0) then Some (ident inp) else None).
Proof.
  unfold expand_component. destruct (fields inp) as [fs|e]; simpl; [|done]. destruct (expand_ports fs) as [ps|e] eqn:Ep; simpl; [|done].
  intros [=<-]. exists fs. cbn [visits resolves takes restores ports e_name registration].
  set (g0 := Build_Gen (ident inp) [] [] [] [] [] None). destruct (expand_children_spec fs g0) as (-> & -> & -> & ->).
  destruct (expand_ports_spec fs ps Ep) as [-> Hk]. split_and_all; try done. simpl.
  clear. assert (∀ g, e_name (foldl expand_child g fs) = e_name g) as ->; [|done].
  induction fs as [|fi fs IH]; intros g; [done|]. simpl. rewrite IH. unfold expand_child. by destruct (child fi) as [[]|].
Qed.

(** ** Access by name *)

Lemma get_elem (self : list (string * Val)) l v : NoDup self.*1 → (l, v) ∈ self → get self l = Some v.
Proof.
  induction self as [|[n w] self IH]; [by intros _ ?%elem_of_nil|]. cbn [fmap list_fmap fst]. intros [Hn Hnd]%NoDup_cons [[= -> ->]|Hin]%elem_of_cons; simpl.
  - by rewrite decide_True.
  - rewrite decide_False; [by apply IH|]. intros ->. apply Hn, list_elem_of_fmap. by exists (l, v).
Qed.

Lemma get_upd_ne (self : list (string * Val)) l l' g : l ≠ l' → get (upd self l' g) l = get self l.
Proof. intros Hne. induction self as [|[n w] self IH]; simpl; [done|]. repeat case_decide; simplify_eq/=; repeat case_decide; congruence. Qed.

Lemma upd_names (self : list (string * Val)) l g : (upd self l g).*1 = self.*1.
Proof. unfold upd. rewrite <- list_fmap_compose. apply list_fmap_ext. intros i [n v] _. simpl. by case_decide. Qed.

(** A sequence of updates of distinct fields is one update of each. *)
Lemma fold_upd (g : string → Val → Val) ls : ∀ self, NoDup ls →
  foldl (λ self l, upd self l (g l)) self ls = map (λ nv, if decide (nv.1 ∈ ls) then (nv.1, g nv.1 nv.2) else nv) self.
Proof.
  induction ls as [|l ls IH]; intros self Hnd; cbn [foldl].
  - rewrite <- (list_fmap_id self) at 1. apply list_fmap_ext. intros i [n v] _. by rewrite decide_False by apply not_elem_of_nil.
  - apply NoDup_cons in Hnd as [Hl Hnd]. rewrite IH by done. unfold upd. rewrite <- list_fmap_compose. apply list_fmap_ext.
    intros i [n v] _. simpl. destruct (decide (n = l)) as [-> |Hne]; simpl.
    + rewrite decide_False by done. by rewrite decide_True by left.
    + destruct (decide (n ∈ ls)); [rewrite decide_True by (by right)|rewrite decide_False by (rewrite elem_of_cons; naive_solver)]; done.
Qed.

Lemma nodup_map_inj {A B} (f : A → B) l x y : NoDup (map f l) → x ∈ l → y ∈ l → f x = f y → x = y.
Proof.
  induction l as [|z l IH]; [by intros _ ?%elem_of_nil|]. simpl. intros [Hz Hnd]%NoDup_cons.
  assert (∀ w, w ∈ l → f w ≠ f z) as Hne by (intros w Hw E; apply Hz; rewrite <- E; by apply list_elem_of_fmap_2).
  intros [-> |Hx]%elem_of_cons [-> |Hy]%elem_of_cons E; [done|by destruct (Hne y)|by destruct (Hne x)|by apply IH].
Qed.

Lemma zip_map {A B C} (f : B → C) (l : list A) : ∀ k, zip l (map f k) = map (λ p, (p.1, f p.2)) (zip l k).
Proof. induction l as [|x l IH]; intros [|y k]; simpl; [done..|]. by rewrite IH. Qed.

Section Struct.
Context (fs : list FieldInfo) (self : list (string * Val)).
Hypothesis Hok : struct_ok fs self.

Lemma struct_nodup : NoDup self.*1.
Proof. destruct Hok as (-> & Hnd & _). done. Qed.

(** The fields with their values. *)
Lemma struct_get : Forall (λ p, p.2.1 = name p.1 ∧ get self (name p.1) = Some p.2.2 ∧ has_type p.1 p.2.2) (zip fs self).
Proof.
  pose proof struct_nodup as Hnd. destruct Hok as (Hn & _ & Ht). apply Forall_forall. intros [fi [n v]] Hin. simpl.
  apply list_elem_of_lookup in Hin as [i Hi]. apply lookup_zip_with_Some in Hi as (fi' & nv & E & Hf & Hv). injection E as <- <-.
  assert (n = name fi) as ->.
  { assert (self.*1 !! i = Some n) as H1 by (by rewrite list_lookup_fmap, Hv).
    rewrite Hn in H1. change (map name fs) with (name <$> fs) in H1. rewrite list_lookup_fmap, Hf in H1. by injection H1. }
  split_and!; [done| |].
  - apply get_elem; [done|]. by eapply list_elem_of_lookup_2.
  - eapply Forall2_lookup_lr; [exact Ht|exact Hf|]. by rewrite list_lookup_fmap, Hv.
Qed.

Lemma struct_fst : (zip fs self).*1 = fs.
Proof. apply fst_zip. destruct Hok as (Hn & _). rewrite <- (length_map name), <- Hn. by rewrite length_fmap. Qed.

Definition fact (p : FieldInfo * (string * Val)) : Prop :=
  p.2.1 = name p.1 ∧ get self (name p.1) = Some p.2.2 ∧ has_type p.1 p.2.2.
Definition node_field (p : FieldInfo * (string * Val)) : option (string * @Factory.Field U) :=
  (λ f, (name p.1, f)) <$> declared p.1 p.2.2.

Lemma children_agree :
  concat (map (λ kl, visit kl.2 kl.1 (get self kl.2)) (omap vis fs)) =
  concat (map (λ nf, Factory.field_children nf.1 nf.2) (node_fields fs self)).
Proof.
  assert (∀ L, Forall fact L →
    concat (map (λ kl, visit kl.2 kl.1 (get self kl.2)) (omap vis L.*1)) =
    concat (map (λ nf, Factory.field_children nf.1 nf.2) (omap node_field L))) as H.
  { induction 1 as [|[fi [n v]] L (Hn & Hg & Ht) _ IH]; [done|]. cbn [fmap list_fmap omap list_omap fst snd] in *.
    unfold vis, node_field, declared, has_type in *. cbn [fst snd] in *.
    destruct (child fi) as [[]|]; simpl; [destruct v; try done; simpl; rewrite Hg, IH; simpl..|destruct (port fi), v; simpl; exact IH].
    - by destruct (Factory.inner s).
    - by destruct c.
    - done.
    - done. }
  specialize (H _ struct_get). by rewrite struct_fst in H.
Qed.

Hypothesis Hexcl : Forall (λ fi, child fi = None ∨ port fi = None) fs.
Hypothesis Hkinds : Forall (λ fi, ∀ k, port fi = Some k → k ∈ port_kinds) fs.

Lemma ports_agree bound n :
  map (λ p, {| Factory.p_name := pg_label p; Factory.p_kind := pg_kind p; Factory.required := pg_required p;
               Factory.connected := match get self (pg_label p) with Some (VPort a) => bound a | _ => false end |}) (omap port_gen fs) =
    omap (λ nf, match nf.2 with
      | Factory.FPort k c => Some {| Factory.p_name := nf.1; Factory.p_kind := k;
          Factory.required := negb (bool_decide (k = "publish" ∨ k = "subscribe")%string); Factory.connected := bound c |}
      | _ => None end) (node_fields fs self) ∧
  match find_first (λ p, bool_decide (pg_label p = n)) (omap port_gen fs) with
  | Some p => match get self (pg_label p) with Some (VPort a) => Some a | _ => None end
  | None => None
  end = Port.port_arm (node_fields fs self) n.
Proof.
  pose proof struct_get as HL. rewrite <- struct_fst in Hexcl, Hkinds. unfold node_fields.
  change (λ p, _ <$> declared p.1 p.2.2) with node_field.
  assert (omap port_gen fs = omap port_gen (zip fs self).*1) as -> by (by rewrite struct_fst).
  induction (zip fs self) as [|[fi [m v]] L IH]; [done|]. apply Forall_cons in HL as [(Hn & Hg & Ht) HL].
  cbn [fmap list_fmap] in *. apply Forall_cons in Hexcl as [He Hexcl']. apply Forall_cons in Hkinds as [Hk Hkinds'].
  destruct (IH Hexcl' Hkinds' HL) as [IH1 IH2]. clear IH. cbn [omap list_omap fst snd] in *.
  unfold port_gen, node_field, declared, has_type in *. cbn [fst snd] in *.
  destruct (child fi) as [ck|].
  - destruct He as [|He]; [done|]. rewrite He in *. simpl. destruct ck, v; try done; simpl; try done. 
  - destruct (port fi) as [k|]; [|by destruct v]. destruct v; try done. simpl. unfold expand_port.
    rewrite bool_decide_eq_true_2 by (by apply Hk). simpl. rewrite Hg. simpl. split; [by f_equal|].
    case_bool_decide; simpl; [by rewrite Hg, decide_True|by rewrite decide_False].
Qed.

Lemma comp_iff fi : fi ∈ fs → name fi ∈ omap comp fs ↔ child fi = Some KComp.
Proof.
  destruct Hok as (_ & Hnd & _). intros Hin. rewrite list_elem_of_omap. unfold comp. split.
  - intros (fj & Hj & E). case_decide; [|done]. injection E as E. by rewrite (nodup_map_inj name fs fi fj).
  - intros E. exists fi. by rewrite decide_True.
Qed.

Lemma comp_nodup : NoDup (omap comp fs).
Proof.
  destruct Hok as (_ & Hnd & _). clear -Hnd. induction fs as [|fi l IH]; [constructor|]. apply NoDup_cons in Hnd as [Hn Hnd].
  unfold comp. cbn [omap list_omap]. case_decide; [|by apply IH]. constructor; [|by apply IH].
  intros (fj & Hj & E)%list_elem_of_omap. case_decide; [|done]. injection E as E. apply Hn. rewrite <- E. by apply list_elem_of_fmap_2.
Qed.

(** Rewriting the slot fields one by one rewrites the slots of the node. *)
Lemma slots_agree (g : string → Val → Val) (h : string → @Factory.RustdvComp U → @Factory.RustdvComp U) :
  (∀ l s, g l (VComp s) = VComp (h l s)) →
  node_fields fs (foldl (λ self l, upd self l (g l)) self (omap comp fs)) =
  map (λ nf, (nf.1, match nf.2 with
    | Factory.FComp i o r => Factory.field_of (h nf.1 (Factory.slot_of i o r))
    | f => f end)) (node_fields fs self).
Proof.
  intros Hg. rewrite fold_upd by apply comp_nodup. unfold node_fields. rewrite zip_map.
  assert (Forall (λ p, p.1 ∈ fs) (zip fs self)) as Hin
    by (apply Forall_forall; intros [fi [n v]] Hp; by apply elem_of_zip_l in Hp).
  pose proof struct_get as HL. induction (zip fs self) as [|[fi [n v]] L IH]; [done|].
  apply Forall_cons in HL as [(Hn & _ & Ht) HL]. apply Forall_cons in Hin as [Hfi Hin]. specialize (IH Hin HL).
  pose proof (comp_iff fi Hfi) as Hiff. cbn [map omap list_omap fst snd] in *. subst n. unfold declared, has_type in *.
  destruct (decide (name fi ∈ omap comp fs)) as [Hc|Hc].
  - rewrite (proj1 Hiff Hc) in *. destruct v; try done. cbn [fst snd]. rewrite Hg. cbn [fmap option_fmap option_map map fst snd]. rewrite IH.
    by destruct s.
  - assert (child fi ≠ Some KComp) by naive_solver. cbn [fst snd].
    destruct (child fi) as [[]|], (port fi), v; try done; cbn [fmap option_fmap option_map map fst snd]; by rewrite IH.
Qed.

Lemma taken_agree :
  concat (map (λ l, taken_val l (get self l)) (omap comp fs)) =
  concat (map (λ nf, snd (Factory.take_field nf)) (node_fields fs self)).
Proof.
  pose proof struct_get as HL. unfold node_fields. assert (omap comp fs = omap comp (zip fs self).*1) as -> by (by rewrite struct_fst).
  induction HL as [|[fi [n v]] L (Hn & Hg & Ht) _ IH]; [done|]. cbn [fmap list_fmap omap list_omap fst snd] in *.
  unfold comp, declared, has_type in *. destruct (child fi) as [[]|]; simpl; destruct v; try done; simpl; try exact IH.
  - rewrite Hg, IH. simpl. by destruct (Factory.inner s).
  - by destruct (port fi).
  - by destruct (port fi).
  - by destruct (port fi).
  - by destruct (port fi).
  - by destruct (port fi).
  - by destruct (port fi).
Qed.

(** Putting a taken node back into its slot. *)
Lemma restore_agree n c :
  node_fields fs (if decide (n ∈ omap comp fs) then upd self n (put_val c) else self) = Factory.restore_one n c (node_fields fs self).
Proof.
  assert (∀ self', self' = (if decide (n ∈ omap comp fs) then upd self n (put_val c) else self) →
    self' = map (λ nv, if decide (n ∈ omap comp fs ∧ nv.1 = n) then (nv.1, put_val c nv.2) else nv) self) as Hself.
  { intros self' ->. unfold upd. destruct (decide (n ∈ omap comp fs)) as [Hc|Hc].
    - apply map_ext. intros nv. destruct (decide (nv.1 = n)); [by rewrite decide_True|rewrite decide_False by naive_solver; done].
    - rewrite <- (map_id self) at 1. apply map_ext. intros nv. rewrite decide_False by naive_solver. done. }
  rewrite (Hself _ eq_refl). clear Hself. unfold node_fields. rewrite zip_map.
  assert (Forall (λ p, p.1 ∈ fs) (zip fs self)) as Hin
    by (apply Forall_forall; intros [fi [m v]] Hp; by apply elem_of_zip_l in Hp).
  assert (NoDup (map name (zip fs self).*1)) as Hnd by (rewrite struct_fst; apply Hok).
  pose proof struct_get as HL. induction (zip fs self) as [|[fi [m v]] L IH]; [done|].
  apply Forall_cons in HL as [(Hn & _ & Ht) HL]. apply Forall_cons in Hin as [Hfi Hin]. cbn [fmap list_fmap map fst] in Hnd.
  apply NoDup_cons in Hnd as [Hm Hnd]. specialize (IH Hin Hnd HL).
  pose proof (comp_iff fi Hfi) as Hiff. cbn [map omap list_omap fst snd] in *. subst m. unfold declared, has_type in *.
  destruct (decide (n ∈ omap comp fs ∧ name fi = n)) as [[Hc <-]|Hc]; cbn [fst snd].
  - rewrite (proj1 Hiff Hc) in *. destruct v; try done. cbn [put_val fmap option_fmap option_map Factory.restore_one Factory.field_of].
    rewrite decide_True by done. f_equal. assert (∀ p, p ∈ L → p.2.1 ≠ name fi) as Hne.
    { intros p Hp E. apply Hm. rewrite Forall_forall in HL. destruct (HL p Hp) as [E' _]. rewrite <- E, E'.
      apply list_elem_of_fmap_2, list_elem_of_fmap_2, Hp. }
    clear -Hne. induction L as [|p L IH]; [done|]. cbn [map omap list_omap]. rewrite decide_False by (intros [_ ?]; by apply (Hne p); [left|]).
    destruct p as [fj nv]. cbn [fst snd]. rewrite IH by (intros q Hq; apply Hne; by right). done.
  - destruct (child fi) as [ck|]; [|destruct (port fi), v; try done; cbn; by rewrite IH].
    destruct ck, v; try done; cbn; try by rewrite IH. rewrite decide_False, IH; [done|]. intros <-. apply Hc. split; [by apply Hiff|done].
Qed.

Lemma struct_upd l g : (∀ fi v, has_type fi v → has_type fi (g v)) → struct_ok fs (upd self l g).
Proof.
  intros Hg. destruct Hok as (Hn & Hnd & Ht). split_and!; [by rewrite upd_names|done|]. revert Ht. clear -Hg. revert self.
  induction fs as [|fi r IH]; intros [|[m v] sf] H; try by inversion H. cbn [fmap list_fmap map upd snd] in *. apply Forall2_cons in H as [H1 H2].
  constructor; [|by apply IH]. case_decide; [by apply Hg|done].
Qed.
End Struct.

Lemma put_val_type c fi v : has_type fi v → has_type fi (put_val c v).
Proof. unfold has_type. destruct (child fi) as [[]|], (port fi), v; done. Qed.

Lemma fold_take ls : ∀ (self : list (string * Val)) out, NoDup ls →
  foldl (λ so l, (upd so.1 l take_val, so.2 ++ taken_val l (get so.1 l))) (self, out) ls =
  (foldl (λ self l, upd self l take_val) self ls, out ++ concat (map (λ l, taken_val l (get self l)) ls)).
Proof.
  induction ls as [|l ls IH]; intros self out Hnd; [by rewrite app_nil_r|]. apply NoDup_cons in Hnd as [Hl Hnd]. cbn [foldl fst snd map concat].
  rewrite IH by done. f_equal. rewrite <- app_assoc. do 2 f_equal. f_equal. apply map_ext_in. intros l' Hl'%list_elem_of_In.
  by rewrite get_upd_ne by (by intros ->).
Qed.

Lemma port_arm_some (nfs : list (string * @Factory.Field U)) l k a : (l, Factory.FPort k a) ∈ nfs → is_Some (Port.port_arm nfs l).
Proof.
  induction nfs as [|[n f] nfs IH]; [by intros ?%elem_of_nil|]. intros [[= <- <-]|Hin]%elem_of_cons; simpl; [by rewrite decide_True|].
  destruct f; try by apply IH. case_decide; [done|by apply IH].
Qed.

(** Every generated constant names a port of the node. *)
Lemma ports_named inp u fs self : struct_ok fs self → Forall (λ fi, child fi = None ∨ port fi = None) fs →
  Forall (λ p, pg_const p = to_uppercase (pg_label p) ∧ is_Some (Port.port_slot (node_of inp u fs self) (pg_label p))) (omap port_gen fs).
Proof.
  intros Hok Hx. apply Forall_forall. intros p (fi & Hfi & E)%list_elem_of_omap. unfold port_gen, expand_port in E.
  destruct (port fi) as [k|] eqn:Ek; [|done]. simpl in E. case_bool_decide; [|done]. injection E as <-. split; [done|]. simpl.
  assert (∃ q, q ∈ zip fs self ∧ q.1 = fi) as (q & Hq & Eq).
  { rewrite <- (struct_fst fs self Hok) in Hfi. by apply list_elem_of_fmap in Hfi as (q & -> & Hq); exists q. }
  pose proof (struct_get fs self Hok) as HL. rewrite Forall_forall in HL. destruct (HL q Hq) as (_ & _ & Ht). rewrite Eq in Ht.
  rewrite Forall_forall in Hx. destruct (Hx fi Hfi) as [Hc|]; [|congruence]. unfold has_type in Ht. rewrite Hc, Ek in Ht.
  destruct (q.2.2) as [| | | |a|] eqn:Ev; try done. apply (port_arm_some _ _ k a). apply list_elem_of_omap. exists q. split; [done|].
  unfold declared. by rewrite Eq, Hc, Ek, Ev.
Qed.

(** ** Which structs are accepted *)

Definition field_accepted (f : FieldDecl) : Prop :=
  match List.filter (is_ident "port") (f_attrs f) with
  | [] => True
  | [a] => ∃ k, attr_args a = Some [TIdent k] ∧ k ∈ port_kinds ∧ has_attr (f_attrs f) "component" = false
  | _ => False
  end.
Definition accepted (inp : DeriveInput) : Prop :=
  match data inp with Named fs => Forall field_accepted fs | Unit_ => True | _ => False end.

Lemma fields_accepted fs :
  match try_map field_info fs with
  | Err _ => ¬ Forall field_accepted fs
  | Ok infos => Forall (λ fi, child fi = None ∨ port fi = None) infos ∧
      (Forall field_accepted fs ↔ Forall (λ fi, ∀ k, port fi = Some k → k ∈ port_kinds) infos)
  end.
Proof.
  induction fs as [|f fs IH]; [simpl; by split; [constructor|]|]. cbn [try_map].
  assert (match field_info f with
    | Err _ => ¬ field_accepted f
    | Ok fi => (child fi = None ∨ port fi = None) ∧ (field_accepted f ↔ ∀ k, port fi = Some k → k ∈ port_kinds)
    end) as Hf.
  { unfold field_info, port_attr, field_accepted. destruct (List.filter _ _) as [|a [|a' r]]; simpl; [|unfold parse_ident_args|tauto].
    - rewrite andb_false_r. simpl. split; [by right|done].
    - destruct (attr_args a) as [[|[k| | | |] [|]]|]; simpl; try (intros (? & ? & _); done).
      destruct (has_attr _ _) eqn:Eh; simpl; [naive_solver|]. split; [by left|]. naive_solver. }
  destruct (field_info f) as [fi|e]; simpl; [|by intros [? _]%Forall_cons]. destruct Hf as [Hx Hf].
  destruct (try_map field_info fs) as [infos|e]; simpl; [|by intros [_ ?]%Forall_cons]. destruct IH as [Hxs IH].
  split; [by constructor|]. rewrite !Forall_cons, Hf, IH. done.
Qed.

Lemma expand_ports_ok infos : Forall (λ fi, ∀ k, port fi = Some k → k ∈ port_kinds) infos → ∃ ps, expand_ports infos = Ok ps.
Proof.
  induction 1 as [|fi infos Hk _ [ps IH]]; [by eexists|]. simpl. destruct (port fi) as [k|]; [|by exists ps].
  unfold expand_port. rewrite bool_decide_eq_true_2 by (by apply Hk). simpl. rewrite IH. by eexists.
Qed.

End Generated.
End Derive.

Module MacrosWitnesses.
Import Macros Derive.

(** A parser of literals and names. *)
#[local] Instance wparse : SynExpr := λ ts,
  match ts with TLit l :: r => Some (ELit l, r) | TIdent _ :: r => Some (EOther, r) | _ => None end.
#[local] Instance wparse_laws : SynExprLaws.
Proof.
  split.
  - intros [|[s| | |l|s] ts] e r [=<- <-]; [by exists [TIdent s]|by exists [TLit l]].
  - done.
Qed.

(** [#[rustdv::test(timeout_time = 500, timeout_unit = "us")] struct RandomTest]. *)
Lemma test_attribute_witness :
  expand_test (attr_toks [STime 500; SUnit "us"] false) (IStruct "RandomTest") "tinyalu_tb" "tinyalu_tb.rs" 78 =
  Some (Ok ({| Runner.name := "RandomTest"; Runner.module_ := "tinyalu_tb"; Runner.file := "tinyalu_tb.rs"; Runner.line := 78;
               Runner.timeout := Some (500%Z, "us"%string); Runner.skip := false; Runner.expect_fail := false;
               Runner.expect_error := None |}, Component_)).
Proof.
  destruct (test_attribute (attr_toks [STime 500; SUnit "us"] false) (IStruct "RandomTest") "tinyalu_tb" "tinyalu_tb.rs" 78) as (_ & H & _).
  refine (H [STime 500; SUnit "us"] false eq_refl _). repeat constructor; unfold fits; simpl; lia.
Defined.

Definition named (n : string) (args : option (list Tok)) : Attr := {| attr_path := [n]; attr_args := args |}.
Definition driver_decl : DeriveInput := {| ident := "Driver"; params := 0; data := Named
  [{| f_ident := "seq_item_port"; f_ty := TyPath false ["SeqItemPort"]; f_attrs := [named "port" (Some [TIdent "seq_item"])] |}] |}.
Definition holder_decl : DeriveInput := {| ident := "Holder"; params := 0; data := Named
  [{| f_ident := "driver"; f_ty := TyPath false ["rustdv"; "RustdvComp"]; f_attrs := [named "component" None] |};
   {| f_ident := "mons"; f_ty := TyPath false ["Vec"]; f_attrs := [named "component" None] |};
   {| f_ident := "count"; f_ty := TyPath false ["usize"]; f_attrs := [] |}] |}.

Example driver_expands : expand_component driver_decl =
  Ok {| e_name := "Driver"; visits := []; resolves := []; takes := []; restores := [];
        ports := [{| pg_label := "seq_item_port"; pg_kind := "seq_item"; pg_required := true; pg_const := "SEQ_ITEM_PORT";
                     pg_doc := "The `seq_item_port` port, for `connect`." |}];
        registration := Some "Driver"%string |}.
Proof. reflexivity. Qed.

Example holder_visits :
  let leaf n := Factory.mkNode n tt [] in
  match expand_component holder_decl with
  | Ok g => gen_children g [("driver", VComp (Factory.fixed (leaf "Driver"))); ("mons", VVec [leaf "Mon"; leaf "Mon"]); ("count", VData)]%string
            = [("driver", leaf "Driver"); ("mons[0]", leaf "Mon"); ("mons[1]", leaf "Mon")]%string
  | Err _ => False
  end.
Proof. reflexivity. Qed.

Example both_refused : ∃ m, expand_component {| ident := "Bad"; params := 0; data := Named
  [{| f_ident := "x"; f_ty := TyOther; f_attrs := [named "component" None; named "port" (Some [TIdent "put"])] |}] |} = Err (Custom m).
Proof. by eexists. Qed.

End MacrosWitnesses.
