(* ===== verification/Env.v ===== *)
(** * Env: the TinyALU environment, built, configured and wired
    (tinyalu_tb/src/env.rs, components.rs, tinyalu_tb.rs).

    [AluEnv] is a component whose [build] reads the configuration database,
    files the sequencer there and creates its children through the factory, and
    whose [connect] wires sequencer, driver, monitors, scoreboard and coverage
    over the two analysis buses.  [elaborate] runs the framework's own build and
    connect walks on it.  Ports, hubs and subscriber cells are allocated by a
    counter.  A panic ends everything, so the walks thread [Exec World]. *)
From S2P Require Import Prelude Path Config Factory Component Queue Tlm Sequence Alu.
Open Scope rustdv_scope.

Module Env.
Import Factory Port.

Inductive Active := Active_ | Passive.
#[global] Instance active_eq_dec : EqDecision Active.
Proof. solve_decision. Defined.

(** What the buses carry and what the subscribers keep. *)
Inductive Msg := MCmd (c : Alu.AluCommand) | MRes (r : Alu.AluResult).
Inductive Cell :=
| CmdLog (cmds : list Alu.AluCommand)
| ResultLog (results : list Alu.AluResult)
| CovCollector (seen : gmap Alu.Ops nat).
Definition write (k : nat) (x : Msg) (s : Cell) : Cell :=
  match s, x with
  | CmdLog l, MCmd c => CmdLog (l ++ [c])
  | ResultLog l, MRes r => ResultLog (l ++ [r])
  | CovCollector m, MCmd c => CovCollector (Alu.cov_write c m)
  | _, _ => s
  end.

(** A component's fields that are neither children nor ports. *)
Inductive Own :=
| OEnv (is_active with_coverage : bool)
| OSeqr (q : nat)
| OBus (b : nat)
| OLogs (cmd_log result_log : nat)
| OCollector (k : nat)
| OUnit.
Abbreviation ENode := (@Node Own).
Abbreviation EField := (@Field Own).

(** Handles the configuration database holds. *)
Inductive SeqHandle := seq_handle (q : nat).
Inductive BfmHandle := bfm_handle (id : nat).
(** The sequences the tests choose from. *)
Inductive Seq := BaseSeq | RandomSeq | MaxSeq.

(** The interface types of the ports. *)
Definition SEQ_ITEM_PORT : PortName := {| name := "seq_item_port"; iface_ty := "dyn SeqItemIf<AluCommand, AluResult>" |}.
Definition CMD_AP : PortName := {| name := "ap"; iface_ty := "dyn PublishIf<AluCommand>" |}.
Definition RESULT_AP : PortName := {| name := "ap"; iface_ty := "dyn PublishIf<AluResult>" |}.
Definition CMD_IN : PortName := {| name := "cmd_in"; iface_ty := "dyn SinkHandle<AluCommand>" |}.
Definition RESULT_IN : PortName := {| name := "result_in"; iface_ty := "dyn SinkHandle<AluResult>" |}.

Section Env.
Context {Any : Type}.
Context {TA : Config.Typed Any Active} {TB : Config.Typed Any bool} {TS : Config.Typed Any SeqHandle}
  {TBfm : Config.Typed Any BfmHandle} {TO : Config.Typed Any (@Override Own)}.

(** The design's signals, by name. *)
Context {Sig SigError : Type}.
Variable signal : string → Result Sig SigError.

Record World := {
  an : @Analysis.World Cell;
  db : Config.ConfigDb Any;
  next : nat;                       (* the next address *)
  started : list nat;               (* BFMs whose tasks were started *)
  seqs : gmap string (string * Seq);   (* the sequence overrides *)
}.
Definition with_an (x : @Analysis.World Cell) (w : World) : World :=
  {| an := x; db := db w; next := next w; started := started w; seqs := seqs w |}.
Definition with_db (d : Config.ConfigDb Any) (w : World) : World :=
  {| an := an w; db := d; next := next w; started := started w; seqs := seqs w |}.
Definition with_seqs (m : gmap string (string * Seq)) (w : World) : World :=
  {| an := an w; db := db w; next := next w; started := started w; seqs := m |}.
Definition bump (w : World) : World := {| an := an w; db := db w; next := S (next w); started := started w; seqs := seqs w |}.

(** Fresh ports, subscriber cells and hubs. *)
Definition port (p : PortName) (w : World) : nat * World :=
  (next w, bump (with_an {| Analysis.hubs := Analysis.hubs (an w); Analysis.slots := new_port (iface_ty p) (next w) (Analysis.slots (an w));
                            Analysis.cells := Analysis.cells (an w) |} w)).
Definition cell (c : Cell) (w : World) : nat * World :=
  (next w, bump (with_an {| Analysis.hubs := Analysis.hubs (an w); Analysis.slots := Analysis.slots (an w);
                            Analysis.cells := <[next w := c]> (Analysis.cells (an w)) |} w)).
Definition new_bus (w : World) : ENode * World :=
  (mkNode "AnalysisBus" (OBus (next w)) [], bump (with_an (Analysis.new_hub (next w) (an w)) w)).
Definition new_sequencer (w : World) : ENode * World := (mkNode "Sequencer" (OSeqr (next w)) [], bump w).

(** ** The components: [Default] and [build] *)

Definition driver_default (w : World) : ENode * World :=
  let '(a, w) := port SEQ_ITEM_PORT w in (mkNode "Driver" OUnit [(name SEQ_ITEM_PORT, FPort "seq_item" a)], w).
Definition cmd_monitor_default (w : World) : ENode * World :=
  let '(a, w) := port CMD_AP w in (mkNode "CmdMonitor" OUnit [(name CMD_AP, FPort "publish" a)], w).
Definition result_monitor_default (w : World) : ENode * World :=
  let '(a, w) := port RESULT_AP w in (mkNode "ResultMonitor" OUnit [(name RESULT_AP, FPort "publish" a)], w).
Definition scoreboard_default (w : World) : ENode * World :=
  let '(a1, w) := port CMD_IN w in
  let '(a2, w) := port RESULT_IN w in
  let '(k1, w) := cell (CmdLog []) w in
  let '(k2, w) := cell (ResultLog []) w in
  (mkNode "Scoreboard" (OLogs k1 k2) [(name CMD_IN, FPort "subscribe" a1); (name RESULT_IN, FPort "subscribe" a2)], w).
Definition coverage_default (w : World) : ENode * World :=
  let '(a, w) := port CMD_IN w in
  let '(k, w) := cell (CovCollector ∅) w in
  (mkNode "Coverage" (OCollector k) [(name CMD_IN, FPort "subscribe" a)], w).

(** [subscribe] in the component's own [build]. *)
Definition subscribe_port (n : ENode) (p : PortName) (k : nat) (w : World) : World :=
  match port_slot n (name p) with
  | Some a => with_an {| Analysis.hubs := Analysis.hubs (an w); Analysis.slots := subscribe a k (Analysis.slots (an w));
                         Analysis.cells := Analysis.cells (an w) |} w
  | None => w
  end.
Definition scoreboard_build (n : ENode) (w : World) : World :=
  match own_state n with OLogs k1 k2 => subscribe_port n RESULT_IN k2 (subscribe_port n CMD_IN k1 w) | _ => w end.
Definition coverage_build (n : ENode) (w : World) : World :=
  match own_state n with OCollector k => subscribe_port n CMD_IN k w | _ => w end.

(** ** The environment *)

(** [T::create_comp()]. *)
Definition create_comp (ty : string) (mk : World → ENode * World) (w : World) : EField * World :=
  let '(n, w) := mk w in (field_of (overridable n ty), w).
Definition empty_comp : EField := field_of empty_slot.

Definition env_default (w : World) : ENode * World :=
  let '(s, w) := new_sequencer w in
  let '(c, w) := new_bus w in
  let '(r, w) := new_bus w in
  (mkNode "AluEnv" (OEnv false false)
     [("seqr", FPlain s); ("driver", empty_comp); ("cmd_mon", empty_comp); ("result_mon", empty_comp);
      ("scoreboard", empty_comp); ("coverage", empty_comp); ("cmd_bus", FPlain c); ("result_bus", FPlain r)]%string, w).

(** [self.field = ..] and [self.field]. *)
Definition set_field (l : string) (f : EField) (n : ENode) : ENode :=
  mkNode (node_name n) (own_state n) (map (λ nf, if decide (nf.1 = l) then (nf.1, f) else nf) (fields_of n)).
Fixpoint field (fs : list (string * EField)) (l : string) : option EField :=
  match fs with [] => None | (n, f) :: r => if decide (n = l) then Some f else field r l end.

(** [ConfigDb::get(Some(ctx), "", field).unwrap_or(d)]. *)
Definition get_or {T} `{Config.Typed Any T} (ctx : Component.RustdvCtx) (fld : string) (d : T) (c : Config.ConfigDb Any) : Exec T :=
  match Config.get (T := T) (Some (Component.ctx_path ctx)) EmptyString fld c with
  | Done (Ok v, _) => Done v
  | Done (Err _, _) => Done d
  | Panic m => Panic m
  end.

(** [ConfigDb::set(None, "*", "SEQR", self.seqr.handle())]. *)
Definition file_seqr (s : ENode) (d : Config.ConfigDb Any) : Config.ConfigDb Any :=
  fst (Config.set None "*" "SEQR" (match own_state s with OSeqr q => seq_handle q | _ => seq_handle 0 end) d).

Definition env_build (self : ENode) (ctx : Component.RustdvCtx) (w : World) : Exec (ENode * World) :=
  activity <-! get_or ctx "IS_ACTIVE" Active_ (db w) ;;
  with_coverage <-! get_or ctx "WITH_COVERAGE" true (db w) ;;
  let is_active := bool_decide (activity = Active_) in
  let self := Component.set_own self (OEnv is_active with_coverage) in
  let '(s, w) := new_sequencer w in
  let self := set_field "seqr" (FPlain s) self in
  let w := with_db (file_seqr s (db w)) w in
  let '(self, w) := if is_active then let '(f, w) := create_comp "Driver" driver_default w in (set_field "driver" f self, w) else (self, w) in
  let '(f, w) := create_comp "CmdMonitor" cmd_monitor_default w in
  let self := set_field "cmd_mon" f self in
  let '(f, w) := create_comp "ResultMonitor" result_monitor_default w in
  let self := set_field "result_mon" f self in
  let '(f, w) := create_comp "Scoreboard" scoreboard_default w in
  let self := set_field "scoreboard" f self in
  let '(self, w) := if with_coverage : bool then let '(f, w) := create_comp "Coverage" coverage_default w in (set_field "coverage" f self, w)
                    else (self, w) in
  let '(c, w) := new_bus w in
  let '(r, w) := new_bus w in
  Done (set_field "result_bus" (FPlain r) (set_field "cmd_bus" (FPlain c) self), w).

(** [&self.child] as a port owner, and the handles of the plain children. *)
Definition slot (self : ENode) (l : string) : @PortOwner Own :=
  match field (fields_of self) l with Some (FComp i o r) => OwnSlot (slot_of i o r) | _ => OwnSlot empty_slot end.
Definition bus_of (self : ENode) (l : string) : nat :=
  match field (fields_of self) l with Some (FPlain n) => match own_state n with OBus b => b | _ => 0 end | _ => 0 end.
Definition seqr_of (self : ENode) : nat :=
  match field (fields_of self) "seqr" with Some (FPlain n) => match own_state n with OSeqr q => q | _ => 0 end | _ => 0 end.

Definition bind_slots (o : @PortOwner Own) (p : PortName) (i : nat) (x : @Analysis.World Cell) : Exec (@Analysis.World Cell) :=
  h <-! bind_or_panic o p i (Analysis.slots x) ;;
  Done {| Analysis.hubs := Analysis.hubs x; Analysis.slots := h; Analysis.cells := Analysis.cells x |}.

Definition env_connect (self : ENode) (w : World) : Exec World :=
  match own_state self with
  | OEnv is_active with_coverage =>
      x <-! (if is_active then bind_slots (slot self "driver") SEQ_ITEM_PORT (seqr_of self) (an w) else Done (an w)) ;;
      x <-! Analysis.pub_connect (bus_of self "cmd_bus") (slot self "cmd_mon") CMD_AP x ;;
      x <-! Analysis.sub_connect (bus_of self "cmd_bus") (slot self "scoreboard") CMD_IN x ;;
      x <-! (if with_coverage then Analysis.sub_connect (bus_of self "cmd_bus") (slot self "coverage") CMD_IN x else Done x) ;;
      x <-! Analysis.pub_connect (bus_of self "result_bus") (slot self "result_mon") RESULT_AP x ;;
      x <-! Analysis.sub_connect (bus_of self "result_bus") (slot self "scoreboard") RESULT_IN x ;;
      Done (with_an x w)
  | _ => Done w
  end.

(** [expect("the test sets BFM")], then [start_tasks]. *)
Definition env_start (ctx : Component.RustdvCtx) (w : World) : Exec World :=
  match Config.get (T := BfmHandle) (Some (Component.ctx_path ctx)) EmptyString "BFM" (db w) with
  | Done (Ok (bfm_handle b), _) => Done {| an := an w; db := db w; next := next w; started := started w ++ [b]; seqs := seqs w |}
  | Done (Err _, _) => Panic "the test sets BFM"
  | Panic m => Panic m
  end.

(** ** The tests *)

(** [TinyAluBfm::new]: the signals in order, the first failure ends it. *)
Definition bfm_signals : list string := ["clk"; "reset_n"; "start"; "done"; "A"; "B"; "op"; "result"]%string.
Fixpoint find_signals (ns : list string) : Result (list Sig) SigError :=
  match ns with
  | [] => Ok []
  | n :: r => h <-? signal n ;; hs <-? find_signals r ;; Ok (h :: hs)
  end.
Definition bfm_new (w : World) : Result (BfmHandle * World) SigError := _ <-? find_signals bfm_signals ;; Ok (bfm_handle (next w), bump w).

(** [ConfigDb::set(None, "*", "BFM", Rc::new(bfm))]. *)
Definition file_bfm (b : BfmHandle) (d : Config.ConfigDb Any) : Config.ConfigDb Any := fst (Config.set None "*" "BFM" b d).
Definition base_build (self : ENode) (w : World) : Exec (ENode * World) :=
  match bfm_new w with
  | Err _ => Panic "TinyALU signals"
  | Ok (b, w) =>
      let w := with_db (file_bfm b (db w)) w in
      let '(n, w) := env_default w in
      Done (set_field "env" (field_of (fixed n)) self, w)
  end.
Definition base_default : ENode := mkNode "BaseTest" OUnit [("env", empty_comp)]%string.

Definition test_default (ty : string) : ENode := mkNode ty OUnit [("inner", empty_comp)]%string.
Definition random_build (self : ENode) (w : World) : ENode * World :=
  (set_field "inner" (field_of (fixed base_default)) self, with_seqs (Overrides.set_seq_override "BaseSeq" "RandomSeq" RandomSeq (seqs w)) w).
Definition max_build (self : ENode) (w : World) : ENode * World :=
  (set_field "inner" (field_of (fixed base_default)) self, with_seqs (Overrides.set_seq_override "BaseSeq" "MaxSeq" MaxSeq (seqs w)) w).

(** ** The walks of the framework over these components *)

Definition build_hook (n : ENode) (ctx : Component.RustdvCtx) (s : Exec World) : ENode * Exec World :=
  match s with
  | Panic m => (n, Panic m)
  | Done w =>
      if decide (node_name n = "AluEnv")%string then
        match env_build n ctx w with Done (n', w') => (n', Done w') | Panic m => (n, Panic m) end
      else if decide (node_name n = "BaseTest")%string then
        match base_build n w with Done (n', w') => (n', Done w') | Panic m => (n, Panic m) end
      else if decide (node_name n = "RandomTest")%string then let '(n', w') := random_build n w in (n', Done w')
      else if decide (node_name n = "MaxTest")%string then let '(n', w') := max_build n w in (n', Done w')
      else if decide (node_name n = "Scoreboard")%string then (n, Done (scoreboard_build n w))
      else if decide (node_name n = "Coverage")%string then (n, Done (coverage_build n w))
      else (n, Done w)
  end.
Definition connect_hook : @Component.Hook Own (Exec World) := λ n ctx s,
  (own_state n, w <-! s ;; if decide (node_name n = "AluEnv")%string then env_connect n w else Done w).

Definition start_hook : @Component.Hook Own (Exec World) := λ n ctx s,
  (own_state n, w <-! s ;; if decide (node_name n = "AluEnv")%string then env_start ctx w else Done w).

Definition db_of (s : Exec World) : Config.ConfigDb Any := match s with Done w => db w | Panic _ => Config.initial end.
Definition bound_of (s : Exec World) (a : nat) : bool := match s with Done w => is_bound (Analysis.slots (an w)) a | Panic _ => false end.

Definition elaborate (fuel : nat) (n : ENode) (ctx : Component.RustdvCtx) (w : World) : ENode * Exec World :=
  let '(n1, s1) := Component.build_all db_of build_hook fuel n ctx (Done w) in
  Component.connect_all fuel connect_hook n1 ctx s1.

(** A monitor publishes what it saw through its port. *)
Definition publish (self : ENode) (x : Msg) (w : @Analysis.World Cell) : @Analysis.World Cell :=
  match owner_port_slot (slot self (match x with MCmd _ => "cmd_mon" | MRes _ => "result_mon" end)) "ap" with
  | Some a => Analysis.port_write write a x w
  | None => w
  end.

(** What the scoreboard and the coverage collector hold. *)
Definition child_own (self : ENode) (l : string) : option Own :=
  match field (fields_of self) l with Some (FComp (Some c) _ _) => Some (own_state c) | _ => None end.
Definition logs (self : ENode) (w : @Analysis.World Cell) : option (option Cell * option Cell) :=
  match child_own self "scoreboard" with
  | Some (OLogs k1 k2) => Some (Analysis.cells w !! k1, Analysis.cells w !! k2)
  | _ => None
  end.
Definition collected (self : ENode) (w : @Analysis.World Cell) : option Cell :=
  match child_own self "coverage" with Some (OCollector k) => Analysis.cells w !! k | _ => None end.
Definition commands (xs : list Msg) : list Alu.AluCommand := omap (λ x, match x with MCmd c => Some c | _ => None end) xs.
Definition results (xs : list Msg) : list Alu.AluResult := omap (λ x, match x with MRes r => Some r | _ => None end) xs.


(** ** What elaboration leaves *)

(** The addresses of the sequencer, the ports, the subscriber cells and the buses. *)
Record Addrs := { q : nat; dp : nat; cm : nat; rm : nat; ci : nat; ri : nat; lc : nat; lr : nat; vi : nat; vk : nat; bc : nat; br : nat }.
Definition addrs_of (act cov : bool) (m : nat) : Addrs :=
  let p := (if act then 2 else 1) + m in
  let b := (if cov then 8 else 6) + p in
  {| q := m; dp := if act then 1 + m else 2 + b; cm := p; rm := 1 + p; ci := 2 + p; ri := 3 + p; lc := 4 + p; lr := 5 + p;
     vi := if cov then 6 + p else 3 + b; vk := if cov then 7 + p else 4 + b; bc := b; br := 1 + b |}.

Definition resolved (ty : string) (own : Own) (ports : list (string * EField)) : EField := FComp (Some (mkNode ty own ports)) false (Some ty).
Definition env_node (act cov : bool) (A : Addrs) : ENode :=
  mkNode "AluEnv" (OEnv act cov)
    [("seqr", FPlain (mkNode "Sequencer" (OSeqr (q A)) []));
     ("driver", if act then resolved "Driver" OUnit [("seq_item_port", FPort "seq_item" (dp A))] else empty_comp);
     ("cmd_mon", resolved "CmdMonitor" OUnit [("ap", FPort "publish" (cm A))]);
     ("result_mon", resolved "ResultMonitor" OUnit [("ap", FPort "publish" (rm A))]);
     ("scoreboard", resolved "Scoreboard" (OLogs (lc A) (lr A)) [("cmd_in", FPort "subscribe" (ci A)); ("result_in", FPort "subscribe" (ri A))]);
     ("coverage", if cov then resolved "Coverage" (OCollector (vk A)) [("cmd_in", FPort "subscribe" (vi A))] else empty_comp);
     ("cmd_bus", FPlain (mkNode "AnalysisBus" (OBus (bc A)) []));
     ("result_bus", FPlain (mkNode "AnalysisBus" (OBus (br A)) []))]%string.

Definition slot_at (x : @Analysis.World Cell) (a : nat) (p : PortName) (b : option nat) : Prop :=
  Analysis.slots x !! a = Some {| slot_ty := iface_ty p; binding := b |}.

(** Built, with the subscribers in their ports and nothing connected. *)
Record built (act cov : bool) (A : Addrs) (x : @Analysis.World Cell) : Prop := {
  b_ports : NoDup [dp A; cm A; rm A; ci A; ri A; vi A];
  b_cells : NoDup [lc A; lr A; vk A];
  b_buses : bc A ≠ br A;
  b_dp : act = true → slot_at x (dp A) SEQ_ITEM_PORT None;
  b_cm : slot_at x (cm A) CMD_AP None;
  b_rm : slot_at x (rm A) RESULT_AP None;
  b_ci : slot_at x (ci A) CMD_IN (Some (lc A));
  b_ri : slot_at x (ri A) RESULT_IN (Some (lr A));
  b_vi : cov = true → slot_at x (vi A) CMD_IN (Some (vk A));
  b_bc : Analysis.hubs x !! bc A = Some [];
  b_br : Analysis.hubs x !! br A = Some [];
  b_lc : Analysis.cells x !! lc A = Some (CmdLog []);
  b_lr : Analysis.cells x !! lr A = Some (ResultLog []);
  b_vk : cov = true → Analysis.cells x !! vk A = Some (CovCollector ∅);
}.

(** Connected: each publisher bound to its bus, each subscriber on its list,
    with what they hold. *)
Record wired (cov : bool) (A : Addrs) (x : @Analysis.World Cell) (cmds : list Alu.AluCommand) (ress : list Alu.AluResult) : Prop := {
  w_cells : NoDup [lc A; lr A; vk A];
  w_cm : Analysis.slots x !! cm A ≫= binding = Some (bc A);
  w_rm : Analysis.slots x !! rm A ≫= binding = Some (br A);
  w_bc : Analysis.hubs x !! bc A = Some (lc A :: if cov then [vk A] else []);
  w_br : Analysis.hubs x !! br A = Some [lr A];
  w_lc : Analysis.cells x !! lc A = Some (CmdLog cmds);
  w_lr : Analysis.cells x !! lr A = Some (ResultLog ress);
  w_vk : cov = true → Analysis.cells x !! vk A = Some (CovCollector (Alu.covered cmds));
}.

Ltac maps :=
  repeat first [rewrite lookup_insert_eq | rewrite lookup_insert_ne by lia | rewrite lookup_alter_eq | rewrite lookup_alter_ne by lia].

Ltac nodup_lia :=
  repeat (apply NoDup_cons; split; [rewrite ?not_elem_of_cons; split_and?; first [apply not_elem_of_nil | lia]|]); apply NoDup_nil; constructor.

Lemma winner_absent (ws : list (@Config.Write Any)) p fld :
  Forall (λ w, ¬ (Config.w_path w = p ∧ Config.w_field w = fld)) ws → Config.winner ws p fld = None.
Proof.
  induction ws as [|x ws IH] using rev_ind; [done|]. rewrite Forall_app, Forall_singleton. intros [H1 H2]. unfold Config.winner in *.
  rewrite foldl_app. cbn [foldl]. rewrite decide_False by done. by apply IH.
Qed.

Lemma no_override (ws : list (@Config.Write Any)) d req path :
  Config.store d = Config.writes ws → Forall (λ w, Config.w_field w ≠ override_key req) ws → lookup_override req path d = None.
Proof.
  intros Hd Hf. unfold lookup_override, Config.get. rewrite Hd.
  rewrite (proj2 (Config.find_entry_none ws _ _)) by (intros p _; apply winner_absent; eapply Forall_impl; [exact Hf|]; naive_solver). done.
Qed.

(** The database after [build]. *)
Definition filed (m : nat) (d : Config.ConfigDb Any) : Config.ConfigDb Any := file_seqr (mkNode "Sequencer" (OSeqr m) []) d.

Lemma env_built k ctx w act cov :
  get_or ctx "IS_ACTIVE" Active_ (db w) = Done act → get_or ctx "WITH_COVERAGE" true (db w) = Done cov →
  (∀ req path, lookup_override req path (filed (3 + next w) (db w)) = None) →
  let A := addrs_of (bool_decide (act = Active_)) cov (3 + next w) in
  ∃ w1, Component.build_all db_of build_hook (S (S k)) (fst (env_default w)) ctx (Done (snd (env_default w))) =
      (env_node (bool_decide (act = Active_)) cov A, Done w1) ∧
    built (bool_decide (act = Active_)) cov A (an w1) ∧ db w1 = filed (3 + next w) (db w) ∧ started w1 = started w ∧ seqs w1 = seqs w.
Proof.
  intros Ha Hc Hno. destruct w as [[hubs slots cells] d nx st sq]. cbn [db next] in *. cbv zeta.
  destruct (env_default _) as [env w0] eqn:E0. cbv -[insert lookup alter decide map_insert map_alter gmap_partial_alter gmap_lookup gmap_empty numbers.Nat.eq_dec nat_countable] in E0. injection E0 as <- <-.
  cbn [Component.build_all fst snd].
  match goal with |- context [build_hook ?n ?c ?s] => destruct (build_hook n c s) as [n1 s1] eqn:E1 end.
  unfold build_hook in E1. cbn [node_name] in E1. rewrite decide_True in E1 by done. unfold env_build in E1. cbn [db] in E1.
  rewrite Ha, Hc in E1. cbn [exec_bind] in E1.
  destruct act, cov; cbv -[insert lookup alter file_seqr map_insert map_alter gmap_partial_alter gmap_lookup gmap_empty empty numbers.Nat.eq_dec nat_countable] in E1; injection E1 as <- <-;
    (match goal with |- context [resolve_children ?c ?d ?n] => destruct (resolve_children c d n) as [t1 u1 fs1] eqn:E2 end;
     unfold resolve_children in E2; cbn [map fields_of node_name own_state fst snd db_of db] in E2;
     unfold field_of, slot_of, Factory.resolve, field_of in E2; cbn [overridable_ requested_ negb inner] in E2;
     unfold filed in Hno; cbn [Nat.add] in Hno; rewrite ?Hno in E2; injection E2 as <- <- <-;
     match goal with |- context [Component.visit_children ?f ?n ?s] => destruct (Component.visit_children f n s) as [n2 s2] eqn:E3 end;
     cbv -[insert lookup alter file_seqr map_insert map_alter gmap_partial_alter gmap_lookup gmap_empty empty numbers.Nat.eq_dec nat_countable Component.ctx_child Component.ctx_path] in E3; injection E3 as <- <-;
     eexists; split; [reflexivity|]; split; [|by split_and!];
     repeat change (bool_decide (Active_ = Active_)) with true; repeat change (bool_decide (Passive = Active_)) with false;
     cbn [an]; split; unfold slot_at; cbn [addrs_of q dp cm rm ci ri lc lr vi vk bc br Nat.add Analysis.slots Analysis.hubs Analysis.cells];
     first [nodup_lia | by intros _; maps | by maps | lia | done]).
Qed.

(** Connecting a port that is there. *)
Definition bind_at (a : nat) (p : PortName) (i : nat) (x : @Analysis.World Cell) : @Analysis.World Cell :=
  {| Analysis.hubs := Analysis.hubs x; Analysis.slots := <[a := {| slot_ty := iface_ty p; binding := Some i |}]> (Analysis.slots x);
     Analysis.cells := Analysis.cells x |}.
Definition listen (b k : nat) (x : @Analysis.World Cell) : @Analysis.World Cell :=
  {| Analysis.hubs := alter (λ ks, ks ++ [k]) b (Analysis.hubs x); Analysis.slots := Analysis.slots x; Analysis.cells := Analysis.cells x |}.

Lemma bind_done (o : @PortOwner Own) p i x a b : owner_port_slot o (name p) = Some a → slot_at x a p b →
  bind_slots o p i x = Done (bind_at a p i x) ∧ Analysis.pub_connect i o p x = Done (bind_at a p i x).
Proof.
  intros Ha Hs. unfold bind_slots, Analysis.pub_connect, bind_or_panic, bind. rewrite Ha, Hs. cbn [slot_ty]. by rewrite decide_True.
Qed.

Lemma listen_done (o : @PortOwner Own) p b x a k : owner_port_slot o (name p) = Some a → slot_at x a p (Some k) →
  Analysis.sub_connect b o p x = Done (listen b k x).
Proof. intros Ha Hs. unfold Analysis.sub_connect, sink_of. rewrite Ha, Hs. cbn [slot_ty binding]. by rewrite decide_True. Qed.

Lemma slot_at_bind x a p i a' p' b : a ≠ a' → slot_at x a' p' b → slot_at (bind_at a p i x) a' p' b.
Proof. intros Hne H. unfold slot_at, bind_at. simpl. by rewrite lookup_insert_ne. Qed.

Ltac distinct := repeat match goal with H : NoDup (_ :: _) |- _ => apply NoDup_cons in H as [? H] end;
  rewrite ?not_elem_of_cons in *; destruct_and?.

(** [connect] wires every component that was built. *)
Lemma env_connected act cov A w : built act cov A (an w) →
  ∃ w2, env_connect (env_node act cov A) w = Done w2 ∧ wired cov A (an w2) [] [] ∧
    (db w2 = db w ∧ started w2 = started w ∧ seqs w2 = seqs w) ∧
    (act = true → Analysis.slots (an w2) !! dp A ≫= binding = Some (q A)).
Proof.
  intros [Hp Hcl Hb Hdp Hcm Hrm Hci Hri Hvi Hbc Hbr Hlc Hlr Hvk]. unfold env_connect. cbn [own_state env_node].
  set (self := env_node act cov A). set (x0 := an w) in *.
  set (x1 := if act then bind_at (dp A) SEQ_ITEM_PORT (q A) x0 else x0).
  assert ((if act then bind_slots (slot self "driver") SEQ_ITEM_PORT (seqr_of self) x0 else Done x0) = Done x1) as ->.
  { destruct act; [|done]. by apply (bind_done _ _ _ _ _ None); [|apply Hdp]. }
  assert (∀ a p b, a ≠ dp A → slot_at x0 a p b → slot_at x1 a p b) as K1 by (intros; unfold x1; destruct act; [by apply slot_at_bind|done]).
  assert (Analysis.hubs x1 = Analysis.hubs x0 ∧ Analysis.cells x1 = Analysis.cells x0) as [Eh Ec] by (unfold x1; by destruct act).
  clear Hdp. pose proof Hcl as Hcells. clear Hcl. revert Hcells. distinct. intros Hcells. cbn [exec_bind]. set (x2 := bind_at (cm A) CMD_AP (bc A) x1).
  assert (Analysis.pub_connect (bus_of self "cmd_bus") (slot self "cmd_mon") CMD_AP x1 = Done x2) as ->
    by (by apply (bind_done _ _ _ _ _ None); [|apply K1]).
  assert (∀ a p b, a ≠ dp A → a ≠ cm A → slot_at x0 a p b → slot_at x2 a p b) as K2 by (intros; apply slot_at_bind; [done|by apply K1]).
  cbn [exec_bind]. rewrite (listen_done _ _ _ _ (ci A) (lc A)) by (done || (apply K2; done)). cbn [exec_bind].
  set (x3 := listen (bus_of self "cmd_bus") (lc A) x2). set (x4 := if cov then listen (bc A) (vk A) x3 else x3).
  assert ((if cov then Analysis.sub_connect (bus_of self "cmd_bus") (slot self "coverage") CMD_IN x3 else Done x3) = Done x4) as ->.
  { unfold x4. destruct cov; [|done]. apply (listen_done _ _ _ _ (vi A)); [done|]. apply (K2 (vi A)); try done. by apply Hvi. }
  assert (Analysis.slots x4 = Analysis.slots x2) as Es by (unfold x4; by destruct cov).
  cbn [exec_bind]. set (x5 := bind_at (rm A) RESULT_AP (br A) x4).
  assert (Analysis.pub_connect (bus_of self "result_bus") (slot self "result_mon") RESULT_AP x4 = Done x5) as ->.
  { apply (bind_done _ _ _ _ _ None); [done|]. unfold slot_at. rewrite Es. by apply K2. }
  cbn [exec_bind]. rewrite (listen_done _ _ _ _ (ri A) (lr A)); [|done|].
  2:{ apply slot_at_bind; [done|]. unfold slot_at. rewrite Es. by apply K2. }
  cbn [exec_bind]. eexists. split; [reflexivity|]. cbn [an with_an db].
  split; [|split; [done|]].
  - assert (Analysis.hubs x4 = (if cov then alter (λ ks, ks ++ [vk A]) (bc A) else id) (alter (λ ks, ks ++ [lc A]) (bc A) (Analysis.hubs x0))) as Eh4
      by (unfold x4; destruct cov; cbn; by rewrite Eh).
    assert (Analysis.cells x4 = Analysis.cells x0) as Ec4 by (unfold x4; destruct cov; exact Ec).
    split; cbn [Analysis.slots Analysis.hubs Analysis.cells listen bind_at x5]; rewrite ?Es, ?Eh4, ?Ec4; cbn [Analysis.slots bind_at x2].
    + exact Hcells.
    + by rewrite lookup_insert_ne, lookup_insert_eq.
    + by rewrite lookup_insert_eq.
    + rewrite lookup_alter_ne by done. destruct cov; cbn; rewrite !lookup_alter_eq, Hbc; done.
    + change (bus_of self "result_bus") with (br A). rewrite lookup_alter_eq. destruct cov; cbn; rewrite !lookup_alter_ne, Hbr by done; done.
    + done.
    + done.
    + exact Hvk.
  - intros ->. cbn [Analysis.slots listen bind_at x5]. rewrite lookup_insert_ne, Es by done. cbn [Analysis.slots bind_at x2].
    rewrite lookup_insert_ne by done. unfold x1. cbn. by rewrite lookup_insert_eq.
Qed.

(** What a monitor publishes is heard by its subscribers and by nobody else. *)
Lemma publish_wired act cov A x cmds ress m : wired cov A x cmds ress →
  wired cov A (publish (env_node act cov A) m x) (cmds ++ commands [m]) (ress ++ results [m]).
Proof.
  intros [Hd Hcm Hrm Hbc Hbr Hlc Hlr Hvk]. unfold publish. destruct m as [c|r]; cbn [commands results omap list_omap].
  - change (owner_port_slot (slot _ _) _) with (Some (cm A)). unfold Analysis.port_write. rewrite Hcm. unfold Analysis.broadcast. rewrite Hbc.
    cbn [default]. pose proof Hd as Hcells. revert Hcells. distinct. intros Hcells.
    assert (NoDup (lc A :: (if cov then [vk A] else []))) as Hnd by (destruct cov; nodup_lia).
    assert (lr A ∉ lc A :: (if cov then [vk A] else [])) as Hlr'
      by (destruct cov; rewrite ?not_elem_of_cons; split_and?; try done; apply not_elem_of_nil).
    split; cbn [Analysis.slots Analysis.hubs Analysis.cells]; rewrite ?app_nil_r; try done.
    + rewrite Shared.deliver_all_once, Hlc by (done || by left). done.
    + by rewrite Shared.deliver_all_other.
    + intros ->. rewrite Shared.deliver_all_once, Hvk by (done || (right; by left)). cbn. unfold Alu.covered. by rewrite foldl_app.
  - change (owner_port_slot (slot _ _) _) with (Some (rm A)). unfold Analysis.port_write. rewrite Hrm. unfold Analysis.broadcast. rewrite Hbr.
    cbn [default]. pose proof Hd as Hcells. revert Hcells. distinct. intros Hcells.
    assert (∀ a, a ≠ lr A → a ∉ [lr A]) as Hout by (intros a Hne; rewrite not_elem_of_cons; split; [done|apply not_elem_of_nil]).
    split; cbn [Analysis.slots Analysis.hubs Analysis.cells]; rewrite ?app_nil_r; try done.
    + rewrite Shared.deliver_all_other; [done|]. by apply Hout.
    + rewrite Shared.deliver_all_once, Hlr; [done|nodup_lia|by left].
    + intros Hc. rewrite Shared.deliver_all_other; [by apply Hvk|]. by apply Hout.
Qed.

Lemma publish_all act cov A xs : ∀ x cmds ress, wired cov A x cmds ress →
  wired cov A (foldl (λ x m, publish (env_node act cov A) m x) x xs) (cmds ++ commands xs) (ress ++ results xs).
Proof.
  induction xs as [|m xs IH]; intros x cmds ress Hw; [by rewrite !app_nil_r|]. cbn [foldl].
  pose proof (IH _ _ _ (publish_wired act cov A x cmds ress m Hw)) as H. rewrite <- !app_assoc in H.
  assert (commands (m :: xs) = commands [m] ++ commands xs ∧ results (m :: xs) = results [m] ++ results xs) as [-> ->] by (by destruct m).
  exact H.
Qed.

(** The wildcard reaches every path. *)
Lemma star_matches p : Config.glob_match p "*" = true.
Proof.
  unfold Config.glob_match. apply Config.glob_inner_spec. change (list_of_string "*") with [Config.star].
  rewrite <- (app_nil_r (list_of_string p)). constructor. constructor.
Qed.

(** A value filed under the wildcard by the only write of its field is found
    from everywhere. *)
Lemma wild_get {T} `{TT : Config.Typed Any T} `{!Config.TypedLaws T} (v : T) fld bd (ws ws' : list (@Config.Write Any)) d p :
  Config.store d = Config.writes (ws ++ Config.Build_Write bd None "*" fld
    (Config.Build_Entry (Config.inject v) (Config.type_name (T := T)) (Config.type_id (T := T)) (Config.debug v)) :: ws') →
  Forall (λ x, Config.w_field x ≠ fld) (ws ++ ws') →
  ∃ t, Config.get (T := T) (Some p) EmptyString fld d = Done (Ok v, t).
Proof.
  set (x := Config.Build_Write _ _ _ _ _). intros Hd Hf. unfold Config.get. rewrite Hd. set (path := Config.resolve _ _).
  rewrite (Config.find_entry_most_specific (ws ++ x :: ws') path fld "*" (Config.w_prec x) (Config.w_entry x)).
  - cbn [Config.w_entry Config.entry_type_id Config.value x]. rewrite decide_False by naive_solver. rewrite Config.downcast_inject. by eexists.
  - apply star_matches.
  - apply (Config.winner_max ws x ws'). eapply Forall_impl; [exact Hf|]. intros y Hy [_ E]. by destruct (Hy E).
  - intros p' Hne _ Hw. exfalso. rewrite winner_absent in Hw; [by destruct Hw|]. apply Forall_app in Hf as [Hf1 Hf2].
    apply Forall_app. split; [|constructor; [by intros [E _]; apply Hne|]]; (eapply Forall_impl; [eassumption|naive_solver]).
Qed.

Context {TSL : Config.TypedLaws SeqHandle} {TBL : Config.TypedLaws BfmHandle}.

(** The writes of [build]. *)
Definition wild {T} `{Config.Typed Any T} (fld : string) (v : T) (d : Config.ConfigDb Any) : @Config.Write Any :=
  Config.Build_Write (Config.in_build d) None "*" fld
    (Config.Build_Entry (Config.inject v) (Config.type_name (T := T)) (Config.type_id (T := T)) (Config.debug v)).

Lemma filed_store m d : Config.store (filed m d) = Config.apply_write (Config.store d) (wild "SEQR" (seq_handle m) d).
Proof. done. Qed.
Lemma writes_snoc (ws : list (@Config.Write Any)) x : Config.apply_write (Config.writes ws) x = Config.writes (ws ++ [x]).
Proof. unfold Config.writes. by rewrite foldl_app. Qed.

Lemma seqr_filed (ws : list (@Config.Write Any)) m d p :
  Config.store d = Config.writes ws → Forall (λ x, Config.w_field x ≠ "SEQR"%string) ws →
  ∃ t, Config.get (T := SeqHandle) (Some p) EmptyString "SEQR" (filed m d) = Done (Ok (seq_handle m), t).
Proof.
  intros Hd Hf. eapply (wild_get (seq_handle m) "SEQR" _ ws []); [|by rewrite app_nil_r]. by rewrite filed_store, Hd, writes_snoc.
Qed.

Lemma filed_no_override (ws : list (@Config.Write Any)) m d req path :
  Config.store d = Config.writes ws → Forall (λ x, ∀ r, Config.w_field x ≠ override_key r) ws → lookup_override req path (filed m d) = None.
Proof.
  intros Hd Hf. apply (no_override (ws ++ [wild "SEQR" (seq_handle m) d])).
  - by rewrite filed_store, Hd, writes_snoc.
  - apply Forall_app. split; [eapply Forall_impl; [exact Hf|]; simpl; auto|]. by constructor.
Qed.

(** The elaborated environment, and no port left open. *)
Lemma env_elaborated k ctx w act cov :
  get_or ctx "IS_ACTIVE" Active_ (db w) = Done act → get_or ctx "WITH_COVERAGE" true (db w) = Done cov →
  (∀ req path, lookup_override req path (filed (3 + next w) (db w)) = None) →
  let a := bool_decide (act = Active_) in let A := addrs_of a cov (3 + next w) in
  ∃ w2, elaborate (S (S k)) (fst (env_default w)) ctx (snd (env_default w)) = (env_node a cov A, Done w2) ∧
    wired cov A (an w2) [] [] ∧ (db w2 = filed (3 + next w) (db w) ∧ started w2 = started w ∧ seqs w2 = seqs w) ∧
    (a = true → Analysis.slots (an w2) !! dp A ≫= binding = Some (q A)).
Proof.
  intros Ha Hc Hno. cbv zeta. destruct (env_built k ctx w act cov Ha Hc Hno) as (w1 & E1 & Hb & Hd & Hst & Hsq). cbv zeta in *.
  generalize dependent (addrs_of (bool_decide (act = Active_)) cov (3 + next w)). intros A E1 Hb.
  destruct (env_connected _ _ _ _ Hb) as (w2 & E2 & Hw & (Hd2 & Hst2 & Hsq2) & Hq). exists w2. unfold elaborate. rewrite E1.
  split; [|split_and!; [done|congruence..|done]].
  unfold Component.connect_all. cbn [Component.bottom_up].
  assert (∀ j, Component.visit_children (λ name c s, Component.bottom_up (S j) connect_hook c (Component.ctx_child ctx name) s)
    (env_node (bool_decide (act = Active_)) cov A) (Done w1) = (env_node (bool_decide (act = Active_)) cov A, Done w1)) as Hv.
  { intros j. destruct (bool_decide (act = Active_)), cov; reflexivity. }
  specialize (Hv k). cbn [Component.bottom_up] in Hv. rewrite Hv. unfold Component.call, connect_hook. cbn [node_name env_node exec_bind].
  rewrite decide_True by done. fold (env_node (bool_decide (act = Active_)) cov A). by rewrite E2.
Qed.

Lemma env_checks k act cov A ctx w : (act = true → Analysis.slots (an w) !! dp A ≫= binding = Some (q A)) →
  Component.check_connections bound_of (S (S k)) (env_node act cov A) ctx (Done w) = Ok tt.
Proof.
  intros Hq. assert (act = true → bound_of (Done w) (dp A) = true) as Hb.
  { intros Ht. specialize (Hq Ht). unfold bound_of, is_bound. destruct (Analysis.slots (an w) !! dp A) as [s|]; [|done]. simpl in Hq.
    rewrite Hq. done. }
  unfold Component.check_connections. enough (Component.unconnected_ports bound_of (S (S k)) (env_node act cov A) ctx (Done w) = []) as -> by done.
  destruct act, cov; cbn -[bound_of Component.ctx_child Component.ctx_path]; rewrite ?Hb by done; reflexivity.
Qed.


(** ** The tests around the environment *)

Inductive Test := RandomTest | MaxTest.
Definition test_name (t : Test) : string := match t with RandomTest => "RandomTest" | MaxTest => "MaxTest" end.
Definition stimulus (t : Test) : Seq := match t with RandomTest => RandomSeq | MaxTest => MaxSeq end.

(** A component with one child in a fixed slot. *)
Definition holder (ty l : string) (c : ENode) : ENode := mkNode ty OUnit [(l, FComp (Some c) false None)].
Definition test_tree (t : Test) (env : ENode) : ENode := holder (test_name t) "inner" (holder "BaseTest" "env" env).

Lemma build_holder k n ty l c ctx s s1 : build_hook n ctx s = (holder ty l c, s1) →
  Component.build_all db_of build_hook (S k) n ctx s =
  (let '(c', s') := Component.build_all db_of build_hook k c (Component.ctx_child ctx l) s1 in (holder ty l c', s')).
Proof.
  intros E. cbn [Component.build_all]. rewrite E. unfold resolve_children, holder, Component.visit_children. cbn.
  by destruct (Component.build_all db_of build_hook k c (Component.ctx_child ctx l) s1).
Qed.

Lemma connect_holder k ty l c ctx s : ty ≠ "AluEnv"%string →
  Component.connect_all (S k) connect_hook (holder ty l c) ctx s =
  (let '(c', s') := Component.connect_all k connect_hook c (Component.ctx_child ctx l) s in (holder ty l c', s')).
Proof.
  intros Hne. unfold Component.connect_all. cbn [Component.bottom_up]. unfold holder, Component.visit_children. cbn.
  destruct (Component.bottom_up k connect_hook c (Component.ctx_child ctx l) s) as [c' s']. cbn. unfold Component.call, connect_hook. cbn.
  by destruct s'; cbn; rewrite ?decide_False by done.
Qed.

Lemma start_holder k ty l c ctx s : ty ≠ "AluEnv"%string →
  Component.start_of_simulation_all (S k) start_hook (holder ty l c) ctx s =
  (let '(c', s') := Component.start_of_simulation_all k start_hook c (Component.ctx_child ctx l) s in (holder ty l c', s')).
Proof.
  intros Hne. unfold Component.start_of_simulation_all. cbn [Component.top_down]. unfold holder, Component.call, start_hook. cbn.
  assert ((w <-! s ;; (if decide (ty = "AluEnv"%string) then env_start ctx w else Done w)) = s) as -> by (destruct s; cbn; by rewrite ?decide_False by done).
  unfold Component.visit_children. cbn. by destruct (Component.top_down k _ c (Component.ctx_child ctx l) s).
Qed.

Lemma check_holder k ty l c ctx s : Component.unconnected_ports bound_of (S k) (holder ty l c) ctx s =
  Component.unconnected_ports bound_of k c (Component.ctx_child ctx l) s.
Proof. cbn. apply app_nil_r. Qed.

(** The world the environment is created in. *)
Definition env_world (t : Test) (w : World) : World :=
  with_db (file_bfm (bfm_handle (next w)) (db w))
    (bump (with_seqs (Overrides.set_seq_override "BaseSeq" (match t with RandomTest => "RandomSeq" | MaxTest => "MaxSeq" end) (stimulus t) (seqs w)) w)).

Lemma test_elaborated t k ctx w : (∃ hs, find_signals bfm_signals = Ok hs) →
  elaborate (S (S k)) (test_default (test_name t)) ctx w =
  (let '(env, s) := elaborate k (fst (env_default (env_world t w))) (Component.ctx_child (Component.ctx_child ctx "inner") "env")
                      (snd (env_default (env_world t w))) in (test_tree t env, s)).
Proof.
  intros [hs Hs]. unfold elaborate.
  rewrite (build_holder _ _ (test_name t) "inner" base_default ctx _
    (Done (with_seqs (Overrides.set_seq_override "BaseSeq" (match t with RandomTest => "RandomSeq" | MaxTest => "MaxSeq" end) (stimulus t) (seqs w)) w)))
    by (by destruct t).
  rewrite (build_holder _ _ "BaseTest" "env" (fst (env_default (env_world t w))) _ _ (Done (snd (env_default (env_world t w))))).
  2:{ unfold build_hook. cbn [node_name base_default]. rewrite decide_False, decide_True by done. unfold base_build, bfm_new. rewrite Hs. cbn [result_bind].
      by destruct (env_default _). }
  destruct (Component.build_all db_of build_hook k _ _ _) as [env1 s1]. rewrite !connect_holder by (by destruct t).
  by destruct (Component.connect_all k connect_hook env1 _ s1).
Qed.

Lemma test_panics t k ctx w e : find_signals bfm_signals = Err e →
  snd (elaborate (4 + k) (test_default (test_name t)) ctx w) = Panic "TinyALU signals".
Proof.
  intros Hs. unfold elaborate. change (4 + k) with (S (S (S (S k)))).
  rewrite (build_holder _ _ (test_name t) "inner" base_default ctx _
    (Done (with_seqs (Overrides.set_seq_override "BaseSeq" (match t with RandomTest => "RandomSeq" | MaxTest => "MaxSeq" end) (stimulus t) (seqs w)) w)))
    by (by destruct t).
  cbn [Component.build_all]. unfold build_hook at 1. cbn [node_name base_default]. rewrite decide_False, decide_True by done.
  unfold base_build, bfm_new. rewrite Hs. cbn. by destruct t.
Qed.

Lemma env_started k act cov A ctx w w3 : env_start ctx w = Done w3 →
  Component.start_of_simulation_all (S (S k)) start_hook (env_node act cov A) ctx (Done w) = (env_node act cov A, Done w3).
Proof.
  intros E. unfold Component.start_of_simulation_all. cbn [Component.top_down]. unfold Component.call at 1, start_hook at 1.
  cbn [exec_bind node_name env_node]. rewrite decide_True, E by done. destruct act, cov; reflexivity.
Qed.

(** The BFM the test filed is found by the environment. *)
Lemma bfm_found (ws : list (@Config.Write Any)) m b d p :
  Config.store d = Config.writes ws → Forall (λ x, Config.w_field x ≠ "BFM"%string) ws →
  ∃ t, Config.get (T := BfmHandle) (Some p) EmptyString "BFM" (filed m (file_bfm b d)) = Done (Ok b, t).
Proof.
  intros Hd Hf. eapply (wild_get b "BFM" (Config.in_build d) ws [wild "SEQR" (seq_handle m) (file_bfm b d)]).
  - rewrite filed_store. unfold file_bfm at 1. rewrite Config.set_is_write, Hd, !writes_snoc, <- app_assoc. done.
  - apply Forall_app. split; [done|]. by constructor.
Qed.

(** Both TinyALU tests elaborate and start: when the design has the eight
    signals, from any database without overrides, the test's tree is built down
    to the environment and connected, the connection check passes, start of
    simulation starts the tasks of the BFM the test created, exactly once, and
    the base sequence is built as the stimulus the test chose; when a signal is
    missing the test panics while it is built. *)
Theorem tests_start t k ctx w ws act cov :
  Config.store (db w) = Config.writes ws →
  Forall (λ x, Config.w_field x ≠ "SEQR"%string ∧ Config.w_field x ≠ "BFM"%string ∧ ∀ req, Config.w_field x ≠ override_key req) ws →
  let ectx := Component.ctx_child (Component.ctx_child ctx "inner") "env" in
  let d := file_bfm (bfm_handle (next w)) (db w) in
  get_or ectx "IS_ACTIVE" Active_ d = Done act → get_or ectx "WITH_COVERAGE" true d = Done cov →
  match find_signals bfm_signals with
  | Ok _ => ∃ env w2 w3,
      elaborate (4 + k) (test_default (test_name t)) ctx w = (test_tree t env, Done w2) ∧
      Component.check_connections bound_of (4 + k) (test_tree t env) ctx (Done w2) = Ok tt ∧
      Component.start_of_simulation_all (4 + k) start_hook (test_tree t env) ctx (Done w2) = (test_tree t env, Done w3) ∧
      started w3 = started w ++ [next w] ∧ an w3 = an w2 ∧
      Overrides.create_seq "BaseSeq" BaseSeq (seqs w3) = {| Overrides.inner := Some (stimulus t) |}
  | Err _ => snd (elaborate (4 + k) (test_default (test_name t)) ctx w) = Panic "TinyALU signals"
  end.
Proof.
  intros Hd Hf ectx d Ha Hc. destruct (find_signals bfm_signals) as [hs|e] eqn:Es; [|by eapply test_panics].
  assert (Config.store (db (env_world t w)) = Config.writes (ws ++ [wild "BFM" (bfm_handle (next w)) (db w)])) as Hd'.
  { change (db (env_world t w)) with d. unfold d, file_bfm. rewrite Config.set_is_write, Hd, writes_snoc. done. }
  destruct (env_elaborated k ectx (env_world t w) act cov Ha Hc) as (w2 & E & Hw & (Hd2 & Hst & Hsq) & Hq).
  { intros req path. eapply filed_no_override; [exact Hd'|]. apply Forall_app. split; [|by constructor].
    eapply Forall_impl; [exact Hf|]. naive_solver. }
  cbv zeta in *. set (A := addrs_of _ _ _) in *. set (a := bool_decide (act = Active_)) in *.
  destruct (bfm_found ws (3 + next (env_world t w)) (bfm_handle (next w)) (db w) (Component.ctx_path ectx) Hd) as [tr Hb].
  { eapply Forall_impl; [exact Hf|]. naive_solver. }
  exists (env_node a cov A), w2, {| an := an w2; db := db w2; next := next w2; started := started w2 ++ [next w]; seqs := seqs w2 |}. split_and!.
  - change (4 + k) with (S (S (S (S k)))). rewrite (test_elaborated t (S (S k)) ctx w) by eauto. unfold ectx in E. by rewrite E.
  - unfold Component.check_connections, test_tree. change (4 + k) with (S (S (S (S k)))). rewrite !check_holder.
    pose proof (env_checks k a cov A ectx w2 Hq) as Hck. unfold Component.check_connections in Hck. exact Hck.
  - unfold test_tree. change (4 + k) with (S (S (S (S k)))). rewrite !start_holder by (by destruct t). fold ectx.
    rewrite (env_started k a cov A ectx w2 {| an := an w2; db := db w2; next := next w2; started := started w2 ++ [next w]; seqs := seqs w2 |}); [done|]. unfold env_start. rewrite Hd2 at 1. cbn [db env_world with_db]. rewrite Hb. done.
  - cbn [started]. by rewrite Hst.
  - done.
  - cbn [seqs]. rewrite Hsq. unfold Overrides.create_seq, env_world. cbn [seqs with_db bump with_seqs].
    unfold Overrides.set_seq_override. by rewrite lookup_insert_eq.
Qed.
End Env.
End Env.

Module EnvWitnesses.
Import Factory Env.

(** What the database of these examples can hold. *)
Inductive Any := AActive (v : Active) | ABool (v : bool) | ASeqr (v : SeqHandle) | ABfm (v : BfmHandle) | AOver (v : @Override Own).
#[local] Instance typed_active : Config.Typed Any Active :=
  {| Config.type_id := 1; Config.type_name := "Active"; Config.debug := λ _, "Active"%string; Config.inject := AActive;
     Config.downcast := λ a, match a with AActive v => Some v | _ => None end |}.
#[local] Instance typed_bool : Config.Typed Any bool :=
  {| Config.type_id := 2; Config.type_name := "bool"; Config.debug := λ _, "bool"%string; Config.inject := ABool;
     Config.downcast := λ a, match a with ABool v => Some v | _ => None end |}.
#[local] Instance typed_seqr : Config.Typed Any SeqHandle :=
  {| Config.type_id := 3; Config.type_name := "Sequencer"; Config.debug := λ _, "Sequencer"%string; Config.inject := ASeqr;
     Config.downcast := λ a, match a with ASeqr v => Some v | _ => None end |}.
#[local] Instance typed_bfm : Config.Typed Any BfmHandle :=
  {| Config.type_id := 4; Config.type_name := "Rc<TinyAluBfm>"; Config.debug := λ _, "TinyAluBfm"%string; Config.inject := ABfm;
     Config.downcast := λ a, match a with ABfm v => Some v | _ => None end |}.
#[local] Instance typed_over : Config.Typed Any (@Override Own) :=
  {| Config.type_id := 5; Config.type_name := "Override"; Config.debug := debug_override; Config.inject := AOver;
     Config.downcast := λ a, match a with AOver v => Some v | _ => None end |}.
#[local] Instance typed_seqr_laws : Config.TypedLaws SeqHandle.
Proof. by split. Qed.
#[local] Instance typed_bfm_laws : Config.TypedLaws BfmHandle.
Proof. by split. Qed.

(** A test that wants no coverage. *)
Definition no_cov : @Config.Write Any :=
  Config.Build_Write false None "*" "WITH_COVERAGE" (Config.Build_Entry (ABool false) "bool" 2 "bool").
Definition wdb : Config.ConfigDb Any := {| Config.store := Config.writes [no_cov]; Config.tracing := false; Config.in_build := false |}.
Definition wworld : @World Any :=
  {| an := {| Tlm.Analysis.hubs := ∅; Tlm.Analysis.slots := ∅; Tlm.Analysis.cells := ∅ |}; db := wdb; next := 0; started := []; seqs := ∅ |}.
Definition wctx : Component.RustdvCtx := {| Component.path := Path.root "T"; Component.seed := 1 |}.
Definition wsignal (n : string) : Result string string := Ok n.


Lemma tests_start_witness :
  ∃ env (w2 w3 : @World Any), elaborate wsignal 4 (test_default "MaxTest") wctx wworld = (test_tree MaxTest env, Done w2) ∧ started w3 = [0] ∧
    Sequence.Overrides.create_seq "BaseSeq" BaseSeq (seqs w3) = {| Sequence.Overrides.inner := Some MaxSeq |}.
Proof.
  destruct (tests_start wsignal MaxTest 0 wctx wworld [no_cov] Active_ false) as (env & w2 & w3 & H1 & _ & _ & H4 & _ & H6).
  - reflexivity.
  - constructor; [|constructor]. split; [discriminate|]. split; [discriminate|]. intros req. discriminate.
  - vm_compute. reflexivity.
  - vm_compute. reflexivity.
  - exists env, w2, w3. split; [exact H1|]. split; [exact H4|exact H6].
Defined.

End EnvWitnesses.
