(* ===== verification/Errors.v ===== *)
(** * Errors: how a failure becomes the verdict of a test
    (rustdv-methodology/src/error.rs, config.rs, sequence.rs; the runner's
    scoring is [Runner.score]).

    A test body ends in a [TestError]; [?] converts what the framework's calls
    return into one.  A machine-readable cause, which is what [expect_error]
    looks at, comes with a configuration failure, with the elaboration check's
    unconnected ports, and with an error the test itself classifies. *)
From stdpp Require Import pretty.
From S2P Require Import Prelude Executor Config Factory Component Runner Values Handles.
Open Scope rustdv_scope.

Module Errors.

(** ** The errors and their texts *)

Definition dq : string := String (Ascii.ascii_of_nat 34) EmptyString.

(** [fmt::Display for ConfigError]. *)
Definition config_display (e : Config.ConfigError) : string :=
  match e with
  | Config.NotFound path field =>
      "ConfigDb: no value for " +:+ dq +:+ field +:+ dq +:+ " at " +:+ dq +:+ path +:+ dq +:+
      " (never set, path does not match, or the key is misspelled)"
  | Config.TypeMismatch path field stored requested =>
      "ConfigDb: " +:+ dq +:+ field +:+ dq +:+ " at " +:+ dq +:+ path +:+ dq +:+ " holds a " +:+ stored +:+
      ", but a " +:+ requested +:+ " was requested"
  end.

Inductive SeqError := seq_error (m : string).
Definition seq_display (e : SeqError) : string := let 'seq_error m := e in "sequence error: " +:+ m.
Definition seq_from_str (s : string) : SeqError := seq_error s.
Definition seq_from_config (e : Config.ConfigError) : SeqError := seq_error (config_display e).

(** [SeqCtx::seqr] of a sequence started without a sequencer. *)
Definition no_sequencer (name : string) : SeqError :=
  seq_error (name +:+ ": start_item in a virtual sequence — it was started without a sequencer").

(** ** Conversions to [TestError] *)

Definition te_from_str (s : string) : Component.TestError := Component.te_new s.
Definition te_from_handle (e : Gpi.HandleError) : Component.TestError := Component.te_new (Gpi.handle_error_to_string e).
Definition te_from_value (e : ValueError) : Component.TestError := Component.te_new (Gpi.value_error_to_string e).
Definition te_from_seq (e : SeqError) : Component.TestError := Component.te_new (seq_display e).
Definition te_from_task (e : Executor.TaskError) : Component.TestError := Component.te_new (Executor.display_error e).
Definition te_from_config (e : Config.ConfigError) : Component.TestError := Component.with_kind (config_display e) (Config.kind e).
Definition te_display (e : Component.TestError) : string := Component.msg e.

(** Where a failing test's error came from: one of the conversions, the
    elaboration check ([Component.check_connections]), or a call of
    [TestError::with_kind] in the test. *)
Inductive Cause :=
| CStr (m : string)
| CHandle (e : Gpi.HandleError)
| CValue (e : ValueError)
| CSeq (e : SeqError)
| CTask (e : Executor.TaskError)
| CConfig (e : Config.ConfigError)
| CPorts (missing : list string)
| CClassified (m k : string).
Definition to_test_error (c : Cause) : Component.TestError :=
  match c with
  | CStr m => te_from_str m
  | CHandle e => te_from_handle e
  | CValue e => te_from_value e
  | CSeq e => te_from_seq e
  | CTask e => te_from_task e
  | CConfig e => te_from_config e
  | CPorts missing => Component.with_kind (Component.missing_text missing) "tlm_unconnected_port"
  | CClassified m k => Component.with_kind m k
  end.
Definition text (c : Cause) : string :=
  match c with
  | CStr m => m
  | CHandle e => Gpi.handle_error_to_string e
  | CValue e => Gpi.value_error_to_string e
  | CSeq e => seq_display e
  | CTask e => Executor.display_error e
  | CConfig e => config_display e
  | CPorts missing => Component.missing_text missing
  | CClassified m _ => m
  end.

(** Every error has such a cause, and elaboration's is [CPorts]. *)
Lemma caused t : ∃ c, to_test_error c = t.
Proof. destruct t as [m [k|]]; [by exists (CClassified m k)|by exists (CStr m)]. Qed.
Lemma elaboration_cause {U : Set} {W} bound fuel (n : @Factory.Node U) ctx (w : W) e :
  Component.check_connections bound fuel n ctx w = Err e →
  e = to_test_error (CPorts (Component.unconnected_ports bound fuel n ctx w)) ∧ Component.unconnected_ports bound fuel n ctx w ≠ [].
Proof. unfold Component.check_connections. by destruct (Component.unconnected_ports _ _ _ _ _); intros [= <-]. Qed.



End Errors.

Module ErrorsWitnesses.
Import Errors.

Definition wreg : Runner.TestRegistration :=
  {| Runner.name := "t"; Runner.module_ := "m"; Runner.file := "t.rs"; Runner.line := 1; Runner.timeout := None; Runner.skip := false;
     Runner.expect_fail := false; Runner.expect_error := Some "config_not_found"%string |}.


End ErrorsWitnesses.
