(* ===== verification/Async.v ===== *)
(** * Async: asynchronous test code over the executor, the triggers and the
    phase hub.

    The other files model one component each and leave the code that uses it
    open.  Here the components are put together: a task is an [async] block, a
    [Code], whose calls are those of the framework; the compiler's state machine
    for it, suspended, is a [Fut]; polling it is a program of the executor
    ([poll_code], [poll_fut]), in which every trigger is polled by the model of
    triggers.rs or phase.rs and every other library future by the model of its
    own component.  [U] is what the tasks share besides the framework's state:
    queues, events, sequencers, a test's own cells.

    A [Code] awaits a trigger its constructor just made ([unpolled]):
    registrations exist only in a [Fut], which only polling makes, as in Rust.  A loop that never suspends would hang the
    simulator; [turns] bounds how often a loop starts over within one poll, and
    a poll that exceeds it is reported as a panic with a message of its own. *)
From S2P Require Import Prelude Words Values Signals Time PhaseHub Triggers Executor Combinators.

Module Async.
Import Combinators(Either, First, Second).

(** ** The state tasks share *)

(** The awaitables of triggers.rs and phase.rs. *)
Inductive Trigger : Set :=
| TTimer (t : Time.Timer)
| TEdge (e : Triggers.Edge)
| TNull (n : Triggers.NullTrigger)
| TPhase (p : PhaseHub.PhaseFut).

Section Async.
Context {B : Type} `{BigUint B} {F U : Type} {V : Set}.

Abbreviation WVal := (PhaseHub.WriteVal (LogicArray.LogicArray B) B F).
Abbreviation HubS := (@PhaseHub.Hub (LogicArray.LogicArray B) B F).

(** [tw]: simulated time, signal values and the cells of timers and edges;
    [hub]: the phase hub with its own cells and the write buffer;
    [eval_needed]: a value was put and the design has not been evaluated since;
    [finished]: [gpi::finish] was called. *)
Record Sim := {
  tw : Triggers.World;
  hub : HubS;
  reals : nat → option F;
  texts : nat → option string;
  eval_needed : bool;
  finished : bool;
  user : U;
}.
Implicit Types w : Sim.

Definition set_tw x w : Sim :=
  {| tw := x; hub := hub w; reals := reals w; texts := texts w; eval_needed := eval_needed w; finished := finished w; user := user w |}.
Definition set_hub x w : Sim :=
  {| tw := tw w; hub := x; reals := reals w; texts := texts w; eval_needed := eval_needed w; finished := finished w; user := user w |}.
Definition set_user x w : Sim :=
  {| tw := tw w; hub := hub w; reals := reals w; texts := texts w; eval_needed := eval_needed w; finished := finished w; user := x |}.
Definition set_eval_needed b w : Sim :=
  {| tw := tw w; hub := hub w; reals := reals w; texts := texts w; eval_needed := b; finished := finished w; user := user w |}.
Definition set_finished w : Sim :=
  {| tw := tw w; hub := hub w; reals := reals w; texts := texts w; eval_needed := eval_needed w; finished := true; user := user w |}.

Variable full_name : PhaseHub.WriteTarget → string.

(** ** Writing *)

(** A write through a typed handle: the handle's methods only take values of its
    own type. *)
Record Write := { to : PhaseHub.WriteTarget; val : WVal; val_typed : PhaseHub.typed to val = true }.

(** The words a value comes to on a signal of the handle's width. *)
Definition words_of (width : nat) (v : WVal) : Exec (list Signals.t_vpi_vecval) :=
  let h := {| Signals.size := width |} in
  match v with
  | PhaseHub.WBool x => Signals.set_bool h x
  | PhaseHub.WU8 x => Signals.set_u8 h x
  | PhaseHub.WU16 x => Signals.set_u16 h x
  | PhaseHub.WU32 x => Signals.set_u32 h x
  | PhaseHub.WU64 x => Signals.set_u64 h x
  | PhaseHub.WU128 x => Signals.set_u128 h x
  | PhaseHub.WBigInt x => Signals.set_bigint h x
  | PhaseHub.WLogic x => Signals.set_logic h x
  | PhaseHub.WReal _ | PhaseHub.WString _ => Panic "internal error: entered unreachable code: write target/value mismatch"
  end.

(** [apply_write]: the value reaches the simulator. *)
Definition put (t : PhaseHub.WriteTarget) (v : WVal) w : Exec Sim :=
  match t, v with
  | PhaseHub.TReal i, PhaseHub.WReal x =>
      Done {| tw := tw w; hub := hub w; reals := λ j, if Nat.eqb j i then Some x else reals w j; texts := texts w;
              eval_needed := true; finished := finished w; user := user w |}
  | PhaseHub.TString i, PhaseHub.WString x =>
      if has_nul x then Panic "scheduled string was validated"
      else Done {| tw := tw w; hub := hub w; reals := reals w; texts := λ j, if Nat.eqb j i then Some x else texts w j;
              eval_needed := true; finished := finished w; user := user w |}
  | PhaseHub.TLogic (i, width), v =>
      match words_of width v with
      | Done ws => Done (set_eval_needed true (set_tw (Triggers.set_val i (Some ws) (tw w)) w))
      | Panic m => Panic m
      end
  | _, _ => Panic "internal error: entered unreachable code: write target/value mismatch"
  end.

(** What the hub did, carried out in order: writes reach the simulator, wakers
    are woken.  A write that panics ends it. *)
Fixpoint perform (l : list PhaseHub.Act) (ws : list Waker) w : Sim * list Waker * option string :=
  match l with
  | [] => (w, ws, None)
  | PhaseHub.AWake i :: r => perform r (ws ++ [i]) w
  | PhaseHub.AWrite t v :: r => match put t v w with Done w' => perform r ws w' | Panic m => (w, ws, Some m) end
  end.

Definition clear_acts (h : HubS) : HubS :=
  {| PhaseHub.phase := PhaseHub.phase h; PhaseHub.waiters := PhaseHub.waiters h; PhaseHub.cb := PhaseHub.cb h;
     PhaseHub.writes := PhaseHub.writes h; PhaseHub.trigs := PhaseHub.trigs h; PhaseHub.next := PhaseHub.next h;
     PhaseHub.acts := [] |}.
Definition flush w : Sim * list Waker * option string :=
  perform (PhaseHub.acts (hub w)) [] (set_hub (clear_acts (hub w)) w).

(** A call on the hub from a task. *)
Definition with_hub (r : Exec HubS) w : Exec (Sim * list Waker * unit) :=
  match r with
  | Done h => match flush (set_hub h w) with (w', ws, None) => Done (w', ws, tt) | (_, _, Some m) => Panic m end
  | Panic m => Panic m
  end.

(** [set_*]: scheduled; [set_*_now]: at once. *)
Definition schedule (x : Write) w : Exec (Sim * list Waker * unit) :=
  with_hub (PhaseHub.schedule full_name (to x) (val x) (hub w)) w.
Definition set_now (x : Write) w : Exec (Sim * list Waker * unit) :=
  match PhaseHub.deny_write_in_read_only full_name (to x) (hub w) with
  | Done _ => match put (to x) (val x) w with Done w' => Done (w', [], tt) | Panic m => Panic m end
  | Panic m => Panic m
  end.

(** ** Triggers *)

Definition take_woken (x : Triggers.World) : Triggers.World * list Waker :=
  ({| Triggers.now := Triggers.now x; Triggers.vals := Triggers.vals x; Triggers.trigs := Triggers.trigs x;
      Triggers.regs := Triggers.regs x; Triggers.next := Triggers.next x; Triggers.woken := [] |}, Triggers.woken x).

Definition with_tw (x : Triggers.World) w : Sim * list Waker := let '(x', ws) := take_woken x in (set_tw x' w, ws).

Definition poll_trigger (t : Trigger) (cx : Waker) w : Exec (Sim * list Waker * (Trigger * Poll unit)) :=
  match t with
  | TTimer t => let '(x, t', r) := Triggers.poll_timer t cx (tw w) in
      let '(w', ws) := with_tw x w in Done (w', ws, (TTimer t', r))
  | TEdge e => let '(x, e', r) := Triggers.poll_edge e cx (tw w) in
      let '(w', ws) := with_tw x w in Done (w', ws, (TEdge e', r))
  | TNull n => let '(x, n', r) := Triggers.poll_null n cx (tw w) in
      let '(w', ws) := with_tw x w in Done (w', ws, (TNull n', r))
  | TPhase p =>
      match PhaseHub.poll_phase p cx (hub w) with
      | Done (h, p', r) => Done (set_hub h w, [], (TPhase p', r))
      | Panic m => Panic m
      end
  end.

(** The trigger as its constructor makes it. *)
Definition unpolled (t : Trigger) : Trigger :=
  match t with
  | TTimer t => TTimer {| Time.t_steps := Time.t_steps t; Time.t_shared := None |}
  | TEdge e => TEdge (Triggers.edge_new (Triggers.sig e) (Triggers.kind e))
  | TNull _ => TNull {| Triggers.yielded := false |}
  | TPhase p => TPhase (PhaseHub.phase_fut (PhaseHub.kind p))
  end.

Definition drop_trigger (t : Trigger) w : Sim :=
  match t with
  | TTimer t => match Time.t_shared t with Some a => set_tw (Triggers.drop_cell a (tw w)) w | None => w end
  | TEdge e => match Triggers.e_shared e with Some a => set_tw (Triggers.drop_cell a (tw w)) w | None => w end
  | TNull _ => w
  | TPhase p => set_hub (PhaseHub.drop_phase p (hub w)) w
  end.

(** ** Asynchronous code *)

Inductive Code : Set → Type :=
| Ret {A : Set} (a : A) : Code A
| Bind {A C : Set} (c : Code A) (k : A → Code C) : Code C
| Throw {A : Set} (msg : string) : Code A                              (* panic!, assert!, expect *)
| Read {A : Set} (f : Sim → A) : Code A                                (* a look at signals, time, phase *)
| Call {A : Set} (f : U → Exec (U * list Waker * A)) : Code A          (* a synchronous call on shared objects *)
| Set_ (x : Write) : Code unit                                         (* scheduled *)
| SetNow (x : Write) : Code unit                                       (* at once *)
| Finish : Code unit                                                   (* gpi::finish *)
| Wait (t : Trigger) : Code unit                                       (* awaiting a trigger *)
| Await {S A : Set} (poll : S → Waker → U → Exec (U * list Waker * S * Poll A))
    (drop : S → U → U * list Waker) (s : S) : Code A                   (* awaiting another library future *)
| Spawn (c : Code V) (name : option string) : Code TaskId
| Cancel (id : TaskId) : Code unit
| CancelAfter (watermark : TaskId) : Code unit
| Watermark : Code TaskId
| StateOf (id : TaskId) : Code Executor.TaskState
| ResultOf (id : TaskId) : Code (Result V Executor.TaskError)
| Join (id : TaskId) : Code (Result V Executor.TaskError)              (* awaiting a task handle *)
| Reported : Code (list (bool * string))
| RunIdle : Code unit                                                  (* executor::current().run_until_idle() *)
| First2 {A C : Set} (a : Code A) (b : Code C) : Code (Either A C)
| Join2 {A C : Set} (a : Code A) (b : Code C) : Code (A * C)
| JoinAll {A : Set} (l : list (Code A)) : Code (list A)
| Loop {S A : Set} (body : S → Code (S + A)) (s : S) : Code A          (* continue with a state, or break *)
| Scoped {A : Set} (drop : U → U * list Waker) (c : Code A) : Code A   (* a guard alive in [c] *)
| TryPoll {A : Set} (c : Code A) : Code (Result (option A) string).    (* [catch_unwind] of one poll of a future, then dropped *)

(** The same, suspended. *)
Inductive Fut : Set → Type :=
| FStart {A : Set} (c : Code A) : Fut A                                (* not polled yet *)
| FWait (t : Trigger) : Fut unit
| FAwait {S A : Set} (poll : S → Waker → U → Exec (U * list Waker * S * Poll A))
    (drop : S → U → U * list Waker) (s : S) : Fut A
| FJoin (id : TaskId) : Fut (Result V Executor.TaskError)
| FBind {A C : Set} (f : Fut A) (k : A → Code C) : Fut C
| FFirst2 {A C : Set} (a : Fut A) (b : Fut C) : Fut (Either A C)
| FJoin2 {A C : Set} (a : Fut A) (b : Fut C) : Fut (A * C)
| FJoin2L {A C : Set} (a : A) (b : Fut C) : Fut (A * C)                (* the first has finished *)
| FJoin2R {A C : Set} (a : Fut A) (b : C) : Fut (A * C)
| FJoinAll {A : Set} (l : list (Fut A + A)) : Fut (list A)
| FScoped {A : Set} (drop : U → U * list Waker) (f : Fut A) : Fut A.

Abbreviation Prog := (@Executor.Prog (Fut V) Sim V).
Abbreviation St := (@Executor.ExecInner (Fut V) Sim V).

(** ** Dropping *)

Definition on_user (f : U → U * list Waker) w : Sim * list Waker := let '(u, ws) := f (user w) in (set_user u w, ws).
Definition seq_drop (f g : Sim → Sim * list Waker) w : Sim * list Waker :=
  let '(w1, ws1) := f w in let '(w2, ws2) := g w1 in (w2, ws1 ++ ws2).

Fixpoint drop {A : Set} (f : Fut A) (w : Sim) {struct f} : Sim * list Waker :=
  match f with
  | FStart _ | FJoin _ => (w, [])
  | FWait t => (drop_trigger t w, [])
  | FAwait _ d s => on_user (d s) w
  | FBind f _ => drop f w
  | FFirst2 a b | FJoin2 a b => seq_drop (drop a) (drop b) w
  | FJoin2L _ b => drop b w
  | FJoin2R a _ => drop a w
  | FJoinAll l =>
      (fix go l w := match l with
        | [] => (w, [])
        | inl f :: r => seq_drop (drop f) (go r) w
        | inr _ :: r => go r w
        end) l w
  | FScoped d f => seq_drop (drop f) (on_user d) w
  end.

Fixpoint drop_all {A : Set} (l : list (Fut A + A)) (w : Sim) : Sim * list Waker :=
  match l with
  | [] => (w, [])
  | inl f :: r => seq_drop (drop f) (drop_all r) w
  | inr _ :: r => drop_all r w
  end.

(** ** Polling *)

Variable turns : nat.

Definition wakes (ws : list Waker) (k : Prog) : Prog := foldr Executor.PWake k ws.

(** A call on the shared state; its panic goes to [kp]. *)
Definition act {X : Type} (f : Sim → Exec (Sim * list Waker * X)) (k : X → Prog) (kp : string → Prog) : Prog :=
  Executor.PGet (λ w, match f w with
    | Done (w', ws, x) => Executor.PSet w' (wakes ws (k x))
    | Panic m => kp m
    end).
Definition dropping (d : Sim → Sim * list Waker) (k : Prog) : Prog :=
  Executor.PGet (λ w, let '(w', ws) := d w in Executor.PSet w' (wakes ws k)).

Definition on_shared {A : Type} (f : U → Exec (U * list Waker * A)) w : Exec (Sim * list Waker * A) :=
  match f (user w) with Done (u, ws, a) => Done (set_user u w, ws, a) | Panic m => Panic m end.

(** A trigger is polled; a ready one is dropped at the end of its [await]. *)
Definition step_trigger (t : Trigger) (cx : Waker) (k : Fut unit + unit → Prog) (kp : string → Prog) : Prog :=
  act (poll_trigger t cx) (λ '(t', r),
    match r with
    | Ready _ => dropping (λ w, (drop_trigger t' w, [])) (k (inr tt))
    | Pending => k (inl (FWait t'))
    end) kp.

(** Any other library future; when it panics it is dropped. *)
Definition step_await {S A : Set} (p : S → Waker → U → Exec (U * list Waker * S * Poll A)) (d : S → U → U * list Waker)
    (s : S) (cx : Waker) (k : Fut A + A → Prog) (kp : string → Prog) : Prog :=
  act (on_shared (λ u, match p s cx u with Done (u', ws, s', r) => Done (u', ws, (s', r)) | Panic m => Panic m end))
    (λ '(s', r), match r with
      | Ready a => dropping (on_user (d s')) (k (inr a))
      | Pending => k (inl (FAwait p d s'))
      end) (λ m, dropping (on_user (d s)) (kp m)).

Definition step_join (id : TaskId) (k : Fut (Result V Executor.TaskError) + Result V Executor.TaskError → Prog) : Prog :=
  Executor.PJoin id (λ r, match r with Ready x => k (inr x) | Pending => k (inl (FJoin id)) end).

(** How a loop goes on once its body has finished. *)
Definition again {S A : Set} (body : S → Code (S + A)) (x : S + A) : Code A :=
  match x with inl s => Loop body s | inr a => Ret a end.

(** The results of [join_all] when every future has finished. *)
Fixpoint all_done {A : Set} (l : list (Fut A + A)) : option (list A) :=
  match l with
  | [] => Some []
  | inr a :: r => match all_done r with Some x => Some (a :: x) | None => None end
  | inl _ :: _ => None
  end.
Definition joined {A : Set} (l : list (Fut A + A)) : Fut (list A) + list A :=
  match all_done l with Some x => inr x | None => inl (FJoinAll l) end.

Definition hung : string := "a loop of the task did not suspend".

Fixpoint poll_code {A : Set} (c : Code A) (cx : Waker) {struct c} : (Fut A + A → Prog) → (string → Prog) → Prog :=
  match c in Code A return (Fut A + A → Prog) → (string → Prog) → Prog with
  | Ret a => λ k _, k (inr a)
  | Bind c g => λ k kp, poll_code c cx (λ r,
      match r with inl f => k (inl (FBind f g)) | inr a => poll_code (g a) cx k kp end) kp
  | Throw m => λ _ kp, kp m
  | Read f => λ k _, Executor.PGet (λ w, k (inr (f w)))
  | Call f => λ k kp, act (on_shared f) (λ a, k (inr a)) kp
  | Set_ x => λ k kp, act (schedule x) (λ _, k (inr tt)) kp
  | SetNow x => λ k kp, act (set_now x) (λ _, k (inr tt)) kp
  | Finish => λ k _, dropping (λ w, (set_finished w, [])) (k (inr tt))
  | Wait t => λ k kp, step_trigger (unpolled t) cx k kp
  | Await p d s => λ k kp, step_await p d s cx k kp
  | Spawn c n => λ k _, Executor.PSpawn (FStart c) n (λ id, k (inr id))
  | Cancel id => λ k _, Executor.PCancel id (k (inr tt))
  | CancelAfter m => λ k _, Executor.PCancelAfter m (k (inr tt))
  | Watermark => λ k _, Executor.PWatermark (λ id, k (inr id))
  | StateOf id => λ k _, Executor.PState id (λ st, k (inr st))
  | ResultOf id => λ k _, Executor.PResult id (λ r, k (inr r))
  | Join id => λ k _, step_join id k
  | Reported => λ k _, Executor.PReported (λ l, k (inr l))
  | RunIdle => λ k _, Executor.PRunIdle (k (inr tt))
  | First2 a b => λ k kp, poll_code a cx (λ ra,
      match ra with
      | inr x => k (inr (First x))
      | inl fa => poll_code b cx (λ rb,
          match rb with
          | inr y => dropping (drop fa) (k (inr (Second y)))
          | inl fb => k (inl (FFirst2 fa fb))
          end) (λ m, dropping (drop fa) (kp m))
      end) kp
  | Join2 a b => λ k kp, poll_code a cx (λ ra,
      poll_code b cx (λ rb,
        k (match ra, rb with
           | inr x, inr y => inr (x, y)
           | inr x, inl fb => inl (FJoin2L x fb)
           | inl fa, inr y => inl (FJoin2R fa y)
           | inl fa, inl fb => inl (FJoin2 fa fb)
           end))
        (λ m, match ra with inl fa => dropping (drop fa) (kp m) | inr _ => kp m end)) kp
  | JoinAll l => λ k kp,
      (fix pass l (acc : list (Fut _ + _)) : Prog := match l with
        | [] => k (joined (reverse acc))
        | c :: r => poll_code c cx (λ x, pass r (x :: acc)) (λ m, dropping (drop_all (reverse acc)) (kp m))
        end) l []
  | Loop body s => λ k kp,
      (fix go n s : Prog := match n with
        | O => kp hung
        | S n => poll_code (body s) cx (λ r,
            match r with
            | inl f => k (inl (FBind f (again body)))
            | inr (inl s') => go n s'
            | inr (inr a) => k (inr a)
            end) kp
        end) turns s
  | Scoped d c => λ k kp, poll_code c cx (λ r,
      match r with inl f => k (inl (FScoped d f)) | inr a => dropping (on_user d) (k (inr a)) end)
      (λ m, dropping (on_user d) (kp m))
  | TryPoll c => λ k _, poll_code c cx (λ r,
      match r with inl f => dropping (drop f) (k (inr (Ok None))) | inr a => k (inr (Ok (Some a))) end)
      (λ m, k (inr (Err m)))
  end.

Fixpoint poll_fut {A : Set} (f : Fut A) (cx : Waker) {struct f} : (Fut A + A → Prog) → (string → Prog) → Prog :=
  match f in Fut A return (Fut A + A → Prog) → (string → Prog) → Prog with
  | FStart c => λ k kp, poll_code c cx k kp
  | FWait t => λ k kp, step_trigger t cx k kp
  | FAwait p d s => λ k kp, step_await p d s cx k kp
  | FJoin id => λ k _, step_join id k
  | FBind f g => λ k kp, poll_fut f cx (λ r,
      match r with inl f' => k (inl (FBind f' g)) | inr a => poll_code (g a) cx k kp end) kp
  | FFirst2 a b => λ k kp, poll_fut a cx (λ ra,
      match ra with
      | inr x => dropping (drop b) (k (inr (First x)))
      | inl fa => poll_fut b cx (λ rb,
          match rb with
          | inr y => dropping (drop fa) (k (inr (Second y)))
          | inl fb => k (inl (FFirst2 fa fb))
          end) (λ m, dropping (drop fa) (kp m))
      end) (λ m, dropping (drop b) (kp m))
  | FJoin2 a b => λ k kp, poll_fut a cx (λ ra,
      poll_fut b cx (λ rb,
        k (match ra, rb with
           | inr x, inr y => inr (x, y)
           | inr x, inl fb => inl (FJoin2L x fb)
           | inl fa, inr y => inl (FJoin2R fa y)
           | inl fa, inl fb => inl (FJoin2 fa fb)
           end))
        (λ m, match ra with inl fa => dropping (drop fa) (kp m) | inr _ => kp m end)) (λ m, dropping (drop b) (kp m))
  | FJoin2L x b => λ k kp, poll_fut b cx (λ rb,
      k (match rb with inr y => inr (x, y) | inl fb => inl (FJoin2L x fb) end)) kp
  | FJoin2R a y => λ k kp, poll_fut a cx (λ ra,
      k (match ra with inr x => inr (x, y) | inl fa => inl (FJoin2R fa y) end)) kp
  | FJoinAll l => λ k kp,
      (fix pass l (acc : list (Fut _ + _)) : Prog := match l with
        | [] => k (joined (reverse acc))
        | inr a :: r => pass r (inr a :: acc)
        | inl f :: r => poll_fut f cx (λ x, pass r (x :: acc))
            (λ m, dropping (drop_all (reverse acc)) (dropping (drop_all r) (kp m)))
        end) l []
  | FScoped d f => λ k kp, poll_fut f cx (λ r,
      match r with inl f => k (inl (FScoped d f)) | inr a => dropping (on_user d) (k (inr a)) end)
      (λ m, dropping (on_user d) (kp m))
  end.

(** What the executor polls: a task whose future is [f]. *)
Definition poll (f : Fut V) (cx : Waker) : Prog :=
  poll_fut f cx (λ r, match r with inl f' => Executor.PPending f' | inr v => Executor.PReady v end) Executor.PPanic.

End Async.
End Async.
