(* ===== verification/Host.v ===== *)
(** * Host: the simulator side of the composed system.

    [timer_fires], [edge_calls], [rw_calls], [ro_calls] and [nt_calls] are the
    closures that triggers.rs and phase.rs register, each draining the executor;
    [step] lets a simulator call them whenever VPI allows it, put values and
    advance time, and is what the theorems about every simulator quantify over.
    A callback is a step of its own: none is delivered inside a drain or inside
    a call the bench makes into the simulator, which is how the shipped host and
    Verilator behave.

    [settle] and [main] are the event loop of src/sim/verilator_main.cpp, the
    host the framework ships for Verilated designs: the design is [eval] and
    [rtl_deadline], and Verilator's callback queues are VPI's: callbacks of one
    reason are called in the order they were registered, those registered
    meanwhile wait for the next round, a value change is reported once. *)
From stdpp Require Import sorting.
From S2P Require Import Prelude Words Values Signals Time PhaseHub Triggers Executor Combinators Async.
Local Open Scope Z_scope.

(** [step] at most [p] times, until it answers. *)
Fixpoint iterate {S R : Type} (p : positive) (step : S → S + R) (s : S) : S + R :=
  let twice q s := match iterate q step s with inl s' => iterate q step s' | inr r => inr r end in
  match p with
  | xH => step s
  | xO q => twice q s
  | xI q => match step s with inl s' => twice q s' | inr r => inr r end
  end.

Module Host.
Import Async.

Section Callbacks.
Context {B : Type} `{BigUint B} {F U : Type} {V : Set}.
Variable full_name : PhaseHub.WriteTarget → string.
Variable key_order : list TaskId → list TaskId.
Variables turns fuel : nat.

Abbreviation SimS := (@Sim B F U).
Abbreviation Ex := (@Executor.ExecInner (@Fut B F U V V) SimS V).
Implicit Types s : Ex.

Definition drain s : option Ex := Executor.run_until_idle (poll full_name turns) drop key_order fuel s.
Definition wake_world (x : SimS * list Waker) s : Ex := Executor.wake_all x.2 (Executor.set_world x.1 s).
Definition sim s : SimS := Executor.world s.
Definition on_sim (f : SimS → SimS) s : Ex := Executor.set_world (f (sim s)) s.

(** The trampoline catches a panic of a closure and tells the panic sink. *)
Definition caught (m : string) s : Ex := Executor.report true ("panic in simulator callback: " +:+ m) s.

(** ** The closures *)

Definition timer_fires (a : nat) s : option Ex :=
  drain (wake_world (with_tw (Triggers.timer_callback a (tw (sim s))) (sim s)) s).

Definition edge_calls (a : nat) (sg : Triggers.Sig) (k : Triggers.EdgeKind) s : option Ex :=
  match Triggers.trigs (tw (sim s)) !! a with
  | Some t =>
      if PhaseHub.fired t then Some s
      else if Triggers.edge_hit (B:=B) sg k (tw (sim s))
      then drain (wake_world (with_tw (Triggers.fire_cell a (tw (sim s))) (sim s)) s)
      else Some s
  | None => Some s
  end.

Fixpoint apply_writes (l : list (PhaseHub.WriteTarget * _)) (w : SimS) : SimS * option string :=
  match l with
  | [] => (w, None)
  | (t, v) :: r => match put t v w with Done w' => apply_writes r w' | Panic m => (w, Some m) end
  end.

Definition fire_phase (k : PhaseHub.PhaseKind) (w : SimS) : SimS * list Waker :=
  let '(w', ws, _) := flush (set_hub (PhaseHub.fire_waiters k (hub w)) w) in (w', ws).
Definition set_phase (p : PhaseHub.SimPhase) (w : SimS) : SimS := set_hub (PhaseHub.set_phase p (hub w)) w.
Definition take_cb (k : PhaseHub.PhaseKind) (w : SimS) : SimS := set_hub (PhaseHub.set_cb k false (hub w)) w.

Definition rw_calls s : option Ex :=
  let w0 := set_phase PhaseHub.ReadWrite (take_cb PhaseHub.KReadWrite (sim s)) in
  match apply_writes (PhaseHub.writes (hub w0)) (set_hub (PhaseHub.set_writes [] (hub w0)) w0) with
  | (w1, Some m) => Some (caught m (Executor.set_world w1 s))
  | (w1, None) =>
      match drain (wake_world (fire_phase PhaseHub.KReadWrite w1) s) with
      | Some s' => Some (on_sim (set_phase PhaseHub.Normal) s')
      | None => None
      end
  end.
Definition ro_calls s : option Ex :=
  match drain (wake_world (fire_phase PhaseHub.KReadOnly
          (set_phase PhaseHub.ReadOnly (take_cb PhaseHub.KReadOnly (sim s)))) s) with
  | Some s' => Some (on_sim (set_phase PhaseHub.Normal) s')
  | None => None
  end.
Definition nt_calls s : option Ex :=
  drain (wake_world (fire_phase PhaseHub.KNextTimeStep (take_cb PhaseHub.KNextTimeStep (sim s))) s).

Definition phase_calls (k : PhaseHub.PhaseKind) s : option Ex :=
  match k with
  | PhaseHub.KReadWrite => rw_calls s
  | PhaseHub.KReadOnly => ro_calls s
  | PhaseHub.KNextTimeStep => nt_calls s
  end.

(** ** Any simulator *)

Definition set_vals (f : nat → Signals.VpiValue) (w : SimS) : SimS :=
  let x := tw w in
  set_tw {| Triggers.now := Triggers.now x; Triggers.vals := f; Triggers.trigs := Triggers.trigs x;
            Triggers.regs := Triggers.regs x; Triggers.next := Triggers.next x; Triggers.woken := Triggers.woken x |} w.
Definition set_time (t : Z) (w : SimS) : SimS := set_tw (Triggers.set_now t (tw w)) w.

Inductive step : Ex → Ex → Prop :=
| step_timer s a s' : Triggers.regs (tw (sim s)) !! a = Some (Triggers.RTimer (Triggers.now (tw (sim s)))) →
    timer_fires a s = Some s' → step s s'
| step_edge s a sg k s' : Triggers.regs (tw (sim s)) !! a = Some (Triggers.REdge sg k) →
    edge_calls a sg k s = Some s' → step s s'
| step_phase s k s' : PhaseHub.cb (hub (sim s)) k = true → phase_calls k s = Some s' → step s s'
| step_vals s f b : step s (on_sim (λ w, set_eval_needed b (set_vals f w)) s)
| step_advance s t : Triggers.now (tw (sim s)) < t →
    (∀ a due, Triggers.regs (tw (sim s)) !! a = Some (Triggers.RTimer due) → t ≤ due) →
    step s (on_sim (set_time t) s).

(** ** The host of verilator_main.cpp *)

Context {D : Type}.
Variable eval : Z → D → (nat → Signals.VpiValue) → D * (nat → Signals.VpiValue).
Variable rtl_deadline : D → option Z.      (* [eventsPending], [nextTimeSlot] *)
Variable signals : nat.                    (* signals are numbered below this *)
(** The order in which a simulator calls the callbacks of one round of value
    changes, given in the order of their registration; VPI leaves it open. *)
Variable order : list nat → list nat.

(** [seen]: the values as the last round of value-change callbacks left them. *)
Record Hosted := { ex : Ex; dut : D; seen : nat → Signals.VpiValue }.
Implicit Types h : Hosted.
Definition with_ex s h : Hosted := {| ex := s; dut := dut h; seen := seen h |}.

(** Registrations of one kind in the order they were made. *)
Definition registered (p : Triggers.Reg → bool) s : list nat :=
  merge_sort Nat.le (omap (λ '(a, r), if p r then Some a else None) (map_to_list (Triggers.regs (tw (sim s))))).

(** A list of callbacks, one after the other. *)
Definition call_each (call : nat → Ex → option Ex) (l : list nat) s : option Ex :=
  foldl (λ o a, match o with Some s => call a s | None => None end) (Some s) l.

Definition callTimedCbs s : option Ex :=
  call_each (λ a s, match Triggers.regs (tw (sim s)) !! a with
    | Some (Triggers.RTimer d) => if d =? Triggers.now (tw (sim s)) then timer_fires a s else Some s
    | _ => Some s                                    (* removed meanwhile *)
    end) (registered (λ r, match r with Triggers.RTimer d => d =? Triggers.now (tw (sim s)) | _ => false end) s) s.

Definition changed h (r : Triggers.Reg) : bool :=
  match r with
  | Triggers.REdge sg _ => negb (bool_decide (Triggers.vals (tw (sim (ex h))) (Triggers.sid sg) = seen h (Triggers.sid sg)))
  | _ => false
  end.
Definition callValueCbs h : option Hosted :=
  let vals := Triggers.vals (tw (sim (ex h))) in
  match call_each (λ a s, match Triggers.regs (tw (sim s)) !! a with
    | Some (Triggers.REdge sg k) => edge_calls a sg k s
    | _ => Some s
    end) (order (registered (changed h) (ex h))) (ex h) with
  | Some s => Some {| ex := s; dut := dut h; seen := vals |}
  | None => None
  end.

Definition callCbs (k : PhaseHub.PhaseKind) s : option Ex :=
  if PhaseHub.cb (hub (sim s)) k then phase_calls k s else Some s.

(** A finite table of the values, so that looking one up stays cheap. *)
Definition tabulate (f : nat → Signals.VpiValue) : nat → Signals.VpiValue :=
  let l := map f (seq 0 signals) in λ i, match l !! i with Some v => v | None => None end.

(** [clearEvalNeeded] and [eval]. *)
Definition eval_dut h : Hosted :=
  let x := tw (sim (ex h)) in
  let '(d, vals) := eval (Triggers.now x) (dut h) (Triggers.vals x) in
  {| ex := on_sim (λ w, set_eval_needed false (set_vals (tabulate vals) w)) (ex h); dut := d; seen := seen h |}.

Inductive Trouble := NotSettled | Backwards | TaskHangs.

(** One iteration of [settle]: go round again, or settled. *)
Definition settle_once h : Hosted + (Hosted + Trouble) :=
  match callValueCbs (eval_dut h) with
  | None => inr (inr TaskHangs)
  | Some h1 =>
      match callCbs PhaseHub.KReadWrite (ex h1) with
      | None => inr (inr TaskHangs)
      | Some s2 =>
          if eval_needed (sim s2) || PhaseHub.cb (hub (sim s2)) PhaseHub.KReadWrite then inl (with_ex s2 h1)
          else match callCbs PhaseHub.KReadOnly s2 with
               | Some s3 => inr (inl (with_ex s3 h1))
               | None => inr (inr TaskHangs)
               end
      end
  end.
Definition kSettleLimit : positive := 100000.
Definition settle h : Hosted + Trouble :=
  match iterate kSettleLimit settle_once h with inr r => r | inl _ => inr NotSettled end.

(** [cbNextDeadline]. *)
Definition earliest (o : option Z) (t : Z) : option Z := Some (match o with Some d => Z.min d t | None => t end).
Definition vpi_deadline s : option Z :=
  foldl (λ o '(_, r), match r with Triggers.RTimer d => earliest o d | _ => o end) None
    (map_to_list (Triggers.regs (tw (sim s)))).
Definition deadline h : option Z :=
  match rtl_deadline (dut h) with Some d => earliest (vpi_deadline (ex h)) d | None => vpi_deadline (ex h) end.

(** One turn of the loop of [main]; it ends with the exit status' trouble. *)
Definition turn h : Hosted + (Hosted * option Trouble) :=
  match callTimedCbs (ex h) with
  | None => inr (h, Some TaskHangs)
  | Some s1 =>
      match callCbs PhaseHub.KNextTimeStep s1 with
      | None => inr (h, Some TaskHangs)
      | Some s2 =>
          match settle (with_ex s2 h) with
          | inr t => inr (with_ex s2 h, Some t)
          | inl h3 =>
              if finished (sim (ex h3)) then inr (h3, None)
              else match deadline h3 with
                   | None => inr (h3, None)
                   | Some d =>
                       if d <? Triggers.now (tw (sim (ex h3))) then inr (h3, Some Backwards)
                       else inl (with_ex (on_sim (set_time d) (ex h3)) h3)
                   end
          end
      end
  end.

(** [main] after start-up: at most [p] turns. *)
Definition main (p : positive) h : Hosted + (Hosted * option Trouble) :=
  if finished (sim (ex h)) then inr (h, None) else iterate p turn h.
End Callbacks.
End Host.
