(* ===== verification/Kit.v ===== *)
(** * Kit: what test code calls, as asynchronous code.

    The async functions of the framework that are themselves made of awaits:
    the clock (clock.rs), timeouts (combinators.rs), leaving and servicing the
    read-only phase (phase.rs), the concurrent run phase of components
    (component.rs), one test and the regression with its bootstrap
    (rustdv_runner.rs); with the surface of timers, edges, signals, queues,
    events and objections that tests are written in.

    [Env X] is what the framework keeps per thread besides the simulator's side:
    the configuration database, the logging configuration, the objections of the
    running test and the failure cell; [X] is the test code's own state. *)
From Stdlib Require Import Ascii.
From stdpp Require Import pretty.
From S2P Require Import Prelude Words Values Queue Sync Signals Time PhaseHub Triggers Executor Combinators Path Log Config Objection Component Runner Async Host.
Local Open Scope Z_scope.

Declare Scope code_scope.
Delimit Scope code_scope with code.
Notation "x <- c ;; k" := (Async.Bind c (λ x, k)) (at level 100, c at next level, right associativity) : code_scope.
Notation "c ;; k" := (Async.Bind c (λ _, k)) (at level 100, right associativity) : code_scope.

Module Kit.
Import Async Combinators(Either, First, Second, TimeoutError, Timeout) Component.
Local Open Scope code_scope.

(** What a task leaves in its handle. *)
Inductive Out : Set := ODone | OVerdict (r : Result unit TestError) | OInt (z : Z).

(** A part of the shared state. *)
Record Lens (U X : Type) := { view : U → X; update : X → U → U }.
Arguments view {U X} _ _.
Arguments update {U X} _ _ _.

Record Env (Any X : Type) := {
  db : Config.ConfigDb Any;
  log : Log.Config;
  objections : Objection.ObjInner;
  taken : nat;                              (* failures the runner has taken *)
  lines : list (Log.Sink * string);         (* what was written, newest first *)
  results : list (string * Runner.Outcome * Z);  (* reported tests with their time, newest first *)
  own : X;
}.
Arguments db {Any X} _.
Arguments log {Any X} _.
Arguments objections {Any X} _.
Arguments taken {Any X} _.
Arguments lines {Any X} _.
Arguments results {Any X} _.
Arguments own {Any X} _.

Section Kit.
Context {B : Type} `{BigUint B} {F Any X : Type}.
Abbreviation U := (Env Any X).
Abbreviation Code := (@Async.Code B F U Out).
Implicit Types u : U.

Definition set_objections (o : Objection.ObjInner) u : U :=
  {| db := db u; log := log u; objections := o; taken := taken u; lines := lines u; results := results u; own := own u |}.
Definition set_db d u : U :=
  {| db := d; log := log u; objections := objections u; taken := taken u; lines := lines u; results := results u; own := own u |}.
Definition set_log l u : U :=
  {| db := db u; log := l; objections := objections u; taken := taken u; lines := lines u; results := results u; own := own u |}.
Definition set_own x u : U :=
  {| db := db u; log := log u; objections := objections u; taken := taken u; lines := lines u; results := results u; own := x |}.
Definition set_taken n u : U :=
  {| db := db u; log := log u; objections := objections u; taken := n; lines := lines u; results := results u; own := own u |}.
Definition add_line l u : U :=
  {| db := db u; log := log u; objections := objections u; taken := taken u; lines := l :: lines u; results := results u; own := own u |}.
Definition add_result r u : U :=
  {| db := db u; log := log u; objections := objections u; taken := taken u; lines := lines u; results := r :: results u; own := own u |}.

(** [println!]. *)
Definition console (l : string) u : U := add_line (Log.Console, l) u.

(** ** Plain calls *)

Definition modify (f : U → U) : Code unit := Call (λ u, Done (f u, [], tt)).
Definition ask {A : Set} (f : U → A) : Code A := Call (λ u, Done (u, [], f u)).

(** [?] in a function that returns a [Result]. *)
Definition try_ {A C E : Set} (c : Code (Result A E)) (k : A → Code (Result C E)) : Code (Result C E) :=
  r <- c ;; match r with Ok a => k a | Err e => Ret (Err e) end.
(** [map_err(TestError::new)]. *)
Definition map_err {A E G : Set} (f : E → G) (c : Code (Result A E)) : Code (Result A G) :=
  r <- c ;; Ret (match r with Ok a => Ok a | Err e => Err (f e) end).
(** [check!]. *)
Definition check {A : Set} (b : bool) (m : string) (k : Code (Result A TestError)) : Code (Result A TestError) :=
  if b then k else Ret (Err (te_new m)).
(** [assert!]. *)
Definition assert (b : bool) (m : string) : Code unit := if b then Ret tt else Throw m.

Fixpoint repeat_ (n : nat) (c : Code unit) : Code unit :=
  match n with O => Ret tt | S k => c ;; repeat_ k c end.
Fixpoint for_each {A : Set} (l : list A) (f : A → Code unit) : Code unit :=
  match l with [] => Ret tt | a :: r => f a ;; for_each r f end.
Fixpoint try_each {A : Set} {E : Set} (l : list A) (f : A → Code (Result unit E)) : Code (Result unit E) :=
  match l with [] => Ret (Ok tt) | a :: r => try_ (f a) (λ _, try_each r f) end.

(** ** Time *)

Variable prec : Z.                                   (* the simulator's precision exponent *)

Definition sim_time_steps : Code Z := Read (λ w, Triggers.now (tw w)).
(** Exact where a step is a nanosecond or more, and the count is below 2^53. *)
Definition sim_time_ns : Code Z := Read (λ w, Triggers.now (tw w) * 10 ^ (prec + 9)).
Definition timer (d : Exec Time.SimDuration) : Code unit :=
  match d with
  | Panic m => Throw m
  | Done d => match Time.timer_new d with Done t => Wait (TTimer t) | Panic m => Throw m end
  end.
Definition timer_ns (n : Z) : Code unit := timer (Time.ns prec n).
Definition timer_steps (n : Z) : Code unit := timer (Done (Time.of_steps n)).
Definition null_trigger : Code unit := Wait (TNull {| Triggers.yielded := false |}).

(** ** Logging *)

(** [{:>n}]. *)
Definition pad_left (n : nat) (s : string) : string := Nat.iter (n - String.length s) (String " "%char) s.
(** [{:.2}] of whole nanoseconds. *)
Definition two_decimals (ns : Z) : string := pretty ns +:+ ".00".
Definition stamp (ns : Z) : string := pad_left 10 (two_decimals ns).

Definition write_lines (f : Log.Config → list (Log.Sink * string)) u : U := foldl (λ u l, add_line l u) u (f (log u)).
(** [log::log], and that of a logger at a path. *)
Definition log_at (l : Log.Level) (msg : string) : Code unit :=
  t <- sim_time_ns ;; modify (write_lines (λ c, Log.log c (stamp t) l msg)).
Definition info : string → Code unit := log_at Log.Info.
Definition error : string → Code unit := log_at Log.Error.
Definition logger_at (p : Path.RustdvPath) (l : Log.Level) (msg : string) : Code unit :=
  t <- sim_time_ns ;; modify (write_lines (λ c, Log.logger_log c (Log.at_ p) (stamp t) l msg)).
Definition println (l : string) : Code unit := modify (console l).

(** [with_timeout]. *)
Definition with_timeout {A : Set} (c : Code A) (d : Exec Time.SimDuration) : Code (Result A TimeoutError) :=
  r <- First2 c (timer d) ;; Ret (match r with First a => Ok a | Second _ => Err Timeout end).

(** ** Phases *)

Definition read_write : Code unit := Wait (TPhase (PhaseHub.phase_fut PhaseHub.KReadWrite)).
Definition read_only : Code unit := Wait (TPhase (PhaseHub.phase_fut PhaseHub.KReadOnly)).
Definition next_time_step : Code unit := Wait (TPhase (PhaseHub.phase_fut PhaseHub.KNextTimeStep)).
Definition current_phase : Code PhaseHub.SimPhase := Read (λ w, PhaseHub.phase (hub w)).

Definition service_read_only {A : Set} (service : Code A) : Code A := read_only ;; service.
Definition leave_read_only : Code unit :=
  p <- current_phase ;; if decide (p = PhaseHub.ReadOnly) then timer_steps 1 else Ret tt.

(** ** Signals *)

Abbreviation Sig := Triggers.Sig.
Definition target (s : Sig) : PhaseHub.WriteTarget :=
  PhaseHub.TLogic (Triggers.sid s, Signals.size (Triggers.shandle s)).
(** Scheduled and immediate writes, by the type of the value. *)
Definition logic_write (s : Sig) (v : PhaseHub.WriteVal (LogicArray.LogicArray B) B F) (H : PhaseHub.typed (target s) v = true) : @Write B F :=
  {| to := target s; val := v; val_typed := H |}.
Definition u64_write (s : Sig) (v : Z) : @Write B F := logic_write s (PhaseHub.WU64 v) eq_refl.
Definition set_u64 (s : Sig) (v : Z) : Code unit := Set_ (u64_write s v).
Definition set_u64_now (s : Sig) (v : Z) : Code unit := SetNow (u64_write s v).
Definition set_bool (s : Sig) (v : bool) : Code unit := Set_ (logic_write s (PhaseHub.WBool v) eq_refl).
Definition set_u8 (s : Sig) (v : Z) : Code unit := Set_ (logic_write s (PhaseHub.WU8 v) eq_refl).
Definition set_u16 (s : Sig) (v : Z) : Code unit := Set_ (logic_write s (PhaseHub.WU16 v) eq_refl).
Definition set_u32 (s : Sig) (v : Z) : Code unit := Set_ (logic_write s (PhaseHub.WU32 v) eq_refl).
Definition set_u128 (s : Sig) (v : Z) : Code unit := Set_ (logic_write s (PhaseHub.WU128 v) eq_refl).
Definition set_bigint (s : Sig) (v : B) : Code unit := Set_ (logic_write s (PhaseHub.WBigInt v) eq_refl).
Definition set_logic (s : Sig) (v : LogicArray.LogicArray B) : Code unit := Set_ (logic_write s (PhaseHub.WLogic v) eq_refl).

(** A getter of the handle, applied to the value the simulator has. *)
Definition read_sig {A : Set} (s : Sig) (f : Signals.LogicHandle → Signals.VpiValue → Exec A) : Code A :=
  r <- Read (λ w : @Sim B F U, f (Triggers.shandle s) (Triggers.vals (tw w) (Triggers.sid s))) ;;
  match r with Done x => Ret x | Panic m => Throw m end.
Definition get_u64 (s : Sig) : Code (Result Z ValueError) := read_sig s (Signals.get_u64 (B:=B)).
Definition get_bool (s : Sig) : Code (Result bool ValueError) := read_sig s (Signals.get_bool (B:=B)).
Definition get_u8 (s : Sig) : Code (Result Z ValueError) := read_sig s (Signals.get_u8 (B:=B)).
Definition get_u16 (s : Sig) : Code (Result Z ValueError) := read_sig s (Signals.get_u16 (B:=B)).
Definition get_u32 (s : Sig) : Code (Result Z ValueError) := read_sig s (Signals.get_u32 (B:=B)).
Definition get_u128 (s : Sig) : Code (Result Z ValueError) := read_sig s (Signals.get_u128 (B:=B)).
Definition get_binstr (s : Sig) : Code (Result string ValueError) :=
  read_sig s (λ h v, match Signals.get_logic (B:=B) h v with
    | Done (Ok a) => Done (Ok (LogicArray.to_binstr a))
    | Done (Err e) => Done (Err e)
    | Panic m => Panic m
    end).
Definition unwrap_or {A E : Set} (d : A) (c : Code (Result A E)) : Code A :=
  r <- c ;; Ret (match r with Ok a => a | Err _ => d end).
Definition get_or_0 (s : Sig) : Code Z := unwrap_or 0 (get_u64 s).
Definition is_high (s : Sig) : Code bool :=
  r <- get_bool s ;; Ret (match r with Ok v => v | Err _ => false end).
Definition is_low (s : Sig) : Code bool :=
  r <- get_bool s ;; Ret (match r with Ok v => negb v | Err _ => false end).

Definition rising_edge (s : Sig) : Code unit := Wait (TEdge (Triggers.rising_edge s)).
Definition falling_edge (s : Sig) : Code unit := Wait (TEdge (Triggers.falling_edge s)).
Definition value_change (s : Sig) : Code unit := Wait (TEdge (Triggers.value_change s)).

(** ** The clock *)

(** The free-running task of [Clock::start]. *)
Definition clock_task (s : Sig) (c : Time.Clock) : Code Out :=
  Loop (λ _, set_u64_now s 1 ;; timer_steps (Time.high c) ;; set_u64_now s 0 ;; timer_steps (Time.low c) ;; Ret (inl tt)) tt.
Definition clock_start (name : string) (s : Sig) (d : Exec Time.SimDuration) : Code TaskId :=
  match d with
  | Panic m => Throw m
  | Done p => match Time.clock_new p with
    | Panic m => Throw m
    | Done c => Spawn (clock_task s c) (Some ("clock(" +:+ name +:+ ")"))
    end
  end.

(** ** Tasks, queues, events *)

Definition spawn (c : Code unit) (name : option string) : Code TaskId := Spawn (c ;; Ret ODone) name.

Section Shared.
Context {T : Set}.
Variable l : Lens U (Queue.QInner T).
Definition queue_try_put (x : T) : Code (Result unit T) :=
  Call (λ u, let '(q, ws, r) := Queue.try_put (view l u) x in Done (update l q u, ws, r)).
Definition queue_try_get : Code (option T) :=
  Call (λ u, let '(q, ws, r) := Queue.try_get (view l u) in Done (update l q u, ws, r)).
Definition queue_put (x : T) : Code unit :=
  Await (λ p cx u, match Queue.poll_put (view l u) p cx with
      | Done (q, p', ws, r) => Done (update l q u, ws, p', r)
      | Panic m => Panic m
      end) (λ _ u, (u, [])) (Queue.put x).
Definition queue_get : Code T :=
  Await (λ (_ : unit) cx u, let '(q, ws, r) := Queue.poll_get (view l u) cx in Done (update l q u, ws, tt, r))
    (λ _ u, (u, [])) tt.
End Shared.

Definition event_wait (l : Lens U Event.Event) : Code unit :=
  Await (λ (_ : unit) cx u, let '(e, r) := Event.poll_wait (view l u) cx in Done (update l e u, [], tt, r))
    (λ _ u, (u, [])) tt.
Definition event_set (l : Lens U Event.Event) : Code unit :=
  Call (λ u, let '(e, ws) := Event.set (view l u) in Done (update l e u, ws, tt)).

(** ** Objections *)

(** [let _obj = ctx.raise_objection(d); c]: the guard lives as long as [c]. *)
Definition with_objection {A : Set} (d : string) (c : Code A) : Code A :=
  modify (λ u, set_objections (Objection.raise d (objections u)).1 u) ;;
  Scoped (λ u, let '(o, ws) := Objection.drop_guard d (objections u) in (set_objections o u, ws)) c.
Definition wait_drained_event : Code unit :=
  Await (λ (_ : unit) cx u, let '(o, r) := Objection.poll_drained (objections u) cx in Done (set_objections o u, [], tt, r))
    (λ _ u, (u, [])) tt.
Definition wait_all_dropped : Code unit :=
  Await (λ waiting cx u, let '(o, b, r) := Objection.poll_all_dropped (objections u) waiting cx in
      Done (set_objections o u, [], b, r)) (λ _ u, (u, [])) false.

(** ** The run phase *)

(** A component as the run phase sees it: the children that can be moved out of
    it, those that cannot, and its own run body. *)
Inductive Comp :=
| comp (taken_children in_place : list Comp) (run : Code (Result unit TestError)).

Definition phase_run_one (run : Code (Result unit TestError)) : Code (Result unit TestError) :=
  r <- First2 run wait_drained_event ;; Ret (match r with First r => r | Second _ => Ok tt end).

Fixpoint run_all (n : Comp) : Code (Result unit TestError) :=
  match n with
  | comp taken_ in_place run =>
      rs <- match in_place with [] => Ret [] | _ => JoinAll (map run_all in_place) end ;;
      match first_err rs with
      | Err e => Ret (Err e)
      | Ok _ =>
          match taken_ with
          | [] => phase_run_one run
          | _ => rs' <- JoinAll (map run_all taken_ ++ [phase_run_one run]) ;; Ret (first_err rs')
          end
      end
  end.

(** [run_component_test], with the phases before the run and those after it
    given: what elaboration came to, and the checks' errors. *)
Definition run_component_test (elaborate : Code (Result unit TestError)) (tree : Comp) (post : Code CheckSink) :
    Code (Result unit TestError) :=
  try_ elaborate (λ _,
    run_result <- run_all tree ;;
    sink <- post ;;
    Ret (match run_result with
         | Err e => Err e
         | Ok _ => match sink_into_result sink with Ok _ => Ok tt | Err m => Err (te_new m) end
         end)).

(** ** One test *)

Variable top_module : Result unit string.

(** [take_background_failure]: the sinks keep the first failure. *)
Definition take_background_failure : Code (option string) :=
  l <- Reported ;;
  n <- ask taken ;;
  modify (set_taken (length l)) ;;
  Ret (match skipn n l with (_, m) :: _ => Some m | [] => None end).

Definition raw_of (r : Result Out Executor.TaskError) : Result (Result unit TestError) string :=
  match r with
  | Ok (OVerdict r) => Ok r
  | Ok _ => Ok (Ok tt)
  | Err e => Err (Executor.display_error e)
  end.

Definition run_one (reg : Runner.TestRegistration) (body : Z → Code (Result unit TestError)) (seed : Z) : Code Runner.Outcome :=
  leave_read_only ;;
  modify (λ u, set_log (Log.reset_config (log u)) (set_db (Config.clear (db u)) u)) ;;
  match top_module with
  | Err e => Ret (Runner.fail ("no DUT: " +:+ e))
  | Ok _ =>
      modify (set_objections Objection.new) ;;           (* RustdvCtx::new *)
      watermark <- Watermark ;;
      handle <- Spawn (result <- body seed ;;
                       raised <- ask (λ u, Objection.ever_raised (objections u)) ;;
                       (if (raised : bool) then wait_all_dropped else Ret tt) ;;
                       Ret (OVerdict result)) (Some (Runner.name reg)) ;;
      raw <- match Runner.timeout reg with
             | Some (n, unit) =>
                 r <- First2 (Join handle) (timer (Time.from_unit prec n unit)) ;;
                 Ret (match r with First x => Some (raw_of x) | Second _ => None end)
             | None => x <- Join handle ;; Ret (Some (raw_of x))
             end ;;
      CancelAfter watermark ;;
      bg <- take_background_failure ;;
      Ret (Runner.score reg raw bg)
  end.

(** ** The regression and its bootstrap *)

Definition Test : Type := Runner.TestRegistration * (Z → Code (Result unit TestError)).

Definition running (verb : string) (reg : Runner.TestRegistration) (i total : Z) : string :=
  verb +:+ " " +:+ Runner.name reg +:+ " (" +:+ pretty (i + 1) +:+ "/" +:+ pretty total +:+ ")".

Fixpoint run_tests (i total seed : Z) (tests : list Test) : Code unit :=
  match tests with
  | [] => Ret tt
  | (reg, body) :: rest =>
      (if Runner.skip reg then
         info (running "skipping" reg i total) ;;
         modify (add_result (Runner.name reg, Runner.Skip, 0))
       else
         info (running "running" reg i total +:+ "  [" +:+ Runner.file reg +:+ ":" +:+ pretty (Runner.line reg) +:+ "]") ;;
         t0 <- sim_time_ns ;;
         outcome <- run_one reg body (wrap 64 (seed + i)) ;;
         t1 <- sim_time_ns ;;
         (match outcome with
          | Runner.Pass => info (Runner.name reg +:+ " PASSED")
          | Runner.Fail m _ => error (Runner.name reg +:+ " FAILED: " +:+ m)
          | Runner.Skip => Ret tt
          end) ;;
         modify (add_result (Runner.name reg, outcome, t1 - t0))) ;;
      run_tests (i + 1) total seed rest
  end.

Definition stars : string := Nat.iter 78 (String "*"%char) EmptyString.
Definition status (o : Runner.Outcome) : string :=
  match o with Runner.Pass => "PASS" | Runner.Fail _ _ => "FAIL" | Runner.Skip => "SKIP" end.
Definition summary_row (name status time : string) : string :=
  "** " +:+ Log.pad_right 40 name +:+ " " +:+ pad_left 8 status +:+ " " +:+ pad_left 14 time +:+ "      **".
Definition print_summary : Code unit :=
  println stars ;;
  println (summary_row "TEST" "STATUS" "SIM TIME (ns)") ;;
  println stars ;;
  rs <- ask (λ u, rev (results u)) ;;
  for_each rs (λ '(name, o, t), println (summary_row name (status o) (two_decimals t))) ;;
  println stars.

(** [apply_testcase_filter], on the tests with their bodies. *)
Definition select (testcase : option string) (tests : list Test) : Result (list Test) string :=
  match testcase with
  | None => Ok tests
  | Some raw =>
      match Runner.patterns raw with
      | [] => Ok tests
      | pats =>
          match List.filter (λ t, Runner.selected pats t.1) tests with
          | [] => Err ("RUSTDV_TESTCASE=" +:+ raw +:+ " matched no test")
          | kept => Ok kept
          end
      end
  end.

(** No report file is asked for. *)
Definition regression (testcase : option string) (tests : list Test) (seed : Z) : Code Out :=
  match select testcase tests with
  | Err e => error e ;; println "REGRESSION: FAIL" ;; Finish ;; Ret ODone
  | Ok tests =>
      let total := Z.of_nat (length tests) in
      info ("rustdv: found " +:+ pretty total +:+ " test(s), RUSTDV_RANDOM_SEED=" +:+ pretty seed) ;;
      run_tests 0 total seed tests ;;
      print_summary ;;
      rs <- ask results ;;
      let failed := existsb (λ '(_, o, _), match o with Runner.Fail _ _ => true | _ => false end) rs in
      println ("REGRESSION: " +:+ if failed then "FAIL" else "PASS") ;;
      Finish ;; Ret ODone
  end.

Lemma filter_fst {A C : Type} (f : A → bool) (l : list (A * C)) :
  map fst (List.filter (λ t, f t.1) l) = filter (λ a, f a = true) (map fst l).
Proof.
  induction l as [|t l IH]; [done|]. cbn [map List.filter]. rewrite filter_cons. rewrite <- IH.
  case_decide as E; destruct (f t.1); by simplify_eq/=.
Qed.
Lemma select_filter testcase tests :
  match select testcase tests with Ok kept => Ok (map fst kept) | Err e => Err e end =
  Runner.apply_testcase_filter testcase (map fst tests).
Proof.
  unfold select, Runner.apply_testcase_filter. destruct testcase as [raw|]; [|done].
  destruct (Runner.patterns raw) as [|p ps]; [done|].
  rewrite <- (filter_fst (Runner.selected (p :: ps)) tests). by destruct (List.filter (λ t, Runner.selected (p :: ps) t.1) tests).
Qed.

Definition fresh_env (x : X) : U :=
  {| db := Config.initial; log := Log.initial; objections := Objection.new; taken := 0; lines := []; results := [];
     own := x |}.
End Kit.
End Kit.
