(* ===== verification/Bench.v ===== *)
(** * Bench: a design, a set of tests and a seed, run to the end.

    What every regression has in common: the signals a test finds by name
    ([HierarchyHandle::signal] on the top module), the start-up of the simulation
    ([on_start_of_simulation] of rustdv_runner.rs), the run under the host's event
    loop, and what is left at the end: the outcomes and the lines written to the
    console. *)
From Stdlib Require Import Ascii.
From stdpp Require Import pretty sorting.
From S2P Require Import Prelude Words Values Queue Signals Time PhaseHub Triggers Executor Log Config Objection Component Runner Handles Errors Async Host Kit.
Local Open Scope Z_scope.

Notation "x <-? c ;; k" := (Kit.try_ c (λ x, k)) (at level 100, c at next level, right associativity) : code_scope.
Notation "'check!' ( b , m ) ;; k" := (Kit.check b m k) (at level 100, b at level 99, m at level 99, k at level 200) : code_scope.

(** A design as the host runs it: what an evaluation makes of the values, when
    its next own event is due, its top module and the signals there. *)
Record Design := {
  Dut : Type;
  top : string;
  names : list (string * Triggers.Sig);
  signals : nat;
  initially : nat → Signals.VpiValue;
  power_up : Dut;
  eval : Z → Dut → (nat → Signals.VpiValue) → Dut * (nat → Signals.VpiValue);
  due : Dut → option Z;
}.

Module Bench.
Import Async Component Kit.
Local Open Scope code_scope.

(** `timescale 1ns/1ns in every design here. *)
Definition prec : Z := -9.

Section Bench.
Context {Any X : Type} (d : Design).
Abbreviation U := (Env Any X).
Abbreviation Code := (@Async.Code N Empty_set U Out).
Abbreviation T := (Code (Result unit TestError)).
Abbreviation Test := (@Kit.Test N Empty_set Any X).

Definition ok : T := Ret (Ok tt).
Definition edit (f : X → X) : Code unit := modify (λ u, set_own (f (own u)) u).
Definition look {A : Set} (f : X → A) : Code A := ask (λ u : U, f (own u)).
(** The test's own state, or a part of it. *)
Definition part {Y : Type} (get : X → Y) (set : Y → X → X) : Lens U Y :=
  {| view := λ u, get (own u); update := λ y u, set_own (set y (own u)) u |}.

Definition ns (n : Z) : Code unit := timer_ns prec n.
Definition time_ns : Code Z := sim_time_ns prec.
Definition info (m : string) : Code unit := Kit.info prec m.
Definition error (m : string) : Code unit := Kit.error prec m.

(** [ctx.dut().signal(name)]. *)
Definition find_signal (name : string) : Result Triggers.Sig Gpi.HandleError :=
  match find (λ e, String.eqb e.1 name) (names d) with
  | Some (_, s) => Ok s
  | None => Err (Gpi.NotFound name (top d))
  end.
Definition signal (name : string) : Code (Result Triggers.Sig TestError) :=
  Ret (match find_signal name with Ok s => Ok s | Err e => Err (Errors.te_from_handle e) end).
Definition start_clock (name : string) (s : Triggers.Sig) (period : Z) : Code unit :=
  clock_start name s (Time.ns prec period) ;; Ret tt.

(** Signals are named by their number; a [HashMap] may list its keys in any
    order, here in that of their ids. *)
Definition full_name (t : PhaseHub.WriteTarget) : string :=
  match t with
  | PhaseHub.TLogic (i, _) =>
      match find (λ e, Nat.eqb (Triggers.sid e.2) i) (names d) with Some (n, _) => top d +:+ "." +:+ n | None => "" end
  | _ => ""
  end.
Definition by_id (l : list TaskId) : list TaskId := merge_sort Nat.le l.

(** A loop of a test starts over at most [turns] times within one poll, and a
    callback's drain polls at most [fuel] times. *)
Definition turns : nat := 20.
Definition fuel : nat := 1000.

Definition powered_up (x : X) : @Sim N Empty_set U :=
  {| tw := {| Triggers.now := 0; Triggers.vals := initially d; Triggers.trigs := ∅; Triggers.regs := ∅; Triggers.next := 0;
              Triggers.woken := [] |};
     hub := PhaseHub.init_hub; reals := λ _, None; texts := λ _, None; eval_needed := false; finished := false;
     user := fresh_env x |}.

(** [on_start_of_simulation]: the sink is installed, the regression spawned and
    the executor drained. *)
Definition started (x : X) (tests : list Test) (seed : Z) : option (@Host.Hosted N Empty_set U Out (Dut d)) :=
  let s := Executor.set_failure_sink (Executor.init (powered_up x)) in
  match Host.drain full_name by_id turns fuel
          (fst (Executor.spawn_named (FStart (regression prec (Ok tt) None tests seed)) (Some "rustdv_regression") s)) with
  | Some s => Some {| Host.ex := s; Host.dut := power_up d; Host.seen := initially d |}
  | None => None
  end.
(** Value-change callbacks in the order they were registered, as Verilator calls
    them, or the newest first. *)
Definition oldest_first (l : list nat) : list nat := l.
Definition newest_first (l : list nat) : list nat := rev l.
Definition simulate (order : list nat → list nat) (turns_of_host : positive) (x : X) (tests : list Test) (seed : Z) :=
  match started x tests seed with
  | Some h => Some (Host.main full_name by_id turns fuel (eval d) (due d) (signals d) order turns_of_host h)
  | None => None
  end.

(** What a run came to: finished, without trouble, with each test's outcome and
    simulated time, and the console. *)
Record Report := {
  ended : bool;
  trouble : option Host.Trouble;
  outcomes : list (string * Runner.Outcome * Z);
  printed : list string;
  filed : list (nat * string);              (* lines written to log files *)
}.
Definition report (r : option (@Host.Hosted N Empty_set U Out (Dut d) + @Host.Hosted N Empty_set U Out (Dut d) * option Host.Trouble)) :
    option Report :=
  match r with
  | Some (inr (h, t)) =>
      let w := Host.sim (Host.ex h) in
      Some {| ended := finished w; trouble := t; outcomes := rev (results (user w));
              printed := rev (omap (λ l, match l.1 with Log.Console => Some l.2 | _ => None end) (lines (user w)));
              filed := rev (omap (λ l, match l.1 with Log.ToFile f => Some (f, l.2) | _ => None end) (lines (user w))) |}
  | _ => None
  end.

(** The run ended without trouble, and each test had outcome [o]. *)
Definition came_to (tests : list Test) (expected : Runner.TestRegistration → Runner.Outcome) (r : Report) : Prop :=
  ended r = true ∧ trouble r = None ∧
  map fst (outcomes r) = map (λ t, (Runner.name t.1, expected t.1)) tests.
(** The console shows these lines, one right after the other. *)
Definition shows (block : list string) (r : Report) : Prop := ∃ before after, printed r = before ++ block ++ after.
End Bench.

Fixpoint prefixb (a b : list string) : bool :=
  match a, b with
  | [], _ => true
  | x :: a, y :: b => String.eqb x y && prefixb a b
  | _ :: _, [] => false
  end.
Fixpoint infixb (a b : list string) : bool :=
  prefixb a b || match b with [] => false | _ :: b => infixb a b end.

Lemma prefixb_spec a b : prefixb a b = true → ∃ r, b = a ++ r.
Proof.
  revert b. induction a as [|x a IH]; intros [|y b] H; simpl in *; try done; [by exists []|by eexists|].
  apply andb_prop in H as [->%String.eqb_eq [r ->]%IH]. by exists r.
Qed.
Lemma shows_by_search block r : infixb block (printed r) = true → shows block r.
Proof.
  unfold shows. induction (printed r) as [|y b IH]; simpl; intros H; apply orb_prop in H as [H|H].
  - destruct (prefixb_spec _ _ H) as [q ->]. by exists [], q.
  - done.
  - destruct (prefixb_spec _ _ H) as [q ->]. by exists [], q.
  - destruct (IH H) as (p & q & ->). by exists (y :: p), q.
Qed.

(** Runs a regression and compares what it came to. *)
Ltac run_bench :=
  eexists; split; [vm_compute; reflexivity|]; split; [repeat split|];
  first [reflexivity | discriminate | repeat constructor; apply shows_by_search; vm_compute; reflexivity].
End Bench.
