(* ===== verification/Tree.v ===== *)
(** * Tree: tests made of components, run asynchronously
    (rustdv-methodology/src/component.rs).

    Component.v has the walks with the run phase as an oracle; here phase methods
    are [Code] and the run phase is the concurrent one: in-place children joined
    first, then the children moved out of their slots joined with the parent's own
    run, each body raced against the drained event.  A component is the [Node] its
    derive describes; what its methods do is found by its type's name, and its
    fields other than children and ports are in the test code's own state. *)
From Stdlib Require Import Ascii.
From stdpp Require Import pretty.
From S2P Require Import Prelude Words Values Queue Sync Signals Time PhaseHub Triggers Executor Combinators Path Log Config Factory Objection Component Rng Runner Handles Errors Async Host Kit Bench.
Local Open Scope Z_scope.

Module Tree.
Import Async Component Kit Bench.
Import Factory(mkNode, FComp, FOption, FVec, FPlain, FPort, node_name, children_mut, fields_of).
Local Open Scope code_scope.

Abbreviation Node := (@Factory.Node unit).
Abbreviation Field := (@Factory.Field unit).

Section Tree.
Context {Any X : Type}.
Abbreviation U := (Env Any X).
Abbreviation Code := (@Async.Code N Empty_set U Out).
Abbreviation Verdict := (Result unit TestError).

(** ** The context *)

Implicit Types ctx : RustdvCtx.
(** [RustdvCtx::new]: the root path is the test's name. *)
Definition ctx_new (name : string) (seed : Z) : RustdvCtx := {| path := Log.path (Log.new name); seed := seed |}.
Definition rng ctx : Rng.Rng := Rng.new (seed ctx).
Definition ctx_log ctx (l : Log.Level) (m : string) : Code unit := logger_at prec (path ctx) l m.
Definition debug ctx := ctx_log ctx Log.Debug.
Definition info ctx := ctx_log ctx Log.Info.
Definition warning ctx := ctx_log ctx Log.Warning.
Definition error ctx := ctx_log ctx Log.Error.
Definition critical ctx := ctx_log ctx Log.Critical.

Definition configure (f : Log.Config → Log.Config) : Code unit := modify (λ u, set_log (f (log u)) u).
Definition set_logging_level_hier ctx (l : Log.Level) : Code unit := configure (Log.set_level_for (ctx_path ctx) l).
Definition disable_logging_hier ctx : Code unit := configure (Log.set_level_for (ctx_path ctx) Log.Off).
Definition add_file_handler_hier ctx (opened : Result nat string) : Code (Result unit string) :=
  Call (λ u : U, match Log.add_file_for (ctx_path ctx) opened (log u) with
    | Ok c => Done (set_log c u, [], Ok tt)
    | Err e => Done (u, [], Err e)
    end).
Definition remove_console_hier ctx : Code unit := configure (Log.set_console_for (ctx_path ctx) false).

(** ** The configuration database *)

Section Config.
Context {T : Set} `{Config.Typed Any T}.
Definition traced (line : option string) : Code unit := match line with Some l => Kit.info prec l | None => Ret tt end.
Definition config_set (ctx : option RustdvCtx) (offset field : string) (v : T) : Code unit :=
  line <- Call (λ u : U, let '(d, line) := Config.set (ctx_path <$> ctx) offset field v (db u) in Done (set_db d u, [], line)) ;;
  traced line.
Definition config_get (ctx : option RustdvCtx) (offset field : string) : Code (Result T Config.ConfigError) :=
  r <- Call (λ u : U, match Config.get (ctx_path <$> ctx) offset field (db u) with
    | Done x => Done (u, [], x)
    | Panic m => Panic m
    end) ;;
  traced r.2 ;; Ret r.1.
(** [?] and [expect] on it. *)
Definition config_try (ctx : option RustdvCtx) (offset field : string) : Code (Result T TestError) :=
  map_err Errors.te_from_config (config_get ctx offset field).
Definition config_expect (ctx : option RustdvCtx) (offset field m : string) : Code T :=
  r <- config_get ctx offset field ;;
  match r with Ok v => Ret v | Err _ => Throw m end.
End Config.

(** [str::lines]. *)
Fixpoint split_lines (s : string) : list string :=
  match s with
  | EmptyString => [EmptyString]
  | String c r =>
      if Ascii.eqb c "010"%char then EmptyString :: split_lines r
      else match split_lines r with [] => [String c EmptyString] | l :: ls => String c l :: ls end
  end.
Definition set_tracing (on : bool) : Code unit := modify (λ u : U, set_db (Config.set_tracing on (db u)) u).
Definition config_print : Code unit := d <- ask (λ u : U, split_lines (Config.dump (db u))) ;; for_each d (Kit.info prec).

(** ** The factory *)

Section Factory.
Context `{Config.Typed Any (@Factory.Override unit)}.
Definition set_type_override (from : string) (to : Node) : Code unit :=
  config_set None "*" (Factory.override_key from) {| Factory.make := to; Factory.to_ := node_name to |}.
Definition set_inst_override ctx (p from : string) (to : Node) : Code unit :=
  config_set (Some ctx) p (Factory.override_key from) {| Factory.make := to; Factory.to_ := node_name to |}.
Variable regs : list (string * Node).
Definition create_by_name (name : string) : Code Field :=
  match Factory.create_by_name regs name with Done s => Ret (Factory.field_of s) | Panic m => Throw m end.
Definition set_type_override_by_name (from to : string) : Code unit :=
  match Factory.collect_registry regs !! to with
  | Some n => config_set None "*" (Factory.override_key from) {| Factory.make := n; Factory.to_ := to |}
  | None => Throw ("Factory::set_type_override_by_name: " +:+ to +:+ " is not registered")
  end.
Definition factory_print : Code unit :=
  Kit.info prec "Factory overrides:" ;;
  l <- ask (λ u : U, Config.factory_overrides (db u)) ;;
  for_each l (λ '(p, from, to), Kit.info prec ("  " +:+ Log.pad_right 28 p +:+ ": " +:+ from +:+ " -> " +:+ to)).
End Factory.

(** ** The phase methods of a component's type *)

Record Phases := {
  build : Node → RustdvCtx → Code Node;
  connect : Node → RustdvCtx → Code unit;
  end_of_elaboration : Node → RustdvCtx → Code unit;
  start_of_simulation : Node → RustdvCtx → Code unit;
  run : RustdvCtx → Code Verdict;
  extract : Node → RustdvCtx → Code unit;
  check : RustdvCtx → CheckSink → Code CheckSink;
  report : Node → RustdvCtx → Code unit;
  final_phase : Node → RustdvCtx → Code unit;
}.
(** What [Component] supplies. *)
Definition default_phases : Phases :=
  {| build := λ n _, Ret n; connect := λ _ _, Ret tt; end_of_elaboration := λ _ _, Ret tt;
     start_of_simulation := λ _ _, Ret tt; run := λ _, Ret (Ok tt); extract := λ _ _, Ret tt;
     check := λ _ s, Ret s; report := λ _ _, Ret tt; final_phase := λ _ _, Ret tt |}.
Definition with_build b (p : Phases) : Phases :=
  {| build := b; connect := connect p; end_of_elaboration := end_of_elaboration p; start_of_simulation := start_of_simulation p;
     run := run p; extract := extract p; check := check p; report := report p; final_phase := final_phase p |}.
Definition with_connect c (p : Phases) : Phases :=
  {| build := build p; connect := c; end_of_elaboration := end_of_elaboration p; start_of_simulation := start_of_simulation p;
     run := run p; extract := extract p; check := check p; report := report p; final_phase := final_phase p |}.
Definition with_elaboration e (p : Phases) : Phases :=
  {| build := build p; connect := connect p; end_of_elaboration := e; start_of_simulation := start_of_simulation p;
     run := run p; extract := extract p; check := check p; report := report p; final_phase := final_phase p |}.
Definition with_start s (p : Phases) : Phases :=
  {| build := build p; connect := connect p; end_of_elaboration := end_of_elaboration p; start_of_simulation := s;
     run := run p; extract := extract p; check := check p; report := report p; final_phase := final_phase p |}.
Definition with_run r (p : Phases) : Phases :=
  {| build := build p; connect := connect p; end_of_elaboration := end_of_elaboration p; start_of_simulation := start_of_simulation p;
     run := r; extract := extract p; check := check p; report := report p; final_phase := final_phase p |}.
Definition with_check c (p : Phases) : Phases :=
  {| build := build p; connect := connect p; end_of_elaboration := end_of_elaboration p; start_of_simulation := start_of_simulation p;
     run := run p; extract := extract p; check := c; report := report p; final_phase := final_phase p |}.
Definition with_report r (p : Phases) : Phases :=
  {| build := build p; connect := connect p; end_of_elaboration := end_of_elaboration p; start_of_simulation := start_of_simulation p;
     run := run p; extract := extract p; check := check p; report := r; final_phase := final_phase p |}.
Definition with_final f (p : Phases) : Phases :=
  {| build := build p; connect := connect p; end_of_elaboration := end_of_elaboration p; start_of_simulation := start_of_simulation p;
     run := run p; extract := extract p; check := check p; report := report p; final_phase := f |}.
Definition with_extract e (p : Phases) : Phases :=
  {| build := build p; connect := connect p; end_of_elaboration := end_of_elaboration p; start_of_simulation := start_of_simulation p;
     run := run p; extract := e; check := check p; report := report p; final_phase := final_phase p |}.

(** [CheckSink::error]: logged and kept. *)
Definition sink_error (m : string) (s : CheckSink) : Code CheckSink := Kit.error prec m ;; Ret (Component.sink_error m s).

(** ** The walks *)

Variable phases_of : string → Phases.
Context {TO : Config.Typed Any (@Factory.Override unit)}.
Variable bound : U → nat → bool.                       (* which port cells are connected *)

(** [for (name, child) in node.children_mut() { .. }], threading a value. *)
Fixpoint fold_children {S : Set} (f : string → Node → S → Code S) (l : list (string * Node)) (s : S) : Code S :=
  match l with
  | [] => Ret s
  | (name, c) :: r => s' <- f name c s ;; fold_children f r s'
  end.
Fixpoint map_children (f : string → Node → Code Node) (l : list (string * Node)) : Code (list Node) :=
  match l with
  | [] => Ret []
  | (name, c) :: r => c' <- f name c ;; cs <- map_children f r ;; Ret (c' :: cs)
  end.

(** The lookups of [resolve_children], as a traced database logs them. *)
Definition resolve_traces ctx (n : Node) (d : Config.ConfigDb Any) : list string :=
  omap (λ nf, match nf.2 with
    | FComp _ true (Some req) =>
        let p := if decide (ctx_path ctx = EmptyString) then nf.1 else ctx_path ctx +:+ "." +:+ nf.1 in
        match Config.get (T := @Factory.Override unit) None p (Factory.override_key req) d with
        | Done (_, line) => line
        | Panic _ => None
        end
    | _ => None
    end) (fields_of n).

Fixpoint build_all (fuel : nat) (n : Node) ctx : Code Node :=
  match fuel with
  | O => Ret n
  | S k =>
      n1 <- build (phases_of (node_name n)) n ctx ;;
      traces <- ask (λ u : U, resolve_traces ctx n1 (db u)) ;;
      for_each traces (Kit.info prec) ;;
      n2 <- ask (λ u : U, Factory.resolve_children (ctx_path ctx) (db u) n1) ;;
      cs <- map_children (λ name c, build_all k c (ctx_child ctx name)) (children_mut n2) ;;
      Ret (set_children n2 cs)
  end.

(** The node, then its children. *)
Fixpoint top_down {S : Set} (fuel : nat) (h : Node → RustdvCtx → S → Code S) (n : Node) ctx (s : S) : Code S :=
  match fuel with
  | O => Ret s
  | S k => s1 <- h n ctx s ;; fold_children (λ name c s, top_down k h c (ctx_child ctx name) s) (children_mut n) s1
  end.
(** Children first. *)
Fixpoint bottom_up {S : Set} (fuel : nat) (h : Node → RustdvCtx → S → Code S) (n : Node) ctx (s : S) : Code S :=
  match fuel with
  | O => Ret s
  | S k => s1 <- fold_children (λ name c s, bottom_up k h c (ctx_child ctx name) s) (children_mut n) s ;; h n ctx s1
  end.
Definition hook (f : Phases → Node → RustdvCtx → Code unit) (n : Node) ctx (_ : unit) : Code unit :=
  f (phases_of (node_name n)) n ctx.

Definition connect_all fuel (n : Node) ctx : Code unit := bottom_up fuel (hook connect) n ctx tt.
Definition end_of_elaboration_all fuel (n : Node) ctx : Code unit := top_down fuel (hook end_of_elaboration) n ctx tt.
Definition start_of_simulation_all fuel (n : Node) ctx : Code unit := top_down fuel (hook start_of_simulation) n ctx tt.
Definition extract_all fuel (n : Node) ctx : Code unit := top_down fuel (hook extract) n ctx tt.
Definition check_all fuel (n : Node) ctx (s : CheckSink) : Code CheckSink :=
  top_down fuel (λ n ctx s, check (phases_of (node_name n)) ctx s) n ctx s.
Definition report_all fuel (n : Node) ctx : Code unit := top_down fuel (hook report) n ctx tt.
Definition final_all fuel (n : Node) ctx : Code unit := top_down fuel (hook final_phase) n ctx tt.

(** ** The run phase *)

(** [run_one]: a run body that has not returned when the last objection is
    dropped is dropped. *)
Definition run_one (n : Node) ctx : Code Verdict := phase_run_one (run (phases_of (node_name n)) ctx).

Fixpoint run_all (fuel : nat) (n : Node) ctx : Code Verdict :=
  match fuel with
  | O => Ret (Ok tt)
  | S k =>
      let '(n0, taken) := Factory.take_children n in
      let go '(name, c) := run_all k c (ctx_child ctx name) in
      rs <- match children_mut n0 with [] => Ret [] | l => JoinAll (map go l) end ;;
      match first_err rs with
      | Err e => Ret (Err e)
      | Ok _ =>
          match taken with
          | [] => run_one n0 ctx
          | _ => rs' <- JoinAll (map go taken ++ [run_one n0 ctx]) ;; Ret (first_err rs')
          end
      end
  end.

(** ** The whole test *)

Definition run_extract_check_report (fuel : nat) (n : Node) ctx : Code (Result unit string) :=
  extract_all fuel n ctx ;;
  s <- check_all fuel n ctx sink_new ;;
  report_all fuel n ctx ;;
  final_all fuel n ctx ;;
  Ret (sink_into_result s).

Definition set_in_build (b : bool) : Code unit := modify (λ u : U, set_db (Config.set_in_build b (db u)) u).

Definition run_component_test (fuel : nat) (test : Node) ctx : Code Verdict :=
  set_in_build true ;;
  n <- build_all fuel test ctx ;;
  set_in_build false ;;
  connect_all fuel n ctx ;;
  c <- ask (λ u : U, check_connections bound fuel n ctx u) ;;
  match c with
  | Err e => Ret (Err e)
  | Ok _ =>
      end_of_elaboration_all fuel n ctx ;;
      start_of_simulation_all fuel n ctx ;;
      run_result <- run_all fuel n ctx ;;
      post <- run_extract_check_report fuel n ctx ;;
      Ret (match run_result with
           | Err e => Err e
           | Ok _ => match post with Ok _ => Ok tt | Err m => Err (te_new m) end
           end)
  end.

(** [print_hierarchy]. *)
Fixpoint print_rec (fuel : nat) (n : Node) (p : string) : Code unit :=
  match fuel with
  | O => Ret tt
  | S k =>
      Kit.info prec (p +:+ " (" +:+ node_name n +:+ ")") ;;
      for_each (children_mut n) (λ '(name, c), print_rec k c (p +:+ "." +:+ name))
  end.
Definition print_hierarchy (fuel : nat) (n : Node) : Code unit := print_rec fuel n "top".

(** A test on a struct: the attribute registers it under the type's name, and
    its body is the phaser over the default value.  [depth] bounds the tree. *)
Definition depth : nat := 8.
Definition component_test (test : Node) (seed : Z) : Code Verdict :=
  run_component_test depth test (ctx_new (node_name test) seed).
End Tree.

(** The phase methods by type name. *)
Definition by_type {Any X : Type} (table : list (string * @Phases Any X)) (ty : string) : @Phases Any X :=
  match find (λ e, String.eqb e.1 ty) table with Some (_, p) => p | None => default_phases end.

(** ** Fields *)

(** A type without children or ports, the slots a [build] fills, and what it
    fills them with. *)
Definition leaf (ty : string) : Node := mkNode ty tt [].
Definition slot : Field := FComp None false None.
Definition option_slot : Field := FOption None.
(** [T::new_comp()], [T::create_comp()]. *)
Definition new_comp (n : Node) : Field := FComp (Some n) false None.
Definition create_comp (n : Node) : Field := FComp (Some n) true (Some (node_name n)).
(** [self.f = ..]. *)
Definition set_field (f : string) (v : Field) (n : Node) : Node :=
  mkNode (node_name n) tt (map (λ nf, if String.eqb nf.1 f then (nf.1, v) else nf) (fields_of n)).
End Tree.
