(* ===== verification/Probe.v ===== *)
(** * Probe: the design of the framework's own tests
    (rustdv/framework-tests/hdl/probe.sv) as a host evaluates it. *)
From S2P Require Import Prelude Words Values Signals Time PhaseHub Triggers Executor Combinators Async Host.
Local Open Scope Z_scope.

Module Probe.
Import Signals.

(** ** Signals *)

Definition signal (i width : nat) : Triggers.Sig := {| Triggers.sid := i; Triggers.shandle := {| size := width |} |}.
Definition clk := signal 0 1.
Definition byte_sig := signal 1 8.
Definition flag := signal 2 1.
Definition comb_in := signal 3 8.
Definition comb_out := signal 4 8.
Definition rtl_event_request := signal 5 1.
Definition rtl_event_done := signal 6 1.
Definition never_driven := signal 7 1.
Definition counted := signal 8 8.
Definition word_sig := signal 9 16.
Definition dword_sig := signal 10 32.
Definition qword_sig := signal 11 64.
Definition nibble := signal 12 4.
Definition never_driven_bus := signal 13 8.
Definition u128_sig := signal 14 128.
Definition bigint_sig := signal 15 160.
Definition signals : nat := 16.

Definition names : list (string * Triggers.Sig) :=
  [("clk", clk); ("byte_sig", byte_sig); ("flag", flag); ("comb_in", comb_in); ("comb_out", comb_out);
   ("rtl_event_request", rtl_event_request); ("rtl_event_done", rtl_event_done); ("never_driven", never_driven);
   ("counted", counted); ("word_sig", word_sig); ("dword_sig", dword_sig); ("qword_sig", qword_sig); ("nibble", nibble);
   ("never_driven_bus", never_driven_bus); ("u128_sig", u128_sig); ("bigint_sig", bigint_sig)]%string.

(** All bits unknown; a number. *)
Definition unknown (width : nat) : VpiValue :=
  Some (map (λ i, let m := Z.ones (Z.min 32 (Z.of_nat width - 32 * Z.of_nat i)) in {| aval := m; bval := m |})
          (seq 0 (div_ceil width 32))).
Definition number (z : Z) : VpiValue := Some [{| aval := z; bval := 0 |}].

(** A [bit] starts at 0, a [logic] unknown, an initialised one at its value. *)
Definition initially (i : nat) : VpiValue :=
  match i with
  | 0 | 6 | 8 => number 0
  | _ => match find (λ e, Nat.eqb (Triggers.sid e.2) i) names with
         | Some (_, s) => unknown (size (Triggers.shandle s))
         | None => None
         end
  end%nat.

(** ** The processes *)

Inductive Bit := B0 | B1 | BX.
Definition bit (v : VpiValue) : Bit :=
  match v with
  | Some (w :: _) => if Z.odd (bval w) then BX else if Z.odd (aval w) then B1 else B0
  | _ => BX
  end.
Definition posedge (p n : Bit) : bool :=
  match p, n with B0, (B1 | BX) => true | BX, B1 => true | _, _ => false end.

(** The last values of the two event controls, and when the delayed assignment
    is due. *)
Record Dut := { last_clk : Bit; last_request : Bit; due : option Z }.
Definition reset : Dut := {| last_clk := B0; last_request := BX; due := None |}.

(** [comb_in ^ 8'hA5]: an unknown bit stays unknown. *)
Definition xor_a5 (v : VpiValue) : VpiValue :=
  match v with
  | Some (w :: _) => Some [{| aval := Z.lor (Z.lxor (aval w) 0xA5) (bval w); bval := bval w |}]
  | _ => v
  end.
(** [counted + 1] in eight bits. *)
Definition count_up (v : VpiValue) : VpiValue :=
  match v with Some (w :: _) => if bval w =? 0 then number (wrap 8 (aval w + 1)) else unknown 8 | _ => v end.

Definition put (s : Triggers.Sig) (v : VpiValue) (vals : nat → VpiValue) : nat → VpiValue :=
  λ i, if Nat.eqb i (Triggers.sid s) then v else vals i.
Definition at_ (s : Triggers.Sig) (vals : nat → VpiValue) : VpiValue := vals (Triggers.sid s).

Definition eval (now : Z) (d : Dut) (vals : nat → VpiValue) : Dut * (nat → VpiValue) :=
  let c := bit (at_ clk vals) in
  let vals1 := if posedge (last_clk d) c then put counted (count_up (at_ counted vals)) vals else vals in
  let vals2 := put comb_out (xor_a5 (at_ comb_in vals1)) vals1 in
  let '(vals3, due3) := match due d with
    | Some t => if t <=? now then (put rtl_event_done (number 1) vals2, None) else (vals2, Some t)
    | None => (vals2, None)
    end in
  let r := bit (at_ rtl_event_request vals3) in
  (* the process waits at its event control unless it is in its delay *)
  let due4 := match due3 with None => if posedge (last_request d) r then Some (now + 7) else None | o => o end in
  ({| last_clk := c; last_request := r; due := due4 |}, vals3).
End Probe.
