(* ===== verification/AsyncInv.v ===== *)
(** * AsyncInv: no wake-up is lost between the simulator, the triggers and the
    executor.

    [wf s me mine]: what holds while task [me] is being polled and owns the cells
    [mine] (with [me = 0], no task, and [mine = []] between polls).  Every cell
    has one owner; a suspended trigger of another task is waiting, with that
    task's waker in its cell and the simulator owing it a callback, or its task
    has been roused.  Polling ([poll_code_spec], [poll_fut_spec]), draining and
    every callback keep it. *)
From S2P Require Import Prelude Words Values Signals Time PhaseHub Triggers Executor Combinators Async Host.

Module AsyncInv.
Import Async.

(** ** Cells *)

(** The cells of timers and edges, and those of the phase hub. *)
Definition Addr : Type := nat + nat.

Definition trig_addr (t : Trigger) : option Addr :=
  match t with
  | TTimer t => inl <$> Time.t_shared t
  | TEdge e => inl <$> Triggers.e_shared e
  | TNull _ => None
  | TPhase p => inr <$> PhaseHub.shared p
  end.

Section Inv.
Context {B : Type} `{BigUint B} {F U : Type} {V : Set}.
Variable full_name : PhaseHub.WriteTarget → string.
Variable key_order : list TaskId → list TaskId.
Variables turns fuel : nat.

Abbreviation SimS := (@Sim B F U).
Abbreviation FutV := (@Fut B F U V).
Abbreviation CodeV := (@Code B F U V).
Abbreviation Ex := (@Executor.ExecInner (FutV V) SimS V).
Abbreviation Prog := (@Executor.Prog (FutV V) SimS V).
Abbreviation run := (Executor.run_prog (V:=V) (@drop B F U V V) key_order).
Implicit Types (s : Ex) (w : SimS).

Fixpoint triggers {A : Set} (f : FutV A) : list Trigger :=
  match f with
  | FStart _ | FJoin _ | FAwait _ _ _ => []
  | FWait t => [t]
  | FBind f _ | FScoped _ f => triggers f
  | FFirst2 a b | FJoin2 a b => triggers a ++ triggers b
  | FJoin2L _ b => triggers b
  | FJoin2R a _ => triggers a
  | FJoinAll l =>
      (fix go l := match l with [] => [] | inl f :: r => triggers f ++ go r | inr _ :: r => go r end) l
  end.
Definition triggers_all {A : Set} (l : list (FutV A + A)) : list Trigger :=
  concat (map (λ x, match x with inl f => triggers f | inr _ => [] end) l).
Definition addrs (l : list Trigger) : list Addr := omap trig_addr l.
Definition cells {A : Set} (f : FutV A) : list Addr := addrs (triggers f).
Definition held_triggers {A : Set} (r : FutV A + A) : list Trigger := match r with inl f => triggers f | inr _ => [] end.
Definition held {A : Set} (r : FutV A + A) : list Addr := addrs (held_triggers r).

Definition cell_at w (a : Addr) : option PhaseHub.TrigShared :=
  match a with inl n => Triggers.trigs (tw w) !! n | inr n => PhaseHub.trigs (hub w) !! n end.
Definition below w (a : Addr) : Prop :=
  match a with inl n => n < Triggers.next (tw w) | inr n => n < PhaseHub.next (hub w) end.

(** The simulator owes the trigger a callback. *)
Definition owed w (t : Trigger) : Prop :=
  match t with
  | TTimer tm => ∃ a due, Time.t_shared tm = Some a ∧ Triggers.regs (tw w) !! a = Some (Triggers.RTimer due) ∧
                          (Triggers.now (tw w) ≤ due)%Z
  | TEdge e => ∃ a, Triggers.e_shared e = Some a ∧
                    Triggers.regs (tw w) !! a = Some (Triggers.REdge (Triggers.sig e) (Triggers.kind e))
  | TNull _ => False
  | TPhase p => ∃ a, PhaseHub.shared p = Some a ∧ a ∈ PhaseHub.waiters (hub w) (PhaseHub.kind p) ∧
                     PhaseHub.cb (hub w) (PhaseHub.kind p) = true
  end.

(** Task [id] waits on a trigger that has not fired. *)
Definition waits w (id : TaskId) (t : Trigger) : Prop :=
  owed w t ∧ ∃ a c, trig_addr t = Some a ∧ cell_at w a = Some c ∧ PhaseHub.fired c = false ∧ PhaseHub.waker c = Some id.

(** A suspended trigger that has fired; a null trigger is ready without a cell. *)
Definition ready w (t : Trigger) : Prop :=
  match t with
  | TNull _ => True
  | _ => ∃ a c, trig_addr t = Some a ∧ cell_at w a = Some c ∧ PhaseHub.fired c = true
  end.

Definition live s (id : TaskId) (f : FutV V) : Prop := ∃ t, Executor.tasks s !! id = Some t ∧ Executor.fut t = Some f.
Definition roused s (id : TaskId) : Prop :=
  id ∈ Executor.woken s ∨ ∃ t, Executor.tasks s !! id = Some t ∧ Executor.state t = Executor.Scheduled.

Record hub_ok w : Prop := {
  hub_acts : PhaseHub.acts (hub w) = [];
  hub_typed : Forall (λ x, PhaseHub.typed x.1 x.2 = true) (PhaseHub.writes (hub w));
  hub_nodup k : NoDup (PhaseHub.waiters (hub w) k);
  hub_below k n : n ∈ PhaseHub.waiters (hub w) k → n < PhaseHub.next (hub w);
  hub_woken : Triggers.woken (tw w) = [];
}.

Record wf s (me : TaskId) (mine : list Addr) : Prop := {
  wf_hub : hub_ok (Host.sim s);
  wf_below a : is_Some (cell_at (Host.sim s) a) → below (Host.sim s) a;
  wf_nodup : NoDup mine;
  wf_mine a : a ∈ mine → is_Some (cell_at (Host.sim s) a);
  wf_other id f : id ≠ me → live s id f → NoDup (cells f) ∧ ∀ a, a ∈ cells f → a ∉ mine;
  wf_sep id id' f f' a : id ≠ me → id' ≠ me → id ≠ id' → live s id f → live s id' f' → a ∈ cells f → a ∉ cells f';
  wf_ok id f t : id ≠ me → live s id f → t ∈ triggers f →
    waits (Host.sim s) id t ∨ (ready (Host.sim s) t ∧ roused s id);
}.

(** ** Changes of the world *)

Lemma elem_addrs (a : Addr) (l : list Trigger) : a ∈ addrs l ↔ ∃ t, t ∈ l ∧ trig_addr t = Some a.
Proof. unfold addrs. rewrite list_elem_of_omap. naive_solver. Qed.

Lemma addrs_app l l' : addrs (l ++ l') = addrs l ++ addrs l'.
Proof. apply omap_app. Qed.

Lemma armed_cell w id t a : waits w id t ∨ ready w t → trig_addr t = Some a → is_Some (cell_at w a).
Proof.
  intros [[_ (b & c & Hb & Hc & _)]|Hr] Ha; [simplify_eq; eauto|].
  destruct t; simpl in *; try done; destruct Hr as (b & c & Hb & Hc & _); rewrite Hb in Ha; simplify_eq/=; eauto.
Qed.

(** The trigger's cell and registration are as they were, and more is owed. *)
Definition same_at w w' (a : Addr) : Prop :=
  cell_at w' a = cell_at w a ∧
  match a with
  | inl n => Triggers.regs (tw w') !! n = Triggers.regs (tw w) !! n
  | inr n => ∀ k, n ∈ PhaseHub.waiters (hub w) k → n ∈ PhaseHub.waiters (hub w') k
  end.
(** A wait that is over: its trigger fired, or nobody has it any more. *)
Definition spent w (a : Addr) : Prop := below w a ∧ ∀ c, cell_at w a = Some c → PhaseHub.fired c = true.
Definition spends w w' : Prop := ∀ a, spent w a → spent w' a.
Record grows w w' : Prop := {
  g_now : Triggers.now (tw w') = Triggers.now (tw w);
  g_cb k : PhaseHub.cb (hub w) k = true → PhaseHub.cb (hub w') k = true;
  g_next : Triggers.next (tw w) ≤ Triggers.next (tw w') ∧ PhaseHub.next (hub w) ≤ PhaseHub.next (hub w');
  g_spent : spends w w';
}.

Lemma grows_intro w w' : Triggers.now (tw w') = Triggers.now (tw w) →
  (∀ k, PhaseHub.cb (hub w) k = true → PhaseHub.cb (hub w') k = true) →
  (Triggers.next (tw w) ≤ Triggers.next (tw w') ∧ PhaseHub.next (hub w) ≤ PhaseHub.next (hub w')) →
  (∀ a, below w a → cell_at w' a = cell_at w a ∨ cell_at w' a = None ∨ (∃ c, cell_at w a = Some c ∧ PhaseHub.fired c = false) ∨
     ∃ c, cell_at w' a = Some c ∧ PhaseHub.fired c = true) → grows w w'.
Proof.
  intros Hn Hc Hx Ha. constructor; try done. intros a [Hb Hf]. split; [destruct a; simpl in *; lia|].
  intros c. destruct (Ha a Hb) as [->|[->|[(c' & Hc' & Hf')|(c' & Hc' & Hf')]]]; [apply Hf|done| |congruence].
  apply Hf in Hc'. congruence.
Qed.

#[local] Instance spends_preorder : PreOrder spends.
Proof. split; [by intros w a|]. intros w1 w2 w3 H1 H2 a Ha. auto. Qed.
#[local] Instance grows_preorder : PreOrder grows.
Proof.
  split; [intros w; by constructor|]. intros w1 w2 w3 [? ? ? ?] [? ? ? ?]. constructor; [congruence|eauto|lia|by etrans].
Qed.

Lemma same_at_trans w1 w2 w3 a : same_at w1 w2 a → same_at w2 w3 a → same_at w1 w3 a.
Proof. intros [E1 H1] [E2 H2]. split; [congruence|]. destruct a; [congruence|eauto]. Qed.

Lemma waits_same w w' id t a : grows w w' → trig_addr t = Some a → same_at w w' a → waits w id t → waits w' id t.
Proof.
  intros [Hn Hc _ _] Ha [E Hr] [Ho (a' & c & Ha' & Hcell & Hf & Hk)]. simplify_eq. split.
  - destruct t as [tm|e|n|p]; simpl in *; try done.
    + destruct Ho as (b & due & Hb & Hreg & Hle). rewrite Hb in Ha. simplify_eq/=. exists b, due. rewrite Hr, Hn. done.
    + destruct Ho as (b & Hb & Hreg). rewrite Hb in Ha. simplify_eq/=. exists b. by rewrite Hr.
    + destruct Ho as (b & Hb & Hin & Hcb). rewrite Hb in Ha. simplify_eq/=. exists b. eauto.
  - exists a, c. by rewrite E.
Qed.

Lemma ready_same w w' t : (∀ a, trig_addr t = Some a → same_at w w' a) → ready w t → ready w' t.
Proof.
  intros Hs. destruct t; simpl; try done; intros (a & c & Ha & Hc & Hf); exists a, c; destruct (Hs a Ha) as [-> _]; done.
Qed.

(** Nothing about cells changes: user calls, writes. *)
Record quiet w w' : Prop := {
  q_same a : same_at w w' a;
  q_grows : grows w w';
  q_next : Triggers.next (tw w') = Triggers.next (tw w) ∧ PhaseHub.next (hub w') = PhaseHub.next (hub w);
  q_hub : hub_ok w → hub_ok w';
}.

#[local] Instance quiet_preorder : PreOrder quiet.
Proof.
  split.
  - intros w. constructor; [|done|done|done]. intros a. split; [done|]. by destruct a.
  - intros w1 w2 w3 [] []. constructor; [intros a; by eapply same_at_trans|by etrans|intuition congruence|auto].
Qed.

Lemma below_next w w' a :
  Triggers.next (tw w') = Triggers.next (tw w) → PhaseHub.next (hub w') = PhaseHub.next (hub w) →
  below w a → below w' a.
Proof. intros E1 E2. destruct a; simpl; [by rewrite E1|by rewrite E2]. Qed.

(** Tasks as they were, and nobody loses a wake-up. *)
Definition stays s s' : Prop := Executor.tasks s' ⊆ Executor.tasks s ∧ Executor.woken s ⊆ Executor.woken s'.

Lemma stays_live s s' id f : stays s s' → live s' id f → live s id f.
Proof. intros [E _] (t & Ht & Hf). exists t. split; [by apply (lookup_weaken _ _ _ _ Ht)|done]. Qed.
Lemma stays_roused s s' id f : stays s s' → live s' id f → roused s id → roused s' id.
Proof.
  intros [E Hw] (t & Ht & _) [Hi|(t' & Ht' & Hst)]; [left; by apply Hw|right].
  pose proof (lookup_weaken _ _ _ _ Ht E). simplify_eq. eauto.
Qed.

Lemma wf_quiet s s' me mine : stays s s' → quiet (Host.sim s) (Host.sim s') → wf s me mine → wf s' me mine.
Proof.
  intros Hst [Hsame Hg [Hn1 Hn2] Hh] [H1 H2 H3 H4 H5 H6 H7]. constructor; eauto using stays_live.
  - intros a. destruct (Hsame a) as [-> _]. intros Ha. by apply (below_next (Host.sim s)), H2.
  - intros a Ha. destruct (Hsame a) as [-> _]. auto.
  - intros id f t Hid Hl Ht. destruct (H7 id f t Hid (stays_live _ _ _ _ Hst Hl) Ht) as [Hw|[Hv Hr]].
    + left. destruct Hw as [Ho (a & c & Ha & ?)] eqn:E. by apply (waits_same (Host.sim s) _ _ _ a).
    + right. split; [by apply (ready_same (Host.sim s))|by eapply stays_roused].
Qed.

(** ** Writing is quiet *)

Definition same_timers (x x' : Triggers.World) : Prop :=
  Triggers.now x' = Triggers.now x ∧ Triggers.trigs x' = Triggers.trigs x ∧ Triggers.regs x' = Triggers.regs x ∧
  Triggers.next x' = Triggers.next x ∧ Triggers.woken x' = Triggers.woken x.
Record same_waits (h h' : @PhaseHub.Hub (LogicArray.LogicArray B) B F) : Prop := {
  sw_trigs : PhaseHub.trigs h' = PhaseHub.trigs h;
  sw_waiters k : PhaseHub.waiters h' k = PhaseHub.waiters h k;
  sw_next : PhaseHub.next h' = PhaseHub.next h;
  sw_acts : PhaseHub.acts h' = PhaseHub.acts h;
  sw_cb k : PhaseHub.cb h k = true → PhaseHub.cb h' k = true;
  sw_typed : Forall (λ x, PhaseHub.typed x.1 x.2 = true) (PhaseHub.writes h) →
             Forall (λ x, PhaseHub.typed x.1 x.2 = true) (PhaseHub.writes h');
}.

Lemma quiet_intro w w' : same_timers (tw w) (tw w') → same_waits (hub w) (hub w') → quiet w w'.
Proof.
  intros (E1 & E2 & E3 & E4 & E5) [F1 F2 F3 F4 F5 F6]. constructor.
  - intros [n|n]; split; simpl; rewrite ?E2, ?E3, ?F1; try done. intros k. by rewrite F2.
  - apply grows_intro; [done|done|lia|]. intros [a|a] _; left; simpl; by rewrite ?E2, ?F1.
  - done.
  - intros [G1 G2 G3 G4 G5]. constructor; [congruence|auto|intros k; by rewrite F2| |congruence].
    intros k n. rewrite F2, F3. apply G4.
Qed.

Lemma same_waits_refl h : same_waits h h.
Proof. by constructor. Qed.
Hint Resolve same_waits_refl : core.

Lemma put_same t v w w' : put t v w = Done w' → same_timers (tw w) (tw w') ∧ hub w' = hub w.
Proof.
  intros Hp. destruct t as [[i width]|i|i]; destruct v; simpl in Hp; repeat case_match; simplify_eq; simpl; done.
Qed.
Lemma put_quiet t v w w' : put t v w = Done w' → quiet w w'.
Proof. intros [Ht Eh]%put_same. apply quiet_intro; [done|]. by rewrite Eh. Qed.

Lemma set_vector_words_total h ws : ∃ ws', Signals.set_vector_words h ws = Done ws'.
Proof.
  assert (∀ l : list Signals.t_vpi_vecval, (Signals.size h mod 32 ≠ 0 → l ≠ []) → ∃ l', Signals.mask_vector_words h l = Done l') as Hm.
  { intros l Hl. unfold Signals.mask_vector_words. destruct (Nat.eqb_spec (Signals.size h mod 32) 0) as [|Hn]; [eauto|].
    destruct l; [by destruct (Hl Hn)|eauto]. }
  assert (Signals.size h mod 32 ≠ 0 → div_ceil (Signals.size h) 32 ≠ 0) as Hd.
  { intros Hn Hz. pose proof (div_ceil_32 (Signals.size h)) as Hc. rewrite Hz in Hc.
    assert (Signals.size h = 0) as E by lia. by rewrite E in Hn. }
  unfold Signals.set_vector_words. destruct (Nat.eqb_spec (length ws) (div_ceil (Signals.size h) 32)) as [He|He].
  - apply Hm. intros Hn ->. simpl in He. by apply Hd.
  - destruct (Nat.ltb_spec (div_ceil (Signals.size h) 32) (length ws)) as [Hlt|Hge]; [|eauto].
    apply Hm. intros Hn E. apply (f_equal length) in E. rewrite length_take in E. cbn [length] in E. specialize (Hd Hn). lia.
Qed.

Lemma put_total t v w : PhaseHub.typed t v = true → ∃ w', put t v w = Done w'.
Proof.
  assert (∀ i width ws, ∃ w', match Signals.set_vector_words {| Signals.size := width |} ws with
    | Done ws => Done (set_eval_needed true (set_tw (Triggers.set_val i (Some ws) (tw w)) w))
    | Panic m => Panic m end = Done w') as Hl.
  { intros i width ws. destruct (set_vector_words_total {| Signals.size := width |} ws) as [ws' ->]. eauto. }
  destruct t as [[i width]|i|i]; destruct v; simpl; intros Ht; try done; try apply Hl; [eauto|].
  destruct (has_nul x); [done|eauto].
Qed.

Lemma schedule_quiet x w w' ws u : hub_ok w → schedule full_name x w = Done (w', ws, u) → quiet w w' ∧ ws = [].
Proof.
  intros Hh. unfold schedule, with_hub, PhaseHub.schedule. destruct (PhaseHub.phase (hub w)) eqn:Ep.
  - set (h1 := PhaseHub.prime _ _). unfold flush. simpl.
    destruct (PhaseHub.prime_spec PhaseHub.KReadWrite
      (PhaseHub.set_writes (PhaseHub.buffer (to x) (val x) (PhaseHub.writes (hub w))) (hub w)))
      as (Hc & Hm & _ & Hwt & Hwr & Htr & Hn & Ha). fold h1 in Hc, Hm, Hwt, Hwr, Htr, Hn, Ha. simpl in *.
    rewrite Ha, (hub_acts _ Hh). simpl. intros [= <- <- <-]. split; [|done]. apply quiet_intro; [done|]. simpl.
    constructor; simpl; rewrite ?Htr, ?Hwt, ?Hwr; try done.
    + by rewrite (hub_acts _ Hh).
    + intros Hf. by apply (PhaseHub.buffer_Forall (λ y, PhaseHub.typed y.1 y.2 = true)); [apply (val_typed x)|].
  - pose proof (PhaseHub.apply_write_typed (to x) (val x) (hub w)) as Ht. rewrite (val_typed x) in Ht. rewrite Ht.
    unfold flush. simpl. rewrite (hub_acts _ Hh). simpl.
    match goal with |- context [put (to x) (val x) ?w0] => destruct (put (to x) (val x) w0) as [w1|m] eqn:Hp end; [|done].
    intros [= <- <- <-]. split; [|done]. etrans; [|by eapply put_quiet]. apply quiet_intro; [done|]. simpl.
    constructor; simpl; try done. by rewrite (hub_acts _ Hh).
  - unfold PhaseHub.deny_write_in_read_only. by rewrite Ep.
Qed.

Lemma set_now_quiet x w w' ws u : set_now full_name x w = Done (w', ws, u) → quiet w w' ∧ ws = [].
Proof.
  unfold set_now. destruct (PhaseHub.deny_write_in_read_only _ _ _); [|done].
  destruct (put (to x) (val x) w) eqn:Hp; [|done]. intros [= <- <- <-]. split; [by eapply put_quiet|done].
Qed.

Lemma user_quiet u w : quiet w (set_user u w).
Proof. by apply quiet_intro. Qed.

(** ** Dropping frees cells *)

Record frees (D : list Addr) w w' : Prop := {
  f_in a : a ∈ D → cell_at w' a = None;
  f_out a : a ∉ D → same_at w w' a;
  f_grows : grows w w';
  f_next : Triggers.next (tw w') = Triggers.next (tw w) ∧ PhaseHub.next (hub w') = PhaseHub.next (hub w);
  f_hub : hub_ok w → hub_ok w';
}.

Lemma quiet_frees w w' : quiet w w' → frees [] w w'.
Proof. intros []. constructor; auto. by intros a ?%not_elem_of_nil. Qed.

Lemma frees_trans D D' w1 w2 w3 : frees D w1 w2 → frees D' w2 w3 → frees (D ++ D') w1 w3.
Proof.
  intros [I1 O1 G1 [N1 N1'] H1] [I2 O2 G2 [N2 N2'] H2]. constructor.
  - intros a Ha. destruct (decide (a ∈ D')) as [|Hn]; [auto|]. destruct (O2 a Hn) as [-> _].
    apply I1. apply elem_of_app in Ha. tauto.
  - intros a [Ha Hb]%not_elem_of_app. eapply same_at_trans; eauto.
  - by etrans.
  - split; congruence.
  - auto.
Qed.

Lemma frees_ext D D' w w' : (∀ a, a ∈ D ↔ a ∈ D') → frees D w w' → frees D' w w'.
Proof. intros E [I O G N Hh]. constructor; try done; intros a Ha; [apply I|apply O]; by rewrite E. Qed.

Lemma drop_cell_frees n w : frees [inl n] w (set_tw (Triggers.drop_cell n (tw w)) w).
Proof.
  constructor.
  - intros a ->%list_elem_of_singleton. simpl. apply lookup_delete_eq.
  - intros [m|m] Hn; split; simpl; try done; rewrite lookup_delete_ne; try done; intros ->; apply Hn; by left.
  - apply grows_intro; try done. intros [m|m] _; simpl; [|by left]. destruct (decide (n = m)) as [->|Hne].
    + right. left. apply lookup_delete_eq.
    + left. by rewrite lookup_delete_ne.
  - done.
  - intros []. by constructor.
Qed.

Lemma drop_trigger_frees t w : frees (addrs [t]) w (drop_trigger t w).
Proof.
  assert (frees [] w w) as H0 by (by apply quiet_frees).
  destruct t as [tm|e|n|p]; simpl.
  - destruct (Time.t_shared tm); simpl; [apply drop_cell_frees|done].
  - destruct (Triggers.e_shared e); simpl; [apply drop_cell_frees|done].
  - done.
  - unfold PhaseHub.drop_phase. destruct (PhaseHub.shared p) as [n|]; simpl; [|by destruct w].
    constructor.
    + intros a ->%list_elem_of_singleton. simpl. apply lookup_delete_eq.
    + intros [m|m] Hn; split; simpl; try done. rewrite lookup_delete_ne; [done|]. intros ->. apply Hn. by left.
    + apply grows_intro; try done. intros [m|m] _; simpl; [by left|]. destruct (decide (n = m)) as [->|Hne].
      * right. left. apply lookup_delete_eq.
      * left. by rewrite lookup_delete_ne.
    + done.
    + intros []. by constructor.
Qed.

Lemma on_user_frees d w : frees [] w (on_user d w).1.
Proof. apply quiet_frees. unfold on_user. destruct (d (user w)). apply user_quiet. Qed.

Lemma seq_drop_frees D D' f g w :
  (∀ w, frees D w (f w).1) → (∀ w, frees D' w (g w).1) → frees (D ++ D') w (seq_drop f g w).1.
Proof.
  intros Hf Hg. unfold seq_drop. specialize (Hf w). destruct (f w) as [w1 ws1]. specialize (Hg w1).
  destruct (g w1) as [w2 ws2]. simpl in *. by eapply frees_trans.
Qed.

Lemma triggers_join {A : Set} (l : list (FutV A + A)) : triggers (FJoinAll l) = triggers_all l.
Proof. simpl. induction l as [|[f|a] l IH]; [done|..]; simpl; by rewrite IH. Qed.

Lemma drop_join {A : Set} (l : list (FutV A + A)) w : drop (FJoinAll l) w = drop_all l w.
Proof.
  simpl. revert w. induction l as [|[f|a] l IH]; intros w; [done|..]; simpl; [|apply IH].
  unfold seq_drop. destruct (drop f w) as [w1 ws1]. by rewrite IH.
Qed.

Lemma drop_frees : ∀ (A : Set) (f : FutV A) w, frees (cells f) w (drop f w).1.
Proof.
  assert (∀ w, frees [] w w) as H0 by (intros w; by apply quiet_frees).
  fix IH 2. intros A f w. destruct f; unfold cells; simpl; try apply H0.
  - apply drop_trigger_frees.
  - apply on_user_frees.
  - apply IH.
  - rewrite addrs_app. apply seq_drop_frees; intros; apply IH.
  - rewrite addrs_app. apply seq_drop_frees; intros; apply IH.
  - apply IH.
  - apply IH.
  - revert w. induction l as [|[f|a] l IHl]; intros w; simpl; [apply H0| |apply IHl].
    rewrite addrs_app. apply seq_drop_frees; [intros; apply IH|apply IHl].
  - eapply frees_ext; [|apply (seq_drop_frees (cells f) []); [intros; apply IH|intros; apply on_user_frees]].
    intros a. by rewrite app_nil_r.
Qed.

Lemma drop_all_frees {A : Set} (l : list (FutV A + A)) w : frees (addrs (triggers_all l)) w (drop_all l w).1.
Proof. rewrite <- drop_join, <- triggers_join. apply (drop_frees _ (FJoinAll l)). Qed.

(** Cells [D] are given up: nobody left has one of them. *)
Lemma wf_freed s s' me D L R : stays s s' → frees D (Host.sim s) (Host.sim s') → wf s me L →
  NoDup R → (∀ a, a ∈ R → a ∈ L ∧ a ∉ D) →
  (∀ id f a, id ≠ me → live s' id f → a ∈ cells f → a ∉ D) → wf s' me R.
Proof.
  intros Hst [I O G [N N'] Hh] [H1 H2 H3 H4 H5 H6 H7] HR Hsub Hout. constructor.
  - auto.
  - intros a Ha. destruct (decide (a ∈ D)) as [Hd|Hd]; [by rewrite (I a Hd) in Ha; destruct Ha|].
    destruct (O a Hd) as [E _]. rewrite E in Ha. by apply (below_next (Host.sim s)), H2.
  - done.
  - intros a Ha. destruct (Hsub a Ha) as [HL HD]. destruct (O a HD) as [-> _]. auto.
  - intros id f Hid Hl. destruct (H5 id f Hid (stays_live _ _ _ _ Hst Hl)) as [Hnd Hx]. split; [done|].
    intros a Ha HaR. apply (Hx a Ha), Hsub, HaR.
  - intros id id' f f' a ? ? ? Hl Hl'. apply (H6 id id'); eauto using stays_live.
  - intros id f t Hid Hl Ht.
    assert (∀ a, trig_addr t = Some a → same_at (Host.sim s) (Host.sim s') a) as Hsame.
    { intros a Ha. apply O, (Hout id f a Hid Hl), elem_addrs. eauto. }
    destruct (H7 id f t Hid (stays_live _ _ _ _ Hst Hl) Ht) as [Hw|[Hv Hr]].
    + left. pose proof Hw as [_ (a & c & Ha & _)]. apply (waits_same (Host.sim s) _ _ _ a); auto.
    + right. split; [by apply (ready_same (Host.sim s))|by eapply stays_roused].
Qed.

(** The running task gives up the cells [D]. *)
Lemma wf_frees s s' me D R : stays s s' → frees D (Host.sim s) (Host.sim s') → wf s me (D ++ R) → wf s' me R.
Proof.
  intros Hst Hf Hw. pose proof (wf_nodup _ _ _ Hw) as (HD & Hsep & HR)%NoDup_app.
  apply (wf_freed s s' me D (D ++ R)); try done.
  - intros a Ha. split; [apply elem_of_app; by right|]. intros HaD. by apply (Hsep a).
  - intros id f a Hid Hl Ha HaD. destruct (wf_other _ _ _ Hw id f Hid (stays_live _ _ _ _ Hst Hl)) as [_ Hx].
    apply (Hx a Ha), elem_of_app. by left.
Qed.

Lemma wf_weaken s me L R : NoDup R → (∀ a, a ∈ R → a ∈ L) → wf s me L → wf s me R.
Proof.
  intros HR Hsub Hw. apply (wf_freed s s me [] L); try done.
  - by apply quiet_frees.
  - intros a Ha. split; [auto|apply not_elem_of_nil].
  - intros. apply not_elem_of_nil.
Qed.

(** One cell of the running task is written, or made. *)
Lemma wf_cell s s' me a R : stays s s' → (∀ b, b ≠ a → same_at (Host.sim s) (Host.sim s') b) →
  grows (Host.sim s) (Host.sim s') → hub_ok (Host.sim s') → is_Some (cell_at (Host.sim s') a) → below (Host.sim s') a →
  a ∉ R → (∀ id f, id ≠ me → live s id f → a ∉ cells f) → wf s me R → wf s' me (a :: R).
Proof.
  intros Hst Hsame Hg Hh Hc Hb HaR Hna [H1 H2 H3 H4 H5 H6 H7]. constructor.
  - done.
  - intros b Hcb. destruct (decide (b = a)) as [->|Hne]; [done|]. destruct (Hsame b Hne) as [E _]. rewrite E in Hcb.
    apply H2 in Hcb. destruct Hg as [_ _ [? ?] _]. destruct b; simpl in *; lia.
  - by constructor.
  - intros b [->|Hb']%elem_of_cons; [done|]. destruct (decide (b = a)) as [->|Hne]; [done|].
    destruct (Hsame b Hne) as [-> _]. auto.
  - intros id f Hid Hl. apply (stays_live _ _ _ _ Hst) in Hl. destruct (H5 id f Hid Hl) as [Hnd Hx]. split; [done|].
    intros b Hbf [->|Hb']%elem_of_cons; [by apply (Hna id f)|by apply (Hx b)].
  - intros id id' f f' b ? ? ? Hl Hl'. apply (H6 id id'); eauto using stays_live.
  - intros id f t Hid Hl Ht. pose proof (stays_live _ _ _ _ Hst Hl) as Hl0.
    assert (∀ b, trig_addr t = Some b → same_at (Host.sim s) (Host.sim s') b) as Hs.
    { intros b Hbt. apply Hsame. intros ->. apply (Hna id f Hid Hl0), elem_addrs. eauto. }
    destruct (H7 id f t Hid Hl0 Ht) as [Hw|[Hv Hr]].
    + left. pose proof Hw as [_ (b & c & Hbt & _)]. apply (waits_same (Host.sim s) _ _ _ b); auto.
    + right. split; [by apply (ready_same (Host.sim s))|by eapply stays_roused].
Qed.

(** Nobody has a cell that does not exist. *)
Lemma wf_fresh s me L a : wf s me L → cell_at (Host.sim s) a = None →
  a ∉ L ∧ ∀ id f, id ≠ me → live s id f → a ∉ cells f.
Proof.
  intros Hw Hn. split.
  - intros Ha. destruct (wf_mine _ _ _ Hw a Ha). congruence.
  - intros id f Hid Hl (t & Ht & Ha)%elem_addrs. destruct (armed_cell (Host.sim s) id t a) as [c Hc]; [|done|congruence].
    destruct (wf_ok _ _ _ Hw id f t Hid Hl Ht) as [?|[? _]]; auto.
Qed.

(** ** Programs *)

Abbreviation upd w ws s := (Host.wake_world (w, ws) s).

Lemma upd_tasks w ws s : Executor.tasks (upd w ws s) = Executor.tasks s.
Proof. unfold Host.wake_world. by rewrite Executor.wake_all_eq. Qed.
Lemma upd_woken w ws s : Executor.woken (upd w ws s) = Executor.woken s ++ ws.
Proof. unfold Host.wake_world. by rewrite Executor.wake_all_eq. Qed.
Lemma upd_sim w ws s : Host.sim (upd w ws s) = w.
Proof. unfold Host.wake_world, Host.sim. by rewrite Executor.wake_all_eq. Qed.
Lemma upd_polling w ws s : Executor.currently_polling (upd w ws s) = Executor.currently_polling s.
Proof. unfold Host.wake_world. by rewrite Executor.wake_all_eq. Qed.
Lemma upd_stays w ws s : stays s (upd w ws s).
Proof. split; [by rewrite upd_tasks|]. rewrite upd_woken. set_solver. Qed.

Lemma run_wakes me ws (k : Prog) s : run me (wakes ws k) s = run me k (Executor.wake_all ws s).
Proof. revert s. induction ws as [|i ws IH]; intros s; [done|]. simpl. by rewrite IH. Qed.

Lemma run_act {X : Type} me (f : SimS → Exec (SimS * list Waker * X)) (k : X → Prog) kp s :
  run me (act f k kp) s =
  match f (Host.sim s) with Done (w, ws, x) => run me (k x) (upd w ws s) | Panic m => run me (kp m) s end.
Proof.
  unfold act. simpl. unfold Host.sim. destruct (f (Executor.world s)) as [[[w ws] x]|m]; simpl; [|done].
  by rewrite run_wakes.
Qed.

Lemma run_dropping me d (k : Prog) s :
  run me (dropping d k) s = run me k (upd (d (Host.sim s)).1 (d (Host.sim s)).2 s).
Proof.
  unfold dropping. simpl. unfold Host.sim. destruct (d (Executor.world s)) as [w ws]. simpl. by rewrite run_wakes.
Qed.

(** ** What polling promises *)

(** The task keeps its other cells, [R], and loses no wake-up. *)
Record cont (R : list Addr) s s' : Prop := {
  c_polling : Executor.currently_polling s' = Executor.currently_polling s;
  c_woken : Executor.woken s ⊆ Executor.woken s';
  c_same a : a ∈ R → same_at (Host.sim s) (Host.sim s') a;
  c_grows : grows (Host.sim s) (Host.sim s');
}.

Lemma cont_refl R s : cont R s s.
Proof. constructor; try done. intros [n|n]; by split. Qed.
Lemma cont_trans R s1 s2 s3 : cont R s1 s2 → cont R s2 s3 → cont R s1 s3.
Proof. intros [] []. constructor; [congruence|by etrans|eauto using same_at_trans|by etrans]. Qed.
Lemma cont_mono R R' s s' : (∀ a, a ∈ R' → a ∈ R) → cont R s s' → cont R' s s'.
Proof. intros Hs []. constructor; auto. Qed.

(** Triggers that may be polled, and triggers a task may suspend on. *)
Definition pollable me s (l : list Trigger) : Prop := ∀ t, t ∈ l → waits (Host.sim s) me t ∨ ready (Host.sim s) t.
Definition suspended me s (l : list Trigger) : Prop :=
  ∀ t, t ∈ l → waits (Host.sim s) me t ∨ (ready (Host.sim s) t ∧ me ∈ Executor.woken s).

Lemma pollable_cont me R s s' l : cont R s s' → (∀ a, a ∈ addrs l → a ∈ R) → pollable me s l → pollable me s' l.
Proof.
  intros [] HR Hp t Ht. assert (∀ a, trig_addr t = Some a → same_at (Host.sim s) (Host.sim s') a) as Hs.
  { intros a Ha. apply c_same0, HR, elem_addrs. eauto. }
  destruct (Hp t Ht) as [Hw|Hr]; [left|right; by apply (ready_same (Host.sim s))].
  pose proof Hw as [_ (a & c & Ha & _)]. apply (waits_same (Host.sim s) _ _ _ a); auto.
Qed.
Lemma suspended_cont me R s s' l : cont R s s' → (∀ a, a ∈ addrs l → a ∈ R) → suspended me s l → suspended me s' l.
Proof.
  intros Hc HR Hp t Ht. destruct (Hp t Ht) as [Hw|[Hr Hi]].
  - destruct (pollable_cont me R s s' [t] Hc) with (t := t) as [?|?]; try (by left); try (by apply list_elem_of_singleton).
    + intros a Ha. apply HR. rewrite elem_addrs in Ha |- *. destruct Ha as (t' & ->%list_elem_of_singleton & ?). eauto.
    + intros t' ->%list_elem_of_singleton. by left.
    + left. pose proof Hw as [_ (a & c & Ha & _)]. destruct Hc. apply (waits_same (Host.sim s) _ _ _ a); auto.
      apply c_same0, HR, elem_addrs. eauto.
  - right. destruct Hc. split; [|auto]. apply (ready_same (Host.sim s)); [|done].
    intros a Ha. apply c_same0, HR, elem_addrs. eauto.
Qed.
Lemma suspended_pollable me s l : suspended me s l → pollable me s l.
Proof. intros Hs t Ht. destruct (Hs t Ht) as [?|[? _]]; auto. Qed.

Lemma suspended_nil me s : suspended me s [].
Proof. intros t Ht. by apply elem_of_nil in Ht. Qed.
Hint Resolve suspended_nil cont_refl : core.

(** The two ways a poll goes on. *)
Definition goes {A : Set} me (R : list Addr) s (res : Ex * Executor.Polled) (k : FutV A + A → Prog) (kp : string → Prog) : Prop :=
  ∃ s', cont R s s' ∧
    ((∃ r, res = run me (k r) s' ∧ wf s' me (held r ++ R) ∧ suspended me s' (held_triggers r)) ∨
     (∃ m, res = run me (kp m) s' ∧ wf s' me R)).

Lemma goes_done {A : Set} me R s s' res (k : FutV A + A → Prog) kp a :
  cont R s s' → res = run me (k (inr a)) s' → wf s' me R → goes me R s res k kp.
Proof. intros Hc Hr Hw. exists s'. split; [done|]. left. exists (inr a). auto. Qed.
Lemma goes_wait {A : Set} me R s s' res (k : FutV A + A → Prog) kp f :
  cont R s s' → res = run me (k (inl f)) s' → wf s' me (cells f ++ R) → suspended me s' (triggers f) → goes me R s res k kp.
Proof. intros Hc Hr Hw Hs. exists s'. split; [done|]. left. exists (inl f). auto. Qed.
Lemma goes_panic {A : Set} me R s s' res (k : FutV A + A → Prog) kp m :
  cont R s s' → res = run me (kp m) s' → wf s' me R → goes me R s res k kp.
Proof. intros Hc Hr Hw. exists s'. split; [done|]. right. eauto. Qed.
Lemma goes_from {A : Set} me R s s' res (k : FutV A + A → Prog) kp :
  cont R s s' → goes me R s' res k kp → goes me R s res k kp.
Proof. intros Hc (s'' & Hc' & H'). exists s''. split; [by eapply cont_trans|done]. Qed.

(** A poll that owns the cells of the triggers [L]: it goes on with an answer, or
    panics having given everything up. *)
Definition spec {A : Set} me (L : list Trigger) (p : (FutV A + A → Prog) → (string → Prog) → Prog) : Prop :=
  ∀ R s k kp, Executor.currently_polling s = Some me → wf s me (addrs L ++ R) → pollable me s L →
  goes me R s (run me (p k kp) s) k kp.

Lemma wf_perm s me L L' : L ≡ₚ L' → wf s me L → wf s me L'.
Proof.
  intros E [H1 H2 H3 H4 H5 H6 H7]. constructor; try done.
  - by rewrite <- E.
  - intros a. rewrite <- E. apply H4.
  - intros id f Hid Hl. destruct (H5 id f Hid Hl) as [? Hx]. split; [done|]. intros a Ha. rewrite <- E. by apply Hx.
Qed.

(** Giving cells up within a poll. *)
Lemma frees_step s me D R d ws : frees D (Host.sim s) d → wf s me (D ++ R) →
  wf (upd d ws s) me R ∧ cont R s (upd d ws s).
Proof.
  intros Hf Hw. split.
  - eapply wf_frees; [apply upd_stays|by rewrite upd_sim|done].
  - destruct Hf as [I O G N Hh]. constructor.
    + apply upd_polling.
    + rewrite upd_woken. set_solver.
    + intros a Ha. rewrite upd_sim. apply O. intros HD. destruct Hw as [_ _ Hnd _ _ _ _].
      apply NoDup_app in Hnd as (_ & Hx & _). by apply (Hx a).
    + by rewrite upd_sim.
Qed.
Lemma quiet_step s me R w ws : quiet (Host.sim s) w → wf s me R → wf (upd w ws s) me R ∧ cont R s (upd w ws s).
Proof. intros Hq Hw. by apply (frees_step s me []); [apply quiet_frees|]. Qed.

(** ** Polling a trigger *)

Lemma cell_step s me a R w ws : (∀ b, b ≠ a → same_at (Host.sim s) w b) → grows (Host.sim s) w → hub_ok w →
  is_Some (cell_at w a) → below w a → a ∉ R → (∀ id f, id ≠ me → live s id f → a ∉ cells f) → wf s me R →
  wf (upd w ws s) me (a :: R) ∧ cont R s (upd w ws s).
Proof.
  intros Hsame Hg Hh Hc Hb HaR Hna Hw. split.
  - apply (wf_cell s); rewrite ?upd_sim; try done. apply upd_stays.
  - constructor; rewrite ?upd_sim, ?upd_polling, ?upd_woken; try done; [set_solver|].
    intros b Hb'. apply Hsame. by intros ->.
Qed.

Lemma time_steps_nonneg n : (0 ≤ Triggers.time_steps (Triggers.simtime n))%Z.
Proof.
  unfold Triggers.time_steps, Triggers.simtime. simpl. apply Z.lor_nonneg. split.
  - apply Z.shiftl_nonneg. unfold wrap. apply Z.mod_pos_bound. lia.
  - apply Z.land_nonneg. right. lia.
Qed.

(** What polling a trigger comes to: the cells of the task's trigger before and
    after, and whether the task may suspend on it. *)
Definition poll_step (me : TaskId) s (R : list Addr) (w : SimS) (ws : list Waker) (t' : Trigger) (r : Poll unit) : Prop :=
  wf (upd w ws s) me (addrs [t'] ++ R) ∧ cont R s (upd w ws s) ∧ (r = Pending → suspended me (upd w ws s) [t']).

(** A first poll makes a cell. *)
Lemma poll_fresh s me R w ws t' a : wf s me R → trig_addr t' = Some a → cell_at (Host.sim s) a = None →
  (∀ b, b ≠ a → same_at (Host.sim s) w b) → grows (Host.sim s) w → hub_ok w → below w a →
  cell_at w a = Some (PhaseHub.set_waker me PhaseHub.trig_new) → owed w t' → poll_step me s R w ws t' Pending.
Proof.
  intros Hw Ha Hn Hsame Hg Hh Hb Hc Ho. destruct (wf_fresh s me R a Hw Hn) as [HaR Hna].
  destruct (cell_step s me a R w ws) as [H1 H2]; try done.
  split_and!; [by unfold addrs; simpl; rewrite Ha|done|]. intros _ t ->%list_elem_of_singleton. left. rewrite upd_sim. split; [done|].
  eexists a, _. done.
Qed.

(** A later poll of a trigger that has not fired stores the waker. *)
Lemma poll_waiting s me R w ws t a : wf s me (a :: R) → trig_addr t = Some a →
  (∀ b, b ≠ a → same_at (Host.sim s) w b) → grows (Host.sim s) w → hub_ok w →
  (∃ c, cell_at w a = Some c ∧ PhaseHub.fired c = false ∧ PhaseHub.waker c = Some me) → owed w t →
  poll_step me s R w ws t Pending.
Proof.
  intros Hw Ha Hsame Hg Hh (c & Hc & Hf & Hk) Ho. pose proof (wf_nodup _ _ _ Hw) as [HaR HR]%NoDup_cons.
  destruct (cell_step s me a R w ws) as [H1 H2]; try done.
  - pose proof (wf_below _ _ _ Hw a (wf_mine _ _ _ Hw a ltac:(by left))) as Hb. destruct Hg as [_ _ [? ?] _].
    destruct a; simpl in *; lia.
  - intros id f Hid Hl Hx. destruct (wf_other _ _ _ Hw id f Hid Hl) as [_ Hy]. apply (Hy a Hx). by left.
  - apply (wf_weaken _ _ (a :: R)); [done|set_solver|done].
  - split_and!; [by unfold addrs; simpl; rewrite Ha|done|]. intros _ t0 ->%list_elem_of_singleton. left. rewrite upd_sim.
    split; [done|]. by exists a, c.
Qed.

(** A poll that finds it fired changes nothing. *)
Lemma poll_fired s me R w ws t : wf s me (addrs [t] ++ R) → quiet (Host.sim s) w → poll_step me s R w ws t (Ready tt).
Proof.
  intros Hw Hq. destruct (quiet_step s me _ w ws Hq Hw) as [H1 H2]. split_and!; [done| |done].
  apply (cont_mono _ _ _ _ ltac:(intros a Ha; apply elem_of_app; by right) H2).
Qed.

Lemma with_tw_quiet w : hub_ok w → ∃ w', with_tw (tw w) w = (w', []) ∧ quiet w w'.
Proof.
  intros Hh. unfold with_tw, take_woken. eexists. rewrite (hub_woken _ Hh). split; [done|]. apply quiet_intro; [|done].
  unfold same_timers. simpl. by rewrite (hub_woken _ Hh).
Qed.

Lemma pollable_one me s t : pollable me s [t] → waits (Host.sim s) me t ∨ ready (Host.sim s) t.
Proof. intros Hp. apply Hp. by left. Qed.

(** Timers and edges: [reg] is what a first poll registers. *)
Lemma poll_register s me R t' reg : wf s me R →
  trig_addr t' = Some (inl (Triggers.next (tw (Host.sim s)))) →
  (∀ w, Triggers.now (tw w) = Triggers.now (tw (Host.sim s)) →
        Triggers.regs (tw w) !! Triggers.next (tw (Host.sim s)) = Some reg → owed w t') →
  let '(w, ws) := with_tw (Triggers.register (PhaseHub.set_waker me PhaseHub.trig_new) reg (tw (Host.sim s))) (Host.sim s) in
  poll_step me s R w ws t' Pending.
Proof.
  intros Hw Ha Ho. unfold with_tw, take_woken. simpl. pose proof (wf_hub _ _ _ Hw) as Hh.
  apply (poll_fresh _ _ _ _ _ _ _ Hw Ha); simpl.
  - destruct (Triggers.trigs (tw (Host.sim s)) !! _) eqn:E; [|done].
    pose proof (wf_below _ _ _ Hw (inl (Triggers.next (tw (Host.sim s)))) ltac:(simpl; by rewrite E)) as Hb. simpl in Hb. lia.
  - intros [n|n] Hne; split; simpl; try done; rewrite lookup_insert_ne; try done; congruence.
  - apply grows_intro; simpl; [done|done|lia|]. intros [m|m] Hb; simpl in *; left; [|done]. rewrite lookup_insert_ne by lia. done.
  - destruct Hh. by constructor.
  - lia.
  - by rewrite lookup_insert_eq.
  - apply Ho; simpl; [done|]. by rewrite lookup_insert_eq.
Qed.

Lemma poll_shared_step s me R t a : wf s me (addrs [t] ++ R) → pollable me s [t] → trig_addr t = Some (inl a) →
  let '(x, r) := Triggers.poll_shared a me (tw (Host.sim s)) in
  let '(w, ws) := with_tw x (Host.sim s) in poll_step me s R w ws t r.
Proof.
  intros Hw Hp Ha. pose proof (wf_hub _ _ _ Hw) as Hh. unfold addrs in Hw. simpl in Hw. rewrite Ha in Hw. simpl in Hw.
  destruct (wf_mine _ _ _ Hw (inl a)) as [c Hc]; [by left|]. simpl in Hc.
  unfold Triggers.poll_shared. rewrite Hc. destruct (PhaseHub.fired c) eqn:Hf.
  - destruct (with_tw_quiet _ Hh) as (w & -> & Hq). apply poll_fired; [|done]. unfold addrs. simpl. by rewrite Ha.
  - unfold with_tw, take_woken. simpl.
    assert (waits (Host.sim s) me t) as [Ho _].
    { destruct (pollable_one me s t Hp) as [|Hr]; [done|]. destruct t; simpl in *; try done;
        destruct Hr as (b & c' & Hb & Hc' & Hf'); rewrite Hb in Ha; simplify_eq/=; congruence. }
    apply (poll_waiting _ _ _ _ _ _ (inl a) Hw Ha); simpl.
    + intros [n|n] Hne; split; simpl; try done. rewrite lookup_insert_ne; [done|congruence].
    + apply grows_intro; try done. intros [m|m] _; simpl; [|by left]. destruct (decide (a = m)) as [->|Hne].
      * right. right. left. eauto.
      * left. by rewrite lookup_insert_ne.
    + destruct Hh. by constructor.
    + rewrite lookup_insert_eq. eauto.
    + destruct t; simpl in *; done.
Qed.

Lemma poll_phase_step s me R p : wf s me (addrs [TPhase p] ++ R) → (PhaseHub.shared p = None ∨ pollable me s [TPhase p]) →
  match PhaseHub.poll_phase p me (hub (Host.sim s)) with
  | Done (h, p', r) => poll_step me s R (set_hub h (Host.sim s)) [] (TPhase p') r
  | Panic _ => PhaseHub.shared p = None
  end.
Proof.
  intros Hw Hp. pose proof (wf_hub _ _ _ Hw) as Hh. set (w0 := Host.sim s) in *. unfold PhaseHub.poll_phase.
  destruct (PhaseHub.shared p) as [a|] eqn:Ha.
  - destruct Hp as [|Hp]; [done|]. assert (trig_addr (TPhase p) = Some (inr a)) as Ht by (simpl; by rewrite Ha).
    pose proof Hw as Hw0. unfold addrs in Hw. simpl in Hw. rewrite Ha in Hw. simpl in Hw.
    destruct (wf_mine _ _ _ Hw (inr a)) as [c Hc]; [by left|]. simpl in Hc. fold w0 in Hc. rewrite Hc.
    destruct (PhaseHub.fired c) eqn:Hf.
    + apply poll_fired; [done|]. apply quiet_intro; done.
    + assert (waits w0 me (TPhase p)) as [Ho _].
      { destruct (pollable_one me s _ Hp) as [|Hr]; [done|]. destruct Hr as (b & c' & Hb & Hc' & Hf').
        rewrite Hb in Ht. simplify_eq/=. fold w0 in Hc'. congruence. }
      apply (poll_waiting _ _ _ _ _ _ (inr a) Hw Ht); simpl.
      * intros [n|n] Hne; split; simpl; try done. rewrite lookup_insert_ne; [done|congruence].
      * apply grows_intro; try done. intros [m|m] _; simpl; [by left|]. destruct (decide (a = m)) as [->|Hne].
        -- right. right. left. eauto.
        -- left. by rewrite lookup_insert_ne.
      * destruct Hh. by constructor.
      * rewrite lookup_insert_eq. eauto.
      * done.
  - destruct (decide _); [done|]. unfold addrs in Hw. simpl in Hw. rewrite Ha in Hw. simpl in Hw.
    match goal with |- poll_step _ _ _ (set_hub (PhaseHub.prime _ ?h) _) _ _ _ => set (h1 := h) end.
    destruct (PhaseHub.prime_spec (PhaseHub.kind p) h1) as (Hcb & Hm & _ & Hwt & Hwr & Htr & Hn & Hac).
    assert (∀ k x, x ∈ PhaseHub.waiters (hub w0) k → x ∈ PhaseHub.waiters h1 k) as Hin.
    { intros k x Hx. simpl. unfold PhaseHub.upd. case_decide; [subst; apply elem_of_app; by left|done]. }
    apply (poll_fresh _ _ _ _ _ _ (inr (PhaseHub.next (hub w0))) Hw); simpl; fold w0; rewrite ?Htr, ?Hn.
    + done.
    + destruct (PhaseHub.trigs (hub w0) !! _) eqn:E; [|done].
      pose proof (wf_below _ _ _ Hw (inr (PhaseHub.next (hub w0))) ltac:(simpl; fold w0; by rewrite E)) as Hb. simpl in Hb. fold w0 in Hb. lia.
    + intros [n'|n'] Hne; split; simpl; rewrite ?Htr, ?Hwt; try done; simpl; [|intros k; apply Hin].
      rewrite lookup_insert_ne; [done|congruence].
    + apply grows_intro; simpl; rewrite ?Hn; [done|done|simpl; lia|]. intros [m|m] Hb; simpl in *; left; [done|].
      rewrite Htr. simpl. rewrite lookup_insert_ne by lia. done.
    + destruct Hh as [G1 G2 G3 G4 G5]. constructor; simpl; rewrite ?Hac, ?Hwr, ?Hwt, ?Hn; try done; simpl.
      * intros k. unfold PhaseHub.upd. case_decide; [|done]. apply NoDup_app. split_and!; [done| |apply NoDup_singleton].
        intros x Hx ->%list_elem_of_singleton. apply G4 in Hx. lia.
      * intros k x. unfold PhaseHub.upd. case_decide; [|intros Hx; apply G4 in Hx; lia].
        intros [Hx| ->%list_elem_of_singleton]%elem_of_app; [apply G4 in Hx; lia|lia].
    + simpl. lia.
    + simpl. by rewrite lookup_insert_eq.
    + exists (PhaseHub.next (hub w0)). split_and!; [done| |done]. rewrite Hwt. simpl. unfold PhaseHub.upd.
      rewrite decide_True by done. apply elem_of_app. right. by apply list_elem_of_singleton.
Qed.

Lemma poll_trigger_step s me R t : wf s me (addrs [t] ++ R) → (t = unpolled t ∨ pollable me s [t]) →
  match poll_trigger t me (Host.sim s) with
  | Done (w, ws, (t', r)) => poll_step me s R w ws t' r
  | Panic _ => addrs [t] = []
  end.
Proof.
  intros Hw Hp. pose proof (wf_hub _ _ _ Hw) as Hh. destruct t as [tm|e|n|p]; simpl.
  - unfold Triggers.poll_timer. destruct (Time.t_shared tm) as [a|] eqn:Ha.
    + pose proof (poll_shared_step s me R (TTimer tm) a Hw) as Hs. destruct Hp as [[= E]|Hp]; [by rewrite E in Ha|].
      specialize (Hs Hp ltac:(simpl; by rewrite Ha)). destruct (Triggers.poll_shared _ _ _) as [x r].
      exact Hs.
    + unfold addrs in Hw. simpl in Hw. rewrite Ha in Hw.
      pose proof (poll_register s me R (TTimer {| Time.t_steps := Time.t_steps tm; Time.t_shared := Some (Triggers.next (tw (Host.sim s))) |})
        (Triggers.RTimer (Triggers.now (tw (Host.sim s)) + Triggers.time_steps (Triggers.simtime (Time.t_steps tm)))) Hw eq_refl) as Hr.
      apply Hr. intros w Hn Hreg. eexists _, _. split_and!; [done|done|]. rewrite Hn.
      pose proof (time_steps_nonneg (Time.t_steps tm)). lia.
  - unfold Triggers.poll_edge. destruct (Triggers.e_shared e) as [a|] eqn:Ha.
    + pose proof (poll_shared_step s me R (TEdge e) a Hw) as Hs. destruct Hp as [[= E]|Hp]; [by rewrite E in Ha|].
      specialize (Hs Hp ltac:(simpl; by rewrite Ha)). destruct (Triggers.poll_shared _ _ _) as [x r].
      exact Hs.
    + unfold addrs in Hw. simpl in Hw. rewrite Ha in Hw.
      pose proof (poll_register s me R (TEdge {| Triggers.sig := Triggers.sig e; Triggers.kind := Triggers.kind e;
        Triggers.e_shared := Some (Triggers.next (tw (Host.sim s))) |}) (Triggers.REdge (Triggers.sig e) (Triggers.kind e)) Hw eq_refl) as Hr.
      apply Hr. intros w Hn Hreg. eexists. done.
  - unfold Triggers.poll_null. destruct (Triggers.yielded n) eqn:Hy.
    + destruct (with_tw_quiet _ Hh) as (w & E & Hq). unfold with_tw in E. simpl in E. injection E as E1 E2.
      simpl. rewrite E1. by apply poll_fired.
    + simpl. rewrite (hub_woken _ Hh). simpl.
      match goal with |- poll_step _ _ _ ?w ?ws _ _ => destruct (quiet_step s me R w ws) as [H1 H2] end; [|done|].
      * apply quiet_intro; [|done]. unfold same_timers. simpl. by rewrite (hub_woken _ Hh).
      * split_and!; [done|done|]. intros _ t ->%list_elem_of_singleton. right. split; [done|]. rewrite upd_woken. set_solver.
  - pose proof (poll_phase_step s me R p Hw) as Hs. destruct (PhaseHub.poll_phase _ _ _) as [[[h p'] r]|m].
    + apply Hs. destruct Hp as [E|Hp]; [|by right]. left. unfold unpolled in E. injection E as E. by rewrite E.
    + unfold addrs. simpl. rewrite Hs; [done|]. destruct Hp as [E|Hp]; [|by right]. left. injection E as E. by rewrite E.
Qed.

(** ** The primitive steps *)

Lemma cont_app_r D R s s' : cont (D ++ R) s s' → cont R s s'.
Proof. apply cont_mono. intros a Ha. apply elem_of_app. by right. Qed.

Lemma step_trigger_spec me t L : (t = unpolled t ∧ L = [] ∨ L = [t]) →
  spec me L (step_trigger t me).
Proof.
  intros HL R s k kp Hpol Hw Hp.
  assert (wf s me (addrs [t] ++ R) ∧ (t = unpolled t ∨ pollable me s [t])) as [Hw' Hp'].
  { destruct HL as [[Hu ->]| ->]; [|auto]. split; [|by left]. rewrite Hu. by destruct t. }
  pose proof (poll_trigger_step s me R t Hw' Hp') as Hs. unfold step_trigger. rewrite run_act.
  destruct (poll_trigger t me (Host.sim s)) as [[[w ws] [t' r]]|m].
  - destruct Hs as (H1 & H2 & H3). destruct r as [[]|].
    + rewrite run_dropping. cbn [fst snd].
      destruct (frees_step (upd w ws s) me (addrs [t']) R (drop_trigger t' w) []) as [H4 H5]; [|done|].
      * rewrite upd_sim. apply drop_trigger_frees.
      * rewrite upd_sim. eexists. split; [by eapply cont_trans|]. left. exists (inr tt). split_and!; [done|done|].
        intros t0 Ht0. by apply elem_of_nil in Ht0.
    + exists (upd w ws s). split; [done|]. left. exists (inl (FWait t')). split_and!; [done|done|]. by apply H3.
  - exists s. split; [apply cont_refl|]. right. exists m. split; [done|]. by rewrite Hs in Hw'.
Qed.

Lemma user_step s me R u ws : wf s me R → wf (upd (set_user u (Host.sim s)) ws s) me R ∧ cont R s (upd (set_user u (Host.sim s)) ws s).
Proof. intros Hw. apply quiet_step; [apply user_quiet|done]. Qed.

Lemma on_user_step s me R d : wf s me R →
  wf (upd (on_user d (Host.sim s)).1 (on_user d (Host.sim s)).2 s) me R ∧
  cont R s (upd (on_user d (Host.sim s)).1 (on_user d (Host.sim s)).2 s).
Proof. intros Hw. unfold on_user. destruct (d (user (Host.sim s))). simpl. by apply user_step. Qed.

Lemma step_await_spec me {S A : Set} p d (x : S) : spec (A := A) me [] (step_await p d x me).
Proof.
  intros R s k kp Hpol Hw Hp. unfold step_await. rewrite run_act. unfold on_shared.
  destruct (p x me (user (Host.sim s))) as [[[[u ws] x'] r]|m].
  - destruct (user_step s me R u ws Hw) as [H1 H2]. destruct r as [a|].
    + rewrite run_dropping. destruct (on_user_step _ me R (d x') H1) as [H3 H4].
      eexists. split; [by eapply cont_trans|]. left. exists (inr a). auto.
    + eexists. split; [exact H2|]. left. exists (inl (FAwait p d x')). auto.
  - rewrite run_dropping. destruct (on_user_step s me R (d x) Hw) as [H3 H4]. eexists. split; [exact H4|]. right. eauto.
Qed.

(** A step of the executor that leaves the world alone. *)
Lemma exec_step s s' me R : Executor.tasks s' ⊆ Executor.tasks s → Executor.woken s ⊆ Executor.woken s' →
  Executor.world s' = Executor.world s → Executor.currently_polling s' = Executor.currently_polling s →
  wf s me R → wf s' me R ∧ cont R s s'.
Proof.
  intros Ht Hw E Hp Hwf.
  assert (quiet (Host.sim s) (Host.sim s')) as Hq by (unfold Host.sim; by rewrite E).
  split; [apply (wf_quiet s); done|]. constructor; [done|done| |apply Hq]. intros a _. apply Hq.
Qed.

Lemma step_join_spec me id : spec me [] (λ k _, step_join id k).
Proof.
  intros R s k kp Hpol Hw Hp. unfold step_join. simpl.
  destruct (Executor.handle_poll id me s) as [s' r] eqn:E.
  assert (wf s' me R ∧ cont R s s') as [H1 H2].
  { unfold Executor.handle_poll, Executor.handle_result in E. repeat case_match; simplify_eq; apply exec_step; done. }
  exists s'. split; [done|]. left. destruct r as [x|]; [exists (inr x)|exists (inl (FJoin id))]; auto.
Qed.

Lemma wf_spawn s me R f n : triggers f = [] → wf s me R → wf (fst (Executor.spawn_named f n s)) me R.
Proof.
  intros Hf [H1 H2 H3 H4 H5 H6 H7]. set (s' := fst _).
  assert (∀ id g, live s' id g → g = f ∨ live s id g ∧ (roused s id → roused s' id)) as Hl.
  { intros id g (t & Ht & Hg). simpl in Ht. apply lookup_insert_Some in Ht as [[<- <-]|[Hne Ht]]; [left; by injection Hg|].
    right. split; [by exists t|]. intros [?|(t' & Ht' & Hst)]; [by left|right]. simplify_eq. exists t. split; [|done].
    simpl. by rewrite lookup_insert_ne. }
  assert (cells f = []) as Hc by (unfold cells; by rewrite Hf).
  constructor; try done.
  - intros id g Hid [->|[Hg _]]%Hl; [|by apply (H5 id)]. rewrite Hc. split; [apply NoDup_nil_2|].
    intros a Ha. by apply elem_of_nil in Ha.
  - intros id id' g g' a Hid Hid' Hne [->|[Hg _]]%Hl [->|[Hg' _]]%Hl; rewrite ?Hc;
      try (intros Ha; by apply elem_of_nil in Ha); try (intros _; apply not_elem_of_nil). by apply (H6 id id').
  - intros id g t Hid [->|[Hg Hr]]%Hl Ht; [rewrite Hf in Ht; by apply elem_of_nil in Ht|].
    destruct (H7 id g t Hid Hg Ht) as [?|[? ?]]; [by left|right; auto].
Qed.

Lemma spawn_step s me R f n : triggers f = [] → wf s me R →
  wf (fst (Executor.spawn_named f n s)) me R ∧ cont R s (fst (Executor.spawn_named f n s)).
Proof.
  intros Hf Hw. split; [by apply wf_spawn|]. constructor; try done. intros [a|a] _; by split.
Qed.

(** A task's cell is completed. *)
Lemma complete_fields id st (r : Result V Executor.TaskError) s :
  let s' := Executor.complete id r (Executor.state_cell id st s) in
  Executor.tasks s' = Executor.tasks s ∧ Executor.woken s ⊆ Executor.woken s' ∧ Executor.world s' = Executor.world s ∧
  Executor.currently_polling s' = Executor.currently_polling s.
Proof.
  simpl. split; [by rewrite Executor.complete_tasks, Executor.state_cell_tasks|].
  unfold Executor.complete, Executor.state_cell. repeat (case_match; simpl); rewrite ?Executor.wake_all_eq; simpl;
    split_and!; try done; set_solver.
Qed.

(** Cancelling another task drops its future. *)
Lemma cancel_step s me R id : wf s me R →
  (Executor.currently_polling s = Some me ∨ Executor.tasks s !! me = None) →
  wf (Executor.cancel drop id s) me R ∧ cont R s (Executor.cancel drop id s).
Proof.
  intros Hw Hme. unfold Executor.cancel. destruct (decide _) as [Hd|Hd]; [by apply exec_step|].
  destruct (Executor.tasks s !! id) as [t|] eqn:Ht; [|by split].
  assert (id ≠ me) as Hid by (intros ->; destruct Hme; congruence).
  destruct (complete_fields id Executor.Cancelled (Err Executor.ECancelled) (Executor.set_tasks (delete id (Executor.tasks s)) s))
    as (Et & Ew & Eo & Ep). set (s1 := Executor.on_abort _ _ _).
  change (Executor.tasks s1 = delete id (Executor.tasks s)) in Et. change (Executor.woken s ⊆ Executor.woken s1) in Ew.
  change (Executor.world s1 = Executor.world s) in Eo.
  change (Executor.currently_polling s1 = Executor.currently_polling s) in Ep.
  assert (Executor.tasks s1 ⊆ Executor.tasks s) as Es by (rewrite Et; apply delete_subseteq).
  destruct (exec_step s s1 me R Es Ew Eo Ep Hw) as [H1 H2].
  unfold Executor.drop_future. destruct (Executor.fut t) as [f|] eqn:Hf; [|done].
  pose proof (drop_frees V f (Host.sim s1)) as Hfr.
  change (Executor.world s1) with (Host.sim s1). destruct (drop f (Host.sim s1)) as [w ws]. simpl in Hfr.
  change (Executor.wake_all ws (Executor.set_world w s1)) with (upd w ws s1).
  assert (live s id f) as Hlive by (by exists t).
  assert (∀ a, a ∈ R → a ∉ cells f) as HR.
  { intros a Ha Hc. by apply (proj2 (wf_other _ _ _ Hw id f Hid Hlive) a). }
  split.
  - apply (wf_freed s1 _ me (cells f) R); rewrite ?upd_sim; try done.
    + apply upd_stays.
    + apply H1.
    + intros a Ha. auto.
    + intros id' g a Hid' (t' & Ht' & Hg) Ha. rewrite upd_tasks, Et in Ht'. apply lookup_delete_Some in Ht' as [Hne Ht'].
      apply (wf_sep _ _ _ Hw id' id g f); try done. by exists t'.
  - eapply cont_trans; [exact H2|]. destruct Hfr as [I O G N Hh].
    constructor; rewrite ?upd_sim, ?upd_polling, ?upd_woken; try done; [set_solver|]. intros a Ha. apply O. auto.
Qed.

Lemma cancel_list_step ids s me R : wf s me R →
  (Executor.currently_polling s = Some me ∨ Executor.tasks s !! me = None) →
  wf (Executor.cancel_list drop ids s) me R ∧ cont R s (Executor.cancel_list drop ids s).
Proof.
  unfold Executor.cancel_list. revert s. induction ids as [|i ids IH]; intros s Hw Hme; [done|]. simpl.
  destruct (cancel_step s me R i Hw Hme) as [H1 H2]. destruct (IH _ H1) as [H3 H4].
  - destruct Hme as [Hme|Hme]; [left|right; by apply Executor.cancel_shrinks]. by rewrite (c_polling _ _ _ H2).
  - split; [done|]. by eapply cont_trans.
Qed.

(** ** Polling code and futures *)

Abbreviation pcode c me := (poll_code full_name turns c me).
Abbreviation pfut f me := (poll_fut full_name turns f me).

(** Destructors within a poll. *)
Lemma drop_fut_step {A : Set} s me R (f : FutV A) : wf s me (cells f ++ R) →
  wf (upd (drop f (Host.sim s)).1 (drop f (Host.sim s)).2 s) me R ∧
  cont R s (upd (drop f (Host.sim s)).1 (drop f (Host.sim s)).2 s).
Proof. intros Hw. apply (frees_step s me (cells f)); [apply drop_frees|done]. Qed.
Lemma drop_all_step {A : Set} s me R (l : list (FutV A + A)) : wf s me (addrs (triggers_all l) ++ R) →
  wf (upd (drop_all l (Host.sim s)).1 (drop_all l (Host.sim s)).2 s) me R ∧
  cont R s (upd (drop_all l (Host.sim s)).1 (drop_all l (Host.sim s)).2 s).
Proof. intros Hw. apply (frees_step s me (addrs (triggers_all l))); [apply drop_all_frees|done]. Qed.

Lemma quiet_call me R s (f : SimS → Exec (SimS * list Waker * unit)) (k : FutV unit + unit → Prog) kp : wf s me R →
  (∀ w ws u, f (Host.sim s) = Done (w, ws, u) → quiet (Host.sim s) w) →
  goes me R s (run me (act f (λ _, k (inr tt)) kp) s) k kp.
Proof.
  intros Hw Hq. rewrite run_act. destruct (f (Host.sim s)) as [[[w ws] u]|m].
  - destruct (quiet_step s me R w ws (Hq w ws u eq_refl) Hw). by eapply goes_done.
  - by eapply goes_panic.
Qed.

Lemma addrs_nil_app (R : list Addr) : addrs [] ++ R = R.
Proof. done. Qed.

(** Two futures owned together. *)
Lemma wf_both {A C : Set} s me R (a : FutV A) (b : FutV C) :
  wf s me (cells b ++ cells a ++ R) → wf s me (addrs (triggers a ++ triggers b) ++ R).
Proof.
  intros Hw. rewrite addrs_app. eapply wf_perm; [|exact Hw]. unfold cells.
  rewrite <- app_assoc. apply Permutation_app_swap_app.
Qed.
Lemma suspended_app me s l l' : suspended me s l → suspended me s l' → suspended me s (l ++ l').
Proof. intros H1 H2 t [Ht|Ht]%elem_of_app; auto. Qed.
Lemma pollable_app me s l l' : pollable me s (l ++ l') → pollable me s l ∧ pollable me s l'.
Proof. intros Hp. split; intros t Ht; apply Hp, elem_of_app; auto. Qed.

(** The result of both halves of a [join]. *)
Definition both {A C : Set} (ra : FutV A + A) (rb : FutV C + C) : FutV (A * C) + A * C :=
  match ra, rb with
  | inr x, inr y => inr (x, y)
  | inr x, inl fb => inl (FJoin2L x fb)
  | inl fa, inr y => inl (FJoin2R fa y)
  | inl fa, inl fb => inl (FJoin2 fa fb)
  end.
Lemma held_both {A C : Set} (ra : FutV A + A) (rb : FutV C + C) :
  held_triggers (both ra rb) = held_triggers ra ++ held_triggers rb.
Proof. destruct ra, rb; simpl; by rewrite ?app_nil_r. Qed.

(** Both halves are polled; [ra] is what the first came to. *)
Lemma join_second {A C : Set} me R s s' (ra : FutV A + A) (p : (FutV C + C → Prog) → (string → Prog) → Prog) L
    (k : FutV (A * C) + A * C → Prog) kp :
  spec me L p → Executor.currently_polling s' = Some me → cont R s s' → wf s' me (addrs L ++ held ra ++ R) →
  pollable me s' L → suspended me s' (held_triggers ra) →
  goes me R s (run me (p (λ rb, k (both ra rb)) (λ m, match ra with inl fa => dropping (drop fa) (kp m) | inr _ => kp m end)) s') k kp.
Proof.
  intros Hspec Hpol Hc Hw Hpo Hsu. apply (goes_from _ _ _ _ _ _ _ Hc).
  destruct (Hspec (held ra ++ R) s' (λ rb, k (both ra rb)) (λ m, match ra with inl fa => dropping (drop fa) (kp m) | inr _ => kp m end)
    Hpol Hw Hpo) as (s2 & Hc2 & [(rb & E & Hw2 & Hs2)|(m & E & Hw2)]); rewrite E.
  - exists s2. split; [by eapply cont_app_r|]. left. exists (both ra rb). split; [done|]. unfold held. rewrite held_both. split.
    + rewrite addrs_app. eapply wf_perm; [|exact Hw2]. rewrite <- app_assoc. apply Permutation_app_swap_app.
    + apply suspended_app; [|done]. eapply suspended_cont; [exact Hc2| |done]. intros a Ha. apply elem_of_app. by left.
  - destruct ra as [fa|x].
    + rewrite run_dropping. destruct (drop_fut_step s2 me R fa Hw2) as [H3 H4].
      eapply goes_panic; [eapply cont_trans; [by eapply cont_app_r|exact H4]|done|done].
    + eapply goes_panic; [exact Hc2|done|done].
Qed.

(** [first] with the first future suspended as [fa]. *)
Lemma first_second {A C : Set} me R s s' (fa : FutV A) (p : (FutV C + C → Prog) → (string → Prog) → Prog) L
    (k : FutV (Combinators.Either A C) + Combinators.Either A C → Prog) kp :
  spec me L p → Executor.currently_polling s' = Some me → cont R s s' → wf s' me (addrs L ++ cells fa ++ R) →
  pollable me s' L → suspended me s' (triggers fa) →
  goes me R s (run me (p (λ rb, match rb with
      | inr y => dropping (drop fa) (k (inr (Combinators.Second y)))
      | inl fb => k (inl (FFirst2 fa fb))
      end) (λ m, dropping (drop fa) (kp m))) s') k kp.
Proof.
  intros Hspec Hpol Hc Hw Hpo Hsu. apply (goes_from _ _ _ _ _ _ _ Hc).
  edestruct (Hspec (cells fa ++ R) s') as (s2 & Hc2 & [(rb & E & Hw2 & Hs2)|(m & E & Hw2)]); [done|done|done|rewrite E|rewrite E].
  - destruct rb as [fb|y].
    + eapply goes_wait; [by eapply cont_app_r|done|by apply wf_both|]. simpl. apply suspended_app; [|done].
      eapply suspended_cont; [exact Hc2| |done]. intros a Ha. apply elem_of_app. by left.
    + rewrite run_dropping. destruct (drop_fut_step s2 me R fa Hw2) as [H3 H4].
      eapply goes_done; [eapply cont_trans; [by eapply cont_app_r|exact H4]|done|done].
  - rewrite run_dropping. destruct (drop_fut_step s2 me R fa Hw2) as [H3 H4].
    eapply goes_panic; [eapply cont_trans; [by eapply cont_app_r|exact H4]|done|done].
Qed.

Lemma triggers_all_app {A : Set} (l l' : list (FutV A + A)) : triggers_all (l ++ l') = triggers_all l ++ triggers_all l'.
Proof. unfold triggers_all. by rewrite map_app, concat_app. Qed.
Lemma triggers_all_reverse_cons {A : Set} (x : FutV A + A) acc :
  triggers_all (reverse (x :: acc)) = triggers_all (reverse acc) ++ held_triggers x.
Proof. rewrite reverse_cons, triggers_all_app. f_equal. unfold triggers_all. simpl. by rewrite app_nil_r. Qed.

(** When every future has finished, [join_all] has; else it is suspended on
    those that have not. *)
Lemma joined_goes {A : Set} me R s (l : list (FutV A + A)) (k : FutV (list A) + list A → Prog) kp :
  wf s me (addrs (triggers_all l) ++ R) → suspended me s (triggers_all l) → goes me R s (run me (k (joined l)) s) k kp.
Proof.
  intros Hw Hs. unfold joined. destruct (all_done l) as [x|] eqn:E.
  - assert (triggers_all l = []) as Ht.
    { clear -E. revert x E. induction l as [|[f|a] l IH]; intros x E; simpl in *; try done. case_match; [|done].
      simplify_eq. by apply (IH l0). }
    rewrite Ht in Hw. by eapply goes_done.
  - eapply goes_wait; [done|done| |]; unfold cells; by rewrite triggers_join.
Qed.

(** One future of [join_all] after another: [acc] has been polled, [rest] has
    not. *)
Lemma async_pass_spec {A : Set} {T : Type} me (p : T → (FutV A + A → Prog) → (string → Prog) → Prog) (trg : T → list Trigger)
    (rest_drop : list T → Prog → Prog) (pass : list T → list (FutV A + A) → Prog)
    (k : FutV (list A) + list A → Prog) kp (P : T → Prop) :
  (∀ x, P x → spec me (trg x) (p x)) →
  (∀ l R s q, wf s me (addrs (concat (map trg l)) ++ R) →
     ∃ s', run me (rest_drop l q) s = run me q s' ∧ wf s' me R ∧ cont R s s') →
  (∀ acc, pass [] acc = k (joined (reverse acc))) →
  (∀ x r acc, pass (x :: r) acc =
     p x (λ y, pass r (y :: acc)) (λ m, dropping (drop_all (reverse acc)) (rest_drop r (kp m)))) →
  ∀ l acc R s, Forall P l → Executor.currently_polling s = Some me →
    wf s me (addrs (concat (map trg l)) ++ addrs (triggers_all (reverse acc)) ++ R) →
    pollable me s (concat (map trg l)) → suspended me s (triggers_all (reverse acc)) →
    goes me R s (run me (pass l acc) s) k kp.
Proof.
  intros Hp Hdrop Hnil Hcons. induction l as [|x l IH]; intros acc R s HP Hpol Hw Hpo Hsu.
  - rewrite Hnil. by apply joined_goes.
  - rewrite Hcons. apply Forall_cons in HP as [Hx HP]. simpl in Hw, Hpo. apply pollable_app in Hpo as [Hpx Hpl].
    rewrite addrs_app, <- app_assoc in Hw.
    edestruct (Hp x Hx (addrs (concat (map trg l)) ++ addrs (triggers_all (reverse acc)) ++ R) s)
      as (s1 & Hc & [(y & E & Hw1 & Hs1)|(m & E & Hw1)]); [done|done|done|rewrite E|rewrite E].
    + assert (cont R s s1) as Hc1 by (by do 2 eapply cont_app_r).
      apply (goes_from _ _ _ s1 _ _ _ Hc1). apply IH; [done| | | |].
      * by rewrite (c_polling _ _ _ Hc).
      * rewrite triggers_all_reverse_cons, addrs_app. eapply wf_perm; [|exact Hw1]. unfold held. solve_Permutation.
      * eapply pollable_cont; [exact Hc| |done]. set_solver.
      * rewrite triggers_all_reverse_cons. apply suspended_app; [|done]. eapply suspended_cont; [exact Hc| |done]. set_solver.
    + rewrite run_dropping.
      destruct (drop_all_step s1 me (addrs (concat (map trg l)) ++ R) (reverse acc)) as [H3 H4].
      { eapply wf_perm; [|exact Hw1]. apply Permutation_app_swap_app. }
      edestruct (Hdrop l R) as (s3 & E3 & H5 & H6); [exact H3|].
      eapply goes_panic; [|exact E3|done].
      eapply cont_trans; [by do 2 eapply cont_app_r|]. eapply cont_trans; [by eapply cont_app_r|done].
Qed.

Lemma concat_const_nil {T : Type} (l : list T) : concat (map (λ _, []) l) = ([] : list Trigger).
Proof. by induction l. Qed.

Lemma poll_code_spec me : ∀ (A : Set) (c : CodeV A), spec me [] (pcode c me).
Proof.
  fix IH 2. intros A c R s k kp Hpol Hw Hp. change (addrs [] ++ R) with R in Hw. destruct c; cbn [poll_code].
  - by eapply goes_done.
  - edestruct (IH _ c R s) as (s1 & Hc & [(r & E & Hw1 & Hs1)|(m & E & Hw1)]); [done|done|done|rewrite E|rewrite E].
    + destruct r as [f|a]; [by eapply goes_wait|]. apply (goes_from _ _ _ s1 _ _ _ Hc).
      apply IH; [by rewrite (c_polling _ _ _ Hc)|done|]. intros t Ht. by apply elem_of_nil in Ht.
    + by eapply goes_panic.
  - by eapply goes_panic.
  - simpl. by eapply goes_done.
  - rewrite run_act. unfold on_shared. destruct (f (user (Host.sim s))) as [[[u ws] a]|m]; [|by eapply goes_panic].
    destruct (user_step s me R u ws Hw). by eapply goes_done.
  - apply quiet_call; [done|]. intros w ws u E. by eapply schedule_quiet; [apply Hw|].
  - apply quiet_call; [done|]. intros w ws u E. by eapply set_now_quiet.
  - rewrite run_dropping. simpl. destruct (quiet_step s me R (set_finished (Host.sim s)) []) as [H1 H2]; [|done|].
    + by apply quiet_intro.
    + by eapply goes_done.
  - apply (step_trigger_spec me (unpolled t) []); [|done|done|done]. left. by destruct t.
  - by apply (step_await_spec me poll0 drop0 s0).
  - simpl. destruct (spawn_step s me R (FStart c) name eq_refl Hw) as [H1 H2]. by eapply goes_done.
  - simpl. destruct (cancel_step s me R id Hw ltac:(by left)) as [H1 H2]. by eapply goes_done.
  - simpl. destruct (cancel_list_step (filter (λ id, watermark ≤ id) (key_order (Executor.keys s))) s me R Hw ltac:(by left)) as [H1 H2].
    by eapply goes_done.
  - simpl. by eapply goes_done.
  - simpl. by eapply goes_done.
  - simpl. destruct (Executor.handle_result id s) as [s' r] eqn:E.
    assert (wf s' me R ∧ cont R s s') as [H1 H2].
    { unfold Executor.handle_result in E. repeat case_match; simplify_eq; by apply exec_step. }
    by eapply goes_done.
  - by apply (step_join_spec me id R s k kp).
  - simpl. by eapply goes_done.
  - simpl. by eapply goes_done.
  - edestruct (IH _ c1 R s) as (s1 & Hc & [(r & E & Hw1 & Hs1)|(m & E & Hw1)]); [done|done|done|rewrite E|rewrite E].
    + destruct r as [fa|a]; [|by eapply goes_done].
      apply (first_second me R s s1 fa _ []); try done; [by rewrite (c_polling _ _ _ Hc)|].
      intros t Ht. by apply elem_of_nil in Ht.
    + by eapply goes_panic.
  - edestruct (IH _ c1 R s) as (s1 & Hc & [(r & E & Hw1 & Hs1)|(m & E & Hw1)]); [done|done|done|rewrite E|rewrite E].
    + apply (join_second me R s s1 r _ []); try done; [by rewrite (c_polling _ _ _ Hc)|].
      intros t Ht. by apply elem_of_nil in Ht.
    + by eapply goes_panic.
  - match goal with |- context [run me (?pass l [])] => set (go := pass) end.
    apply (async_pass_spec me (λ c, pcode c me) (λ _, []) (λ _ q, q) go k kp (λ c, spec me [] (pcode c me))); try done.
    + intros l' R' s' q Hw'. exists s'. split_and!; [done| |done]. by rewrite concat_const_nil in Hw'.
    + clear go Hp. induction l as [|c l IHl]; constructor; [apply IH|exact IHl].
    + by rewrite concat_const_nil.
    + rewrite concat_const_nil. intros t Ht. by apply elem_of_nil in Ht.
  - generalize turns at 2 as n. intros n. revert s0 s Hpol Hw Hp. induction n as [|n IHn]; intros x s Hpol Hw Hp; [by eapply goes_panic|].
    edestruct (IH _ (body x) R s) as (s1 & Hc & [(r & E & Hw1 & Hs1)|(m & E & Hw1)]); [done|done|done|rewrite E|rewrite E].
    + destruct r as [f|[x'|a]]; [by eapply goes_wait| |by eapply goes_done]. apply (goes_from _ _ _ s1 _ _ _ Hc).
      apply IHn; [by rewrite (c_polling _ _ _ Hc)|done|]. intros t Ht. by apply elem_of_nil in Ht.
    + by eapply goes_panic.
  - edestruct (IH _ c R s) as (s1 & Hc & [(r & E & Hw1 & Hs1)|(m & E & Hw1)]); [done|done|done|rewrite E|rewrite E].
    + destruct r as [f|a]; [by eapply goes_wait|]. rewrite run_dropping.
      destruct (on_user_step s1 me R drop0 Hw1) as [H3 H4]. eapply goes_done; [by eapply cont_trans|done|done].
    + rewrite run_dropping. destruct (on_user_step s1 me R drop0 Hw1) as [H3 H4]. eapply goes_panic; [by eapply cont_trans|done|done].
  - edestruct (IH _ c R s) as (s1 & Hc & [(r & E & Hw1 & Hs1)|(m & E & Hw1)]); [done|done|done|rewrite E|rewrite E].
    + destruct r as [f|a]; [|by eapply goes_done]. rewrite run_dropping.
      destruct (drop_fut_step s1 me R f Hw1) as [H3 H4]. eapply goes_done; [by eapply cont_trans|done|done].
    + by eapply goes_done.
Qed.

Lemma held_triggers_all {A : Set} (l : list (FutV A + A)) : concat (map held_triggers l) = triggers_all l.
Proof. done. Qed.

(** What is polled of a future of [join_all]: one that has finished is left. *)
Definition poll_item {A : Set} me (x : FutV A + A) : (FutV A + A → Prog) → (string → Prog) → Prog :=
  match x with inl f => pfut f me | inr a => λ k _, k (inr a) end.

Lemma poll_fut_spec me : ∀ (A : Set) (f : FutV A), spec me (triggers f) (pfut f me).
Proof.
  fix IH 2. intros A f R s k kp Hpol Hw Hp. destruct f; cbn [poll_fut triggers] in *.
  - by apply poll_code_spec.
  - apply (step_trigger_spec me t [t]); [by right|done..].
  - by apply (step_await_spec me poll0 drop0 s0).
  - by apply (step_join_spec me id R s k kp).
  - edestruct (IH _ f R s) as (s1 & Hc & [(r & E & Hw1 & Hs1)|(m & E & Hw1)]); [done|done|done|rewrite E|rewrite E].
    + destruct r as [f'|a]; [by eapply goes_wait|]. apply (goes_from _ _ _ s1 _ _ _ Hc).
      apply poll_code_spec; [by rewrite (c_polling _ _ _ Hc)|done|]. intros t Ht. by apply elem_of_nil in Ht.
    + by eapply goes_panic.
  - apply pollable_app in Hp as [Hp1 Hp2]. rewrite addrs_app, <- app_assoc in Hw.
    edestruct (IH _ f1 (cells f2 ++ R) s) as (s1 & Hc & [(r & E & Hw1 & Hs1)|(m & E & Hw1)]); [done|done|done|rewrite E|rewrite E].
    + destruct r as [fa|a].
      * apply (first_second me R s s1 fa _ (triggers f2)); [apply IH|by rewrite (c_polling _ _ _ Hc)|by eapply cont_app_r| | |done].
        -- eapply wf_perm; [|exact Hw1]. apply Permutation_app_swap_app.
        -- eapply pollable_cont; [exact Hc| |done]. intros a Ha. apply elem_of_app. by left.
      * rewrite run_dropping. destruct (drop_fut_step s1 me R f2 Hw1) as [H3 H4].
        eapply goes_done; [eapply cont_trans; [by eapply cont_app_r|exact H4]|done|done].
    + rewrite run_dropping. destruct (drop_fut_step s1 me R f2 Hw1) as [H3 H4].
      eapply goes_panic; [eapply cont_trans; [by eapply cont_app_r|exact H4]|done|done].
  - apply pollable_app in Hp as [Hp1 Hp2]. rewrite addrs_app, <- app_assoc in Hw.
    edestruct (IH _ f1 (cells f2 ++ R) s) as (s1 & Hc & [(r & E & Hw1 & Hs1)|(m & E & Hw1)]); [done|done|done|rewrite E|rewrite E].
    + apply (join_second me R s s1 r _ (triggers f2)); [apply IH|by rewrite (c_polling _ _ _ Hc)|by eapply cont_app_r| | |done].
      * eapply wf_perm; [|exact Hw1]. apply Permutation_app_swap_app.
      * eapply pollable_cont; [exact Hc| |done]. intros a Ha. apply elem_of_app. by left.
    + rewrite run_dropping. destruct (drop_fut_step s1 me R f2 Hw1) as [H3 H4].
      eapply goes_panic; [eapply cont_trans; [by eapply cont_app_r|exact H4]|done|done].
  - edestruct (IH _ f R s) as (s1 & Hc & [(r & E & Hw1 & Hs1)|(m & E & Hw1)]); [done|done|done|rewrite E|rewrite E].
    + destruct r; [by eapply goes_wait|by eapply goes_done].
    + by eapply goes_panic.
  - edestruct (IH _ f R s) as (s1 & Hc & [(r & E & Hw1 & Hs1)|(m & E & Hw1)]); [done|done|done|rewrite E|rewrite E].
    + destruct r; [by eapply goes_wait|by eapply goes_done].
    + by eapply goes_panic.
  - change (pollable me s (triggers (FJoinAll l))) in Hp.
    change (wf s me (addrs (triggers (FJoinAll l)) ++ R)) in Hw. rewrite triggers_join in Hw, Hp.
    match goal with |- context [run me (?pass l [])] => set (go := pass) end.
    apply (async_pass_spec me (poll_item me) held_triggers (λ r q, dropping (drop_all r) q) go k kp
      (λ x, spec me (held_triggers x) (poll_item me x))); try done.
    + intros l' R' s' q Hw'. rewrite run_dropping. destruct (drop_all_step s' me R' l' Hw'). eauto.
    + intros [f|a] r acc; done.
    + clear go Hp Hw. induction l as [|[f|a] l IHl]; constructor; [apply IH|exact IHl| |exact IHl].
      intros R' s' k' kp' _ Hw' _. by eapply goes_done.
  - edestruct (IH _ f R s) as (s1 & Hc & [(r & E & Hw1 & Hs1)|(m & E & Hw1)]); [done|done|done|rewrite E|rewrite E].
    + destruct r as [f'|a]; [by eapply goes_wait|]. rewrite run_dropping.
      destruct (on_user_step s1 me R drop0 Hw1) as [H3 H4]. eapply goes_done; [by eapply cont_trans|done|done].
    + rewrite run_dropping. destruct (on_user_step s1 me R drop0 Hw1) as [H3 H4]. eapply goes_panic; [by eapply cont_trans|done|done].
Qed.

(** ** Between polls *)

Lemma wf_move s s' me me' R : Host.sim s' = Host.sim s →
  (∀ j g, j ≠ me' → live s' j g → j ≠ me ∧ live s j g ∧ (roused s j → roused s' j)) → wf s me R → wf s' me' R.
Proof.
  intros E Hl [H1 H2 H3 H4 H5 H6 H7]. constructor; rewrite ?E; try done.
  - intros id f Hid Hf. destruct (Hl id f Hid Hf) as (? & ? & _). by apply (H5 id).
  - intros id id' f f' a Hid Hid' Hne Hf Hf'. destruct (Hl id f Hid Hf) as (? & ? & _), (Hl id' f' Hid' Hf') as (? & ? & _).
    by apply (H6 id id').
  - intros id f t Hid Hf Ht. destruct (Hl id f Hid Hf) as (Hne & Hf0 & Hr).
    destruct (H7 id f t Hne Hf0 Ht) as [?|[? ?]]; [by left|right; auto].
Qed.

(** What holds between polls. *)
Record calm s : Prop := {
  calm_wf : wf s 0 [];
  calm_inv : Executor.inv s;
  calm_idle : Executor.currently_polling s = None;
}.

Lemma calm_zero s : Executor.inv s → Executor.tasks s !! 0 = None.
Proof.
  intros Hi. destruct (Executor.tasks s !! 0) as [t|] eqn:E; [|done]. destruct (Executor.inv_entry_lt s 0 t Hi E). lia.
Qed.
Lemma live_pos s id f : Executor.inv s → live s id f → id ≠ 0.
Proof. intros Hi (t & Ht & _) ->. rewrite (calm_zero s Hi) in Ht. done. Qed.

Lemma drain_woken_world s : Executor.world (Executor.drain_woken s) = Executor.world s.
Proof.
  unfold Executor.drain_woken. change (Executor.world s) with (Executor.world (Executor.set_woken [] s)).
  generalize (Executor.set_woken [] s). induction (Executor.woken s) as [|i l IH]; intros s1; [done|]. simpl. rewrite IH.
  unfold Executor.drain_one, Executor.state_cell. repeat (case_match; simpl); done.
Qed.

Lemma drain_woken_live s id f : live (Executor.drain_woken s) id f → live s id f.
Proof.
  unfold Executor.drain_woken. change (live s id f) with (live (Executor.set_woken [] s) id f).
  generalize (Executor.set_woken [] s). induction (Executor.woken s) as [|i l IH]; intros s1; [done|]. simpl.
  intros Hl. apply IH in Hl as (t & Ht & Hf). destruct (decide (i = id)) as [->|Hne].
  - unfold Executor.drain_one in Ht. destruct (Executor.tasks s1 !! id) as [u|] eqn:Hu; [|congruence].
    destruct (decide _); [|by exists t]. simpl in Ht. rewrite Executor.state_cell_tasks in Ht. simpl in Ht.
    rewrite lookup_insert_eq in Ht. simplify_eq. by exists u.
  - rewrite Executor.drain_one_other in Ht by done. by exists t.
Qed.

Lemma drain_woken_calm s : calm s → calm (Executor.drain_woken s).
Proof.
  intros [Hw Hi Hp]. destruct (Executor.drain_woken_inv s Hi) as [Hi' _].
  destruct (Executor.drain_woken_fields s) as [Hp' _]. constructor; [|done|congruence].
  apply (wf_move s _ 0 0 []); [apply drain_woken_world| |done].
  intros j g Hj Hl. apply drain_woken_live in Hl. split_and!; [done|done|]. destruct Hl as (t & Ht & Hg). intros Hr. right.
  exists (Executor.Build_TaskEntry (Executor.fut t) (Executor.name t) Executor.Scheduled). split; [|done].
  apply Executor.drain_list_schedules; [|done|exact Ht|].
  - by destruct (Executor.core_ok s (Executor.set_woken [] s) Hi).
  - destruct Hr as [?|(t' & Ht' & Hst)]; [by left|right]. simpl in Ht. congruence.
Qed.

(** A poll begins: the task has its future's cells. *)
Lemma begin_wf id t f s s1 : wf s 0 [] → Executor.inv s → Executor.tasks s !! id = Some t → Executor.fut t = Some f →
  Executor.tasks s1 = <[id := Executor.Build_TaskEntry None (Executor.name t) Executor.Running]> (Executor.tasks s) →
  Executor.woken s1 = Executor.woken s → Host.sim s1 = Host.sim s → wf s1 id (cells f ++ []) ∧ pollable id s1 (triggers f).
Proof.
  intros Hw Hi Ht Hf Et Ewk Es. rewrite app_nil_r. pose proof Hw as [H1 H2 _ _ H5 H6 H7].
  assert (live s id f) as Hl by (by exists t). pose proof (live_pos s id f Hi Hl) as Hid.
  assert (∀ j g, j ≠ id → live s1 j g → j ≠ 0 ∧ live s j g ∧ (roused s j → roused s1 j)) as Hlive.
  { intros j g Hj (u & Hu & Hg). rewrite Et, lookup_insert_ne in Hu by done. assert (live s j g) as Hlj by (by exists u).
    split_and!; [by eapply live_pos|done|]. unfold roused. rewrite Et, Ewk, lookup_insert_ne by done. done. }
  split.
  - constructor; rewrite ?Es; try done.
    + by apply (H5 id).
    + intros a (t' & Ht' & Ha)%elem_addrs. apply (armed_cell _ id t'); [|done].
      destruct (H7 id f t' Hid Hl Ht') as [?|[? _]]; auto.
    + intros j g Hj (Hj0 & Hg & _)%Hlive; [|done]. split; [by apply (H5 j)|]. intros a Ha. by apply (H6 j id g f).
    + intros j j' g g' a Hj Hj' Hne (? & ? & _)%Hlive (? & ? & _)%Hlive; [|done..]. by apply (H6 j j').
    + intros j g t' Hj (? & ? & Hr)%Hlive Ht'; [|done]. destruct (H7 j g t') as [?|[? ?]]; [done..|by left|right; auto].
  - intros t' Ht'. rewrite Es. destruct (H7 id f t' Hid Hl Ht') as [?|[? _]]; auto.
Qed.

(** A poll ends with the task suspended: its future is put back. *)
Lemma end_wf id f s s1 : wf s id (cells f ++ []) → suspended id s (triggers f) →
  (∀ j g, live s1 j g → j ≠ id → live s j g) → (∀ g, live s1 id g → g = f) →
  (∀ j, j ≠ id → roused s j → roused s1 j) → Executor.woken s ⊆ Executor.woken s1 → Host.sim s1 = Host.sim s → wf s1 0 [].
Proof.
  intros Hw Hs Hl Hid Hr Hwk Es. rewrite app_nil_r in Hw. pose proof Hw as [H1 H2 H3 H4 H5 H6 H7].
  constructor; rewrite ?Es; try done.
  - apply NoDup_nil_2.
  - intros a Ha. by apply elem_of_nil in Ha.
  - intros j g _ Hg. split; [|intros; apply not_elem_of_nil]. destruct (decide (j = id)) as [->|Hne].
    + by rewrite (Hid g Hg).
    + by apply (H5 j); [|apply Hl].
  - intros j j' g g' a _ _ Hne Hg Hg'. destruct (decide (j = id)) as [->|N1], (decide (j' = id)) as [->|N2]; [done|..].
    + rewrite (Hid g Hg). intros Ha Ha'. by apply (proj2 (H5 j' g' N2 (Hl _ _ Hg' N2)) a).
    + rewrite (Hid g' Hg'). apply (H5 j g N1 (Hl _ _ Hg N1)).
    + by apply (H6 j j'); auto.
  - intros j g t _ Hg Ht. destruct (decide (j = id)) as [->|Hne].
    + rewrite (Hid g Hg) in Ht. destruct (Hs t Ht) as [?|[? ?]]; [by left|right]. split; [done|]. left. by apply Hwk.
    + destruct (H7 j g t Hne (Hl _ _ Hg Hne) Ht) as [?|[? ?]]; [by left|right; auto].
Qed.

(** A poll that removes the task. *)
Lemma gone_wf id s s1 : wf s id [] → Executor.tasks s1 = delete id (Executor.tasks s) →
  Executor.woken s ⊆ Executor.woken s1 → Host.sim s1 = Host.sim s → wf s1 0 [].
Proof.
  intros Hw Et Hwk Es. apply (wf_move s s1 id 0 []); [done| |done].
  intros j g _ (t & Ht & Hg). rewrite Et in Ht. apply lookup_delete_Some in Ht as [Hne Ht]. split_and!; [done|by exists t|].
  intros [?|(u & Hu & Hst)]; [left; by apply Hwk|right]. exists u. by rewrite Et, lookup_delete_ne.
Qed.

(** A poll that suspends, with the cancellations that waited for its end. *)
Lemma pending_wf id f u s : Executor.inv s → Executor.currently_polling s = Some id → Executor.tasks s !! id = Some u →
  wf s id (cells f ++ []) → suspended id s (triggers f) →
  let s' := Executor.end_poll drop id (Executor.set_polling None s) (Executor.PolledPending f) in
  wf s' 0 [] ∧ spends (Host.sim s) (Host.sim s').
Proof.
  intros Hi Hp Hu Hw Hs. destruct (Executor.end_pending_eq drop key_order id f u s Hi Hp Hu) as (E & Hr & _).
  cbv zeta. rewrite E. clear E. set (s3 := Executor.restate _ _ _ _ _ _) in *.
  assert (Executor.tasks s3 = <[id := Executor.Build_TaskEntry (Some f) (Executor.name u) Executor.Pending_]> (Executor.tasks s)) as Et
    by (unfold s3, Executor.restate; simpl; by rewrite Executor.state_cell_tasks).
  assert (Executor.woken s3 = Executor.woken s ∧ Host.sim s3 = Host.sim s) as [Ewk Es]
    by (unfold s3, Executor.restate, Executor.state_cell, Host.sim; simpl; by case_match).
  destruct (cancel_list_step (Executor.cancel_pending s) s3 0 []) as [H1 H2];
    [|right; by apply calm_zero|split; [done|]; rewrite <- Es; apply H2].
  apply (end_wf id f s); [done|done| | | |by rewrite Ewk|done].
  - intros j g (x & Hx & Hg) Hj. rewrite Et, lookup_insert_ne in Hx by done. by exists x.
  - intros g (x & Hx & Hg). rewrite Et, lookup_insert_eq in Hx. by simplify_eq/=.
  - intros j Hj. unfold roused. by rewrite Et, Ewk, lookup_insert_ne.
Qed.

Abbreviation polls := (Async.poll full_name turns).

(** The poll of a task that has begun. *)
Lemma polled_wf id f s : Executor.inv s → Executor.currently_polling s = Some id → wf s id (cells f ++ []) →
  pollable id s (triggers f) →
  let s' := let '(s', r) := run id (polls f id) s in Executor.end_poll drop id (Executor.set_polling None s') r in
  wf s' 0 [] ∧ spends (Host.sim s) (Host.sim s').
Proof.
  intros Hi Hp Hw Hpo. pose proof (Executor.run_prog_ok polls drop key_order id (polls f id) s Hi Hp) as Hpost.
  destruct (poll_fut_spec id V f [] s (λ r, match r with inl f' => Executor.PPending f' | inr v => Executor.PReady v end)
    Executor.PPanic Hp Hw Hpo) as (s2 & Hc & Hres). unfold Async.poll in Hpost |- *.
  assert (spends (Host.sim s) (Host.sim s2)) as Hsp by apply Hc.
  destruct Hres as [([f'|v] & E & Hw2 & Hs2)|(m & E & Hw2)]; rewrite E in Hpost |- *; clear E; simpl in Hpost |- *.
  - destruct Hpost as (Hi2 & _ & Hp2 & _). rewrite Hp in Hp2. destruct (Executor.i_polling _ Hi2 id Hp2) as [u Hu].
    destruct (pending_wf id f' u s2) as [H1 H2]; [done..|]. split; [done|by etrans].
  - destruct (complete_fields id Executor.Finished (Ok v) s2) as (Et & Hwk & Eo & _).
    split; [apply (gone_wf id s2); [done|simpl; by rewrite Et|done|done]|].
    unfold Host.sim in *. simpl. by rewrite Eo.
  - destruct (complete_fields id Executor.Failed (Err (Executor.EPanicked m))
      (Executor.state_cell id Executor.Failed (Executor.set_tasks (delete id (Executor.tasks s2)) (Executor.set_polling None s2))))
      as (Et & Hwk & Eo & _).
    unfold Executor.on_abort. set (s3 := Executor.complete _ _ _) in *.
    rewrite Executor.state_cell_tasks in Et. unfold Executor.state_cell in Hwk, Eo. simpl in Et, Hwk, Eo.
    case_match; destruct (Executor.failure_sink s3); (split; [by apply (gone_wf id s2)|]; unfold Host.sim in *; simpl; by rewrite Eo).
Qed.

Lemma poll_task_calm id q s : calm s → Executor.run_queue s = id :: q →
  let s' := Executor.poll_task polls drop key_order id (Executor.set_run_queue q s) in
  calm s' ∧ spends (Host.sim s) (Host.sim s').
Proof.
  intros [Hw Hi Hp] Hq.
  destruct (Executor.poll_task_inv polls drop key_order id q s Hi Hp Hq) as (Hi' & _ & Hp' & _).
  cbv zeta. set (s' := Executor.poll_task _ _ _ _ _) in *. cut (wf s' 0 [] ∧ spends (Host.sim s) (Host.sim s')).
  { intros [? ?]. split; [by constructor|done]. }
  clear Hi' Hp'. unfold s', Executor.poll_task. change (Executor.tasks (Executor.set_run_queue q s)) with (Executor.tasks s).
  assert (wf (Executor.set_run_queue q s) 0 []) as Hwq by (apply (wf_move s _ 0 0 []); auto).
  destruct (Executor.tasks s !! id) as [t|] eqn:Ht; [|done]. destruct (decide _) as [Hst|]; [|done].
  destruct (Executor.i_entry _ Hi id t Ht) as (js & Hsh & Hm). rewrite Hst in Hm. destruct Hm as (_ & [f Hf] & _).
  destruct (Executor.begin_poll_inv key_order id q t s Hi Hp Hq Ht) as (Hb & _ & Hpb & _). set (s1 := Executor.begin_poll id t _) in *.
  destruct (begin_wf id t f s s1 Hw Hi Ht Hf) as [Hw1 Hp1].
  { unfold s1, Executor.begin_poll. simpl. by rewrite Executor.state_cell_tasks. }
  { unfold s1, Executor.begin_poll, Executor.state_cell. simpl. by case_match. }
  { unfold s1, Executor.begin_poll, Executor.state_cell, Host.sim. simpl. by case_match. }
  rewrite Hf. assert (Host.sim s = Host.sim s1) as -> by
    (unfold s1, Executor.begin_poll, Executor.state_cell, Host.sim; simpl; by case_match).
  by apply polled_wf.
Qed.

Lemma loop_calm n s s' : calm s → Executor.loop polls drop key_order n s = Some s' →
  calm s' ∧ spends (Host.sim s) (Host.sim s') ∧ Executor.run_queue s' = [] ∧ Executor.woken s' = [].
Proof.
  revert s. induction n as [|n IH]; intros s Hc; [done|]. simpl. unfold Executor.turn.
  assert (Host.sim s = Host.sim (Executor.drain_woken s)) as -> by (unfold Host.sim; by rewrite drain_woken_world).
  pose proof (drain_woken_calm s Hc) as Hd. destruct (Executor.drain_woken_fields s) as [_ Hwk].
  destruct (Executor.run_queue (Executor.drain_woken s)) as [|id q] eqn:Hq.
  - intros [= <-]. done.
  - destruct (poll_task_calm id q _ Hd Hq) as [H1 H2]. intros Hl. destruct (IH _ H1 Hl) as (? & ? & ? & ?).
    split_and!; [done|by etrans|done|done].
Qed.

(** Nothing is left to do: no task is queued or woken. *)
Definition settled s : Prop := calm s ∧ Executor.running s = false ∧ Executor.run_queue s = [] ∧ Executor.woken s = [].

Abbreviation drain := (Host.drain full_name key_order turns fuel).

Lemma calm_running b s : calm s → calm (Executor.set_running b s).
Proof.
  intros [Hw Hi Hp]. constructor; [|by apply (Executor.core_ok s)|done]. apply (wf_move s _ 0 0 []); auto.
Qed.

Lemma drain_settled s s' : calm s → Executor.running s = false → drain s = Some s' →
  settled s' ∧ spends (Host.sim s) (Host.sim s').
Proof.
  intros Hc Hr. unfold Host.drain, Executor.run_until_idle. rewrite Hr.
  destruct (Executor.loop _ _ _ _ _) as [s1|] eqn:E; [|done]. intros [= <-].
  destruct (loop_calm _ _ _ (calm_running true s Hc) E) as (H1 & H2 & H3 & H4).
  split; [split_and!; [by apply calm_running|done..]|done].
Qed.

(** ** The simulator's side *)

(** The cells [A] fire: whoever waited for one is woken. *)
Lemma wf_fire s w ws (A : list Addr) : wf s 0 [] → hub_ok w →
  (∀ b, below (Host.sim s) b → below w b) → (∀ b, b ∉ A → cell_at w b = cell_at (Host.sim s) b) →
  (∀ b, b ∈ A → match cell_at (Host.sim s) b with
     | Some c => ∃ c', cell_at w b = Some c' ∧ PhaseHub.fired c' = true ∧ (∀ id, PhaseHub.waker c = Some id → id ∈ ws)
     | None => cell_at w b = None end) →
  (∀ id t b, trig_addr t = Some b → b ∉ A → waits (Host.sim s) id t → waits w id t) → wf (upd w ws s) 0 [].
Proof.
  intros [H1 H2 H3 H4 H5 H6 H7] Hh Hb Hout Hin Hwait. pose proof (upd_stays w ws s) as Hst.
  constructor; rewrite ?upd_sim; try done; eauto using stays_live.
  - intros a Ha. apply Hb, H2. destruct (decide (a ∈ A)) as [Hi|Hn]; [|by rewrite <- Hout].
    specialize (Hin a Hi). destruct (cell_at (Host.sim s) a); [done|]. rewrite Hin in Ha. by destruct Ha.
  - intros a Ha. by apply elem_of_nil in Ha.
  - intros id f t Hid Hl Ht. pose proof (stays_live _ _ _ _ Hst Hl) as Hl0.
    destruct (H7 id f t Hid Hl0 Ht) as [Hwt|[Hr Hro]].
    + pose proof Hwt as [_ (a & c & Ha & Hc & Hf & Hk)]. destruct (decide (a ∈ A)) as [Hi|Hn]; [right|left; by apply (Hwait id t a)].
      specialize (Hin a Hi). rewrite Hc in Hin. destruct Hin as (c' & Hc' & Hf' & Hws). split.
      * destruct t; simpl in *; try done; eauto.
      * left. rewrite upd_woken. apply elem_of_app. right. auto.
    + right. split; [|by eapply stays_roused]. destruct t; simpl in *; try done; destruct Hr as (a & c & Ha & Hc & Hf);
        destruct (decide (a ∈ A)) as [Hi|Hn]; try (exists a, c; by rewrite Hout);
        specialize (Hin a Hi); rewrite Hc in Hin; destruct Hin as (c' & ? & ? & _); eauto.
Qed.

Lemma calm_upd s w ws : calm s → wf (upd w ws s) 0 [] → calm (upd w ws s).
Proof.
  intros [_ Hi Hp] Hw. constructor; [done| |by rewrite upd_polling].
  apply (Executor.core_ok s); [done|]. unfold Host.wake_world. by rewrite Executor.wake_all_eq.
Qed.
Lemma calm_world s w : calm s → quiet (Host.sim s) w → calm (Executor.set_world w s).
Proof.
  intros [Hw Hi Hp] Hq. constructor; [|by apply (Executor.core_ok s)|done]. by apply (wf_quiet s).
Qed.

(** A cell of a timer or an edge fires. *)
Lemma fire_cell_calm a (x : Triggers.World) s : calm s →
  (∀ b, b ≠ a → Triggers.regs x !! b = Triggers.regs (tw (Host.sim s)) !! b) →
  Triggers.now x = Triggers.now (tw (Host.sim s)) → Triggers.trigs x = Triggers.trigs (tw (Host.sim s)) →
  Triggers.next x = Triggers.next (tw (Host.sim s)) → Triggers.woken x = [] →
  calm (Host.wake_world (with_tw (Triggers.fire_cell a x) (Host.sim s)) s).
Proof.
  intros Hc Hreg Hnow Htr Hnx Hwk. unfold with_tw, take_woken. set (w0 := Host.sim s) in *.
  apply calm_upd; [done|]. pose proof (calm_wf _ Hc) as Hw. pose proof (wf_hub _ _ _ Hw) as Hh.
  apply (wf_fire _ _ _ [inl a] Hw); fold w0.
  - destruct Hh. by constructor.
  - intros [b|b]; simpl; [|done]. unfold Triggers.fire_cell. case_match; simpl; by rewrite Hnx.
  - intros [b|b] Hb; simpl; [|done]. unfold Triggers.fire_cell. rewrite Htr. case_match; simpl; [|by rewrite Htr].
    rewrite lookup_insert_ne; [done|]. intros ->. apply Hb. by left.
  - intros b ->%list_elem_of_singleton. simpl. unfold Triggers.fire_cell. rewrite Htr.
    destruct (Triggers.trigs (tw w0) !! a) as [c|] eqn:E; simpl; [|by rewrite Htr].
    eexists. rewrite lookup_insert_eq, Hwk. split_and!; [done..|]. intros id ->. simpl. by left.
  - assert (∀ b, b ≠ a → Triggers.regs (Triggers.fire_cell a x) !! b = Triggers.regs (tw w0) !! b ∧
                 Triggers.trigs (Triggers.fire_cell a x) !! b = Triggers.trigs (tw w0) !! b) as Hoth.
    { intros b Hb. unfold Triggers.fire_cell. rewrite Htr. case_match; simpl; rewrite ?Htr, ?lookup_insert_ne by done; auto. }
    assert (Triggers.now (Triggers.fire_cell a x) = Triggers.now (tw w0)) as En by (unfold Triggers.fire_cell; by case_match).
    intros id t b Hb Hn. apply (waits_same w0 _ _ _ b); [|done|].
    + apply grows_intro; simpl; [done|done|unfold Triggers.fire_cell; case_match; simpl; rewrite ?Hnx; lia|].
      intros [m|m] _; simpl; [|by left]. destruct (decide (m = a)) as [->|Hne]; [|left; by apply Hoth].
      unfold Triggers.fire_cell. rewrite Htr. case_match eqn:E; simpl; [|left; by rewrite Htr].
      do 3 right. eexists. by rewrite lookup_insert_eq.
    + destruct b as [b|b]; split; simpl; try done; apply Hoth; intros ->; apply Hn; by left.
Qed.

(** The cell is spent from then on. *)
Lemma fire_cell_spent a (x : Triggers.World) w : Triggers.next x = Triggers.next (tw w) → below w (inl a) →
  spent (with_tw (Triggers.fire_cell a x) w).1 (inl a).
Proof.
  intros Hnx Hb. unfold with_tw, take_woken, Triggers.fire_cell. simpl in *. destruct (Triggers.trigs x !! a) as [c|] eqn:E; simpl.
  - split; simpl; [lia|]. rewrite lookup_insert_eq. by intros c' [= <-].
  - split; simpl; [lia|]. by rewrite E.
Qed.

Lemma wake_running x s : Executor.running (Host.wake_world x s) = Executor.running s.
Proof. unfold Host.wake_world. by rewrite Executor.wake_all_eq. Qed.
Lemma wake_sim x s : Host.sim (Host.wake_world x s) = x.1.
Proof. unfold Host.wake_world, Host.sim. by rewrite Executor.wake_all_eq. Qed.

Lemma fired_drain a (x : Triggers.World) s s' : settled s → calm (Host.wake_world (with_tw (Triggers.fire_cell a x) (Host.sim s)) s) →
  Triggers.next x = Triggers.next (tw (Host.sim s)) →
  drain (Host.wake_world (with_tw (Triggers.fire_cell a x) (Host.sim s)) s) = Some s' →
  settled s' ∧ (below (Host.sim s) (inl a) → spent (Host.sim s') (inl a)).
Proof.
  intros (Hc & Hr & _) Hf Hnx Hd. destruct (drain_settled _ _ Hf ltac:(by rewrite wake_running) Hd) as [H1 H2].
  split; [done|]. intros Hb. apply H2. rewrite wake_sim. by apply fire_cell_spent.
Qed.

Lemma timer_fires_settled a s s' : settled s → Host.timer_fires full_name key_order turns fuel a s = Some s' →
  settled s' ∧ (below (Host.sim s) (inl a) → spent (Host.sim s') (inl a)).
Proof.
  intros Hs. pose proof Hs as (Hc & _). apply fired_drain; [done| |done].
  apply fire_cell_calm; simpl; try done.
  - intros b Hb. by rewrite lookup_delete_ne.
  - apply (calm_wf _ Hc).
Qed.

Lemma edge_calls_settled a sg k s s' : settled s → Host.edge_calls full_name key_order turns fuel a sg k s = Some s' →
  settled s' ∧ (below (Host.sim s) (inl a) → Triggers.edge_hit (B:=B) sg k (tw (Host.sim s)) = true → spent (Host.sim s') (inl a)).
Proof.
  intros Hs. pose proof Hs as (Hc & _). unfold Host.edge_calls.
  destruct (Triggers.trigs (tw (Host.sim s)) !! a) as [c|] eqn:E.
  - destruct (PhaseHub.fired c) eqn:Hf.
    + intros [= <-]. split; [done|]. intros Hb _. split; [done|]. simpl. rewrite E. by intros c' [= <-].
    + destruct (Triggers.edge_hit _ _ _); [|by intros [= <-]]. intros Hd.
      destruct (fired_drain a (tw (Host.sim s)) s s' Hs) as [? ?]; [|done|done|auto].
      apply fire_cell_calm; try done. apply (calm_wf _ Hc).
  - intros [= <-]. split; [done|]. intros Hb _. split; [done|]. simpl. by rewrite E.
Qed.

(** The wake-ups a hub asked for. *)
Lemma hub_perform_wakes (l : list Waker) ws w : perform (PhaseHub.AWake <$> l) ws w = (w, ws ++ l, None).
Proof.
  revert ws. induction l as [|i l IH]; intros ws; simpl; [by rewrite app_nil_r|]. by rewrite IH, <- app_assoc.
Qed.

Lemma fired_acts (l : list nat) (h : @PhaseHub.Hub (LogicArray.LogicArray B) B F) : ∃ ids,
  concat (map (λ a, match PhaseHub.trigs h !! a with Some t => PhaseHub.AWake <$> snd (PhaseHub.fire t) | None => [] end) l) =
    (PhaseHub.AWake <$> ids : list (@PhaseHub.Act (LogicArray.LogicArray B) B F)) ∧
  ∀ a t i, a ∈ l → PhaseHub.trigs h !! a = Some t → PhaseHub.waker t = Some i → i ∈ ids.
Proof.
  induction l as [|a l (ids & E & Hin)]; cbn [map concat].
  { exists []. split; [done|]. intros a t i Ha. by apply elem_of_nil in Ha. }
  destruct (PhaseHub.trigs h !! a) as [t|] eqn:Ea; rewrite E.
  - exists (snd (PhaseHub.fire t) ++ ids). rewrite fmap_app. split; [done|]. intros b u i [->|Hb]%elem_of_cons Hu Hi.
    + simplify_eq. simpl. rewrite Hi. simpl. by left.
    + apply elem_of_app. right. eauto.
  - exists ids. split; [done|]. intros b u i [->|Hb]%elem_of_cons Hu Hi; [congruence|eauto].
Qed.

(** The callback of phase [k]: everyone waiting for it is woken.  [w] is the
    state the callback fires from. *)
Lemma fire_phase_calm k s w : calm s → hub_ok w → same_timers (tw (Host.sim s)) (tw w) →
  PhaseHub.trigs (hub w) = PhaseHub.trigs (hub (Host.sim s)) → PhaseHub.next (hub w) = PhaseHub.next (hub (Host.sim s)) →
  (∀ j, PhaseHub.waiters (hub w) j = PhaseHub.waiters (hub (Host.sim s)) j) →
  (∀ j, j ≠ k → PhaseHub.cb (hub (Host.sim s)) j = true → PhaseHub.cb (hub w) j = true) →
  calm (Host.wake_world (Host.fire_phase k w) s) ∧
  ∀ a, a ∈ PhaseHub.waiters (hub w) k → spent (Host.fire_phase k w).1 (inr a).
Proof.
  intros Hc [G1 G2 G3 G4 G5] (E1 & E2 & E3 & E4 & E5) Etr Enx Ewt Ecb. set (w0 := Host.sim s) in *.
  destruct (PhaseHub.fire_all (PhaseHub.waiters (hub w) k) (PhaseHub.set_waiters k [] (hub w)) (G3 k))
    as (_ & F2 & F3 & F4 & F5 & F6 & F7). cbn [PhaseHub.set_waiters PhaseHub.acts PhaseHub.trigs] in F7. rewrite G1 in F7.
  cbn [app] in F7. simpl in F2, F3, F4, F5, F6.
  unfold Host.fire_phase, flush, PhaseHub.fire_waiters. set (h := foldl PhaseHub.fire_one _ _) in *. simpl.
  destruct (fired_acts (PhaseHub.waiters (hub w) k) (hub w)) as (ids & E & Hids). rewrite E in F7. rewrite F7.
  rewrite hub_perform_wakes. simpl. split.
  2:{ intros a Ha. split; simpl; [rewrite F5; by apply (G4 k)|]. rewrite F6, decide_True by done.
      intros c (c0 & _ & ->)%fmap_Some. done. }
  pose proof (calm_wf _ Hc) as Hw. apply calm_upd; [done|].
  apply (wf_fire _ _ _ (inr <$> PhaseHub.waiters (hub w) k) Hw); fold w0; simpl.
  - constructor; simpl; rewrite ?F2, ?F4, ?F5; try done.
    + intros j. unfold PhaseHub.upd. case_decide; [constructor|done].
    + intros j n. unfold PhaseHub.upd. case_decide; [intros Hn; by apply elem_of_nil in Hn|apply G4].
  - intros [b|b]; simpl; [by rewrite E4|by rewrite F5, Enx].
  - intros [b|b] Hb; simpl; [by rewrite E2|]. rewrite F6, decide_False, Etr; [done|]. intros Hi. by apply Hb, list_elem_of_fmap_2.
  - intros b (n & -> & Hn)%list_elem_of_fmap. simpl. rewrite F6, decide_True, <- Etr by done.
    destruct (PhaseHub.trigs (hub w) !! n) as [c|] eqn:Ec; simpl; [|done]. eexists. split_and!; [done|done|]. eauto.
  - intros id t b Hb Hn [Ho (b' & c & Hb' & Hcell & Hf & Hk)]. simplify_eq. split.
    + destruct t as [tm|e|n|p]; simpl in *; try done; [by rewrite E1, E3|by rewrite E3|].
      destruct Ho as (n & Hs & Hin & Hcb). exists n. rewrite Hs in Hb. simplify_eq/=. rewrite F2, F3. unfold PhaseHub.upd.
      assert (PhaseHub.kind p ≠ k) as Hne. { intros <-. apply Hn, list_elem_of_fmap_2. by rewrite Ewt. }
      rewrite decide_False, Ewt by done. auto.
    + exists b, c. split_and!; try done. destruct b as [n|n]; simpl in *; [by rewrite E2|].
      rewrite F6, decide_False, Etr; [done|]. intros Hi. by apply Hn, list_elem_of_fmap_2.
Qed.

Lemma apply_writes_same l w : Forall (λ x, PhaseHub.typed x.1 x.2 = true) l →
  ∃ w', Host.apply_writes l w = (w', None) ∧ same_timers (tw w) (tw w') ∧ hub w' = hub w.
Proof.
  revert w. induction l as [|[t v] l IH]; intros w Hl; [by exists w|]. apply Forall_cons in Hl as [Ht Hl]. simpl in *.
  destruct (put_total t v w Ht) as [w1 E]. rewrite E. destruct (IH w1 Hl) as (w2 & -> & Hs2 & E2). exists w2.
  destruct (put_same _ _ _ _ E) as [Hs1 E1]. split_and!; [done| |congruence]. unfold same_timers in *. intuition congruence.
Qed.

Lemma set_phase_quiet p w : quiet w (Host.set_phase p w).
Proof. apply quiet_intro; [done|]. by constructor. Qed.

Lemma settled_world s w : settled s → quiet (Host.sim s) w → settled (Executor.set_world w s).
Proof. intros (Hc & Hr & Hq & Hw) Hqu. split_and!; [by apply calm_world|done..]. Qed.

(** A callback that fires phase [k] from [w] and drains, then goes on to normal. *)
Lemma fired_settled k s w s' : settled s → hub_ok w → same_timers (tw (Host.sim s)) (tw w) →
  PhaseHub.trigs (hub w) = PhaseHub.trigs (hub (Host.sim s)) → PhaseHub.next (hub w) = PhaseHub.next (hub (Host.sim s)) →
  (∀ j, PhaseHub.waiters (hub w) j = PhaseHub.waiters (hub (Host.sim s)) j) →
  (∀ j, j ≠ k → PhaseHub.cb (hub (Host.sim s)) j = true → PhaseHub.cb (hub w) j = true) →
  drain (Host.wake_world (Host.fire_phase k w) s) = Some s' →
  settled s' ∧ ∀ a, a ∈ PhaseHub.waiters (hub (Host.sim s)) k → spent (Host.sim s') (inr a).
Proof.
  intros (Hc & Hr & _) Hh Ht Etr Enx Ewt Ecb Hd.
  destruct (fire_phase_calm k s w Hc Hh Ht Etr Enx Ewt Ecb) as [Hf Hsp].
  destruct (drain_settled _ _ Hf ltac:(by rewrite wake_running) Hd) as [H1 H2]. split; [done|].
  intros a Ha. apply H2. rewrite wake_sim. apply Hsp. by rewrite Ewt.
Qed.

(** Leaving the phase. *)
Lemma leave_settled k s s' : settled s' ∧ (∀ a, a ∈ PhaseHub.waiters (hub (Host.sim s)) k → spent (Host.sim s') (inr a)) →
  let s2 := Host.on_sim (Host.set_phase PhaseHub.Normal) s' in
  settled s2 ∧ ∀ a, a ∈ PhaseHub.waiters (hub (Host.sim s)) k → spent (Host.sim s2) (inr a).
Proof.
  intros [Hs Hsp]. pose proof (set_phase_quiet PhaseHub.Normal (Host.sim s')) as Hq. split; [by apply settled_world|].
  intros a Ha. by apply Hq, Hsp.
Qed.

Lemma phase_calls_settled k s s' : settled s → Host.phase_calls full_name key_order turns fuel k s = Some s' →
  settled s' ∧ ∀ a, a ∈ PhaseHub.waiters (hub (Host.sim s)) k → spent (Host.sim s') (inr a).
Proof.
  intros Hs. pose proof Hs as (Hc & _). pose proof (wf_hub _ _ _ (calm_wf _ Hc)) as Hh. set (w0 := Host.sim s) in *.
  assert (∀ j, j ≠ k → PhaseHub.cb (hub w0) j = true → PhaseHub.upd k false (PhaseHub.cb (hub w0)) j = true) as Hcb
    by (intros j Hj Hb; unfold PhaseHub.upd; by rewrite decide_False).
  destruct k; simpl.
  - unfold Host.rw_calls. fold w0. simpl.
    match goal with |- context [Host.apply_writes ?l ?w] => destruct (apply_writes_same l w) as (w1 & -> & Ht & Eh) end.
    { apply Hh. }
    match goal with |- context [drain ?x] => destruct (drain x) as [s1|] eqn:Hd end; [|done]. intros [= <-].
    apply (leave_settled _ s).
    eapply (fired_settled PhaseHub.KReadWrite s w1); [done| |exact Ht| | | | |exact Hd]; rewrite ?Eh; try done.
    destruct Hh. constructor; rewrite ?Eh; try done. unfold same_timers in Ht. simpl in Ht.
    intuition congruence.
  - unfold Host.ro_calls. destruct (drain _) as [s1|] eqn:Hd; [|done]. intros [= <-].
    apply (leave_settled _ s).
    eapply (fired_settled PhaseHub.KReadOnly s); [done| | | | | | |exact Hd]; try done. destruct Hh. by constructor.
  - unfold Host.nt_calls. intros Hd.
    eapply (fired_settled PhaseHub.KNextTimeStep s); [done| | | | | | |exact Hd]; try done. destruct Hh. by constructor.
Qed.

(** ** Every step of a simulator *)

Abbreviation step := (Host.step full_name key_order turns fuel).

Lemma set_vals_quiet f b w : quiet w (set_eval_needed b (Host.set_vals f w)).
Proof. by apply quiet_intro. Qed.

Lemma set_time_settled t s : settled s → (Triggers.now (tw (Host.sim s)) < t)%Z →
  (∀ a due, Triggers.regs (tw (Host.sim s)) !! a = Some (Triggers.RTimer due) → (t ≤ due)%Z) →
  settled (Host.on_sim (Host.set_time t) s).
Proof.
  intros ([Hw Hi Hp] & Hr & Hq & Hwk) Hlt Hdue. split_and!; [|done..]. constructor; [|by apply (Executor.core_ok s)|done].
  destruct Hw as [H1 H2 H3 H4 H5 H6 H7]. constructor; try done.
  - destruct H1. by constructor.
  - intros id f tr Hid Hl Ht. destruct (H7 id f tr Hid Hl Ht) as [[Ho He]|?]; [left|by right]. split; [|done].
    destruct tr as [tm|e|n|p]; simpl in *; try done. destruct Ho as (a & due & Ha & Hreg & Hle). exists a, due. eauto.
Qed.

Lemma step_settled s s' : step s s' → settled s → settled s'.
Proof.
  destruct 1 as [s a s' Ha Hc|s a sg k s' Ha Hc|s k s' Hk Hc|s f b|s t Hlt Hdue]; intros Hs.
  - by destruct (timer_fires_settled a s s').
  - by destruct (edge_calls_settled a sg k s s').
  - by destruct (phase_calls_settled k s s').
  - apply settled_world; [done|apply set_vals_quiet].
  - by apply set_time_settled.
Qed.

Lemma reachable_settled s s' : settled s → rtc step s s' → settled s'.
Proof. intros Hs Hr. apply (rtc_preserves step settled step_settled _ _ Hr Hs). Qed.

End Inv.
End AsyncInv.
