(* ===== verification/Wakeups.v ===== *)
(** * Wakeups: what the composed system promises.

    [no_wakeup_lost], [callback_ends_waits]: for every program of tasks and every
    simulator, a task that sleeps is owed a callback by each trigger it waits
    for, and the callback ends the wait.  [host_refines]: the event loop of
    src/sim/verilator_main.cpp is one of those simulators. *)
From S2P Require Import Prelude Words Values Signals Time PhaseHub Triggers Executor Combinators Async Host AsyncInv.

Module Wakeups.
Import Async AsyncInv.

Section Wakeups.
Context {B : Type} `{BigUint B} {F U : Type} {V : Set}.
Variable full_name : PhaseHub.WriteTarget → string.
Variable key_order : list TaskId → list TaskId.
Variables turns fuel : nat.

Abbreviation SimS := (@Sim B F U).
Abbreviation FutV := (@Fut B F U V).
Abbreviation Ex := (@Executor.ExecInner (FutV V) SimS V).
Implicit Types (s : Ex) (w : SimS).
Abbreviation drain := (Host.drain full_name key_order turns fuel).
Abbreviation step := (Host.step full_name key_order turns fuel).

(** Before any task ran: no trigger, no registration, no buffered write. *)
Record fresh w : Prop := {
  fresh_trigs : Triggers.trigs (tw w) = ∅;
  fresh_woken : Triggers.woken (tw w) = [];
  fresh_hub : hub w = PhaseHub.init_hub;
}.

(** The start-up callback: one root task is spawned, and the executor drained. *)
Definition boot (c : @Code B F U V V) (name : string) w : option Ex :=
  drain (fst (Executor.spawn_named (FStart c) (Some name) (Executor.set_failure_sink (Executor.init w)))).

Definition reachable (c : @Code B F U V V) (name : string) w s : Prop :=
  fresh w ∧ ∃ s0, boot c name w = Some s0 ∧ rtc step s0 s.

Lemma boot_settled c n w s : fresh w → boot c n w = Some s → settled s.
Proof.
  intros [F1 F2 F3] Hb.
  enough (calm (fst (Executor.spawn_named (FStart c) (Some n) (Executor.set_failure_sink (Executor.init w))))) as Hc
    by (by destruct (drain_settled full_name key_order turns fuel _ _ Hc eq_refl Hb)).
  clear Hb.
  assert (Executor.inv (Executor.set_failure_sink (Executor.init (Fut:=FutV V) (V:=V) w))) as Hi.
  { apply (Executor.core_ok (Executor.init w)); [apply Executor.init_inv|done]. }
  constructor; [|apply (Executor.spawn_ok (Async.poll full_name turns) drop key_order (FStart c) (Some n) _ Hi)|done]. apply wf_spawn; [done|].
  assert (∀ id f, ¬ live (Executor.set_failure_sink (Executor.init (Fut:=FutV V) (V:=V) w)) id f) as Hno.
  { intros id f (t & Ht & _). simpl in Ht. by rewrite lookup_empty in Ht. }
  constructor; unfold Host.sim; simpl; try (intros; by edestruct Hno); rewrite ?F3.
  - constructor; rewrite ?F3; simpl; try done; [intros; apply NoDup_nil_2|]. intros k n' Hn. by apply elem_of_nil in Hn.
  - intros [a|a] [c' Hc']; simpl in Hc'; rewrite ?F1, ?F3 in Hc'; simpl in Hc'; by rewrite lookup_empty in Hc'.
  - apply NoDup_nil_2.
  - intros a Ha. by apply elem_of_nil in Ha.
Qed.

Lemma reach_settled c n w s : reachable c n w s → settled s.
Proof. intros (Hf & s0 & Hb & Hr). eapply reachable_settled; [by eapply boot_settled|done]. Qed.

(** In a settled state nobody is roused, so every trigger is being waited for. *)
Lemma settled_waits s id f t : settled s → live s id f → t ∈ triggers f → waits (Host.sim s) id t.
Proof.
  intros ([Hw Hi Hp] & _ & Hq & Hwk) Hl Ht. destruct (wf_ok _ _ _ Hw id f t) as [|[_ Hr]]; [by eapply live_pos|done..|].
  destruct Hr as [Hr|(e & He & Hst)]; [rewrite Hwk in Hr; by apply elem_of_nil in Hr|].
  destruct (Executor.i_entry _ Hi id e He) as (js & _ & Hm). rewrite Hst, Hq in Hm. destruct Hm as [Hm _]. by apply elem_of_nil in Hm.
Qed.

Lemma settled_entry s id e : settled s → Executor.tasks s !! id = Some e →
  Executor.state e = Executor.Pending_ ∧ ∃ f, Executor.fut e = Some f ∧ live s id f.
Proof.
  intros ([Hw Hi Hp] & _ & Hq & Hwk) He. destruct (Executor.i_entry _ Hi id e He) as (js & _ & Hm). rewrite Hq, Hp in Hm.
  destruct (Executor.state e) eqn:Hst; try done.
  - destruct Hm as [Hm _]. by apply elem_of_nil in Hm.
  - by destruct Hm as (_ & _ & ?).
  - destruct Hm as (_ & [f Hf] & _). split; [done|]. exists f. split; [done|]. by exists e.
Qed.

(** C1: no wake-up is lost, whatever the tasks do and whatever the simulator does
    to them: between callbacks every live task is suspended, and each trigger it
    waits for (a timer, an edge, a phase, alone or in first!, join! and nested
    awaits) has not fired, holds that task's waker and is owed a callback: the
    timer is registered for a time not yet passed, the edge for its signal and
    direction, the phase's one callback is primed with the trigger among its
    waiters; and no two waits share a cell. *)
Theorem no_wakeup_lost c n w s id e : reachable c n w s → Executor.tasks s !! id = Some e →
  ∃ f, Executor.state e = Executor.Pending_ ∧ Executor.fut e = Some f ∧ NoDup (cells f) ∧
    (∀ t, t ∈ triggers f → waits (Host.sim s) id t) ∧
    ∀ id' f' a, id' ≠ id → live s id' f' → a ∈ cells f → a ∉ cells f'.
Proof.
  intros Hr He. pose proof (reach_settled _ _ _ _ Hr) as Hs. destruct (settled_entry s id e Hs He) as (Hst & f & Hf & Hl).
  pose proof Hs as ([Hw Hi _] & _). exists f. split_and!; try done.
  - by apply (wf_other _ _ _ Hw id); [eapply live_pos|].
  - intros t. by apply settled_waits.
  - intros id' f' a Hne Hl' Ha. eapply (wf_sep _ _ _ Hw id id' f f'); eauto using live_pos.
Qed.

(** The simulator calls the callback a wait is owed: a timer at its time, a value
    change that is the awaited edge, a phase. *)
Inductive serves s : Addr → Ex → Prop :=
| serves_timer a s' : Triggers.regs (tw (Host.sim s)) !! a = Some (Triggers.RTimer (Triggers.now (tw (Host.sim s)))) →
    Host.timer_fires full_name key_order turns fuel a s = Some s' → serves s (inl a) s'
| serves_edge a sg k s' : Triggers.regs (tw (Host.sim s)) !! a = Some (Triggers.REdge sg k) →
    Triggers.edge_hit (B:=B) sg k (tw (Host.sim s)) = true →
    Host.edge_calls full_name key_order turns fuel a sg k s = Some s' → serves s (inl a) s'
| serves_phase k a s' : PhaseHub.cb (hub (Host.sim s)) k = true → a ∈ PhaseHub.waiters (hub (Host.sim s)) k →
    Host.phase_calls full_name key_order turns fuel k s = Some s' → serves s (inr a) s'.

(** A spent cell is nobody's. *)
Lemma spent_gone s a id f : settled s → spent (Host.sim s) a → live s id f → a ∉ cells f.
Proof.
  intros Hs [_ Hsp] Hl (t & Ht & Ha)%elem_addrs. destruct (settled_waits s id f t Hs Hl Ht) as [_ (b & c & Hb & Hc & Hf & _)].
  simplify_eq. apply Hsp in Hc. congruence.
Qed.

(** Task ids only grow during a callback. *)
Lemma drain_next x s s' : settled s → drain (Host.wake_world x s) = Some s' → Executor.next_id s ≤ Executor.next_id s'.
Proof.
  intros ([_ Hi Hp] & _) Hd. assert (Executor.idle (Host.wake_world x s)) as Hid.
  { unfold Host.wake_world. rewrite Executor.wake_all_eq. split; [|done]. by apply (Executor.core_ok s). }
  destruct (Executor.step_idle _ _ _ _ _ (Executor.st_run _ _ _ fuel _ _ Hd) Hid) as [_ [Hn _]].
  unfold Host.wake_world in Hn. by rewrite Executor.wake_all_eq in Hn.
Qed.
Lemma serves_next s a s' : settled s → serves s a s' → Executor.next_id s ≤ Executor.next_id s'.
Proof.
  intros Hs [? ? _ Hc|? ? ? ? _ _ Hc|k ? ? _ _ Hc].
  - by apply (drain_next _ _ _ Hs Hc).
  - unfold Host.edge_calls in Hc. repeat case_hyp; simplify_eq; try done. by apply (drain_next _ _ _ Hs Hc).
  - destruct k; simpl in Hc; unfold Host.rw_calls, Host.ro_calls, Host.nt_calls in Hc;
      [destruct (Host.apply_writes _ _) as [w1 [m|]]; [by injection Hc as <-|]|..];
      try (match type of Hc with context [drain ?y] => destruct (drain y) as [s1|] eqn:Hd end; [injection Hc as <-|done]; simpl);
      by eapply drain_next.
Qed.

(** C2: the callback a wait is owed ends it: once the callback of a timer, an edge
    or a phase has returned, no task waits there any more.  The task that waited
    has moved on: it is suspended in another future than before, and each trigger
    of that one is again owed a callback; or it is over (it finished, panicked or
    was cancelled), and its handle says so. *)
Theorem callback_ends_waits c n w s id f a s' : reachable c n w s → live s id f → a ∈ cells f → serves s a s' →
  (∀ id' f', live s' id' f' → a ∉ cells f') ∧
  match Executor.tasks s' !! id with
  | Some e => ∃ f', Executor.state e = Executor.Pending_ ∧ Executor.fut e = Some f' ∧ f' ≠ f ∧
      ∀ t, t ∈ triggers f' → waits (Host.sim s') id t
  | None => Executor.is_done (Executor.handle_state id s') = true
  end.
Proof.
  intros Hr Hl Ha Hsv. pose proof (reach_settled _ _ _ _ Hr) as Hs.
  assert (below (Host.sim s) a) as Hb.
  { pose proof Hs as ([Hw Hi _] & _). apply (wf_below _ _ _ Hw). apply elem_addrs in Ha as (t & Ht & Ha).
    apply (armed_cell _ id t); [|done]. left. by apply (settled_waits s id f). }
  assert (settled s' ∧ spent (Host.sim s') a) as [Hs' Hsp].
  { destruct Hsv as [a s' _ Hc|a sg k s' _ Hh Hc|k a s' _ Hin Hc].
    - destruct (timer_fires_settled full_name key_order turns fuel a s s' Hs Hc). auto.
    - destruct (edge_calls_settled full_name key_order turns fuel a sg k s s' Hs Hc). auto.
    - destruct (phase_calls_settled full_name key_order turns fuel k s s' Hs Hc). auto. }
  assert (∀ id' f', live s' id' f' → a ∉ cells f') as Hgone by (intros id' f'; by apply (spent_gone s' a id')).
  split; [done|]. destruct (Executor.tasks s' !! id) as [e|] eqn:He.
  - destruct (settled_entry s' id e Hs' He) as (Hst & f' & Hf & Hl'). exists f'. split_and!; [done|done| |].
    + intros ->. by apply (Hgone id f).
    + intros t. by apply settled_waits.
  - pose proof (serves_next _ _ _ Hs Hsv) as Hn. destruct Hl as (e & He0 & _).
    pose proof Hs as ([_ Hi _] & _). pose proof Hs' as ([_ Hi' _] & _).
    destruct (Executor.inv_entry_lt _ _ _ Hi He0) as [H1 H2].
    destruct (proj2 (Executor.i_ids _ Hi' id)) as [sh Hsh]; [lia|].
    unfold Executor.handle_state. rewrite Hsh. by apply (Executor.i_dead _ Hi' id sh).
Qed.

(** ** The Verilator host is such a simulator *)

Context {D : Type}.
Variable eval : Z → D → (nat → Signals.VpiValue) → D * (nat → Signals.VpiValue).
Variable rtl_deadline : D → option Z.
Variable signals : nat.
Variable order : list nat → list nat.
Abbreviation HostedS := (@Host.Hosted B F U V D).
Abbreviation ex := (@Host.ex B F U V D).
Implicit Types h : HostedS.

(** A property of every round of [iterate], of its end, and of both together. *)
Lemma iterate_ind {S R : Type} (f : S → S + R) (P : S → S → Prop) (Q : S → R → Prop) :
  (∀ x y z, P x y → P y z → P x z) → (∀ x y r, P x y → Q y r → Q x r) →
  (∀ x, match f x with inl y => P x y | inr r => Q x r end) →
  ∀ p x, match iterate p f x with inl y => P x y | inr r => Q x r end.
Proof.
  intros Ht Hq Hf.
  assert (∀ q, (∀ x, match iterate q f x with inl y => P x y | inr r => Q x r end) →
    ∀ x, match (match iterate q f x with inl y => iterate q f y | inr r => inr r end) with inl y => P x y | inr r => Q x r end)
    as Htwice.
  { intros q IH x. pose proof (IH x) as H1. destruct (iterate q f x) as [y|r]; [|done]. pose proof (IH y) as H2.
    destruct (iterate q f y); eauto. }
  induction p as [q IH|q IH|]; intros x; simpl; [|by apply Htwice|apply Hf].
  pose proof (Hf x) as H1. destruct (f x) as [y|r]; [|done]. pose proof (Htwice q IH y) as H2.
  destruct (iterate q f y) as [z|]; [destruct (iterate q f z)|]; eauto.
Qed.

Lemma call_each_steps call l s s' : (∀ a s s', call a s = Some s' → rtc step s s') →
  Host.call_each call l s = Some s' → rtc step s s'.
Proof.
  intros Hc. unfold Host.call_each. revert s. induction l as [|a l IH]; intros s; simpl; [by intros [= <-]|].
  destruct (call a s) as [s1|] eqn:E.
  - intros Hl. etrans; [by eapply Hc|by apply IH].
  - intros Hl. exfalso. clear -Hl. by induction l.
Qed.

Lemma callTimedCbs_steps s s' : Host.callTimedCbs full_name key_order turns fuel s = Some s' → rtc step s s'.
Proof.
  apply call_each_steps. intros a s0 s1. destruct (Triggers.regs (tw (Host.sim s0)) !! a) as [[d|]|] eqn:E; [|by intros [= <-]..].
  destruct (Z.eqb_spec d (Triggers.now (tw (Host.sim s0)))) as [->|]; [|by intros [= <-]].
  intros Hf. apply rtc_once. by eapply Host.step_timer.
Qed.

Lemma callCbs_steps k s s' : Host.callCbs full_name key_order turns fuel k s = Some s' → rtc step s s'.
Proof.
  unfold Host.callCbs. destruct (PhaseHub.cb _ k) eqn:E; [|by intros [= <-]]. intros Hf. apply rtc_once. by eapply Host.step_phase.
Qed.

Lemma callValueCbs_steps h h' : Host.callValueCbs full_name key_order turns fuel order h = Some h' →
  rtc step (ex h) (ex h') ∧ Host.dut h' = Host.dut h.
Proof.
  unfold Host.callValueCbs. destruct (Host.call_each _ _ _) as [s|] eqn:E; [|done]. intros [= <-]. split; [|done].
  eapply call_each_steps; [|exact E]. intros a s0 s1. cbv beta.
  destruct (Triggers.regs (tw (Host.sim s0)) !! a) as [[|sg k]|] eqn:Er; [by intros [= <-]| |by intros [= <-]].
  intros Hf. apply rtc_once. by eapply Host.step_edge.
Qed.

Lemma settle_once_steps h : match Host.settle_once full_name key_order turns fuel eval signals order h with
  | inl h' | inr (inl h') => rtc step (ex h) (ex h')
  | inr (inr _) => True
  end.
Proof.
  unfold Host.settle_once. assert (rtc step (ex h) (ex (Host.eval_dut eval signals h))) as H0.
  { unfold Host.eval_dut. destruct (eval _ _ _) as [d vals]. apply rtc_once, Host.step_vals. }
  destruct (Host.callValueCbs _ _ _ _ _ _) as [h1|] eqn:E1; [|done]. apply callValueCbs_steps in E1 as [H1 _].
  destruct (Host.callCbs _ _ _ _ PhaseHub.KReadWrite (ex h1)) as [s2|] eqn:E2; [|done]. apply callCbs_steps in E2.
  assert (rtc step (ex h) s2) as H2 by (by do 2 etrans). destruct (_ || _); [done|].
  destruct (Host.callCbs _ _ _ _ PhaseHub.KReadOnly s2) as [s3|] eqn:E3; [|done]. apply callCbs_steps in E3. by etrans.
Qed.

Lemma settle_steps h h' : Host.settle full_name key_order turns fuel eval signals order h = inl h' → rtc step (ex h) (ex h').
Proof.
  unfold Host.settle. intros Hs.
  assert (match iterate Host.kSettleLimit (Host.settle_once full_name key_order turns fuel eval signals order) h with
    | inl y => rtc step (ex h) (ex y)
    | inr r => match r with inl y => rtc step (ex h) (ex y) | inr _ => True end
    end) as Hi.
  { apply (iterate_ind _ (λ x y, rtc step (ex x) (ex y)) (λ x r, match r with inl y => rtc step (ex x) (ex y) | inr _ => True end)).
    - intros x y z H1 H2. by etrans.
    - intros x y [z|] H1 H2; [by etrans|done].
    - intros x. pose proof (settle_once_steps x). by repeat case_match. }
  destruct (iterate _ _ _) as [|[|]]; [done| |done]. by injection Hs as <-.
Qed.

(** The next deadline is no later than any timer. *)
Lemma vpi_deadline_le s a due : Triggers.regs (tw (Host.sim s)) !! a = Some (Triggers.RTimer due) →
  ∃ d, Host.vpi_deadline s = Some d ∧ (d ≤ due)%Z.
Proof.
  intros Ha. apply elem_of_map_to_list in Ha. unfold Host.vpi_deadline. revert Ha.
  generalize (map_to_list (Triggers.regs (tw (Host.sim s)))) as l. intros l.
  set (g := λ (o : option Z) '(_, r), match r with Triggers.RTimer d => Host.earliest o d | _ => o end).
  assert (∀ l o x, o = Some x → ∃ d, foldl g o l = Some d ∧ (d ≤ x)%Z) as Hmono.
  { clear. induction l as [|[b [d|sg k]] l IH]; intros o x ->; simpl; [by exists x| |by apply IH].
    destruct (IH (Host.earliest (Some x) d) (Z.min x d) eq_refl) as (d' & -> & ?). exists d'. split; [done|lia]. }
  intros Hin. assert (∀ o, ∃ d, foldl g o l = Some d ∧ (d ≤ due)%Z) as Hl; [|apply Hl].
  induction l as [|x l IH]; intros o; [by apply elem_of_nil in Hin|].
  apply elem_of_cons in Hin as [<-|Hin]; simpl; [|by apply IH].
  destruct (Hmono l (Host.earliest o due) _ eq_refl) as (d & -> & ?). exists d. split; [done|]. destruct o; lia.
Qed.
Lemma deadline_le h a due : Triggers.regs (tw (Host.sim (ex h))) !! a = Some (Triggers.RTimer due) →
  ∃ d, Host.deadline rtl_deadline h = Some d ∧ (d ≤ due)%Z.
Proof.
  intros Ha. destruct (vpi_deadline_le _ a due Ha) as (d & Hd & Hle). unfold Host.deadline. rewrite Hd.
  destruct (rtl_deadline (Host.dut h)) as [r|]; simpl; eexists; (split; [done|lia]).
Qed.

Lemma set_time_now s : Host.on_sim (Host.set_time (Triggers.now (tw (Host.sim s)))) s = s.
Proof. destruct s as [??????????[[]]]. done. Qed.

(** How the loop may end: [finished], or nothing left that could happen. *)
Definition ended h (t : option Host.Trouble) : Prop :=
  t = None → finished (Host.sim (ex h)) = true ∨
    (rtl_deadline (Host.dut h) = None ∧ ∀ a due, Triggers.regs (tw (Host.sim (ex h))) !! a ≠ Some (Triggers.RTimer due)).

Lemma turn_steps h : match Host.turn full_name key_order turns fuel eval rtl_deadline signals order h with
  | inl h' => rtc step (ex h) (ex h')
  | inr (h', t) => rtc step (ex h) (ex h') ∧ ended h' t
  end.
Proof.
  unfold Host.turn. destruct (Host.callTimedCbs _ _ _ _ _) as [s1|] eqn:E1; [|done]. apply callTimedCbs_steps in E1.
  destruct (Host.callCbs _ _ _ _ PhaseHub.KNextTimeStep s1) as [s2|] eqn:E2; [|done]. apply callCbs_steps in E2.
  assert (rtc step (ex h) s2) as H2 by (by etrans). destruct (Host.settle _ _ _ _ _ _ _) as [h3|t] eqn:E3; [|done].
  apply settle_steps in E3. simpl in E3. assert (rtc step (ex h) (ex h3)) as H3 by (by etrans).
  destruct (finished (Host.sim (ex h3))) eqn:Ef; [split; [done|]; intros _; by left|].
  pose proof (deadline_le h3) as Hle. unfold Host.deadline in *.
  destruct (match rtl_deadline (Host.dut h3) with Some d => _ | None => _ end) as [d|] eqn:Ed.
  - destruct (Z.ltb_spec d (Triggers.now (tw (Host.sim (ex h3))))) as [|Hge]; [done|]. simpl. etrans; [exact H3|].
    destruct (decide (d = Triggers.now (tw (Host.sim (ex h3))))) as [->|Hne]; [by rewrite set_time_now|].
    apply rtc_once, Host.step_advance; [lia|]. intros a due Ha. destruct (Hle a due Ha) as (d' & [= <-] & ?). done.
  - split; [done|]. intros _. right. split; [by destruct (rtl_deadline (Host.dut h3))|].
    intros a due Ha. by destruct (Hle a due Ha) as (d' & ? & _).
Qed.

End Wakeups.
End Wakeups.

Module WakeupsWitnesses.
Import Async AsyncInv Wakeups.

(** A task that waits for a timer of 5 steps or an edge, then for the read-only
    phase, on a design that does nothing. *)
Definition sg : Triggers.Sig := {| Triggers.sid := 0; Triggers.shandle := {| Signals.size := 1 |} |}.
Definition demo : @Code N Empty_set unit unit unit :=
  Bind (First2 (Wait (TTimer {| Time.t_steps := 5; Time.t_shared := None |})) (Wait (TEdge (Triggers.rising_edge sg))))
    (λ _, Wait (TPhase (PhaseHub.phase_fut PhaseHub.KReadOnly))).
Definition w0 : @Sim N Empty_set unit :=
  {| tw := {| Triggers.now := 0; Triggers.vals := λ _, None; Triggers.trigs := ∅; Triggers.regs := ∅; Triggers.next := 0;
              Triggers.woken := [] |};
     hub := PhaseHub.init_hub; reals := λ _, None; texts := λ _, None; eval_needed := false; finished := false; user := tt |}.
Definition nm (t : PhaseHub.WriteTarget) : string := "dut.sig".
Abbreviation Ex := (@Executor.ExecInner (@Fut N Empty_set unit unit unit) (@Sim N Empty_set unit) unit).
Definition s0 : Ex := default (Executor.init w0) (boot nm (λ l, l) 10 10 demo "demo" w0).
Definition s1 : Ex := Host.on_sim (Host.set_time 5) s0.
Definition s2 : Ex := default s1 (Host.timer_fires nm (λ l, l) 10 10 0 s1).

Lemma w0_fresh : fresh w0.
Proof. by constructor. Defined.
Lemma s0_boot : boot nm (λ l, l) 10 10 demo "demo" w0 = Some s0.
Proof. vm_compute. reflexivity. Defined.
Lemma s1_reachable : reachable nm (λ l, l) 10 10 demo "demo" w0 s1.
Proof.
  split; [apply w0_fresh|]. exists s0. split; [apply s0_boot|]. apply rtc_once, Host.step_advance; [done|].
  intros a due Ha.
  apply (map_Forall_lookup_1 (λ _ r, match r with Triggers.RTimer d => (5 ≤ d)%Z | _ => True end) (Triggers.regs (tw (Host.sim s0)))
    a _) in Ha; [done|]. apply map_Forall_to_list. vm_compute. repeat constructor; discriminate.
Defined.

Lemma no_wakeup_lost_witness : ∃ e, Executor.tasks s1 !! 1 = Some e ∧
  ∃ f, Executor.fut e = Some f ∧ length (triggers f) = 2 ∧ ∀ t, t ∈ triggers f → waits (Host.sim s1) 1 t.
Proof.
  eexists. split; [vm_compute; reflexivity|].
  destruct (no_wakeup_lost nm (λ l, l) 10 10 demo "demo" w0 s1 1 _ s1_reachable ltac:(vm_compute; reflexivity))
    as (f & _ & Hf & _ & Hw & _).
  exists f. split; [exact Hf|]. split; [|exact Hw]. injection Hf as <-. reflexivity.
Defined.

Lemma callback_ends_waits_witness : ∃ f, live s1 1 f ∧ inl 0 ∈ cells f ∧ is_Some (Executor.tasks s2 !! 1) ∧
  ∀ id' f', live s2 id' f' → inl 0 ∉ cells f'.
Proof.
  assert (∃ f, live s1 1 f ∧ inl 0 ∈ cells f) as (f & Hl & Ha).
  { eexists. split; [eexists; split; [vm_compute; reflexivity|reflexivity]|]. vm_compute. left. }
  exists f. split; [exact Hl|]. split; [exact Ha|]. split; [eexists; vm_compute; reflexivity|].
  apply (callback_ends_waits nm (λ l, l) 10 10 demo "demo" w0 s1 1 _ (inl 0) s2 s1_reachable Hl Ha).
  apply serves_timer; vm_compute; reflexivity.
Defined.

Definition h0 : @Host.Hosted N Empty_set unit unit unit := {| Host.ex := s0; Host.dut := tt; Host.seen := λ _, None |}.
End WakeupsWitnesses.
