(* ===== verification/FrameworkTests.v ===== *)
(** * FrameworkTests: the framework's own test suite
    (rustdv/framework-tests/src), run by the model of the framework.

    Each test function is the [Code] its body comes to, on the design of
    hdl/probe.sv; the regression of rustdv_runner.rs runs them under the event
    loop of src/sim/verilator_main.cpp.  Failure messages keep their text without
    the interpolated values.  [Own] is what the tests keep in thread locals and
    local variables shared between concurrent blocks. *)
From Stdlib Require Import Ascii String.
From stdpp Require Import pretty sorting.
From S2P Require Import Prelude Words Values Queue Sync Signals Time PhaseHub Triggers Executor Combinators Path Log Config Factory Objection Component Rng Runner Handles Errors Async Host Kit Bench Probe.
Local Open Scope Z_scope.

Module FrameworkTests.
Import Async Component Kit Bench Combinators(Either, First, Second).
Local Open Scope string_scope.
Local Open Scope Z_scope.
Local Open Scope code_scope.

(** TRACE, TICKS and FOREVER_CHECKED of concurrency.rs; [count] is a test's local
    counter, [flag_] its local flag, [items] the FIFO of elaboration.rs. *)
Record Own := {
  trace : list string;
  ticks : Z;
  forever_checked : bool;
  count : Z;
  flag_ : bool;
  items : Queue.QInner Z;
}.
Definition own0 : Own :=
  {| trace := []; ticks := 0; forever_checked := false; count := 0; flag_ := false; items := Queue.unbounded |}.
Definition with_trace l o : Own :=
  {| trace := l; ticks := ticks o; forever_checked := forever_checked o; count := count o; flag_ := flag_ o; items := items o |}.
Definition with_ticks n o : Own :=
  {| trace := trace o; ticks := n; forever_checked := forever_checked o; count := count o; flag_ := flag_ o; items := items o |}.
Definition with_checked b o : Own :=
  {| trace := trace o; ticks := ticks o; forever_checked := b; count := count o; flag_ := flag_ o; items := items o |}.
Definition with_count n o : Own :=
  {| trace := trace o; ticks := ticks o; forever_checked := forever_checked o; count := n; flag_ := flag_ o; items := items o |}.
Definition with_flag b o : Own :=
  {| trace := trace o; ticks := ticks o; forever_checked := forever_checked o; count := count o; flag_ := b; items := items o |}.
Definition with_items q o : Own :=
  {| trace := trace o; ticks := ticks o; forever_checked := forever_checked o; count := count o; flag_ := flag_ o; items := q |}.

Abbreviation U := (Env Z Own).
Abbreviation Code := (@Async.Code N Empty_set U Out).
Abbreviation Sig := Triggers.Sig.
Abbreviation T := (Code (Result unit TestError)).

(** The design of hdl/probe.sv, on the host. *)
Definition probe : Design :=
  {| Dut := Probe.Dut; top := "probe"; names := Probe.names; signals := Probe.signals; initially := Probe.initially;
     power_up := Probe.reset; Bench.eval := Probe.eval; Bench.due := Probe.due |}.
Definition signal (name : string) : Code (Result Sig TestError) := Bench.signal probe name.

(** [steps_per_ns]. *)
Definition steps_per_ns : Code Z := t0 <- sim_time_steps ;; ns 1 ;; t1 <- sim_time_steps ;; Ret (t1 - t0).

(** ** clocks.rs *)

Definition clock_period_is_what_was_asked_for : T :=
  clk <-? signal "clk" ;;
  start_clock "clk" clk 4 ;;
  rising_edge clk ;;
  t0 <- time_ns ;;
  repeat_ 10 (rising_edge clk) ;;
  t1 <- time_ns ;;
  check! (t1 - t0 =? 40, "ten periods of a 4ns clock took") ;;
  ok.

Definition clock_halves_are_equal : T :=
  clk <-? signal "clk" ;;
  start_clock "clk" clk 4 ;;
  rising_edge clk ;;
  rise <- time_ns ;;
  falling_edge clk ;;
  fall <- time_ns ;;
  rising_edge clk ;;
  next_rise <- time_ns ;;
  let high := fall - rise in
  let low := next_rise - fall in
  check! (high =? low, "the clock was high and low") ;;
  check! (high =? 2, "half a 4ns period measured") ;;
  ok.

Definition clock_drives_the_design : T :=
  clk <-? signal "clk" ;;
  counted <-? signal "counted" ;;
  start_clock "clk" clk 2 ;;
  rising_edge clk ;;
  read_only ;;
  start <- get_or_0 counted ;;
  repeat_ 6 (rising_edge clk) ;;
  read_only ;;
  end_ <- get_or_0 counted ;;
  check! (wrap 64 (end_ - start) =? 6, "the design counted edges where the testbench awaited 6") ;;
  ok.

Definition clock_two_are_independent : T :=
  fast <-? signal "clk" ;;
  slow <-? signal "flag" ;;
  start_clock "clk" fast 2 ;;
  start_clock "flag" slow 10 ;;
  falling_edge slow ;;
  t0 <- time_ns ;;
  edit (with_count 0) ;;
  first <- First2 (Loop (λ _, rising_edge fast ;; edit (λ o, with_count (count o + 1) o) ;; Ret (inl tt : unit + unit)) tt)
                  (falling_edge slow ;; falling_edge slow) ;;
  t1 <- time_ns ;;
  check! (t1 - t0 =? 20, "two 10ns periods took") ;;
  fast_edges <- look count ;;
  check! (fast_edges =? 10, "the 2ns clock ticked, not 10") ;;
  ok.

(** ** concurrency.rs *)

Definition trace_ (s : string) : Code unit := edit (λ o, with_trace (trace o ++ [s]) o).
Definition take_trace : Code (list string) := l <- look trace ;; edit (with_trace []) ;; Ret l.
Definition reset : Code unit := take_trace ;; edit (with_ticks 0) ;; edit (with_checked false).
Definition tick : Code unit := edit (λ o, with_ticks (ticks o + 1) o).

Definition conc_two_runs_interleave : T :=
  reset ;;
  let slow := for_each [0; 1; 2] (λ i, ns 10 ;; trace_ ("slow" +:+ pretty i)) in
  let fast := for_each [0; 1; 2] (λ i, ns 4 ;; trace_ ("fast" +:+ pretty i)) in
  Join2 slow fast ;;
  got <- take_trace ;;
  check! (bool_decide (got = ["fast0"; "fast1"; "slow0"; "fast2"; "slow1"; "slow2"]),
          "the two tasks did not interleave by time") ;;
  ok.

Definition conc_join_all_preserves_order : T :=
  t0 <- time_ns ;;
  out <- JoinAll [ns 30 ;; Ret 30; ns 10 ;; Ret 10; ns 20 ;; Ret 20] ;;
  t1 <- time_ns ;;
  check! (bool_decide (out = [30; 10; 20]), "join_all reordered its results") ;;
  check! (t1 - t0 =? 30, "join_all over 30/10/20 ns took, not 30") ;;
  ok.

Definition conc_first2_drops_the_loser : T :=
  reset ;;
  let winner := ns 5 ;; Ret "winner" in
  let loser := Loop (λ _, ns 1 ;; tick ;; Ret (inl tt : unit + unit)) tt in
  out <- First2 winner loser ;;
  check! (match out with First w => String.eqb w "winner" | Second _ => false end, "the wrong future won") ;;
  at_finish <- look ticks ;;
  ns 20 ;;
  later <- look ticks ;;
  check! (later =? at_finish, "the dropped future kept running") ;;
  ok.

(** A component test: what [build] does to the thread locals, the tree, and the
    check phase of its components in walk order. *)
Definition component_test (build : Code unit) (tree : Comp) (check_phase : Code CheckSink) : T :=
  run_component_test (build ;; ok) tree check_phase.
Definition leaf (run : T) : Comp := comp [] [] run.

Definition FirstChild_run : T := t <- time_ns ;; trace_ ("child1@" +:+ pretty t) ;; ns 10 ;; ok.
Definition SecondChild_run : T := t <- time_ns ;; trace_ ("child2@" +:+ pretty t) ;; ns 10 ;; ok.
Definition Parent_run : T := t <- time_ns ;; trace_ ("parent@" +:+ pretty t) ;; ns 10 ;; ok.

(** [s.split('@').nth(1).unwrap_or("?")]: up to the next separator. *)
Fixpoint until_at (s : string) : string :=
  match s with
  | String c r => if Ascii.eqb c "@"%char then EmptyString else String c (until_at r)
  | EmptyString => EmptyString
  end.
Fixpoint after_at (s : string) : string :=
  match s with String c r => if Ascii.eqb c "@"%char then until_at r else after_at r | EmptyString => "?" end.

Definition Parent_check : Code CheckSink :=
  got <- take_trace ;;
  Ret (if negb (Nat.eqb (length got) 3) then sink_error "expected three run bodies to start" sink_new
       else if existsb (λ t, negb (String.eqb t (default "?" (head (map after_at got))))) (map after_at got)
       then sink_error "run bodies started at different times, so they ran in sequence" sink_new
       else sink_new).
Definition ConcParentAndChildrenRunTogether : T :=
  component_test reset (comp [leaf FirstChild_run; leaf SecondChild_run] [] Parent_run) Parent_check.

Definition Forever_run : T := Loop (λ _, ns 1 ;; tick ;; Ret (inl tt : unit + Result unit TestError)) tt.
Definition Forever_check : Code unit := edit (with_checked true).
Definition Objector_run : T := with_objection "finite work" (ns 20 ;; ok).
Definition Verdict_check (errors : CheckSink) : Code CheckSink :=
  n <- look ticks ;;
  b <- look forever_checked ;;
  let e1 := if n =? 0 then sink_error "the forever-looping driver never ran at all" errors else errors in
  Ret (if (b : bool) then e1 else
       sink_error "the forever-looping driver's check phase never ran — it was destroyed with the run phase instead of surviving it (D82c)" e1).
Definition ConcObjectionRaceIsPerComponent : T :=
  component_test reset (comp [leaf Forever_run; leaf Objector_run; leaf ok] [] ok)
    (Forever_check ;; Verdict_check sink_new).

(** ** triggers.rs *)

Definition trig_timer_advances_exactly : T :=
  t0 <- time_ns ;;
  ns 10 ;;
  t <- time_ns ;;
  check! (t - t0 =? 10, "Timer::ns(10) advanced") ;;
  t1 <- time_ns ;;
  ns 3 ;;
  ns 7 ;;
  t2 <- time_ns ;;
  check! (t2 - t1 =? 10, "3ns then 7ns advanced, not 10") ;;
  ok.

Definition trig_time_units_agree : T :=
  per_ns <- steps_per_ns ;;
  check! (0 <? per_ns, "1 ns advanced time steps") ;;
  s0 <- sim_time_steps ;;
  n0 <- time_ns ;;
  ns 7 ;;
  s1 <- sim_time_steps ;;
  n1 <- time_ns ;;
  check! ((s1 - s0 =? 7 * per_ns) && (n1 - n0 =? 7), "7ns read as steps and ns") ;;
  ok.

Definition trig_edges_fire_on_the_right_transition : T :=
  clk <-? signal "clk" ;;
  start_clock "clk" clk 2 ;;
  rising_edge clk ;;
  t0 <- time_ns ;;
  repeat_ 5 (rising_edge clk) ;;
  t <- time_ns ;;
  check! (t - t0 =? 10, "five 2ns rising edges took") ;;
  high <- is_high clk ;;
  check! (high, "rising_edge returned with the clock low") ;;
  t1 <- time_ns ;;
  falling_edge clk ;;
  t2 <- time_ns ;;
  check! (t2 - t1 =? 1, "the falling edge came after the rising edge") ;;
  low <- is_low clk ;;
  check! (low, "falling_edge returned with the clock high") ;;
  ok.

Definition trig_value_change_sees_both_edges : T :=
  clk <-? signal "clk" ;;
  start_clock "clk" clk 2 ;;
  rising_edge clk ;;
  t0 <- time_ns ;;
  repeat_ 4 (value_change clk) ;;
  t1 <- time_ns ;;
  check! (t1 - t0 =? 4, "four value changes on a 2ns clock took, not 4") ;;
  ok.

Definition is_err {A E : Set} (r : Result A E) : bool := match r with Err _ => true | Ok _ => false end.

Definition trig_no_edge_without_a_change : T :=
  clk <-? signal "clk" ;;
  start_clock "clk" clk 2 ;;
  quiet <-? signal "never_driven" ;;
  r <- with_timeout (value_change quiet) (Time.ns prec 50) ;;
  check! (is_err r, "a signal nothing assigns reported a value change") ;;
  ok.

Definition trig_with_timeout_fires : T :=
  t0 <- time_ns ;;
  r <- with_timeout (ns 100) (Time.ns prec 5) ;;
  check! (is_err r, "a 100ns timer beat a 5ns timeout") ;;
  t1 <- time_ns ;;
  check! (t1 - t0 =? 5, "the 5ns timeout returned after") ;;
  ok.

Definition trig_with_timeout_inner_wins : T :=
  t0 <- time_ns ;;
  r <- with_timeout (ns 3 ;; Ret 42) (Time.ns prec 100) ;;
  check! (match r with Ok v => v =? 42 | Err _ => false end, "the inner future's value did not come back") ;;
  t1 <- time_ns ;;
  check! (t1 - t0 =? 3, "the inner future finished at, not 3") ;;
  ok.

Definition trig_earliest_rtl_or_vpi_deadline_wins : T :=
  request <-? signal "rtl_event_request" ;;
  done <-? signal "rtl_event_done" ;;
  set_u64_now request 0 ;;
  set_u64 request 1 ;;
  read_write ;;
  t0 <- time_ns ;;
  ns 3 ;;
  t1 <- time_ns ;;
  check! (t1 - t0 =? 3, "the earlier VPI deadline did not win") ;;
  high <- is_high done ;;
  check! (negb high, "the 7ns RTL event fired before the 3ns VPI timer") ;;
  edge <- with_timeout (rising_edge done) (Time.ns prec 5) ;;
  check! (negb (is_err edge), "the earlier RTL event lost to a later VPI timeout") ;;
  t2 <- time_ns ;;
  check! (t2 - t0 =? 7, "the RTL event did not fire after 7ns") ;;
  ok.

Definition trig_writes_are_scheduled_not_immediate : T :=
  sig <-? signal "byte_sig" ;;
  set_u64_now sig 0 ;;
  set_u64 sig 0xA5 ;;
  immediate <- get_or_0 sig ;;
  check! (immediate =? 0, "a scheduled write landed immediately") ;;
  read_write ;;
  settled <- get_or_0 sig ;;
  check! (settled =? 0xA5, "the scheduled write never landed") ;;
  set_u64_now sig 0x5A ;;
  now <- get_or_0 sig ;;
  check! (now =? 0x5A, "set_u64_now did not take effect immediately") ;;
  ok.

Definition trig_read_only_sees_settled_rtl : T :=
  input <-? signal "comb_in" ;;
  output <-? signal "comb_out" ;;
  set_u64 input 0x3C ;;
  read_write ;;
  read_only ;;
  got <- get_or_0 output ;;
  check! (got =? Z.lxor 0x3C 0xA5, "ReadOnly saw comb_out before RTL settled") ;;
  ok.

(** The worker thread sends back the time it was sent; the simulator's thread
    waits for it, so nothing else happens meanwhile. *)
Definition stable_point_service_holds_settled_read_only : T :=
  input <-? signal "comb_in" ;;
  output <-? signal "comb_out" ;;
  clk <-? signal "clk" ;;
  start_clock "clk" clk 2 ;;
  set_u64 input 0x6C ;;
  held <-? service_read_only (
    before <- sim_time_steps ;;
    settled <-? map_err (λ e, te_new ("could not read settled combinational output: " +:+ Gpi.value_error_to_string e)) (get_u64 output) ;;
    let worker_time := before in
    after <- sim_time_steps ;;
    Ret (Ok (settled, before, after, worker_time))) ;;
  let '(settled, before, after, worker_time) := held in
  check! (settled =? Z.lxor 0x6C 0xA5, "stable-point service saw comb_out before RTL settled") ;;
  check! ((before =? after) && (before =? worker_time), "simulation time changed while held") ;;
  released_at <- sim_time_steps ;;
  ns 2 ;;
  t <- sim_time_steps ;;
  check! (released_at <? t, "simulation did not advance after the worker released the stable point") ;;
  ok.

Definition stable_point_service_panic_is_contained : T :=
  service_read_only (Throw "deliberate stable-point service panic" : Code unit) ;;
  ok.

Definition stable_point_service_is_available_after_prior_panic : T :=
  input <-? signal "comb_in" ;;
  output <-? signal "comb_out" ;;
  set_u64 input 0x93 ;;
  held <- service_read_only (v <- get_or_0 output ;; t <- sim_time_steps ;; Ret (v, t)) ;;
  check! (held.1 =? Z.lxor 0x93 0xA5, "later stable-point service saw comb_out before RTL settled") ;;
  ns 1 ;;
  t <- sim_time_steps ;;
  check! (held.2 <? t, "simulation did not advance after the recovered stable-point service") ;;
  ok.

Definition in_phase (p q : PhaseHub.SimPhase) : bool := bool_decide (p = q).

Definition stable_point_phase_wait_ignores_an_unrelated_wake : T :=
  clk <-? signal "clk" ;;
  start_clock "clk" clk 2 ;;
  First2 next_time_step (ns 1) ;;
  phase <- service_read_only current_phase ;;
  check! (in_phase phase PhaseHub.ReadOnly, "ReadOnly service ran early after a tied phase/timer wake") ;;
  ok.

Definition trig_phase_order_within_a_step : T :=
  clk <-? signal "clk" ;;
  start_clock "clk" clk 2 ;;
  next_time_step ;;
  t0 <- time_ns ;;
  read_write ;;
  t1 <- time_ns ;;
  check! (t1 =? t0, "ReadWrite advanced time") ;;
  read_only ;;
  t2 <- time_ns ;;
  check! (t2 =? t0, "ReadOnly advanced time") ;;
  next_time_step ;;
  t3 <- time_ns ;;
  check! (t0 <? t3, "NextTimeStep did not advance") ;;
  ok.

Definition sibling_yields : Code unit := repeat_ 4 null_trigger.

(** One turn of the loop over the three kinds of phase. *)
Definition join_all_sibling (make : Code unit) : Code unit :=
  edit (with_flag false) ;;
  before <- sim_time_steps ;;
  JoinAll [make ;; edit (with_flag true);
           sibling_yields ;;
           done <- look flag_ ;;
           assert (negb done) "sibling polls completed a phase wait" ;;
           t <- sim_time_steps ;;
           assert (t =? before) "assertion `left == right` failed"] ;;
  done <- look flag_ ;;
  assert done "assertion failed: done.get()".
Definition trig_phase_join_all_sibling_wakeup : T :=
  clk <-? signal "clk" ;;
  start_clock "clk" clk 2 ;;
  join_all_sibling read_write ;;
  join_all_sibling read_only ;;
  join_all_sibling next_time_step ;;
  ok.

Definition PhaseWakeSibling_run : T :=
  clk <-? signal "clk" ;;
  falling_edge clk ;;
  sibling_yields ;;
  ok.
Definition assert_phase (p : PhaseHub.SimPhase) : Code unit :=
  q <- current_phase ;; assert (in_phase q p) "assertion `left == right` failed".
Definition assert_u64 (s : Sig) (v : Z) (m : string) : Code unit :=
  r <- get_u64 s ;;
  match r with
  | Ok x => assert (x =? v) m
  | Err e => Throw ("called `Result::unwrap()` on an `Err` value: " +:+ Gpi.value_error_to_string e)
  end.
Definition SettledData_run : T :=
  with_objection "phase sampling" (
    clk <-? signal "clk" ;;
    input <-? signal "comb_in" ;;
    output <-? signal "comb_out" ;;
    start_clock "clk" clk 2 ;;
    falling_edge clk ;;
    set_u64 input 0x69 ;;
    read_write ;;
    assert_phase PhaseHub.ReadWrite ;;
    assert_u64 input 0x69 "writes must precede waiters" ;;
    read_only ;;
    assert_phase PhaseHub.ReadOnly ;;
    assert_u64 output (Z.lxor 0x69 0xA5) "assertion `left == right` failed" ;;
    ok).
Definition TrigPhaseComponentSettledData : T :=
  component_test (Ret tt) (comp [leaf PhaseWakeSibling_run] [] SettledData_run) (Ret sink_new).

Definition trig_phase_cancel_preserves_scheduled_write : T :=
  sig <-? signal "byte_sig" ;;
  set_u64 sig 0x42 ;;
  doomed <- TryPoll read_write ;;
  assert (match doomed with Ok None => true | _ => false end) "assertion failed: Pin::new(&mut doomed).poll(cx).is_pending()" ;;
  read_only ;;
  assert_u64 sig 0x42 "assertion `left == right` failed" ;;
  ok.

Definition trig_phase_read_only_rejects_illegal_operations : T :=
  sig <-? signal "byte_sig" ;;
  read_only ;;
  r1 <- TryPoll read_write ;;
  assert (is_err r1) "illegal phase transition accepted" ;;
  r2 <- TryPoll read_only ;;
  assert (is_err r2) "illegal phase transition accepted" ;;
  r3 <- TryPoll (set_u64 sig 1) ;;
  assert (is_err r3) "assertion failed: catch_unwind(set_u64).is_err()" ;;
  r4 <- TryPoll (set_u64_now sig 1) ;;
  assert (is_err r4) "assertion failed: catch_unwind(set_u64_now).is_err()" ;;
  assert_phase PhaseHub.ReadOnly ;;
  ok.

(** ** runner.rs *)

Definition runner_timeout_is_reported : T := ns 1000000 ;; Ret (Err (te_new "the timeout never fired")).
Definition runner_expect_fail_accepts_any_failure : T := Ret (Err (te_new "a deliberate failure")).

#[local] Instance u32_typed : Config.Typed Z Z :=
  {| Config.type_id := 0; Config.type_name := "u32"; Config.debug := pretty; Config.inject := λ x, x; Config.downcast := Some |}.
(** [ConfigDb::get(None, "", field)] and [ConfigDb::set(None, path, field, v)]. *)
Definition config_get (field : string) : Code (Result Z Config.ConfigError) :=
  Call (λ u : U, match Config.get None "" field (db u) with
    | Done (r, line) => Done (match line with Some l => console l u | None => u end, [], r)
    | Panic m => Panic m
    end).
Definition config_set (path field : string) (v : Z) : Code unit :=
  modify (λ u : U, let '(d, line) := Config.set None path field v (db u) in
    set_db d (match line with Some l => console l u | None => u end)).

Definition runner_expect_error_matches_the_cause : T :=
  v <-? map_err Errors.te_from_config (config_get "NOTHING_SET_THIS_KEY") ;;
  Ret (Err (te_new "the missing key was found")).
Definition runner_panic_fails_the_test : T := ns 1 ;; Throw "a deliberate panic in the test body".
Definition runner_background_panic_fails_the_test : T :=
  spawn (ns 1 ;; Throw "a deliberate panic in a background task") None ;;
  ns 10 ;;
  ok.
Definition runner_configdb_writer : T :=
  config_set "*" "FRESHNESS_CANARY" 1234 ;;
  back <-? map_err Errors.te_from_config (config_get "FRESHNESS_CANARY") ;;
  check! (back =? 1234, "the canary did not survive its own test") ;;
  ok.
Definition runner_configdb_is_cleared_between_tests : T :=
  leaked <- config_get "FRESHNESS_CANARY" ;;
  check! (is_err leaked, "the previous test's ConfigDb entry survived into this one") ;;
  ok.

(** The two files, opened anew; what is in one is every line written to it. *)
Definition canary_first : Log.File := 0%nat.
Definition canary_second : Log.File := 1%nat.
Definition add_file_for (prefix : string) (f : Log.File) : Code (Result unit TestError) :=
  modify (λ u : U, match Log.add_file_for (E := string) prefix (Ok f) (log u) with Ok c => set_log c u | Err _ => u end) ;; ok.
Definition written_to (f : Log.File) (l : Log.Sink * string) : option string :=
  match l.1 with Log.ToFile g => if Nat.eqb g f then Some l.2 else None | Log.Console => None end.
Definition read_log (f : Log.File) : Code (list string) :=
  ask (λ u : U, (omap (written_to f) (rev (lines u)) : list string)).
Definition logged (msg : string) (l : list string) : bool :=
  existsb (λ line, Runner.contains (list_of_string line) (list_of_string msg)) l.
(** [ctx.info] of a function test, whose path is its name. *)
Definition ctx_info (test msg : string) : Code unit := logger_at prec (Path.root test) Log.Info msg.

Definition runner_log_config_writer : T :=
  _ <-? add_file_for "" canary_first ;;
  ctx_info "runner_log_config_writer" "canary-a" ;;
  first <- read_log canary_first ;;
  check! (logged "canary-a" first,
    "the file handler received nothing, so this test proves nothing about the next one") ;;
  modify (λ u : U, set_log (Log.set_level Log.Critical (log u)) u) ;;
  ok.
Definition runner_log_config_is_cleared_between_tests : T :=
  _ <-? add_file_for "" canary_second ;;
  ctx_info "runner_log_config_is_cleared_between_tests" "canary-b" ;;
  second <- read_log canary_second ;;
  check! (logged "canary-b" second, "an info message was suppressed: the previous test's Critical level leaked") ;;
  first <- read_log canary_first ;;
  check! (negb (logged "canary-b" first),
    "the previous test's file handler is still attached and received this test's output") ;;
  ok.

(** [(0..8).map(|_| r.u8())]. *)
Fixpoint draw_u8 (n : nat) (r : Rng.Rng) : list Z :=
  match n with O => [] | S k => let '(r', x) := Rng.u8 r in x :: draw_u8 k r' end.
Definition runner_rng_is_reproducible (seed : Z) : T :=
  let one := draw_u8 8 (Rng.new seed) in
  let two := draw_u8 8 (Rng.new seed) in
  check! (bool_decide (one = two), "two generators from the same seed disagreed") ;;
  check! (existsb (λ v, negb (v =? default 0 (head one))) one, "the generator returned the same byte eight times") ;;
  ok.

(** ** signals.rs *)

Definition width_is (name : string) (want : nat) : T :=
  sig <-? signal name ;;
  check! (Nat.eqb (Signals.size (Triggers.shandle sig)) want, name +:+ " reports bits, the design declares") ;;
  ok.
Definition sig_widths_match_the_design : T :=
  try_each [("byte_sig", 8%nat); ("word_sig", 16%nat); ("dword_sig", 32%nat); ("qword_sig", 64%nat); ("u128_sig", 128%nat);
            ("bigint_sig", 160%nat); ("nibble", 4%nat); ("flag", 1%nat)] (λ nw, width_is nw.1 nw.2).

Definition round_trip (name : string) (value : Z) : T :=
  sig <-? signal name ;;
  set_u64 sig value ;;
  read_write ;;
  got <-? map_err (λ e, te_new (name +:+ ": " +:+ Gpi.value_error_to_string e)) (get_u64 sig) ;;
  check! (got =? value, name +:+ " read back after writing") ;;
  ok.
Definition sig_round_trips : T :=
  try_each [("byte_sig", 0xA5); ("word_sig", 0xBEEF); ("nibble", 0xC)] (λ nv, round_trip nv.1 nv.2).

(** [got == Ok(want)]. *)
Definition got {A E : Set} (eqb : A → A → bool) (want : A) (r : Result A E) : bool :=
  match r with Ok v => eqb v want | Err _ => false end.

Definition sig_typed_values_round_trip : T :=
  flag <-? signal "flag" ;;
  byte <-? signal "byte_sig" ;;
  word <-? signal "word_sig" ;;
  dword <-? signal "dword_sig" ;;
  qword <-? signal "qword_sig" ;;
  wide <-? signal "u128_sig" ;;
  arbitrary <-? signal "bigint_sig" ;;
  let bigint : N := bu_from_slice [0x76543210; 0xfedcba98; 0x89abcdef; 0x01234567; 0xa5a55a5a] in
  let u128_value := 0x0123456789abcdeffedcba9876543210 in
  set_bool flag true ;;
  set_u8 byte 0xa5 ;;
  set_u16 word 0xa5b6 ;;
  set_u32 dword 0xa5b6c7d8 ;;
  set_u64 qword 0x0123456789abcdef ;;
  set_u128 wide u128_value ;;
  set_bigint arbitrary bigint ;;
  read_write ;;
  rb <- get_bool flag ;; check! (got Bool.eqb true rb, "bool did not round-trip") ;;
  r8 <- get_u8 byte ;; check! (got Z.eqb 0xa5 r8, "u8 did not round-trip") ;;
  r16 <- get_u16 word ;; check! (got Z.eqb 0xa5b6 r16, "u16 did not round-trip") ;;
  r32 <- get_u32 dword ;; check! (got Z.eqb 0xa5b6c7d8 r32, "u32 did not round-trip") ;;
  r64 <- get_u64 qword ;; check! (got Z.eqb 0x0123456789abcdef r64, "u64 did not round-trip") ;;
  r128 <- get_u128 wide ;; check! (got Z.eqb u128_value r128, "u128 did not round-trip") ;;
  rbig <- read_sig arbitrary (Signals.get_bigint (B:=N)) ;; check! (got bu_eq bigint rbig, "BigUint did not round-trip") ;;
  ok.

Definition sig_truncates_to_width : T :=
  nibble <-? signal "nibble" ;;
  set_u64 nibble 0xFF ;;
  read_write ;;
  got <- unwrap_or 0xDEAD (get_u64 nibble) ;;
  check! (got =? 0xF, "writing 0xFF to a 4-bit signal read back, not 0xf") ;;
  ok.

Definition is_x (c : ascii) : bool := Ascii.eqb c "x"%char.
Definition sig_x_is_an_error_not_a_zero : T :=
  x <-? signal "never_driven" ;;
  rx <- get_u64 x ;;
  check! (is_err rx, "an undriven bit converted to an integer") ;;
  x_binstr <-? map_err Errors.te_from_value (get_binstr x) ;;
  check! (existsb is_x (list_of_string x_binstr), "an undriven bit reads as") ;;
  high <- is_high x ;;
  low <- is_low x ;;
  check! (negb high && negb low, "an undriven bit claimed to be high or low") ;;
  bus <-? signal "never_driven_bus" ;;
  rb <- get_u64 bus ;;
  check! (is_err rb, "an undriven bus converted to an integer") ;;
  bus_binstr <-? map_err Errors.te_from_value (get_binstr bus) ;;
  check! (forallb is_x (list_of_string bus_binstr), "an undriven bus reads as") ;;
  v <- get_or_0 x ;;
  check! (v =? 0, "unwrap_or(0) did not yield 0") ;;
  ok.

Definition sig_partial_x_is_still_an_error : T :=
  sig <-? signal "byte_sig" ;;
  set_u64 sig 0 ;;
  read_write ;;
  r0 <- get_u64 sig ;;
  check! (negb (is_err r0), "a fully driven byte did not convert") ;;
  let arr := LogicArray.from_binstr (B:=N) "0000x000" in
  check! (Nat.eqb (LogicArray.len arr) 8, "the pattern is bits wide, not 8") ;;
  check! (negb (LogicArray.is_resolvable arr), "a pattern containing x claimed to be resolvable") ;;
  set_logic sig arr ;;
  read_write ;;
  r1 <- get_u64 sig ;;
  check! (is_err r1, "a byte with one x bit converted") ;;
  sig_binstr <-? map_err Errors.te_from_value (get_binstr sig) ;;
  check! (existsb is_x (list_of_string sig_binstr), "the x bit vanished") ;;
  ok.

Definition sig_reads_track_the_design : T :=
  clk <-? signal "clk" ;;
  counted <-? signal "counted" ;;
  start_clock "clk" clk 2 ;;
  rising_edge clk ;;
  read_only ;;
  a <- get_or_0 counted ;;
  rising_edge clk ;;
  read_only ;;
  b <- get_or_0 counted ;;
  check! (wrap 64 (b - a) =? 1, "the counter went across one clock") ;;
  ok.

Definition mentions (want : string) (s : string) : bool := Runner.contains (list_of_string s) (list_of_string want).
Definition sig_missing_name_is_an_error : T :=
  good <- signal "byte_sig" ;;
  check! (negb (is_err good), "the control signal is missing from probe.sv") ;;
  bad <- signal "byte_sgi" ;;
  check! (is_err bad, "a signal that does not exist was found anyway") ;;
  check! (match bad with Err e => mentions "byte_sgi" (msg e) | Ok _ => false end,
          "the error does not name the signal that was not found") ;;
  ok.

(** ** elaboration.rs *)

(** The trees once built: a port is an interface nobody has connected. *)
Abbreviation Node := (@Factory.Node unit).
Definition Orphan : Node := Factory.mkNode "Orphan" tt [("items", Factory.FPort "get" 0)].
Definition TwoOrphans : Node :=
  Factory.mkNode "TwoOrphans" tt [("items", Factory.FPort "get" 1); ("outbox", Factory.FPort "put" 2)].
Definition child (n : Node) : Factory.Field := Factory.FComp (Some n) false None.
Definition OrphanNest : Node := Factory.mkNode "OrphanNest" tt [("one", child Orphan); ("two", child TwoOrphans)].
Definition depth : nat := 3.                          (* no tree here is deeper *)
Definition ctx_of (test : string) (seed : Z) : RustdvCtx := {| path := Path.root test; Component.seed := seed |}.
(** [bound]: the cells [connect] filled. *)
Definition elaborate (bound : list nat) (n : Node) (ctx : RustdvCtx) : T :=
  Ret (check_connections (λ (_ : unit) c, bool_decide (c ∈ bound)) depth n ctx tt).

Definition ElabUnconnectedPortFailsElaboration (seed : Z) : T :=
  run_component_test
    (elaborate [] (Factory.mkNode "ElabUnconnectedPortFailsElaboration" tt [("orphan", child Orphan)])
       (ctx_of "ElabUnconnectedPortFailsElaboration" seed))
    (comp [leaf ok] [] (Ret (Err (te_new "the run phase started even though a port was unconnected"))))
    (Ret sink_new).

Definition elab_reports_every_miss_with_paths (seed : Z) : T :=
  let missing := unconnected_ports (λ (_ : unit) _, false) depth OrphanNest (ctx_of "elab_reports_every_miss_with_paths" seed) tt in
  check! (Nat.eqb (length missing) 3, "expected all three unconnected ports in one sweep") ;;
  try_each ["one"; "two"; "items"; "outbox"] (λ want, check! (existsb (mentions want) missing, "no report mentions") ;; ok).

Definition fifo : Lens U (Queue.QInner Z) := {| view := λ u, items (own u); update := λ q u, set_own (with_items q (own u)) u |}.
Definition Consumer_run : T :=
  item <- queue_get fifo ;;
  if item =? 7 then ok else Ret (Err (te_new "got, expected 7")).
Definition ElabConnectedTreeIsClean (seed : Z) : T :=
  run_component_test
    (edit (with_items Queue.unbounded) ;;
     elaborate [0%nat] (Factory.mkNode "ElabConnectedTreeIsClean" tt
         [("fifo", Factory.FPlain (Factory.mkNode "TlmFifo" tt []));
          ("consumer", child (Factory.mkNode "Consumer" tt [("items", Factory.FPort "get" 0)]))])
       (ctx_of "ElabConnectedTreeIsClean" seed))
    (comp [leaf Consumer_run] [leaf ok] (ns 1 ;; queue_put fifo 7 ;; ok))
    (Ret sink_new).

(** ** The suite *)

Abbreviation Test := (@Kit.Test N Empty_set Z Own).
Definition registered (file : string) (line : nat) (name : string) (timeout : option (Z * string)) (expect_fail : bool)
    (expect_error : option string) : Runner.TestRegistration :=
  {| Runner.name := name; Runner.module_ := "framework_tests::" +:+ file; Runner.file := file +:+ ".rs"; Runner.line := line;
     Runner.timeout := timeout; Runner.skip := false; Runner.expect_fail := expect_fail; Runner.expect_error := expect_error |}.
Definition test (file : string) (line : nat) (name : string) (body : T) : Test :=
  (registered file line name None false None, λ _, body).
Definition failing (file : string) (line : nat) (name : string) (body : T) : Test :=
  (registered file line name None true None, λ _, body).

Definition clocks : list Test :=
  [test "clocks" 11 "clock_period_is_what_was_asked_for" clock_period_is_what_was_asked_for;
   test "clocks" 27 "clock_halves_are_equal" clock_halves_are_equal;
   test "clocks" 51 "clock_drives_the_design" clock_drives_the_design;
   test "clocks" 87 "clock_two_are_independent" clock_two_are_independent].
Definition concurrency : list Test :=
  [test "concurrency" 52 "conc_two_runs_interleave" conc_two_runs_interleave;
   test "concurrency" 81 "conc_join_all_preserves_order" conc_join_all_preserves_order;
   test "concurrency" 112 "conc_first2_drops_the_loser" conc_first2_drops_the_loser;
   test "concurrency" 170 "ConcParentAndChildrenRunTogether" ConcParentAndChildrenRunTogether;
   (registered "concurrency" 271 "ConcObjectionRaceIsPerComponent" (Some (10, "us")) false None,
    λ _, ConcObjectionRaceIsPerComponent)].
Definition elaboration : list Test :=
  [(registered "elaboration" 54 "ElabUnconnectedPortFailsElaboration" None false (Some "tlm_unconnected_port"),
    ElabUnconnectedPortFailsElaboration);
   (registered "elaboration" 81 "elab_reports_every_miss_with_paths" None false None, elab_reports_every_miss_with_paths);
   (registered "elaboration" 123 "ElabConnectedTreeIsClean" (Some (10, "us")) false None, ElabConnectedTreeIsClean)].
Definition runner : list Test :=
  [(registered "runner" 20 "runner_timeout_is_reported" (Some (100, "ns")) true None, λ _, runner_timeout_is_reported);
   failing "runner" 28 "runner_expect_fail_accepts_any_failure" runner_expect_fail_accepts_any_failure;
   (registered "runner" 34 "runner_expect_error_matches_the_cause" None false (Some "config_not_found"),
    λ _, runner_expect_error_matches_the_cause);
   failing "runner" 43 "runner_panic_fails_the_test" runner_panic_fails_the_test;
   failing "runner" 52 "runner_background_panic_fails_the_test" runner_background_panic_fails_the_test;
   test "runner" 72 "runner_configdb_writer" runner_configdb_writer;
   test "runner" 83 "runner_configdb_is_cleared_between_tests" runner_configdb_is_cleared_between_tests;
   test "runner" 126 "runner_log_config_writer" runner_log_config_writer;
   test "runner" 145 "runner_log_config_is_cleared_between_tests" runner_log_config_is_cleared_between_tests].
Definition rng : list Test := [(registered "runner" 170 "runner_rng_is_reproducible" None false None, runner_rng_is_reproducible)].
Definition signals : list Test :=
  [test "signals" 11 "sig_widths_match_the_design" sig_widths_match_the_design;
   test "signals" 34 "sig_round_trips" sig_round_trips;
   test "signals" 54 "sig_typed_values_round_trip" sig_typed_values_round_trip;
   test "signals" 103 "sig_truncates_to_width" sig_truncates_to_width;
   test "signals" 121 "sig_x_is_an_error_not_a_zero" sig_x_is_an_error_not_a_zero;
   test "signals" 162 "sig_partial_x_is_still_an_error" sig_partial_x_is_still_an_error;
   test "signals" 199 "sig_reads_track_the_design" sig_reads_track_the_design;
   test "signals" 220 "sig_missing_name_is_an_error" sig_missing_name_is_an_error].
Definition triggers : list Test :=
  [test "triggers" 32 "trig_timer_advances_exactly" trig_timer_advances_exactly;
   test "triggers" 51 "trig_time_units_agree" trig_time_units_agree;
   test "triggers" 73 "trig_edges_fire_on_the_right_transition" trig_edges_fire_on_the_right_transition;
   test "triggers" 103 "trig_value_change_sees_both_edges" trig_value_change_sees_both_edges;
   test "triggers" 125 "trig_no_edge_without_a_change" trig_no_edge_without_a_change;
   test "triggers" 191 "trig_with_timeout_fires" trig_with_timeout_fires;
   test "triggers" 202 "trig_with_timeout_inner_wins" trig_with_timeout_inner_wins;
   test "triggers" 225 "trig_earliest_rtl_or_vpi_deadline_wins" trig_earliest_rtl_or_vpi_deadline_wins;
   test "triggers" 300 "trig_writes_are_scheduled_not_immediate" trig_writes_are_scheduled_not_immediate;
   test "triggers" 335 "trig_read_only_sees_settled_rtl" trig_read_only_sees_settled_rtl;
   test "triggers" 355 "stable_point_service_holds_settled_read_only" stable_point_service_holds_settled_read_only;
   failing "triggers" 424 "stable_point_service_panic_is_contained" stable_point_service_panic_is_contained;
   test "triggers" 433 "stable_point_service_is_available_after_prior_panic" stable_point_service_is_available_after_prior_panic;
   test "triggers" 481 "stable_point_phase_wait_ignores_an_unrelated_wake" stable_point_phase_wait_ignores_an_unrelated_wake;
   test "triggers" 665 "trig_phase_order_within_a_step" trig_phase_order_within_a_step;
   test "triggers" 740 "trig_phase_join_all_sibling_wakeup" trig_phase_join_all_sibling_wakeup;
   test "triggers" 836 "TrigPhaseComponentSettledData" TrigPhaseComponentSettledData;
   test "triggers" 868 "trig_phase_cancel_preserves_scheduled_write" trig_phase_cancel_preserves_scheduled_write;
   test "triggers" 884 "trig_phase_read_only_rejects_illegal_operations" trig_phase_read_only_rejects_illegal_operations].
(** The tests that do not look at the seed, and all of them. *)
Definition seedless : list Test := clocks ++ concurrency ++ elaboration ++ runner ++ signals ++ triggers.
Definition suite : list Test := clocks ++ concurrency ++ elaboration ++ runner ++ rng ++ signals ++ triggers.

(** ** The run *)

(** The suite is in the order [collect_tests] puts it in. *)
Example suite_sorted : Runner.collect_tests (rev (map fst suite)) = map fst suite.
Proof. vm_compute. reflexivity. Qed.

(** The framework's own suite passes on the framework.  Every test but
    runner_rng_is_reproducible, which looks at the numbers its seed gives, passes
    for every seed: the regression of rustdv_runner.rs, started on probe.sv under
    the event loop of verilator_main.cpp, runs them in order, each to the outcome
    Pass (those that must time out, panic or fail with a named cause included),
    calls finish, and the simulation ends without trouble.  With seed 1 the whole
    suite does. *)
Theorem framework_suite_passes :
  (∀ seed, ∃ r, report probe (simulate probe oldest_first 10000 own0 seedless seed) = Some r ∧ came_to seedless (λ _, Runner.Pass) r) ∧
  (∃ r, report probe (simulate probe oldest_first 10000 own0 suite 1) = Some r ∧ came_to suite (λ _, Runner.Pass) r).
Proof. split; [intros seed|]; eexists; (split; [vm_compute; reflexivity|]); repeat split. Qed.

End FrameworkTests.
