(* ===== verification/Chapters.v ===== *)
(** * Chapters: the simulator figures of the book's chapters 15 to 17
    (output/examples/ch15-async-await-executor, ch16-tasks-queues and
    ch17-simulating-with-rustdv-sim), run by the model of the framework.

    Each figure is the [Code] its function comes to; chapters 15 and 16 run on
    the empty design playground.sv, chapter 17 on counter.sv.  The chapters (and
    the examples' READMEs) print what a run with seed 1 writes; the theorems say
    that the model writes the same. *)
From Stdlib Require Import Ascii String.
From stdpp Require Import pretty.
From S2P Require Import Prelude Words Values Queue Signals Time PhaseHub Triggers Executor Combinators Log Config Objection Component Rng Runner Handles Async Host Kit Bench Probe.
Local Open Scope Z_scope.

Module Chapters.
Import Async Component Kit Bench.
Local Open Scope string_scope.
Local Open Scope Z_scope.
Local Open Scope code_scope.

(** What [#[rustdv::test]] on a function registers. *)
Definition registered (file : string) (line : nat) (name : string) : Runner.TestRegistration :=
  {| Runner.name := name; Runner.module_ := ""; Runner.file := file; Runner.line := line; Runner.timeout := None;
     Runner.skip := false; Runner.expect_fail := false; Runner.expect_error := None |}.

(** [#[rustdv::test(expect_error = ..)]]. *)
Definition expecting (kind : string) (r : Runner.TestRegistration) : Runner.TestRegistration :=
  {| Runner.name := Runner.name r; Runner.module_ := Runner.module_ r; Runner.file := Runner.file r; Runner.line := Runner.line r;
     Runner.timeout := Runner.timeout r; Runner.skip := Runner.skip r; Runner.expect_fail := Runner.expect_fail r;
     Runner.expect_error := Some kind |}.

(** ** Chapters 15 and 16: tasks and queues *)

(** The figures' state: the queue of the running figure. *)
Abbreviation Own := (Queue.QInner Z).
Abbreviation U := (Env Z Own).
Abbreviation Code := (@Async.Code N Empty_set U Out).
Abbreviation T := (Code (Result unit TestError)).
Abbreviation Test := (@Kit.Test N Empty_set Z Own).

Definition playground : Design :=
  {| Dut := unit; top := "playground"; names := []; signals := 0; initially := λ _, None; power_up := tt;
     Bench.eval := λ _ d vals, (d, vals); Bench.due := λ _, None |}.

Definition hello_world : T := info "Hello, world." ;; ok.
Definition wait_2ns : T := ns 2 ;; info "I am DONE waiting!" ;; ok.

Definition ch15 : list Test :=
  let reg := registered "ch15-async-await-executor/src/ch15_async_await_executor.rs" in
  [(reg 12%nat "hello_world", λ _, hello_world); (reg 20%nat "wait_2ns", λ _, wait_2ns)].

(** [1..=n]. *)
Definition upto (n : nat) : list Z := map Z.of_nat (seq 1 n).

Definition counter (name : string) (delay : Z) (count : nat) : Code unit :=
  for_each (upto count) (λ ii, ns delay ;; info (name +:+ " counts " +:+ pretty ii)).

Definition do_not_wait : T :=
  info "start counting to 3" ;;
  spawn (counter "simple count" 1 3) None ;;
  info "ignored the running task" ;;
  ok.

Definition wait_for_it : T :=
  info "start counting to 3" ;;
  running_task <- spawn (counter "simple count" 1 3) None ;;
  Join running_task ;;
  info "waited for running task" ;;
  ok.

Definition counters : T :=
  info "The Count will count to five." ;;
  info "Mom will count to three." ;;
  the_count <- spawn (counter "The Count" 1 5) None ;;
  mom_warning <- spawn (counter "Mom" 2 3) None ;;
  Join2 (Join the_count) (Join mom_warning) ;;
  info "All the counting is finished" ;;
  ok.

Definition wait_for_numb (delay numb : Z) : Code Out := ns delay ;; Ret (OInt (wrap 32 (numb + 1))).
(** [handle.await.expect(..)] of a task with a number. *)
Definition expect_numb (id : TaskId) : Code Z :=
  r <- Join id ;;
  match r with Ok (OInt n) => Ret n | _ => Throw "task was cancelled" end.

Definition inc_test : T :=
  info "sent 1" ;;
  inc1 <- Spawn (wait_for_numb 1 1) None ;;
  nn <- expect_numb inc1 ;;
  info ("returned " +:+ pretty nn) ;;
  info ("sent " +:+ pretty nn) ;;
  inc2 <- Spawn (wait_for_numb 10 nn) None ;;
  nn <- expect_numb inc2 ;;
  info ("returned " +:+ pretty nn) ;;
  ok.

Definition cancel_a_running_task : T :=
  kill_me <- spawn (counter "Kill me" 1 1000) None ;;
  ns 5 ;;
  Cancel kill_me ;;
  info "Cancelled the long-running task." ;;
  ok.

(** The one queue a figure makes: created, then shared by its tasks. *)
Definition queue : Lens U Own := part (λ o, o) (λ q _, q).
Definition queue_new (maxsize : option nat) : Code unit := edit (λ _, Queue.new maxsize).

Definition producer (nn : nat) (delay : option Z) : Code unit :=
  for_each (upto nn) (λ datum,
    (match delay with Some d => ns d | None => Ret tt end) ;;
    queue_put queue datum ;;
    info ("Producer sent " +:+ pretty datum)).

Definition consumer : Code unit :=
  Loop (λ _, datum <- queue_get queue ;; info ("Consumer got " +:+ pretty datum) ;; Ret (inl tt)) tt.

Definition infinite_queue : T :=
  queue_new None ;;
  spawn consumer None ;;
  spawn (producer 3 None) None ;;
  ns 1 ;;
  ok.

Definition queue_max_size_1 : T :=
  queue_new (Some 1%nat) ;;
  spawn consumer None ;;
  spawn (producer 3 None) None ;;
  ns 1 ;;
  ok.

Definition producer_consumer_sim_delay : T :=
  queue_new (Some 1%nat) ;;
  spawn consumer None ;;
  ptask <- spawn (producer 3 (Some 5)) None ;;
  Join ptask ;;
  ns 1 ;;
  ok.

Definition producer_no_wait (nn : nat) : Code unit :=
  for_each (upto nn) (λ datum,
    Loop (λ item,
      r <- queue_try_put queue item ;;
      match r with
      | Err rejected => info "Queue Full, waiting 1ns" ;; ns 1 ;; Ret (inl rejected)
      | Ok _ => Ret (inr tt)
      end) datum ;;
    info ("Producer sent " +:+ pretty datum)).

Definition consumer_no_wait : Code unit :=
  Loop (λ _,
    datum <- Loop (λ _,
      r <- queue_try_get queue ;;
      match r with
      | Some datum => Ret (inr datum)
      | None => info "Queue Empty, waiting 2 ns" ;; ns 2 ;; Ret (inl tt)
      end) tt ;;
    info ("Consumer got " +:+ pretty datum) ;; Ret (inl tt)) tt.

Definition producer_consumer_nowait : T :=
  queue_new (Some 1%nat) ;;
  spawn consumer_no_wait None ;;
  producer_no_wait 3 ;;
  ns 3 ;;
  ok.

Definition ch16 : list Test :=
  let reg := registered "ch16-tasks-queues/src/ch16_tasks_queues.rs" in
  [(reg 22%nat "do_not_wait", λ _, do_not_wait); (reg 32%nat "wait_for_it", λ _, wait_for_it);
   (reg 43%nat "counters", λ _, counters); (reg 64%nat "inc_test", λ _, inc_test);
   (reg 79%nat "cancel_a_running_task", λ _, cancel_a_running_task); (reg 111%nat "infinite_queue", λ _, infinite_queue);
   (reg 122%nat "queue_max_size_1", λ _, queue_max_size_1);
   (reg 134%nat "producer_consumer_sim_delay", λ _, producer_consumer_sim_delay);
   (reg 177%nat "producer_consumer_nowait", λ _, producer_consumer_nowait)].

(** ** Chapter 17: the counter *)

Module Counter.
Definition clk := Probe.signal 0 1.
Definition reset_n := Probe.signal 1 1.
Definition count := Probe.signal 2 8.

(** Two-state ports; [count <= reset_n ? count + 1 : 'b0] on a rising clock. *)
Definition eval (_ : Z) (last : Probe.Bit) (vals : nat → Signals.VpiValue) : Probe.Bit * (nat → Signals.VpiValue) :=
  let c := Probe.bit (Probe.at_ clk vals) in
  (c, if Probe.posedge last c then
        Probe.put count (match Probe.bit (Probe.at_ reset_n vals) with
                         | Probe.B1 => Probe.count_up (Probe.at_ count vals)
                         | _ => Probe.number 0
                         end) vals
      else vals).
Definition design : Design :=
  {| Dut := Probe.Bit; top := "counter"; names := [("clk", clk); ("reset_n", reset_n); ("count", count)]; signals := 3;
     initially := λ i, if Nat.ltb i 3 then Probe.number 0 else None; power_up := Probe.B0;
     Bench.eval := eval; Bench.due := λ _, None |}.
End Counter.

Definition get_int (s : Triggers.Sig) : Code Z := unwrap_or 0 (get_u64 s).
Definition dut_signal (name : string) : Code (Result Triggers.Sig TestError) := signal Counter.design name.

(** [{:?}] of what [signal] answers. *)
Definition debug_signal (r : Result Triggers.Sig Gpi.HandleError) : string :=
  match r with
  | Ok s => "Ok(LogicHandle(" +:+ String "034" (full_name Counter.design (target s)) +:+ String "034" "))"
  | Err (Gpi.NotFound n sc) =>
      "Err(NotFound { name: " +:+ String "034" n +:+ String "034" ", scope: " +:+ String "034" sc +:+ String "034" " })"
  | Err _ => ""
  end.

Definition name_lookup : T :=
  let good := find_signal Counter.design "reset_n" in
  let bad := find_signal Counter.design "rst_n" in
  info ("reset_n -> " +:+ debug_signal good) ;;
  info ("rst_n   -> " +:+ debug_signal bad) ;;
  ok.

Definition no_count : T :=
  clk <-? dut_signal "clk" ;;
  start_clock "clk" clk 2 ;;
  reset_n <-? dut_signal "reset_n" ;;
  set_u64 reset_n 0 ;;
  repeat_ 5 (rising_edge clk) ;;
  c <-? dut_signal "count" ;;
  count <- get_int c ;;
  info ("After 5 clocks count is " +:+ pretty count) ;;
  assert (count =? 0) "assertion `left == right` failed" ;;
  ok.

Definition three_count : T :=
  clk <-? dut_signal "clk" ;;
  start_clock "clk" clk 2 ;;
  reset_n <-? dut_signal "reset_n" ;;
  set_u64 reset_n 0 ;;
  falling_edge clk ;;
  set_u64 reset_n 1 ;;
  repeat_ 3 (falling_edge clk) ;;
  c <-? dut_signal "count" ;;
  count <- get_int c ;;
  info ("After 3 clocks, count is " +:+ pretty count) ;;
  assert (count =? 3) "assertion `left == right` failed" ;;
  ok.

(** [clk.rising_edge();] makes the trigger and drops it. *)
Definition oops : T :=
  clk <-? dut_signal "clk" ;;
  start_clock "clk" clk 2 ;;
  info "Did not await" ;;
  ok.

Definition ch17 : list Test :=
  let reg := registered "ch17-simulating-with-rustdv-sim/src/ch17_simulating_with_rustdv_sim.rs" in
  [(reg 19%nat "name_lookup", λ _, name_lookup); (reg 32%nat "no_count", λ _, no_count);
   (reg 51%nat "three_count", λ _, three_count); (reg 71%nat "oops", λ _, oops)].

(** ** What the book prints
    (book-pdf/src/chapter-16-tasks-queues.md and
    chapter-17-simulating-with-rustdv-sim.md; chapter 15's is the README's). *)

Definition figures16 : list (list string) :=
  [["      0.00ns INFO     start counting to 3";
    "      0.00ns INFO     ignored the running task";
    "      0.00ns INFO     do_not_wait PASSED"];
   ["      0.00ns INFO     start counting to 3";
    "      1.00ns INFO     simple count counts 1";
    "      2.00ns INFO     simple count counts 2";
    "      3.00ns INFO     simple count counts 3";
    "      3.00ns INFO     waited for running task";
    "      3.00ns INFO     wait_for_it PASSED"];
   ["      3.00ns INFO     The Count will count to five.";
    "      3.00ns INFO     Mom will count to three.";
    "      4.00ns INFO     The Count counts 1";
    "      5.00ns INFO     Mom counts 1";
    "      5.00ns INFO     The Count counts 2";
    "      6.00ns INFO     The Count counts 3";
    "      7.00ns INFO     Mom counts 2";
    "      7.00ns INFO     The Count counts 4";
    "      8.00ns INFO     The Count counts 5";
    "      9.00ns INFO     Mom counts 3";
    "      9.00ns INFO     All the counting is finished"];
   ["      9.00ns INFO     sent 1";
    "     10.00ns INFO     returned 2";
    "     10.00ns INFO     sent 2";
    "     20.00ns INFO     returned 3";
    "     20.00ns INFO     inc_test PASSED"];
   ["     21.00ns INFO     Kill me counts 1";
    "     22.00ns INFO     Kill me counts 2";
    "     23.00ns INFO     Kill me counts 3";
    "     24.00ns INFO     Kill me counts 4";
    "     25.00ns INFO     Cancelled the long-running task.";
    "     25.00ns INFO     cancel_a_running_task PASSED"];
   ["     25.00ns INFO     Producer sent 1";
    "     25.00ns INFO     Producer sent 2";
    "     25.00ns INFO     Producer sent 3";
    "     25.00ns INFO     Consumer got 1";
    "     25.00ns INFO     Consumer got 2";
    "     25.00ns INFO     Consumer got 3"];
   ["     26.00ns INFO     Producer sent 1";
    "     26.00ns INFO     Consumer got 1";
    "     26.00ns INFO     Producer sent 2";
    "     26.00ns INFO     Consumer got 2";
    "     26.00ns INFO     Producer sent 3";
    "     26.00ns INFO     Consumer got 3"];
   ["     32.00ns INFO     Producer sent 1";
    "     32.00ns INFO     Consumer got 1";
    "     37.00ns INFO     Producer sent 2";
    "     37.00ns INFO     Consumer got 2";
    "     42.00ns INFO     Producer sent 3";
    "     42.00ns INFO     Consumer got 3"];
   ["     43.00ns INFO     Producer sent 1";
    "     43.00ns INFO     Queue Full, waiting 1ns";
    "     43.00ns INFO     Consumer got 1";
    "     43.00ns INFO     Queue Empty, waiting 2 ns";
    "     44.00ns INFO     Producer sent 2";
    "     44.00ns INFO     Queue Full, waiting 1ns";
    "     45.00ns INFO     Consumer got 2";
    "     45.00ns INFO     Queue Empty, waiting 2 ns";
    "     45.00ns INFO     Producer sent 3";
    "     47.00ns INFO     Consumer got 3";
    "     47.00ns INFO     Queue Empty, waiting 2 ns";
    "     48.00ns INFO     producer_consumer_nowait PASSED"]].

Definition figures17 : list (list string) :=
  [["      0.00ns INFO     reset_n -> Ok(LogicHandle(" +:+ String "034" ("counter.reset_n" +:+ String "034" ("))"));
    "      0.00ns INFO     rst_n   -> Err(NotFound { name: " +:+ String "034" ("rst_n" +:+ String "034" (", scope: " +:+ String "034" ("counter" +:+ String "034" (" })"))))];
   ["      8.00ns INFO     After 5 clocks count is 0";
    "      8.00ns INFO     no_count PASSED"];
   ["     15.00ns INFO     After 3 clocks, count is 3";
    "     15.00ns INFO     three_count PASSED"]].


(** The simulator chapters of the book run as printed.  With seed 1 the
    regressions of chapters 15, 16 and 17 end without trouble, every test passes,
    and the console shows every transcript the chapters print, line by line with
    its simulated time: spawned tasks interleave by their timers and in the order
    they registered them, a bounded queue makes producer and consumer alternate,
    an unbounded one does not, a cancelled task stops, the tasks a test leaves
    behind end with it, and a clock's edges drive the counter. *)
Theorem book_tasks_transcripts :
  (∃ r, report _ (simulate playground oldest_first 1000 Queue.unbounded ch15 1) = Some r ∧ came_to ch15 (λ _, Runner.Pass) r ∧
    printed r =
      ["      0.00ns INFO     rustdv: found 2 test(s), RUSTDV_RANDOM_SEED=1";
       "      0.00ns INFO     running hello_world (1/2)  [ch15-async-await-executor/src/ch15_async_await_executor.rs:12]";
       "      0.00ns INFO     Hello, world.";
       "      0.00ns INFO     hello_world PASSED";
       "      0.00ns INFO     running wait_2ns (2/2)  [ch15-async-await-executor/src/ch15_async_await_executor.rs:20]";
       "      2.00ns INFO     I am DONE waiting!";
       "      2.00ns INFO     wait_2ns PASSED";
       "******************************************************************************";
       "** TEST                                       STATUS  SIM TIME (ns)      **";
       "******************************************************************************";
       "** hello_world                                  PASS           0.00      **";
       "** wait_2ns                                     PASS           2.00      **";
       "******************************************************************************";
       "REGRESSION: PASS"]) ∧
  (∃ r, report _ (simulate playground oldest_first 1000 Queue.unbounded ch16 1) = Some r ∧ came_to ch16 (λ _, Runner.Pass) r ∧
    Forall (λ block, shows block r) figures16) ∧
  (∃ r, report _ (simulate Counter.design oldest_first 1000 Queue.unbounded ch17 1) = Some r ∧ came_to ch17 (λ _, Runner.Pass) r ∧
    Forall (λ block, shows block r) figures17).
Proof. split_and!; run_bench. Qed.
End Chapters.
