(* ===== verification/AluHost.v ===== *)
(** * AluHost: the design of the TinyALU benches (sim/hdl/tinyalu.sv, the same file
    as output/examples/sim-common/hdl/tinyalu.sv) as a host evaluates it.

    [Dut] of Tinyalu.v is its two-valued heart, one step per rising edge; here the
    design also has its clock and starts with unknown registers.  A vector is
    known or unknown as a whole: the benches write whole vectors, and a read with
    some unknown bits fails like one with only unknown bits. *)
From S2P Require Import Prelude Words Values Signals Triggers Async Host Kit Bench Probe Alu Tinyalu.
Local Open Scope Z_scope.

Module AluHost.
Import Signals.

(** ** Signals *)

Definition clk := Probe.signal 0 1.
Definition reset_n := Probe.signal 1 1.
Definition start := Probe.signal 2 1.
Definition done := Probe.signal 3 1.
Definition A := Probe.signal 4 8.
Definition B := Probe.signal 5 8.
Definition op := Probe.signal 6 3.
Definition result := Probe.signal 7 16.
Definition names : list (string * Triggers.Sig) :=
  [("clk", clk); ("reset_n", reset_n); ("start", start); ("done", done); ("A", A); ("B", B); ("op", op); ("result", result)].
Definition width (i : nat) : nat := match i with 4 | 5 => 8 | 6 => 3 | 7 => 16 | _ => 1 end%nat.
Definition initially (i : nat) : VpiValue :=
  if Nat.eqb i 0 then Probe.number 0 else if Nat.ltb i 8 then Probe.unknown (width i) else None.

Definition known (v : VpiValue) : option Z :=
  match v with Some (w :: _) => if bval w =? 0 then Some (aval w) else None | _ => None end.
Definition known_bit (v : VpiValue) : option bool := option_map (λ z, negb (z =? 0)) (known v).
Definition value (width : nat) (z : option Z) : VpiValue :=
  match z with Some z => Probe.number z | None => Probe.unknown width end.
Definition bit_value (b : option bool) : VpiValue := value 1 (option_map Z.b2z b).

(** ** Registers *)

(** [&], [!], and [==] with a constant, on bits that may be unknown. *)
Definition and3 (a b : option bool) : option bool :=
  match a, b with
  | Some false, _ | _, Some false => Some false
  | Some true, Some true => Some true
  | _, _ => None
  end.
Definition not3 (a : option bool) : option bool := option_map negb a.
Definition lift2 (f : Z → Z → Z) (x y : option Z) : option Z :=
  match x, y with Some x, Some y => Some (f x y) | _, _ => None end.

Record Regs := {
  aax_done : option bool; aax_result : option Z;
  a_int : option Z; b_int : option Z; mult1 : option Z; mult2 : option Z; mult_result : option Z;
  done3 : option bool; done2 : option bool; done1 : option bool; mult_done : option bool;
}.
Definition no_regs : Regs :=
  {| aax_done := None; aax_result := None; a_int := None; b_int := None; mult1 := None; mult2 := None; mult_result := None;
     done3 := None; done2 := None; done1 := None; mult_done := None |}.
Definition zero_regs : Regs :=
  {| aax_done := Some false; aax_result := Some 0; a_int := Some 0; b_int := Some 0; mult1 := Some 0; mult2 := Some 0;
     mult_result := Some 0; done3 := Some false; done2 := Some false; done1 := Some false; mult_done := Some false |}.

(** [case (op)]: an unknown opcode takes the default. *)
Definition aax (x y o : option Z) : option Z :=
  match o with
  | Some 1 => lift2 (λ x y, wrap 16 (x + y)) x y
  | Some 2 => lift2 Z.land x y
  | Some 3 => lift2 Z.lxor x y
  | _ => lift2 (λ x y, Z.shiftl x 8 + y) x y
  end.

(** A rising edge; [if (!reset_n)] takes the other branch when it is unknown. *)
Definition posedge (rst s : option bool) (x y o : option Z) (r : Regs) : Regs :=
  match rst with
  | Some false => zero_regs
  | _ =>
      let op2 := option_map (λ o, Z.testbit o 2) o in
      let nonzero := option_map (λ o, negb (o =? 0)) o in
      let free := not3 (mult_done r) in
      {| aax_done := and3 (and3 s (not3 op2)) nonzero; aax_result := aax x y o;
         a_int := x; b_int := y; mult1 := lift2 (λ x y, wrap 16 (x * y)) (a_int r) (b_int r); mult2 := mult1 r;
         mult_result := mult2 r;
         done3 := and3 (and3 s op2) free; done2 := and3 (done3 r) free; done1 := and3 (done2 r) free;
         mult_done := and3 (done1 r) free |}
  end.

(** [c ? a : b]: with an unknown condition, what both agree on. *)
Definition mux {X} `{EqDecision X} (c : option bool) (a b : option X) : option X :=
  match c with Some true => a | Some false => b | None => if decide (a = b) then a else None end.

(** ** The design with its clock *)

Record Dut := { regs : Regs; due : Z }.

Definition outputs (r : Regs) (vals : nat → VpiValue) : nat → VpiValue :=
  let op2 := option_map (λ o, Z.testbit o 2) (known (Probe.at_ op vals)) in
  Probe.put done (bit_value (mux op2 (mult_done r) (aax_done r)))
    (Probe.put result (value 16 (mux op2 (mult_result r) (aax_result r))) vals).

(** [always #5 clk = ~clk], the registers on its rising edge, then the outputs. *)
Definition eval (now : Z) (d : Dut) (vals : nat → VpiValue) : Dut * (nat → VpiValue) :=
  let at_ s := known (Probe.at_ s vals) in
  let bit s := known_bit (Probe.at_ s vals) in
  if due d <=? now then
    let rises := match at_ clk with Some c => c =? 0 | None => false end in
    let r := if rises then posedge (bit reset_n) (bit start) (at_ A) (at_ B) (at_ op) (regs d) else regs d in
    ({| regs := r; due := now + 5 |}, outputs r (Probe.put clk (Probe.number (Z.b2z rises)) vals))
  else (d, outputs (regs d) vals).

Definition tinyalu : Design :=
  {| Bench.Dut := Dut; top := "tinyalu"; Bench.names := names; signals := 8; Bench.initially := initially;
     power_up := {| regs := no_regs; due := 5 |}; Bench.eval := eval; Bench.due := λ d, Some (due d) |}.

(** ** The same design as Tinyalu.v's *)

Definition lift (r : Dut.Regs) : Regs :=
  {| aax_done := Some (Dut.aax_done r); aax_result := Some (Dut.aax_result r); a_int := Some (Dut.a_int r);
     b_int := Some (Dut.b_int r); mult1 := Some (Dut.mult1 r); mult2 := Some (Dut.mult2 r);
     mult_result := Some (Dut.mult_result r); done3 := Some (Dut.done3 r); done2 := Some (Dut.done2 r);
     done1 := Some (Dut.done1 r); mult_done := Some (Dut.mult_done r) |}.

#[local] Arguments and3 : simpl never.
Lemma and3_known a b : and3 (Some a) (Some b) = Some (a && b).
Proof. by destruct a, b. Qed.

(** In reset, and out of reset with known inputs and registers, both take the
    same step; and from known registers the outputs are the same. *)
Lemma posedge_known rst s x y o r u : (rst = Logic.Zero ∨ rst = Logic.One) →
  posedge (Tinyalu.Dut.known rst) (Some s) (Some x) (Some y) (Some o) (lift r) =
  lift (Dut.posedge u {| Dut.reset_n := rst; Dut.start := Dut.of_bool s; Dut.A := Some x; Dut.B := Some y; Dut.op := Some o |} r).
Proof.
  intros [-> | ->]; [done|]. unfold posedge, Dut.posedge. simpl.
  replace (Dut.known (Dut.of_bool s)) with (Some s) by (by destruct s). unfold lift, Dut.clocked, Dut.single_cycle, Dut.three_cycle.
  simpl. rewrite !and3_known. f_equal.
  unfold aax, lift2. destruct o as [|[[p|p|]|[p|p|]|]|p]; done.
Qed.

Lemma done_known p r o : Dut.op p = Some o →
  mux (Some (Z.testbit o 2)) (mult_done (lift r)) (aax_done (lift r)) = Dut.known (Dut.done p r).
Proof.
  intros Ho. unfold Dut.done. rewrite Ho. cbn [mux lift mult_done aax_done].
  destruct (Z.testbit o 2); [by destruct (Dut.mult_done r)|by destruct (Dut.aax_done r)].
Qed.
End AluHost.
