(* ===== verification/AluChapters.v ===== *)
(** * AluChapters: the book's first TinyALU benches
    (output/examples/tinyalu-utils with its bus functional model, and the test
    benches 1.0 to 2.0 of ch18-basic-testbench-1.0, ch19-tinyalubfm and
    ch20-struct-based-testbench-2.0), run against the design on the host. *)
From Stdlib Require Import Ascii String.
From stdpp Require Import pretty.
From S2P Require Import Prelude Words Values Queue Signals Time PhaseHub Triggers Executor Log Config Objection Component Rng Runner Handles Errors Async Host Kit Bench Probe Alu AluHost Chapters.
Local Open Scope Z_scope.

(** ** Formats *)

(** [{:0nx}]: lower-case hexadecimal, padded with zeros. *)
Definition hex_digit (z : Z) : ascii :=
  match String.get (Z.to_nat z) "0123456789abcdef" with Some c => c | None => "?"%char end.
Fixpoint hex (n : nat) (z : Z) : string :=
  match n with
  | O => EmptyString
  | S k => hex k (z / 16) +:+ String (hex_digit (z mod 16)) EmptyString
  end.

(** ** tinyalu_utils: what every bench shares *)

Module Utils.
Import Async Component Kit Bench.
Import Alu(Ops, Add, And, Xor, Mul, ALL, from_u64, as_u64, op_debug).
Local Open Scope string_scope.
Local Open Scope Z_scope.
Local Open Scope code_scope.

Definition alu_prediction (a b : Z) (op : Ops) : Z :=
  match op with Add => a + b | And => Z.land a b | Xor => Z.lxor a b | Mul => a * b end.

Definition CmdTuple : Set := Z * Z * Z.

(** The queues of the bus functional model. *)
Record Queues := {
  driver_queue : Queue.QInner (Z * Z * Ops);
  cmd_mon_queue : Queue.QInner CmdTuple;
  result_mon_queue : Queue.QInner Z;
}.
Definition fresh_queues : Queues :=
  {| driver_queue := Queue.new (Some 1%nat); cmd_mon_queue := Queue.unbounded; result_mon_queue := Queue.unbounded |}.
Definition with_driver_queue q qs : Queues :=
  {| driver_queue := q; cmd_mon_queue := cmd_mon_queue qs; result_mon_queue := result_mon_queue qs |}.
Definition with_cmd_queue q qs : Queues :=
  {| driver_queue := driver_queue qs; cmd_mon_queue := q; result_mon_queue := result_mon_queue qs |}.
Definition with_result_queue q qs : Queues :=
  {| driver_queue := driver_queue qs; cmd_mon_queue := cmd_mon_queue qs; result_mon_queue := q |}.

(** [TinyAluBfm]: its handles; its queues are in the shared state. *)
Record TinyAluBfm : Set := {
  clk : Triggers.Sig; reset_n : Triggers.Sig; start : Triggers.Sig; done : Triggers.Sig;
  a : Triggers.Sig; b : Triggers.Sig; op : Triggers.Sig; result : Triggers.Sig;
}.

Section Bfm.
Context {Any X : Type}.
(** Where the queues of the one bus functional model are kept. *)
Variable queues : X → Queues.
Variable set_queues : Queues → X → X.
Abbreviation U := (Env Any X).
Abbreviation Code := (@Async.Code N Empty_set U Out).

Definition driver_l : Lens U (Queue.QInner (Z * Z * Ops)) :=
  part (λ x, driver_queue (queues x)) (λ q x, set_queues (with_driver_queue q (queues x)) x).
Definition cmd_l : Lens U (Queue.QInner CmdTuple) :=
  part (λ x, cmd_mon_queue (queues x)) (λ q x, set_queues (with_cmd_queue q (queues x)) x).
Definition result_l : Lens U (Queue.QInner Z) :=
  part (λ x, result_mon_queue (queues x)) (λ q x, set_queues (with_result_queue q (queues x)) x).

Definition get_int (s : Triggers.Sig) : Code Z := unwrap_or 0 (get_u64 s).

Definition handles : Result TinyAluBfm Gpi.HandleError :=
  let sig := find_signal AluHost.tinyalu in
  result_bind (sig "clk") (λ clk, result_bind (sig "reset_n") (λ reset_n, result_bind (sig "start") (λ start,
  result_bind (sig "done") (λ done, result_bind (sig "A") (λ a, result_bind (sig "B") (λ b,
  result_bind (sig "op") (λ op, result_bind (sig "result") (λ result,
    Ok {| clk := clk; reset_n := reset_n; start := start; done := done; a := a; b := b; op := op; result := result |})))))))).
Definition bfm_new : Code (Result TinyAluBfm Gpi.HandleError) :=
  bfm <-? Ret handles ;;
  edit (set_queues fresh_queues) ;; Ret (Ok bfm).

Section Methods.
Variable self : TinyAluBfm.

Definition reset : Code unit :=
  falling_edge (clk self) ;;
  set_u64 (reset_n self) 0 ;;
  set_u64 (start self) 0 ;;
  set_u64 (a self) 0 ;;
  set_u64 (b self) 0 ;;
  set_u64 (op self) 0 ;;
  falling_edge (clk self) ;;
  set_u64 (reset_n self) 1 ;;
  falling_edge (clk self).

Definition result_mon : Code unit :=
  Loop (λ prev_done,
    falling_edge (clk self) ;;
    dn <- get_int (done self) ;;
    (if (prev_done =? 0) && (dn =? 1) then
       r <- get_int (result self) ;; queue_try_put result_l r ;; Ret tt
     else Ret tt) ;;
    Ret (inl dn)) 0.

Definition cmd_mon : Code unit :=
  Loop (λ prev_start,
    falling_edge (clk self) ;;
    st <- get_int (start self) ;;
    (if (st =? 1) && (prev_start =? 0) then
       av <- get_int (a self) ;; bv <- get_int (b self) ;; opv <- get_int (op self) ;;
       queue_try_put cmd_l (av, bv, opv) ;; Ret tt
     else Ret tt) ;;
    Ret (inl st)) 0.

Definition cmd_driver : Code unit :=
  set_u64 (start self) 0 ;;
  set_u64 (a self) 0 ;;
  set_u64 (b self) 0 ;;
  set_u64 (op self) 0 ;;
  Loop (λ _ : unit,
    falling_edge (clk self) ;;
    st <- get_int (start self) ;;
    dn <- get_int (done self) ;;
    if (st =? 0) && (dn =? 0) then
      cmd <- queue_try_get driver_l ;;
      match cmd with
      | Some (aa, bb, opr) =>
          set_u64 (a self) aa ;; set_u64 (b self) bb ;; set_u64 (op self) (as_u64 opr) ;; set_u64 (start self) 1 ;;
          Ret (inl tt)
      | None => Ret (inl tt)
      end
    else if st =? 1 then
      (if dn =? 1 then set_u64 (start self) 0 else Ret tt) ;; Ret (inl tt)
    else Ret (inl tt)) tt.

Definition start_tasks : Code unit :=
  spawn cmd_driver (Some "bfm.cmd_driver") ;;
  spawn cmd_mon (Some "bfm.cmd_mon") ;;
  spawn result_mon (Some "bfm.result_mon") ;;
  Ret tt.
End Methods.

Definition get_cmd : Code CmdTuple := queue_get cmd_l.
Definition get_result : Code Z := queue_get result_l.
Definition send_op (aa bb : Z) (op : Ops) : Code unit := queue_put driver_l (aa, bb, op).
End Bfm.

Definition passed_line (aa bb : Z) (op : Ops) (actual : Z) : string :=
  "PASSED: " +:+ hex 2 aa +:+ " " +:+ op_debug op +:+ " " +:+ hex 2 bb +:+ " = " +:+ hex 4 actual.
Definition failed_line (aa bb : Z) (op : Ops) (actual pr : Z) : string :=
  "FAILED: " +:+ hex 2 aa +:+ " " +:+ op_debug op +:+ " " +:+ hex 2 bb +:+ " = " +:+ hex 4 actual +:+ " - predicted " +:+ hex 4 pr.
Definition contains (cvg : list Ops) (op : Ops) : bool := existsb (λ o, bool_decide (o = op)) cvg.
(** [HashSet::insert]. *)
Definition insert (op : Ops) (cvg : list Ops) : list Ops := if contains cvg op then cvg else op :: cvg.
End Utils.

(** ** Test bench 1.0: one loop *)

Module Ch18.
Import Async Component Kit Bench Utils.
Import Alu(Ops, Add, And, Xor, Mul, ALL, as_u64, op_debug).
Local Open Scope string_scope.
Local Open Scope Z_scope.
Local Open Scope code_scope.

Abbreviation Code := (@Async.Code N Empty_set (Env Z unit) Out).
Definition dut_signal (name : string) : Code (Result Triggers.Sig TestError) := signal AluHost.tinyalu name.

(** The variables of the loop. *)
Record Vars : Set := {
  rng : Rng.Rng; passed : bool; cvg : list Ops; cmd_count : nat; op_list : list Ops; aa : Z; bb : Z; op : Ops;
}.
Definition command r x y o rest v : Vars :=
  {| rng := r; passed := passed v; cvg := insert o (cvg v); cmd_count := cmd_count v; op_list := rest; aa := x; bb := y; op := o |}.
Definition compared (same : bool) v : Vars :=
  {| rng := rng v; passed := passed v && same; cvg := cvg v; cmd_count := S (cmd_count v); op_list := op_list v;
     aa := aa v; bb := bb v; op := op v |}.

(** One turn of [while cmd_count <= num_ops]. *)
Definition turn (clk start : Triggers.Sig) (num_ops : nat) (v : Vars) : Code (Vars + Result Vars TestError) :=
  if negb (Nat.leb (cmd_count v) num_ops) then Ret (inr (Ok v)) else
  falling_edge clk ;;
  st <- get_int start ;;
  done <- dut_signal "done" ;;
  match done with Err e => Ret (inr (Err e)) | Ok done =>
  dn <- get_int done ;;
  v' <- (if (st =? 0) && (dn =? 0) then
           let '(r1, x) := Rng.u8 (rng v) in
           let '(r2, y) := Rng.u8 r1 in
           match op_list v with
           | [] => Throw "removal index (is 0) should be < len (is 0)"
           | o :: rest =>
               a <-? dut_signal "A" ;; set_u64 a x ;;
               b <-? dut_signal "B" ;; set_u64 b y ;;
               ops <-? dut_signal "op" ;; set_u64 ops (as_u64 o) ;;
               set_u64 start 1 ;;
               Ret (Ok (command r2 x y o rest v))
           end
         else Ret (Ok v)) ;;
  match v' with Err e => Ret (inr (Err e)) | Ok v =>
  if (st =? 0) && (dn =? 1) then Ret (inr (Err (Errors.te_from_str "DUT Error: done set to 1 without start"))) else
  if (st =? 1) && (dn =? 0) then Ret (inl v) else
  if (st =? 1) && (dn =? 1) then
    set_u64 start 0 ;;
    res <- dut_signal "result" ;;
    match res with Err e => Ret (inr (Err e)) | Ok res =>
    r <- get_int res ;;
    let result := wrap 16 r in
    let pr := alu_prediction (aa v) (bb v) (op v) in
    (if result =? pr then info (passed_line (aa v) (bb v) (op v) result)
     else error (failed_line (aa v) (bb v) (op v) result pr)) ;;
    Ret (inl (compared (result =? pr) v))
    end
  else Ret (inl v)
  end end.

Definition alu_test (seed : Z) : Code (Result unit TestError) :=
  clk <-? dut_signal "clk" ;;
  reset_n <-? dut_signal "reset_n" ;;
  start <-? dut_signal "start" ;;
  falling_edge clk ;;
  set_u64 reset_n 0 ;;
  set_u64 start 0 ;;
  falling_edge clk ;;
  set_u64 reset_n 1 ;;
  v <-? Loop (turn clk start (length ALL))
    {| rng := Rng.new seed; passed := true; cvg := []; cmd_count := 1; op_list := ALL; aa := 0; bb := 0; op := Add |} ;;
  let missed := List.filter (λ op, negb (contains (cvg v) op)) ALL in
  (match missed with
   | [] => info "Covered all operations"
   | _ => error "Functional coverage error. Missed: "     (* a set, printed in any order *)
   end) ;;
  if passed v && match missed with [] => true | _ => false end then ok
  else Ret (Err (Errors.te_from_str "alu_test saw failing comparisons")).

Definition tests : list (@Kit.Test N Empty_set Z unit) :=
  [(Chapters.registered "ch18-basic-testbench-1.0/src/ch18_basic_testbench_1_0.rs" 46 "alu_test", alu_test)].
End Ch18.

(** ** The first test over the bus functional model *)

Module Ch19.
Import Async Component Kit Bench Utils.
Import Alu(Ops, Add, And, Xor, Mul, ALL, from_u64, op_debug).
Local Open Scope string_scope.
Local Open Scope Z_scope.
Local Open Scope code_scope.

Abbreviation Code := (@Async.Code N Empty_set (Env Z Queues) Out).
Abbreviation keep := (λ q _ : Queues, q).

Record Vars : Set := { rng : Rng.Rng; passed : bool; cvg : list Ops }.

Fixpoint send_all (ops : list Ops) (v : Vars) : Code Vars :=
  match ops with
  | [] => Ret v
  | op :: rest =>
      let '(r1, aa) := Rng.u8 (rng v) in
      let '(r2, bb) := Rng.u8 r1 in
      send_op id keep aa bb op ;;
      seen_cmd <- get_cmd id keep ;;
      match from_u64 seen_cmd.2 with
      | None => Throw "illegal op on the bus"
      | Some seen_op =>
          res <- get_result id keep ;;
          let result := wrap 16 res in
          let pr := alu_prediction aa bb op in
          (if result =? pr then info (passed_line aa bb op result) else error (failed_line aa bb op result pr)) ;;
          send_all rest {| rng := r2; passed := passed v && (result =? pr); cvg := insert seen_op (cvg v) |}
      end
  end.

Definition test_alu (seed : Z) : Code (Result unit TestError) :=
  bfm <-? map_err Errors.te_from_handle (bfm_new keep) ;;
  reset bfm ;;
  start_tasks id keep bfm ;;
  v <- send_all ALL {| rng := Rng.new seed; passed := true; cvg := [] |} ;;
  let missed := existsb (λ op, negb (contains (cvg v) op)) ALL in
  (if missed then error "Functional coverage error: missed operations" else info "Covered all operations") ;;
  if passed v && negb missed then ok else Ret (Err (Errors.te_from_str "test_alu saw failing comparisons")).

Definition tests : list (@Kit.Test N Empty_set Z Queues) :=
  [(Chapters.registered "ch19-tinyalubfm/src/ch19_tinyalubfm.rs" 19 "test_alu", test_alu)].
End Ch19.

(** ** Test bench 2.0: testers and a scoreboard *)

Module Ch20.
Import Async Component Kit Bench Utils.
Import Alu(Ops, Add, And, Xor, Mul, ALL, from_u64, op_debug).
Local Open Scope string_scope.
Local Open Scope Z_scope.
Local Open Scope code_scope.

(** The queues and the scoreboard's two shared lists. *)
Record Own := { queues : Queues; cmds : list CmdTuple; results : list Z }.
Definition set_queues q o : Own := {| queues := q; cmds := cmds o; results := results o |}.
Definition push_cmd c o : Own := {| queues := queues o; cmds := cmds o ++ [c]; results := results o |}.
Definition push_result r o : Own := {| queues := queues o; cmds := cmds o; results := results o ++ [r] |}.
Definition own0 : Own := {| queues := fresh_queues; cmds := []; results := [] |}.

Abbreviation Code := (@Async.Code N Empty_set (Env Z Own) Out).

(** The implementations of [Tester]: how each gets its operands. *)
Inductive Tester : Set := RandomTester (rng : Rng.Rng) | MaxTester.
Definition get_operands (t : Tester) : Tester * (Z * Z) :=
  match t with
  | RandomTester r =>
      let '(r1, aa) := Rng.u8 r in let '(r2, bb) := Rng.u8 r1 in (RandomTester r2, (aa, bb))
  | MaxTester => (MaxTester, (0xFF, 0xFF))
  end.

Fixpoint execute_ops (ops : list Ops) (t : Tester) : Code unit :=
  match ops with
  | [] => Ret tt
  | op :: rest =>
      let '(t', (aa, bb)) := get_operands t in
      send_op queues set_queues aa bb op ;; execute_ops rest t'
  end.
Definition execute (t : Tester) : Code unit :=
  execute_ops ALL t ;;
  send_op queues set_queues 0 0 Add ;;
  send_op queues set_queues 0 0 Add.

(** [Scoreboard::new]: both lists empty. *)
Definition scoreboard_new : Code unit := edit (λ o, {| queues := queues o; cmds := []; results := [] |}).
Definition scoreboard_tasks : Code unit :=
  spawn (Loop (λ _, cmd <- get_cmd queues set_queues ;; edit (push_cmd cmd) ;; Ret (inl tt)) tt) (Some "scoreboard.get_cmd") ;;
  spawn (Loop (λ _, r <- get_result queues set_queues ;; edit (push_result r) ;; Ret (inl tt)) tt) (Some "scoreboard.get_result") ;;
  Ret tt.

Fixpoint check_cmds (cs : list CmdTuple) (cvg : list Ops) (passed : bool) : Code (bool * list Ops) :=
  match cs with
  | [] => Ret (passed, cvg)
  | (aa, bb, op_int) :: rest =>
      match from_u64 op_int with
      | None => Throw "illegal op captured"
      | Some op =>
          rs <- look results ;;
          match rs with
          | [] => Throw "removal index (is 0) should be < len (is 0)"
          | r :: rs' =>
              edit (λ o, {| queues := queues o; cmds := cmds o; results := rs' |}) ;;
              let actual := wrap 16 r in
              let prediction := alu_prediction (wrap 8 aa) (wrap 8 bb) op in
              (if actual =? prediction then info (passed_line aa bb op actual)
               else error (failed_line aa bb op actual prediction)) ;;
              check_cmds rest (insert op cvg) (passed && (actual =? prediction))
          end
      end
  end.
Definition check_results : Code bool :=
  cs <- look cmds ;;
  r <- check_cmds cs [] true ;;
  let '(passed, cvg) := r in
  if existsb (λ op, negb (contains cvg op)) ALL then error "Functional coverage error: missed operations" ;; Ret false
  else info "Covered all operations" ;; Ret passed.

Definition execute_test (t : Tester) : Code (Result bool TestError) :=
  bfm <-? map_err Errors.te_from_handle (bfm_new set_queues) ;;
  scoreboard_new ;;
  reset bfm ;;
  start_tasks queues set_queues bfm ;;
  scoreboard_tasks ;;
  execute t ;;
  passed <- check_results ;;
  Ret (Ok passed).

Definition random_test (seed : Z) : Code (Result unit TestError) :=
  passed <-? execute_test (RandomTester (Rng.new seed)) ;;
  if (passed : bool) then ok else Ret (Err (Errors.te_from_str "random_test saw failing comparisons")).
Definition max_test (_ : Z) : Code (Result unit TestError) :=
  passed <-? execute_test MaxTester ;;
  if (passed : bool) then ok else Ret (Err (Errors.te_from_str "max_test saw failing comparisons")).

Definition tests : list (@Kit.Test N Empty_set Z Own) :=
  let reg := Chapters.registered "ch20-struct-based-testbench-2.0/src/ch20_struct_based_testbench_2_0.rs" in
  [(reg 144%nat "random_test", random_test); (reg 157%nat "max_test", max_test)].
End Ch20.

(** ** What the examples' READMEs print *)

Module AluTranscripts.
Import Bench.
Local Open Scope string_scope.
Definition transcript18 : list string :=
  ["      0.00ns INFO     rustdv: found 1 test(s), RUSTDV_RANDOM_SEED=1";
   "      0.00ns INFO     running alu_test (1/1)  [ch18-basic-testbench-1.0/src/ch18_basic_testbench_1_0.rs:46]";
   "     40.00ns INFO     PASSED: c1 Add 67 = 0128";
   "     60.00ns INFO     PASSED: 5e And 0b = 000a";
   "     80.00ns INFO     PASSED: b9 Xor 80 = 0039";
   "    130.00ns INFO     PASSED: a5 Mul 75 = 4b69";
   "    130.00ns INFO     Covered all operations";
   "    130.00ns INFO     alu_test PASSED";
   "******************************************************************************";
   "** TEST                                       STATUS  SIM TIME (ns)      **";
   "******************************************************************************";
   "** alu_test                                     PASS         130.00      **";
   "******************************************************************************";
   "REGRESSION: PASS"].
Definition transcript19 : list string :=
  ["      0.00ns INFO     rustdv: found 1 test(s), RUSTDV_RANDOM_SEED=1";
   "      0.00ns INFO     running test_alu (1/1)  [ch19-tinyalubfm/src/ch19_tinyalubfm.rs:19]";
   "     50.00ns INFO     PASSED: c1 Add 67 = 0128";
   "     70.00ns INFO     PASSED: 5e And 0b = 000a";
   "     90.00ns INFO     PASSED: b9 Xor 80 = 0039";
   "    140.00ns INFO     PASSED: a5 Mul 75 = 4b69";
   "    140.00ns INFO     Covered all operations";
   "    140.00ns INFO     test_alu PASSED";
   "******************************************************************************";
   "** TEST                                       STATUS  SIM TIME (ns)      **";
   "******************************************************************************";
   "** test_alu                                     PASS         140.00      **";
   "******************************************************************************";
   "REGRESSION: PASS"].
Definition transcript20 : list string :=
  ["      0.00ns INFO     rustdv: found 2 test(s), RUSTDV_RANDOM_SEED=1";
   "      0.00ns INFO     running random_test (1/2)  [ch20-struct-based-testbench-2.0/src/ch20_struct_based_testbench_2_0.rs:144]";
   "    150.00ns INFO     PASSED: c1 Add 67 = 0128";
   "    150.00ns INFO     PASSED: 5e And 0b = 000a";
   "    150.00ns INFO     PASSED: b9 Xor 80 = 0039";
   "    150.00ns INFO     PASSED: a5 Mul 75 = 4b69";
   "    150.00ns INFO     Covered all operations";
   "    150.00ns INFO     random_test PASSED";
   "    150.00ns INFO     running max_test (2/2)  [ch20-struct-based-testbench-2.0/src/ch20_struct_based_testbench_2_0.rs:157]";
   "    300.00ns INFO     PASSED: ff Add ff = 01fe";
   "    300.00ns INFO     PASSED: ff And ff = 00ff";
   "    300.00ns INFO     PASSED: ff Xor ff = 0000";
   "    300.00ns INFO     PASSED: ff Mul ff = fe01";
   "    300.00ns INFO     Covered all operations";
   "    300.00ns INFO     max_test PASSED";
   "******************************************************************************";
   "** TEST                                       STATUS  SIM TIME (ns)      **";
   "******************************************************************************";
   "** random_test                                  PASS         150.00      **";
   "** max_test                                     PASS         150.00      **";
   "******************************************************************************";
   "REGRESSION: PASS"].

(** The first TinyALU benches run as printed.  With seed 1 the regressions of
    chapters 18, 19 and 20 (one loop; the bus functional model with its driver and
    monitor tasks and bounded command queue; testers with a scoreboard) end without
    trouble against the design with its own clock and unknown power-up values,
    every test passes, and the console is exactly the README's transcript: the
    operands drawn, the results the design computed and the simulated time of
    every line. *)
Theorem book_alu_transcripts :
  (∃ r, report _ (simulate AluHost.tinyalu oldest_first 1000 tt Ch18.tests 1) = Some r ∧ came_to Ch18.tests (λ _, Runner.Pass) r ∧
    printed r = transcript18) ∧
  (∃ r, report _ (simulate AluHost.tinyalu oldest_first 1000 Utils.fresh_queues Ch19.tests 1) = Some r ∧
    came_to Ch19.tests (λ _, Runner.Pass) r ∧ printed r = transcript19) ∧
  (∃ r, report _ (simulate AluHost.tinyalu oldest_first 1000 Ch20.own0 Ch20.tests 1) = Some r ∧
    came_to Ch20.tests (λ _, Runner.Pass) r ∧ printed r = transcript20).
Proof. split_and!; run_bench. Qed.
End AluTranscripts.
