(* ===== verification/TreeChapters.v ===== *)
(** * TreeChapters: the book's chapters on components
    (output/examples/ch24-components, ch26-logging, ch27-configuration,
    ch28-config-debugging and ch29-factory), run by the model of the framework on
    the empty design.

    Each component is its derive's [Node] and its phase methods; the transcripts
    are those of the chapters' READMEs, for seed 1. *)
From Stdlib Require Import Ascii String.
From stdpp Require Import pretty.
From S2P Require Import Prelude Words Values Queue Signals Time PhaseHub Triggers Executor Path Log Config Factory Objection Component Rng Runner Handles Errors Async Host Kit Bench Tree Chapters.
Local Open Scope Z_scope.

Module TreeChapters.
Import Async Component Kit Bench Tree.
Import Factory(FOption).
Local Open Scope string_scope.
Local Open Scope Z_scope.
Local Open Scope code_scope.

(** ** What the database holds *)

Inductive Any := AString (s : string) | AOverride (o : @Factory.Override unit).
(** [{:?}] of a string without escapes. *)
Definition quoted (s : string) : string := String "034" (s +:+ String "034" "").
#[export] Instance typed_string : Config.Typed Any string :=
  {| Config.type_id := 0; Config.type_name := "alloc::string::String"; Config.debug := quoted; Config.inject := AString;
     Config.downcast := λ a, match a with AString s => Some s | _ => None end |}.
#[export] Instance typed_override : Config.Typed Any (@Factory.Override unit) :=
  {| Config.type_id := 1; Config.type_name := "rustdv_methodology::factory::Override"; Config.debug := Factory.debug_override;
     Config.inject := AOverride; Config.downcast := λ a, match a with AOverride o => Some o | _ => None end |}.

Abbreviation U := (Env Any unit).
Abbreviation Code := (@Async.Code N Empty_set U Out).
Abbreviation V := (Code (Result unit TestError)).
Abbreviation Test := (@Kit.Test N Empty_set Any unit).
Abbreviation P := (@Phases Any unit).

Implicit Types ctx : RustdvCtx.
(** [let _obj = ctx.raise_objection(d); c]. *)
Definition objecting {A : Set} (d : string) (c : Code A) : Code A := with_objection d c.
(** [self.f = Some(T::default())]. *)
Definition some (n : Node) : Field := FOption (Some n).
Definition no_ports : U → nat → bool := λ _ _, false.
Definition test (phases : string → P) (n : Node) (seed : Z) : V := component_test phases no_ports n seed.


(** ** Chapter 24: the lifecycle *)

Module Ch24.
Definition PhaseTest : P :=
  {| build := λ n ctx, info ctx "1 build" ;; Ret n;
     connect := λ _ ctx, info ctx "2 connect";
     end_of_elaboration := λ _ ctx, info ctx "3 end_of_elaboration";
     start_of_simulation := λ _ ctx, info ctx "4 start_of_simulation";
     run := λ ctx, objecting "run" (info ctx "5 run" ;; ok);
     extract := λ _ ctx, info ctx "6 extract";
     check := λ ctx errors, info ctx "7 check" ;; Ret errors;
     report := λ _ ctx, info ctx "8 report";
     final_phase := λ _ ctx, info ctx "9 final" |}.

Definition BottomComp : P := with_run (λ ctx, objecting "bc run" (info ctx "run phase" ;; ok)) default_phases.
Definition MiddleComp : P :=
  with_elaboration (λ _ ctx, info ctx "end of elaboration phase")
    (with_build (λ n _, Ret (set_field "bc" (some (leaf "BottomComp")) n)) default_phases).
Definition middle : Node := Factory.mkNode "MiddleComp" tt [("bc", option_slot)].
Definition TestTop : P :=
  with_final (λ _ ctx, info ctx "final phase")
    (with_build (λ n ctx, info ctx "build phase" ;; Ret (set_field "mc" (some middle) n)) default_phases).

Definition phases : string → P :=
  by_type [("PhaseTest", PhaseTest); ("BottomComp", BottomComp); ("MiddleComp", MiddleComp); ("TestTop", TestTop)].
Definition tests : list Test :=
  let reg := Chapters.registered "ch24-components/src/ch24_components.rs" in
  [(reg 38%nat "PhaseTest", test phases (leaf "PhaseTest"));
   (reg 118%nat "TestTop", test phases (Factory.mkNode "TestTop" tt [("mc", option_slot)]))].
End Ch24.

(** ** Chapter 26: logging *)

Module Ch26.
Definition LogComp : P :=
  with_run (λ ctx, objecting "logging" (
    debug ctx "This is debug" ;;
    info ctx "This is info" ;;
    warning ctx "This is warning" ;;
    error ctx "This is error" ;;
    critical ctx "This is critical" ;;
    ok)) default_phases.

(** [LogTest<P>]: the policy configures logging at the end of elaboration. *)
Definition LogTest (configure : RustdvCtx → Code unit) : P :=
  with_elaboration (λ _ ctx, configure ctx)
    (with_build (λ n _, Ret (set_field "comp" (some (leaf "LogComp")) n)) default_phases).
Definition DefaultLogging ctx : Code unit := Ret tt.
Definition DebugLogging ctx : Code unit := set_logging_level_hier ctx Log.Debug.
(** rustdv_ch26_log.txt opens as file 0. *)
Definition FileLogging ctx : Code unit :=
  r <- add_file_handler_hier ctx (Ok 0%nat) ;;
  match r with Ok _ => remove_console_hier ctx | Err _ => Throw "could not open the log file" end.
Definition NoLogging ctx : Code unit := disable_logging_hier ctx.

Definition phases : string → P :=
  by_type [("LogComp", LogComp); ("LogTestDefault", LogTest DefaultLogging); ("DebugTest", LogTest DebugLogging);
          ("FileTest", LogTest FileLogging); ("NoLog", LogTest NoLogging)].
Definition log_test (name : string) : Z → V := test phases (Factory.mkNode name tt [("comp", option_slot)]).
Definition tests : list Test :=
  let reg := Chapters.registered "ch26-logging/src/ch26_logging.rs" in
  [(reg 124%nat "LogTestDefault", log_test "LogTestDefault"); (reg 127%nat "DebugTest", log_test "DebugTest");
   (reg 130%nat "FileTest", log_test "FileTest"); (reg 133%nat "NoLog", log_test "NoLog")].
End Ch26.

(** ** Chapters 27 and 28: the configuration database *)

Module Ch27.
Definition set_msg ctx (offset field msg : string) : Code unit := config_set (Some ctx) offset field msg.
Definition MsgLogger : P :=
  with_run (λ ctx, objecting "logging the configured message" (
    msg <-? config_try (T := string) (Some ctx) "" "MSG" ;; info ctx msg ;; ok)) default_phases.
(** An environment whose [build] fills every slot with [child]. *)
Definition filling (child : Node) : P :=
  with_build (λ n _, Ret (foldl (λ n nf, set_field nf.1 (some child) n) n (Factory.fields_of n))) default_phases.
Definition env_of (ty : string) (children : list string) : Node :=
  Factory.mkNode ty tt (map (λ c, (c, option_slot)) children).
Definition MsgEnv : Node := env_of "MsgEnv" ["loga"; "logb"].
Definition MultiMsgEnv : Node := env_of "MultiMsgEnv" ["loga"; "logb"; "talka"; "talkb"].
Definition GlobalEnv : Node := env_of "GlobalEnv" ["loga"; "logb"; "talka"; "talkb"; "gtalk"].
Definition ConflictEnv : Node := env_of "ConflictEnv" ["loga"].
Definition ConflictEnv_build : P :=
  with_build (λ n ctx, set_msg ctx "loga" "MSG" "CHILD RULES!" ;; Ret (set_field "loga" (some (leaf "MsgLogger")) n)) default_phases.
(** A test that makes its environment, then files messages. *)
Definition building (env : Node) (sets : RustdvCtx → Code unit) : P :=
  with_build (λ n ctx, sets ctx ;; Ret (set_field "env" (some env) n)) default_phases.
Definition MsgTest : P := building MsgEnv (λ ctx,
  set_msg ctx "env.loga" "MSG" "LOG A msg" ;; set_msg ctx "env.logb" "MSG" "LOG B msg").
Definition MultiMsgTest : P := building MultiMsgEnv (λ ctx,
  set_msg ctx "env.loga" "MSG" "LOG A msg" ;; set_msg ctx "env.logb" "MSG" "LOG B msg" ;; set_msg ctx "env.t*" "MSG" "TALK TALK").
Definition GlobalTest : P := building GlobalEnv (λ ctx,
  set_msg ctx "env.loga" "MSG" "LOG A msg" ;; set_msg ctx "env.logb" "MSG" "LOG B msg" ;; set_msg ctx "env.t*" "MSG" "TALK TALK" ;;
  config_set None "*" "MSG" "GLOBAL").
Definition ConflictTest : P := building ConflictEnv (λ ctx, set_msg ctx "env.loga" "MSG" "PARENT RULES!").

Definition envs : list (string * P) :=
  [("MsgLogger", MsgLogger); ("MsgEnv", filling (leaf "MsgLogger")); ("MultiMsgEnv", filling (leaf "MsgLogger"));
   ("GlobalEnv", filling (leaf "MsgLogger")); ("ConflictEnv", ConflictEnv_build)].
Definition phases : string → P :=
  by_type (envs ++ [("MsgTest", MsgTest); ("MultiMsgTest", MultiMsgTest); ("GlobalTest", GlobalTest); ("ConflictTest", ConflictTest)]).
Definition msg_test (phases : string → P) (name : string) : Z → V := test phases (env_of name ["env"]).
Definition tests : list Test :=
  let reg := Chapters.registered "ch27-configuration/src/ch27_configuration.rs" in
  [(reg 99%nat "MsgTest", msg_test phases "MsgTest"); (reg 150%nat "MultiMsgTest", msg_test phases "MultiMsgTest");
   (reg 207%nat "GlobalTest", msg_test phases "GlobalTest"); (reg 256%nat "ConflictTest", msg_test phases "ConflictTest")].
End Ch27.

Module Ch28.
Import Ch27.
Definition MsgTest : P := building MsgEnv (λ ctx, set_msg ctx "env.loga" "MSG" "LOG A msg").
Definition MsgTestAlmostFixed : P := building MsgEnv (λ ctx,
  set_msg ctx "env.loga" "MSG" "LOG A msg" ;; set_msg ctx "env.logb" "MESG" "LOG B msg").
Definition NiceMsgLogger : P :=
  with_run (λ ctx, objecting "logging the configured message" (
    r <- config_get (T := string) (Some ctx) "" "MSG" ;;
    msg <-? match r with
            | Ok msg => Ret (Ok msg)
            | Err (Config.NotFound _ _) => warning ctx "Could not find MSG. Setting to default" ;; Ret (Ok "No message for you!")
            | Err other => Ret (Err (Errors.te_from_config other))
            end ;;
    info ctx msg ;; ok)) default_phases.
Definition NiceMsgEnv : Node := env_of "NiceMsgEnv" ["loga"; "logb"].
Definition printing (p : P) : P := with_elaboration (λ _ _, config_print) p.
Definition NiceMsgTest : P := printing (building NiceMsgEnv (λ ctx, set_msg ctx "env.loga" "MSG" "LOG A msg")).
Definition NiceMsgTestAlmostFixed : P := printing (building NiceMsgEnv (λ ctx,
  set_msg ctx "env.loga" "MSG" "LOG A msg" ;; set_msg ctx "env.logb" "MESG" "LOG B msg")).
Definition ConflictTest : P := printing (building ConflictEnv (λ ctx, set_msg ctx "env.loga" "MSG" "PARENT RULES!")).
Definition GlobalTest : P := building GlobalEnv (λ ctx,
  set_tracing true ;;
  set_msg ctx "env.loga" "MSG" "LOG A msg" ;; set_msg ctx "env.logb" "MSG" "LOG B msg" ;; set_msg ctx "env.t*" "MSG" "TALK TALK" ;;
  config_set None "*" "MSG" "GLOBAL").

Definition phases : string → P :=
  by_type (envs ++ [("NiceMsgLogger", NiceMsgLogger); ("NiceMsgEnv", filling (leaf "NiceMsgLogger")); ("MsgTest", MsgTest);
    ("MsgTestAlmostFixed", MsgTestAlmostFixed); ("NiceMsgTest", NiceMsgTest); ("NiceMsgTestAlmostFixed", NiceMsgTestAlmostFixed);
    ("MultiMsgTest", Ch27.MultiMsgTest); ("ConflictTest", ConflictTest); ("GlobalTest", GlobalTest)]).
Definition tests : list Test :=
  let reg := Chapters.registered "ch28-config-debugging/src/ch28_config_debugging.rs" in
  [(Chapters.expecting "config_not_found" (reg 65%nat "MsgTest"), msg_test phases "MsgTest");
   (Chapters.expecting "config_not_found" (reg 86%nat "MsgTestAlmostFixed"), msg_test phases "MsgTestAlmostFixed");
   (reg 156%nat "NiceMsgTest", msg_test phases "NiceMsgTest");
   (reg 179%nat "NiceMsgTestAlmostFixed", msg_test phases "NiceMsgTestAlmostFixed");
   (reg 224%nat "MultiMsgTest", msg_test phases "MultiMsgTest"); (reg 264%nat "ConflictTest", msg_test phases "ConflictTest");
   (reg 316%nat "GlobalTest", msg_test phases "GlobalTest")].
End Ch28.

(** ** Chapter 29: the factory *)

Module Ch29.
Definition TinyComponent : P := with_run (λ ctx, objecting "tiny" (info ctx "I'm so tiny!" ;; ok)) default_phases.
Definition MediumComponent : P := with_run (λ ctx, objecting "medium" (info ctx "I'm medium size." ;; ok)) default_phases.
Definition tiny : Node := leaf "TinyComponent".
Definition medium : Node := leaf "MediumComponent".
Definition registry : list (string * Node) := [("TinyComponent", tiny); ("MediumComponent", medium)].

Definition TinyTest : P := with_build (λ n _, Ret (set_field "tc" (new_comp tiny) n)) default_phases.
Definition TinyFactoryTest : P := with_build (λ n _, Ret (set_field "tc" (create_comp tiny) n)) default_phases.
Definition CreateByNameTest : P :=
  with_build (λ n _, tc <- create_by_name registry "TinyComponent" ;; Ret (set_field "tc" tc n)) default_phases.
Definition MediumFactoryTest : P :=
  with_build (λ n _, set_type_override "TinyComponent" medium ;; Ret (set_field "tc" (create_comp tiny) n)) default_phases.
Definition MediumNameTest : P :=
  with_build (λ n _, set_type_override_by_name registry "TinyComponent" "MediumComponent" ;;
    Ret (set_field "tc" (create_comp tiny) n)) default_phases.
Definition TwoCompEnv : P :=
  with_build (λ n _, Ret (set_field "tc2" (create_comp tiny) (set_field "tc1" (create_comp tiny) n))) default_phases.
Definition two_comp_env : Node := Factory.mkNode "TwoCompEnv" tt [("tc1", slot); ("tc2", slot)].
Definition TwoCompTest : P :=
  with_build (λ n ctx, set_inst_override ctx "env.tc1" "TinyComponent" medium ;;
    Ret (set_field "env" (some two_comp_env) n)) default_phases.
Definition PrintOverridesTest : P := with_elaboration (λ _ _, factory_print) MediumNameTest.

Definition phases : string → P :=
  by_type [("TinyComponent", TinyComponent); ("MediumComponent", MediumComponent); ("TinyTest", TinyTest);
    ("TinyFactoryTest", TinyFactoryTest); ("CreateByNameTest", CreateByNameTest); ("MediumFactoryTest", MediumFactoryTest);
    ("MediumNameTest", MediumNameTest); ("TwoCompEnv", TwoCompEnv); ("TwoCompTest", TwoCompTest);
    ("PrintOverridesTest", PrintOverridesTest)].
Definition tiny_test (name : string) : Z → V := test phases (Factory.mkNode name tt [("tc", slot)]).
Definition tests : list Test :=
  let reg := Chapters.registered "ch29-factory/src/ch29_factory.rs" in
  [(reg 71%nat "TinyTest", tiny_test "TinyTest"); (reg 90%nat "TinyFactoryTest", tiny_test "TinyFactoryTest");
   (reg 109%nat "CreateByNameTest", tiny_test "CreateByNameTest"); (reg 151%nat "MediumFactoryTest", tiny_test "MediumFactoryTest");
   (reg 171%nat "MediumNameTest", tiny_test "MediumNameTest");
   (reg 218%nat "TwoCompTest", test phases (Factory.mkNode "TwoCompTest" tt [("env", option_slot)]));
   (reg 241%nat "PrintOverridesTest", tiny_test "PrintOverridesTest")].
End Ch29.

(** ** What the chapters print
    (the READMEs of the examples; for chapter 29 book-pdf/src/chapter-29-factory.md). *)

Definition figures24 : list (list string) :=
  [["      0.00ns INFO     rustdv: found 2 test(s), RUSTDV_RANDOM_SEED=1";
    "      0.00ns INFO     running PhaseTest (1/2)  [ch24-components/src/ch24_components.rs:38]";
    "      0.00ns INFO     [PhaseTest]: 1 build";
    "      0.00ns INFO     [PhaseTest]: 2 connect";
    "      0.00ns INFO     [PhaseTest]: 3 end_of_elaboration";
    "      0.00ns INFO     [PhaseTest]: 4 start_of_simulation";
    "      0.00ns INFO     [PhaseTest]: 5 run";
    "      0.00ns INFO     [PhaseTest]: 6 extract";
    "      0.00ns INFO     [PhaseTest]: 7 check";
    "      0.00ns INFO     [PhaseTest]: 8 report";
    "      0.00ns INFO     [PhaseTest]: 9 final";
    "      0.00ns INFO     PhaseTest PASSED"];
   ["      0.00ns INFO     running TestTop (2/2)  [ch24-components/src/ch24_components.rs:118]";
    "      0.00ns INFO     [TestTop]: build phase";
    "      0.00ns INFO     [TestTop.mc]: end of elaboration phase";
    "      0.00ns INFO     [TestTop.mc.bc]: run phase";
    "      0.00ns INFO     [TestTop]: final phase";
    "      0.00ns INFO     TestTop PASSED"]].

Definition figures26 : list (list string) :=
  [["      0.00ns INFO     rustdv: found 4 test(s), RUSTDV_RANDOM_SEED=1";
    "      0.00ns INFO     running LogTestDefault (1/4)  [ch26-logging/src/ch26_logging.rs:124]";
    "      0.00ns INFO     [LogTestDefault.comp]: This is info";
    "      0.00ns WARNING  [LogTestDefault.comp]: This is warning";
    "      0.00ns ERROR    [LogTestDefault.comp]: This is error";
    "      0.00ns CRITICAL [LogTestDefault.comp]: This is critical";
    "      0.00ns INFO     LogTestDefault PASSED";
    "      0.00ns INFO     running DebugTest (2/4)  [ch26-logging/src/ch26_logging.rs:127]";
    "      0.00ns DEBUG    [DebugTest.comp]: This is debug";
    "      0.00ns INFO     [DebugTest.comp]: This is info";
    "      0.00ns WARNING  [DebugTest.comp]: This is warning";
    "      0.00ns ERROR    [DebugTest.comp]: This is error";
    "      0.00ns CRITICAL [DebugTest.comp]: This is critical";
    "      0.00ns INFO     DebugTest PASSED";
    "      0.00ns INFO     running FileTest (3/4)  [ch26-logging/src/ch26_logging.rs:130]";
    "      0.00ns INFO     FileTest PASSED";
    "      0.00ns INFO     running NoLog (4/4)  [ch26-logging/src/ch26_logging.rs:133]";
    "      0.00ns INFO     NoLog PASSED";
    "******************************************************************************";
    "** TEST                                       STATUS  SIM TIME (ns)      **";
    "******************************************************************************";
    "** LogTestDefault                               PASS           0.00      **";
    "** DebugTest                                    PASS           0.00      **";
    "** FileTest                                     PASS           0.00      **";
    "** NoLog                                        PASS           0.00      **";
    "******************************************************************************";
    "REGRESSION: PASS"]].

Definition figures27 : list (list string) :=
  [["      0.00ns INFO     running MsgTest (1/4)  [ch27-configuration/src/ch27_configuration.rs:99]";
    "      0.00ns INFO     [MsgTest.env.loga]: LOG A msg";
    "      0.00ns INFO     [MsgTest.env.logb]: LOG B msg";
    "      0.00ns INFO     MsgTest PASSED"];
   ["      0.00ns INFO     running MultiMsgTest (2/4)  [ch27-configuration/src/ch27_configuration.rs:150]";
    "      0.00ns INFO     [MultiMsgTest.env.loga]: LOG A msg";
    "      0.00ns INFO     [MultiMsgTest.env.logb]: LOG B msg";
    "      0.00ns INFO     [MultiMsgTest.env.talka]: TALK TALK";
    "      0.00ns INFO     [MultiMsgTest.env.talkb]: TALK TALK";
    "      0.00ns INFO     MultiMsgTest PASSED"];
   ["      0.00ns INFO     running GlobalTest (3/4)  [ch27-configuration/src/ch27_configuration.rs:207]";
    "      0.00ns INFO     [GlobalTest.env.loga]: LOG A msg";
    "      0.00ns INFO     [GlobalTest.env.logb]: LOG B msg";
    "      0.00ns INFO     [GlobalTest.env.talka]: TALK TALK";
    "      0.00ns INFO     [GlobalTest.env.talkb]: TALK TALK";
    "      0.00ns INFO     [GlobalTest.env.gtalk]: GLOBAL";
    "      0.00ns INFO     GlobalTest PASSED"];
   ["      0.00ns INFO     running ConflictTest (4/4)  [ch27-configuration/src/ch27_configuration.rs:256]";
    "      0.00ns INFO     [ConflictTest.env.loga]: PARENT RULES!";
    "      0.00ns INFO     ConflictTest PASSED"]].

Definition figures28 : list (list string) :=
  [["      0.00ns INFO     running NiceMsgTestAlmostFixed (4/7)  [ch28-config-debugging/src/ch28_config_debugging.rs:179]";
    "      0.00ns INFO     PATH                        : KEY       : DATA";
    "      0.00ns INFO     NiceMsgTestAlmostFixed.env.loga: MSG       : {1000: " +:+ String "034" ("LOG A msg" +:+ String "034" ("}"));
    "      0.00ns INFO     NiceMsgTestAlmostFixed.env.logb: MESG      : {1000: " +:+ String "034" ("LOG B msg" +:+ String "034" ("}"));
    "      0.00ns INFO     [NiceMsgTestAlmostFixed.env.loga]: LOG A msg";
    "      0.00ns WARNING  [NiceMsgTestAlmostFixed.env.logb]: Could not find MSG. Setting to default";
    "      0.00ns INFO     [NiceMsgTestAlmostFixed.env.logb]: No message for you!";
    "      0.00ns INFO     NiceMsgTestAlmostFixed PASSED"];
   ["      0.00ns INFO     running ConflictTest (6/7)  [ch28-config-debugging/src/ch28_config_debugging.rs:264]";
    "      0.00ns INFO     PATH                        : KEY       : DATA";
    "      0.00ns INFO     ConflictTest.env.loga       : MSG       : {1000: " +:+ String "034" ("PARENT RULES!" +:+ String "034" (", 999: " +:+ String "034" ("CHILD RULES!" +:+ String "034" ("}"))));
    "      0.00ns INFO     [ConflictTest.env.loga]: PARENT RULES!";
    "      0.00ns INFO     ConflictTest PASSED"];
   ["      0.00ns INFO     running GlobalTest (7/7)  [ch28-config-debugging/src/ch28_config_debugging.rs:316]";
    "      0.00ns INFO     CFGDB/SET context=GlobalTest offset=" +:+ String "034" ("env.loga" +:+ String "034" (" -> GlobalTest.env.loga MSG=" +:+ String "034" ("LOG A msg" +:+ String "034" (""))));
    "      0.00ns INFO     CFGDB/SET context=GlobalTest offset=" +:+ String "034" ("env.logb" +:+ String "034" (" -> GlobalTest.env.logb MSG=" +:+ String "034" ("LOG B msg" +:+ String "034" (""))));
    "      0.00ns INFO     CFGDB/SET context=GlobalTest offset=" +:+ String "034" ("env.t*" +:+ String "034" (" -> GlobalTest.env.t* MSG=" +:+ String "034" ("TALK TALK" +:+ String "034" (""))));
    "      0.00ns INFO     CFGDB/SET context=<none> offset=" +:+ String "034" ("*" +:+ String "034" (" -> * MSG=" +:+ String "034" ("GLOBAL" +:+ String "034" (""))));
    "      0.00ns INFO     CFGDB/GET context=GlobalTest.env.loga offset=" +:+ String "034" ("" +:+ String "034" (" -> GlobalTest.env.loga MSG=" +:+ String "034" ("LOG A msg" +:+ String "034" (""))));
    "      0.00ns INFO     [GlobalTest.env.loga]: LOG A msg";
    "      0.00ns INFO     CFGDB/GET context=GlobalTest.env.logb offset=" +:+ String "034" ("" +:+ String "034" (" -> GlobalTest.env.logb MSG=" +:+ String "034" ("LOG B msg" +:+ String "034" (""))));
    "      0.00ns INFO     [GlobalTest.env.logb]: LOG B msg";
    "      0.00ns INFO     CFGDB/GET context=GlobalTest.env.talka offset=" +:+ String "034" ("" +:+ String "034" (" -> GlobalTest.env.talka MSG=" +:+ String "034" ("TALK TALK" +:+ String "034" (""))));
    "      0.00ns INFO     [GlobalTest.env.talka]: TALK TALK";
    "      0.00ns INFO     CFGDB/GET context=GlobalTest.env.talkb offset=" +:+ String "034" ("" +:+ String "034" (" -> GlobalTest.env.talkb MSG=" +:+ String "034" ("TALK TALK" +:+ String "034" (""))));
    "      0.00ns INFO     [GlobalTest.env.talkb]: TALK TALK";
    "      0.00ns INFO     CFGDB/GET context=GlobalTest.env.gtalk offset=" +:+ String "034" ("" +:+ String "034" (" -> GlobalTest.env.gtalk MSG=" +:+ String "034" ("GLOBAL" +:+ String "034" (""))));
    "      0.00ns INFO     [GlobalTest.env.gtalk]: GLOBAL";
    "      0.00ns INFO     GlobalTest PASSED"]].

Definition figures29 : list (list string) :=
  [["      0.00ns INFO     running TinyTest (1/7)  [ch29-factory/src/ch29_factory.rs:71]";
    "      0.00ns INFO     [TinyTest.tc]: I'm so tiny!"];
   ["      0.00ns INFO     running TinyFactoryTest (2/7)  [ch29-factory/src/ch29_factory.rs:90]";
    "      0.00ns INFO     [TinyFactoryTest.tc]: I'm so tiny!"];
   ["      0.00ns INFO     running MediumFactoryTest (4/7)  [ch29-factory/src/ch29_factory.rs:151]";
    "      0.00ns INFO     [MediumFactoryTest.tc]: I'm medium size."];
   ["      0.00ns INFO     running MediumNameTest (5/7)  [ch29-factory/src/ch29_factory.rs:171]";
    "      0.00ns INFO     [MediumNameTest.tc]: I'm medium size."];
   ["      0.00ns INFO     running TwoCompTest (6/7)  [ch29-factory/src/ch29_factory.rs:218]";
    "      0.00ns INFO     [TwoCompTest.env.tc1]: I'm medium size.";
    "      0.00ns INFO     [TwoCompTest.env.tc2]: I'm so tiny!"];
   ["      0.00ns INFO     running PrintOverridesTest (7/7)  [ch29-factory/src/ch29_factory.rs:241]";
    "      0.00ns INFO     Factory overrides:";
    "      0.00ns INFO       *                           : TinyComponent -> MediumComponent";
    "      0.00ns INFO     [PrintOverridesTest.tc]: I'm medium size."]].

(** What chapter 26 finds in its log file. *)
Definition log_file26 : list (nat * string) :=
  [(0%nat, "      0.00ns INFO     [FileTest.comp]: This is info");
   (0%nat, "      0.00ns WARNING  [FileTest.comp]: This is warning");
   (0%nat, "      0.00ns ERROR    [FileTest.comp]: This is error");
   (0%nat, "      0.00ns CRITICAL [FileTest.comp]: This is critical")].

(** The chapters on components run as printed.  With seed 1 the regressions of
    chapters 24, 26, 27, 28 and 29 end without trouble, every test passes (those
    that must fail with config_not_found included), and the console shows the
    chapters' transcripts: the nine phases in their order and every component
    logging under the path the walk derived; levels, file handlers and console
    suppression per subtree, reset between tests, with the log file's contents;
    wildcards, defaults and parent-over-child precedence of the configuration
    database, its dump and its trace; type and instance overrides of the
    factory and their listing. *)
Theorem book_component_transcripts :
  let shown (tests : list Test) figures := ∃ r, Bench.report _ (simulate Chapters.playground oldest_first 1000 tt tests 1) = Some r ∧
    came_to tests (λ _, Runner.Pass) r ∧ Forall (λ block, shows block r) figures in
  shown Ch24.tests figures24 ∧
  shown Ch26.tests figures26 ∧
  filed <$> Bench.report _ (simulate Chapters.playground oldest_first 1000 tt Ch26.tests 1) = Some log_file26 ∧
  shown Ch27.tests figures27 ∧ shown Ch28.tests figures28 ∧ shown Ch29.tests figures29.
Proof. cbv zeta. split_and!; try run_bench. vm_compute. reflexivity. Qed.
End TreeChapters.
