(* ===== verification/AluTree.v ===== *)
(** * AluTree: the TinyALU benches 3.0, 4.0 and 5.0
    (output/examples/ch23-uvm-test-testbench-3.0, ch25-uvm-env-testbench-4.0 and
    ch30-variation-point-testbench-5.0): tests that are components, an environment
    with a scoreboard and a tester found through the configuration database, and a
    tester chosen by the factory, run against the design on the host. *)
From Stdlib Require Import Ascii String.
From stdpp Require Import pretty.
From S2P Require Import Prelude Words Values Queue Signals Time PhaseHub Triggers Executor Path Log Config Factory Objection Component Rng Runner Handles Errors Async Host Kit Bench Tree Alu AluHost Chapters AluChapters.
Local Open Scope Z_scope.

Module AluTree.
Import Async Component Kit Bench Tree Utils.
Import Alu(Ops, Add, And, Xor, Mul, ALL, from_u64).
Local Open Scope string_scope.
Local Open Scope Z_scope.
Local Open Scope code_scope.

(** ** State *)

(** What the database holds: the bus functional model, and overrides. *)
Inductive Any := ABfm (b : TinyAluBfm) | AOverride (o : @Factory.Override unit).
#[export] Instance typed_bfm : Config.Typed Any TinyAluBfm :=
  {| Config.type_id := 0; Config.type_name := "alloc::rc::Rc<tinyalu_utils::TinyAluBfm>"; Config.debug := λ _, "TinyAluBfm";
     Config.inject := ABfm; Config.downcast := λ a, match a with ABfm b => Some b | _ => None end |}.
#[export] Instance typed_override : Config.Typed Any (@Factory.Override unit) :=
  {| Config.type_id := 1; Config.type_name := "rustdv_methodology::factory::Override"; Config.debug := Factory.debug_override;
     Config.inject := AOverride; Config.downcast := λ a, match a with AOverride o => Some o | _ => None end |}.

(** The queues of the bus functional model, the scoreboard's lists, the random
    tester's generator. *)
Record Own := { queues : Queues; cmds : list CmdTuple; results : list Z; tester_rng : option Rng.Rng }.
Definition own0 : Own := {| queues := fresh_queues; cmds := []; results := []; tester_rng := None |}.
Definition set_queues q o : Own := {| queues := q; cmds := cmds o; results := results o; tester_rng := tester_rng o |}.
Definition set_cmds l o : Own := {| queues := queues o; cmds := l; results := results o; tester_rng := tester_rng o |}.
Definition set_results l o : Own := {| queues := queues o; cmds := cmds o; results := l; tester_rng := tester_rng o |}.
Definition set_rng r o : Own := {| queues := queues o; cmds := cmds o; results := results o; tester_rng := r |}.

Abbreviation U := (Env Any Own).
Abbreviation Code := (@Async.Code N Empty_set U Out).
Abbreviation V := (Code (Result unit TestError)).
Abbreviation Test := (@Kit.Test N Empty_set Any Own).
Abbreviation P := (@Phases Any Own).
Implicit Types ctx : RustdvCtx.

Definition test (phases : string → P) (n : Node) (seed : Z) : V := component_test phases (λ _ _, false) n seed.

Definition send_op : Z → Z → Ops → Code unit := Utils.send_op queues set_queues.
Definition get_cmd : Code CmdTuple := Utils.get_cmd queues set_queues.
Definition get_result : Code Z := Utils.get_result queues set_queues.
Definition start_tasks : TinyAluBfm → Code unit := Utils.start_tasks queues set_queues.
Definition send_each (l : list (Z * Z * Ops)) : Code unit := for_each l (λ '(aa, bb, op), send_op aa bb op).

(** The scoreboard's collecting tasks. *)
Definition collect (cmd_task result_task : string) : Code unit :=
  spawn (Loop (λ _, cmd <- get_cmd ;; edit (λ o, set_cmds (cmds o ++ [cmd]) o) ;; Ret (inl tt)) tt) (Some cmd_task) ;;
  spawn (Loop (λ _, r <- get_result ;; edit (λ o, set_results (results o ++ [r]) o) ;; Ret (inl tt)) tt) (Some result_task) ;;
  Ret tt.

(** [results.remove(0)]. *)
Definition remove_result : Code Z :=
  rs <- look results ;;
  match rs with
  | [] => Throw "removal index (is 0) should be < len (is 0)"
  | r :: rest => edit (set_results rest) ;; Ret r
  end.

(** ** Test bench 3.0 *)

Module Ch23.
(** Testers as in test bench 2.0. *)
Import Ch20(Tester, RandomTester, MaxTester, get_operands).
Fixpoint execute_ops (ops : list Ops) (t : Tester) : Code unit :=
  match ops with
  | [] => send_op 0 0 Add ;; send_op 0 0 Add
  | op :: rest => let '(t', (aa, bb)) := get_operands t in send_op aa bb op ;; execute_ops rest t'
  end.
Definition execute (t : Tester) : Code unit := execute_ops ALL t.

Fixpoint check_cmds (cs : list CmdTuple) (cvg : list Ops) (passed : bool) : Code (bool * list Ops) :=
  match cs with
  | [] => Ret (passed, cvg)
  | (aa, bb, op_int) :: rest =>
      match from_u64 op_int with
      | None => Throw "illegal op captured"
      | Some op =>
          r <- remove_result ;;
          let actual := wrap 16 r in
          let prediction := alu_prediction (wrap 8 aa) (wrap 8 bb) op in
          (if actual =? prediction then Bench.info (passed_line aa bb op actual)
           else Bench.error (failed_line aa bb op actual prediction)) ;;
          check_cmds rest (insert op cvg) (passed && (actual =? prediction))
      end
  end.
Definition check_results : Code bool :=
  cs <- look cmds ;;
  r <- check_cmds cs [] true ;;
  let '(passed, cvg) := r in
  if existsb (λ op, negb (contains cvg op)) ALL then Bench.error "Functional coverage error: missed operations" ;; Ret false
  else Bench.info "Covered all operations" ;; Ret passed.

Definition HelloWorldTest : P :=
  with_run (λ ctx, with_objection "saying hello" (info ctx "Hello, world." ;; ok)) default_phases.

Definition alu_test (t : Tester) : V :=
  with_objection "alu_test stimulus" (
    bfm <-? map_err Errors.te_from_handle (bfm_new set_queues) ;;
    edit (λ o, set_cmds [] (set_results [] o)) ;;             (* Scoreboard::new *)
    reset bfm ;;
    start_tasks bfm ;;
    collect "scoreboard.get_cmd" "scoreboard.get_result" ;;
    execute t ;;
    passed <- check_results ;;
    if (passed : bool) then ok else Ret (Err (Errors.te_from_str "scoreboard saw failing comparisons"))).
Definition RandomTest : P := with_run (λ ctx, alu_test (RandomTester (rng ctx))) default_phases.
Definition MaxTest : P := with_run (λ _, alu_test MaxTester) default_phases.

Definition phases : string → P := by_type [("HelloWorldTest", HelloWorldTest); ("RandomTest", RandomTest); ("MaxTest", MaxTest)].
Definition tests : list Test :=
  let reg := Chapters.registered "ch23-uvm-test-testbench-3.0/src/ch23_uvm_test_testbench_3_0.rs" in
  [(reg 149%nat "HelloWorldTest", test phases (leaf "HelloWorldTest")); (reg 188%nat "RandomTest", test phases (leaf "RandomTest"));
   (reg 199%nat "MaxTest", test phases (leaf "MaxTest"))].
End Ch23.

(** ** Test bench 4.0 *)

Definition get_bfm ctx : Code (Result TinyAluBfm TestError) := config_try (Some ctx) "" "BFM".
Definition expect_bfm ctx : Code TinyAluBfm := config_expect (Some ctx) "" "BFM" "the test sets BFM".
(** The [build] of the tests: file the bus functional model for every component. *)
Definition file_bfm : Code unit :=
  r <- bfm_new set_queues ;;
  match r with Ok bfm => config_set None "*" "BFM" bfm | Err _ => Throw "TinyALU signals" end.

(** The scoreboard of 4.0, unchanged in 5.0; a fresh one has empty lists. *)
Fixpoint compare ctx (cs : list CmdTuple) (cvg : list Ops) (s : CheckSink) : Code (CheckSink * list Ops) :=
  match cs with
  | [] => Ret (s, cvg)
  | (aa, bb, op_int) :: rest =>
      match from_u64 op_int with
      | None => Throw "illegal op captured"
      | Some op =>
          r <- remove_result ;;
          let actual := wrap 16 r in
          let prediction := alu_prediction (wrap 8 aa) (wrap 8 bb) op in
          s' <- (if actual =? prediction then info ctx (passed_line aa bb op actual) ;; Ret s
                 else sink_error (failed_line aa bb op actual prediction) s) ;;
          compare ctx rest (insert op cvg) s'
      end
  end.
Definition Scoreboard_start ctx : Code unit :=
  expect_bfm ctx ;; collect "scoreboard.get_cmds" "scoreboard.get_results".
Definition Scoreboard_check ctx (s : CheckSink) : Code CheckSink :=
  cs <- look cmds ;;
  r <- compare ctx cs [] s ;;
  let '(s', cvg) := r in
  if existsb (λ op, negb (contains cvg op)) ALL then sink_error "Functional coverage error: missed operations" s'
  else info ctx "Covered all operations" ;; Ret s'.
Definition Scoreboard : P :=
  with_start (λ _ ctx, Scoreboard_start ctx) (with_check Scoreboard_check default_phases).
Definition fresh_scoreboard : Code unit := edit (λ o, set_cmds [] (set_results [] o)).

Module Ch25.
(** [Operands] of the generic tester. *)
Definition random_operands (r : Rng.Rng) : Rng.Rng * (Z * Z) :=
  let '(r1, aa) := Rng.u8 r in let '(r2, bb) := Rng.u8 r1 in (r2, (aa, bb)).
Definition max_operands (r : Rng.Rng) : Rng.Rng * (Z * Z) := (r, (0xFF, 0xFF)).

Fixpoint drive (get_operands : Rng.Rng → Rng.Rng * (Z * Z)) (ops : list Ops) (r : Rng.Rng) : Code unit :=
  match ops with
  | [] => edit (set_rng (Some r))
  | op :: rest => let '(r', (aa, bb)) := get_operands r in send_op aa bb op ;; drive get_operands rest r'
  end.
Definition BaseTester (get_operands : Rng.Rng → Rng.Rng * (Z * Z)) : P :=
  with_build (λ n ctx, edit (set_rng (Some (rng ctx))) ;; Ret n)
  (with_start (λ _ ctx, bfm <- expect_bfm ctx ;; start_tasks bfm)
  (with_run (λ ctx, with_objection "tester stimulus" (
     bfm <-? get_bfm ctx ;;
     r <- look tester_rng ;;
     match r with
     | None => Throw "build phase did not run"
     | Some r =>
         reset bfm ;;
         drive get_operands ALL r ;;
         send_op 0 0 Add ;;
         send_op 0 0 Add ;;
         ok
     end)) default_phases)).
Definition AluEnv : P :=
  with_build (λ n _, fresh_scoreboard ;;
    Ret (set_field "tester" (Factory.FOption (Some (leaf "BaseTester")))
        (set_field "scoreboard" (Factory.FOption (Some (leaf "Scoreboard"))) n))) default_phases.
Definition env : Node := Factory.mkNode "AluEnv" tt [("scoreboard", option_slot); ("tester", option_slot)].
Definition alu_test : P :=
  with_build (λ n _, file_bfm ;; Ret (set_field "env" (Factory.FOption (Some env)) n)) default_phases.
(** The two instances of the generic tester and environment. *)
Definition phases (get_operands : Rng.Rng → Rng.Rng * (Z * Z)) : string → P :=
  by_type [("Scoreboard", Scoreboard); ("BaseTester", BaseTester get_operands); ("AluEnv", AluEnv); ("RandomTest", alu_test);
          ("MaxTest", alu_test)].
Definition env_test get_operands (name : string) : Z → V := test (phases get_operands) (Factory.mkNode name tt [("env", option_slot)]).
Definition tests : list Test :=
  let reg := Chapters.registered "ch25-uvm-env-testbench-4.0/src/ch25_uvm_env_testbench_4_0.rs" in
  [(reg 256%nat "RandomTest", env_test random_operands "RandomTest"); (reg 271%nat "MaxTest", env_test max_operands "MaxTest")].
End Ch25.

(** ** Test bench 5.0 *)

Module Ch30.
(** [get_operands] of the two testers, on the component's own state. *)
Definition random_get_operands : Code (Z * Z) :=
  r <- look tester_rng ;;
  match r with
  | None => Throw "build phase did not run"
  | Some r =>
      let '(r1, aa) := Rng.u8 r in let '(r2, bb) := Rng.u8 r1 in
      edit (set_rng (Some r2)) ;; Ret (aa, bb)
  end.
Definition max_get_operands : Code (Z * Z) := Ret (0xFF, 0xFF).

Definition execute (get_operands : Code (Z * Z)) ctx : V :=
  with_objection "tester stimulus" (
    bfm <-? get_bfm ctx ;;
    reset bfm ;;
    for_each ALL (λ op, o <- get_operands ;; send_op o.1 o.2 op) ;;
    send_op 0 0 Add ;;
    send_op 0 0 Add ;;
    ok).
Definition BaseTester : P := with_run (λ _, Throw "BaseTester is abstract — override it with RandomTester or MaxTester") default_phases.
Definition RandomTester : P :=
  with_build (λ n ctx, edit (set_rng (Some (rng ctx))) ;; Ret n) (with_run (execute random_get_operands) default_phases).
Definition MaxTester : P := with_run (execute max_get_operands) default_phases.
Definition AluEnv : P :=
  with_build (λ n _, fresh_scoreboard ;;
    Ret (set_field "tester" (create_comp (leaf "BaseTester")) (set_field "scoreboard" (new_comp (leaf "Scoreboard")) n)))
  (with_start (λ _ ctx, bfm <- expect_bfm ctx ;; start_tasks bfm) default_phases).
Definition env : Node := Factory.mkNode "AluEnv" tt [("scoreboard", slot); ("tester", slot)].
Definition alu_test (tester : string) : P :=
  with_build (λ n _, file_bfm ;; set_type_override "BaseTester" (leaf tester) ;; Ret (set_field "env" (new_comp env) n)) default_phases.

Definition phases : string → P :=
  by_type [("Scoreboard", Scoreboard); ("BaseTester", BaseTester); ("RandomTester", RandomTester); ("MaxTester", MaxTester);
    ("AluEnv", AluEnv); ("RandomTest", alu_test "RandomTester"); ("MaxTest", alu_test "MaxTester")].
Definition env_test (name : string) : Z → V := test phases (Factory.mkNode name tt [("env", slot)]).
Definition tests : list Test :=
  let reg := Chapters.registered "ch30-variation-point-testbench-5.0/src/ch30_variation_point_testbench_5_0.rs" in
  [(reg 245%nat "RandomTest", env_test "RandomTest"); (reg 262%nat "MaxTest", env_test "MaxTest")].
End Ch30.

(** ** What the examples' READMEs print *)

Definition transcript23 : list string :=
  ["      0.00ns INFO     rustdv: found 3 test(s), RUSTDV_RANDOM_SEED=1";
   "      0.00ns INFO     running HelloWorldTest (1/3)  [ch23-uvm-test-testbench-3.0/src/ch23_uvm_test_testbench_3_0.rs:149]";
   "      0.00ns INFO     [HelloWorldTest]: Hello, world.";
   "      0.00ns INFO     HelloWorldTest PASSED";
   "      0.00ns INFO     running RandomTest (2/3)  [ch23-uvm-test-testbench-3.0/src/ch23_uvm_test_testbench_3_0.rs:188]";
   "    150.00ns INFO     PASSED: ce Add 42 = 0110";
   "    150.00ns INFO     PASSED: 2f And 64 = 0024";
   "    150.00ns INFO     PASSED: 29 Xor b3 = 009a";
   "    150.00ns INFO     PASSED: 86 Mul 83 = 4492";
   "    150.00ns INFO     Covered all operations";
   "    150.00ns INFO     RandomTest PASSED";
   "    150.00ns INFO     running MaxTest (3/3)  [ch23-uvm-test-testbench-3.0/src/ch23_uvm_test_testbench_3_0.rs:199]";
   "    300.00ns INFO     PASSED: ff Add ff = 01fe";
   "    300.00ns INFO     PASSED: ff And ff = 00ff";
   "    300.00ns INFO     PASSED: ff Xor ff = 0000";
   "    300.00ns INFO     PASSED: ff Mul ff = fe01";
   "    300.00ns INFO     Covered all operations";
   "    300.00ns INFO     MaxTest PASSED";
   "******************************************************************************";
   "** TEST                                       STATUS  SIM TIME (ns)      **";
   "******************************************************************************";
   "** HelloWorldTest                               PASS           0.00      **";
   "** RandomTest                                   PASS         150.00      **";
   "** MaxTest                                      PASS         150.00      **";
   "******************************************************************************";
   "REGRESSION: PASS"].
Definition transcript25 : list string :=
  ["      0.00ns INFO     rustdv: found 2 test(s), RUSTDV_RANDOM_SEED=1";
   "      0.00ns INFO     running RandomTest (1/2)  [ch25-uvm-env-testbench-4.0/src/ch25_uvm_env_testbench_4_0.rs:256]";
   "    150.00ns INFO     [RandomTest.env.scoreboard]: PASSED: c1 Add 67 = 0128";
   "    150.00ns INFO     [RandomTest.env.scoreboard]: PASSED: 5e And 0b = 000a";
   "    150.00ns INFO     [RandomTest.env.scoreboard]: PASSED: b9 Xor 80 = 0039";
   "    150.00ns INFO     [RandomTest.env.scoreboard]: PASSED: a5 Mul 75 = 4b69";
   "    150.00ns INFO     [RandomTest.env.scoreboard]: Covered all operations";
   "    150.00ns INFO     RandomTest PASSED";
   "    150.00ns INFO     running MaxTest (2/2)  [ch25-uvm-env-testbench-4.0/src/ch25_uvm_env_testbench_4_0.rs:271]";
   "    300.00ns INFO     [MaxTest.env.scoreboard]: PASSED: ff Add ff = 01fe";
   "    300.00ns INFO     [MaxTest.env.scoreboard]: PASSED: ff And ff = 00ff";
   "    300.00ns INFO     [MaxTest.env.scoreboard]: PASSED: ff Xor ff = 0000";
   "    300.00ns INFO     [MaxTest.env.scoreboard]: PASSED: ff Mul ff = fe01";
   "    300.00ns INFO     [MaxTest.env.scoreboard]: Covered all operations";
   "    300.00ns INFO     MaxTest PASSED";
   "******************************************************************************";
   "** TEST                                       STATUS  SIM TIME (ns)      **";
   "******************************************************************************";
   "** RandomTest                                   PASS         150.00      **";
   "** MaxTest                                      PASS         150.00      **";
   "******************************************************************************";
   "REGRESSION: PASS"].
Definition transcript30 : list string :=
  ["      0.00ns INFO     rustdv: found 2 test(s), RUSTDV_RANDOM_SEED=1";
   "      0.00ns INFO     running RandomTest (1/2)  [ch30-variation-point-testbench-5.0/src/ch30_variation_point_testbench_5_0.rs:245]";
   "    150.00ns INFO     [RandomTest.env.scoreboard]: PASSED: c1 Add 67 = 0128";
   "    150.00ns INFO     [RandomTest.env.scoreboard]: PASSED: 5e And 0b = 000a";
   "    150.00ns INFO     [RandomTest.env.scoreboard]: PASSED: b9 Xor 80 = 0039";
   "    150.00ns INFO     [RandomTest.env.scoreboard]: PASSED: a5 Mul 75 = 4b69";
   "    150.00ns INFO     [RandomTest.env.scoreboard]: Covered all operations";
   "    150.00ns INFO     RandomTest PASSED";
   "    150.00ns INFO     running MaxTest (2/2)  [ch30-variation-point-testbench-5.0/src/ch30_variation_point_testbench_5_0.rs:262]";
   "    300.00ns INFO     [MaxTest.env.scoreboard]: PASSED: ff Add ff = 01fe";
   "    300.00ns INFO     [MaxTest.env.scoreboard]: PASSED: ff And ff = 00ff";
   "    300.00ns INFO     [MaxTest.env.scoreboard]: PASSED: ff Xor ff = 0000";
   "    300.00ns INFO     [MaxTest.env.scoreboard]: PASSED: ff Mul ff = fe01";
   "    300.00ns INFO     [MaxTest.env.scoreboard]: Covered all operations";
   "    300.00ns INFO     MaxTest PASSED";
   "******************************************************************************";
   "** TEST                                       STATUS  SIM TIME (ns)      **";
   "******************************************************************************";
   "** RandomTest                                   PASS         150.00      **";
   "** MaxTest                                      PASS         150.00      **";
   "******************************************************************************";
   "REGRESSION: PASS"].

(** The TinyALU benches made of components run as printed, and pass whatever
    the simulator does first.  With seed 1 the regressions of chapters 23, 25 and
    30 (tests that are components; an environment whose tester and scoreboard find
    the bus functional model in the configuration database; a tester the factory
    substitutes) end without trouble with every test passed, whether the simulator
    calls the callbacks of a clock edge oldest or newest first; newest first the
    console is exactly the README's transcript, and for chapter 23 in either
    order. *)
Theorem book_env_transcripts :
  let ran order (tests : list Test) := λ p : list string → Prop,
    ∃ r, Bench.report _ (simulate AluHost.tinyalu order 1000 own0 tests 1) = Some r ∧ came_to tests (λ _, Runner.Pass) r ∧
      p (printed r) in
  ran newest_first Ch23.tests (eq transcript23) ∧ ran newest_first Ch25.tests (eq transcript25) ∧
  ran newest_first Ch30.tests (eq transcript30) ∧
  ran oldest_first Ch23.tests (eq transcript23) ∧ ran oldest_first Ch25.tests (λ l, l ≠ transcript25) ∧
  ran oldest_first Ch30.tests (λ l, l ≠ transcript30).
Proof. cbv zeta. split_and!; run_bench. Qed.
End AluTree.
