(* ===== verification/TlmKit.v ===== *)
(** * TlmKit: ports, FIFOs, analysis buses and sequencers as asynchronous code.

    The objects of one test live in a store by address, as in Tlm.v and
    Sequence.v whose operations act on them: binding cells of ports, FIFOs, the
    hubs of analysis buses, the states behind [RustdvShared] handles, sequencers.
    A port's cell says which object it is bound to; every call through a port
    looks it up first, and panics when there is none. *)
From S2P Require Import Prelude Words Values Queue Sync Factory Tlm Sequence Signals Executor Path Log Config Objection Component Rng Runner Errors Async Host Kit Bench Tree.
Local Open Scope Z_scope.

(** [Item]: what travels; [S]: a subscriber's state; [Req], [Rsp]: a sequencer's
    requests and answers. *)
Record Objects (Item S Req Rsp : Set) := {
  slots : gmap nat Port.Slot;
  fifos : gmap nat (@Fifo.FifoInner (Queue.QInner Item));
  hubs : gmap nat (list nat);
  cells : gmap nat S;
  seqrs : gmap nat (@Sequencer.SeqrInner Req Rsp);
}.
Arguments slots {Item S Req Rsp} _.
Arguments fifos {Item S Req Rsp} _.
Arguments hubs {Item S Req Rsp} _.
Arguments cells {Item S Req Rsp} _.
Arguments seqrs {Item S Req Rsp} _.
Definition no_objects {Item S Req Rsp : Set} : Objects Item S Req Rsp :=
  {| slots := ∅; fifos := ∅; hubs := ∅; cells := ∅; seqrs := ∅ |}.

Module TlmKit.
Import Async Component Kit Bench Tree.
Import Port(Slot, PortName, OwnNode, OwnSlot).
Local Open Scope code_scope.

Section TlmKit.
Context {Any X : Type} {Item S Req Rsp : Set}.
Abbreviation U := (Env Any X).
Abbreviation Code := (@Async.Code N Empty_set U Out).
Abbreviation Objs := (Objects Item S Req Rsp).
(** Where the test's state keeps its objects. *)
Variable objs : Lens U Objs.
(** What each subscriber does with an item, and the wakers that wakes: a
    subscriber that puts into a FIFO of its own wakes whoever waits there. *)
Variable write : nat → Item → S → S.
Variable take_wakes : S → S * list Waker.
Implicit Types o : Objs.

Definition set_slots h o : Objs := {| slots := h; fifos := fifos o; hubs := hubs o; cells := cells o; seqrs := seqrs o |}.
Definition set_fifos h o : Objs := {| slots := slots o; fifos := h; hubs := hubs o; cells := cells o; seqrs := seqrs o |}.
Definition set_hubs h o : Objs := {| slots := slots o; fifos := fifos o; hubs := h; cells := cells o; seqrs := seqrs o |}.
Definition set_cells h o : Objs := {| slots := slots o; fifos := fifos o; hubs := hubs o; cells := h; seqrs := seqrs o |}.
Definition set_seqrs h o : Objs := {| slots := slots o; fifos := fifos o; hubs := hubs o; cells := cells o; seqrs := h |}.
Definition on_objs (f : Objs → Objs) : Code unit := modify (λ u : U, update objs (f (view objs u)) u).
(** A call that may panic. *)
Definition try_objs (f : Objs → Exec Objs) : Code unit :=
  Call (λ u : U, match f (view objs u) with Done o => Done (update objs o u, [], tt) | Panic m => Panic m end).
Definition port_bound (u : U) (a : nat) : bool := Port.is_bound (slots (view objs u)) a.

(** ** Making objects *)

(** [T::default()] makes the cells of a component's ports; the interface type
    goes by the kind of the port. *)
Definition new_ports (n : Node) : Code unit :=
  on_objs (λ o, set_slots (foldl (λ h nf, match nf.2 with
    | Factory.FPort k a => Port.new_port k a h
    | _ => h
    end) (slots o) (Factory.fields_of n)) o).
(** [T::new_comp()] with its ports. *)
Definition new_with_ports (n : Node) : Code Field := new_ports n ;; Ret (new_comp n).
Definition fifo_new (i : nat) (size : option nat) : Code unit :=
  on_objs (λ o, set_fifos (<[i := Fifo.new Queue.new size]> (fifos o)) o).
Definition bus_new (b : nat) : Code unit := on_objs (λ o, set_hubs (<[b := []]> (hubs o)) o).
Definition shared_new (k : nat) (s : S) : Code unit := on_objs (λ o, set_cells (<[k := s]> (cells o)) o).
Definition shared_get (k : nat) (d : S) : Code S := ask (λ u : U, default d (cells (view objs u) !! k)).
Definition seqr_new (i : nat) : Code unit := on_objs (λ o, set_seqrs (<[i := Sequencer.new_seqr]> (seqrs o)) o).

(** ** Connecting *)

Definition port_name (p kind : string) : PortName := {| Port.name := p; Port.iface_ty := kind |}.
(** [export.connect(&self.child, PORT)], the child being a field of [n], and
    [export.connect(self, PORT)]. *)
Definition child (n : Node) (f : string) : @Port.PortOwner unit :=
  match find (λ nf, String.eqb nf.1 f) (Factory.fields_of n) with
  | Some (_, Factory.FComp i ov req) => OwnSlot (Factory.slot_of i ov req)
  | Some (_, Factory.FOption (Some c)) | Some (_, Factory.FPlain c) => OwnNode c
  | _ => OwnSlot Factory.empty_slot
  end.
(** [put_export], [get_export], [peek_export], [seq_item_export]. *)
Definition connect_iface (kind : string) (i : nat) (owner : @Port.PortOwner unit) (p : string) : Code unit :=
  try_objs (λ o, match Port.bind_or_panic owner (port_name p kind) i (slots o) with
    | Done h => Done (set_slots h o) | Panic m => Panic m end).
Definition put_connect : nat → @Port.PortOwner unit → string → Code unit := connect_iface "put".
Definition get_connect : nat → @Port.PortOwner unit → string → Code unit := connect_iface "get".
Definition peek_connect : nat → @Port.PortOwner unit → string → Code unit := connect_iface "peek".
Definition seq_item_connect : nat → @Port.PortOwner unit → string → Code unit := connect_iface "seq_item".
(** The analysis bus. *)
Definition analysis (f : @Analysis.World S → Exec (@Analysis.World S)) : Code unit :=
  try_objs (λ o, match f {| Analysis.hubs := hubs o; Analysis.slots := slots o; Analysis.cells := cells o |} with
    | Done w => Done (set_hubs (Analysis.hubs w) (set_slots (Analysis.slots w) (set_cells (Analysis.cells w) o)))
    | Panic m => Panic m
    end).
Definition pub_connect (b : nat) (owner : @Port.PortOwner unit) (p : string) : Code unit :=
  analysis (Analysis.pub_connect b owner (port_name p "publish")).
Definition sub_connect (b : nat) (owner : @Port.PortOwner unit) (p : string) : Code unit :=
  analysis (Analysis.sub_connect b owner (port_name p "subscribe")).
(** [TapExport::connect]. *)
Definition tap_connect (on_put : bool) (i : nat) (owner : @Port.PortOwner unit) (p : string) : Code unit :=
  try_objs (λ o, match Port.sink_of owner (port_name p "subscribe") (slots o) with
    | Ok k => Done (set_fifos (alter (Fifo.connect_tap on_put k) i (fifos o)) o)
    | Err e => Panic (Port.display e)
    end).
Definition subscribe (a k : nat) : Code unit := on_objs (λ o, set_slots (Port.subscribe a k (slots o)) o).

(** ** Broadcasting *)

Definition collect_wakes (m : gmap nat S) : gmap nat S * list Waker :=
  (fst ∘ take_wakes <$> m, concat (map (λ kv, (take_wakes kv.2).2) (map_to_list m))).
Definition wakes_of (ks : gmap nat S) o : Objs * list Waker := let '(m, ws) := collect_wakes ks in (set_cells m o, ws).
(** [PublishPort::write]. *)
Definition port_write (a : nat) (x : Item) : Code unit :=
  Call (λ u : U, let o := view objs u in
    let w := Analysis.port_write write a x {| Analysis.hubs := hubs o; Analysis.slots := slots o; Analysis.cells := cells o |} in
    let '(o', ws) := wakes_of (Analysis.cells w) o in Done (update objs o' u, ws, tt)).

(** ** The FIFO *)

Definition fifo_world (i : nat) o : option (@Fifo.World (Queue.QInner Item) S) :=
  (λ f, {| Fifo.fifo := f; Fifo.shared := cells o; Fifo.woken := [] |}) <$> fifos o !! i.
(** An operation of FIFO [i]: its new state, its taps' and the wakers. *)
Definition with_fifo {A : Type} (i : nat) (f : @Fifo.World (Queue.QInner Item) S → @Fifo.World (Queue.QInner Item) S * A) o :
    Exec (Objs * list Waker * A) :=
  match fifo_world i o with
  | None => Panic "no such FIFO"                        (* a handle keeps its FIFO alive *)
  | Some w =>
      let '(w', a) := f w in
      let '(o', ws) := wakes_of (Fifo.shared w') (set_fifos (<[i := Fifo.fifo w']> (fifos o)) o) in
      Done (o', Fifo.woken w' ++ ws, a)
  end.
Definition fifo_call {A : Set} (i : nat) (f : @Fifo.World (Queue.QInner Item) S → @Fifo.World (Queue.QInner Item) S * A) : Code A :=
  Call (λ u : U, match with_fifo i f (view objs u) with
    | Done (o, ws, a) => Done (update objs o u, ws, a) | Panic m => Panic m end).
Definition fifo_await {A : Set} (i : nat) (f : Waker → @Fifo.World (Queue.QInner Item) S → @Fifo.World (Queue.QInner Item) S * Poll A) : Code A :=
  Await (λ (_ : unit) cx (u : U), match with_fifo i (f cx) (view objs u) with
    | Done (o, ws, p) => Done (update objs o u, ws, tt, p) | Panic m => Panic m end) (λ _ u, (u, [])) tt.

Definition fifo_put (i : nat) (x : Item) : Code unit := fifo_await i (λ cx, Fifo.poll_put_tapped write x cx).
Definition fifo_get (i : nat) : Code Item := fifo_await i (λ cx, Fifo.poll_get write cx).
Definition fifo_peek (i : nat) : Code Item := fifo_await i (λ cx, Fifo.poll_peek cx).
Definition fifo_try_put (i : nat) (x : Item) : Code (Result unit Item) := fifo_call i (Fifo.try_put_tapped write x).
Definition fifo_try_get (i : nat) : Code (option Item) := fifo_call i (Fifo.try_get write).

(** ** Through a port *)

Definition iface (a : nat) : Code nat :=
  Call (λ u : U, match Port.iface (slots (view objs u)) a with Done i => Done (u, [], i) | Panic m => Panic m end).
Definition port_put (a : nat) (x : Item) : Code unit := i <- iface a ;; fifo_put i x.
Definition port_get (a : nat) : Code Item := i <- iface a ;; fifo_get i.
Definition port_peek (a : nat) : Code Item := i <- iface a ;; fifo_peek i.
Definition port_try_put (a : nat) (x : Item) : Code (Result unit Item) := i <- iface a ;; fifo_try_put i x.
Definition port_try_get (a : nat) : Code (option Item) := i <- iface a ;; fifo_try_get i.

(** ** Sequencers *)

Abbreviation Seqr := (@Sequencer.SeqrInner Req Rsp).
Definition with_seqr {A : Type} (i : nat) (f : Seqr → Exec (Seqr * list Waker * A)) (u : U) : Exec (U * list Waker * A) :=
  match seqrs (view objs u) !! i with
  | None => Panic "no such sequencer"                   (* a handle keeps its sequencer alive *)
  | Some s =>
      match f s with
      | Done (s', ws, a) => Done (update objs (set_seqrs (<[i := s']> (seqrs (view objs u))) (view objs u)) u, ws, a)
      | Panic m => Panic m
      end
  end.

(** The driver's side, through its port. *)
Definition seqr_get_next_item (i : nat) : Code (@Sequencer.SeqItem Req) :=
  Await (λ f cx (u : U), match with_seqr i (λ s, match Sequencer.poll_get_next_item s f cx with
      | Done (s', f', ws, p) => Done (s', ws, (f', p)) | Panic m => Panic m end) u with
    | Done (u', ws, (f', p)) => Done (u', ws, f', p) | Panic m => Panic m end) (λ _ u, (u, [])) Sequencer.GetNew.
Definition get_next_item (a : nat) : Code (@Sequencer.SeqItem Req) := i <- iface a ;; seqr_get_next_item i.
Definition item_done (a : nat) (r : option Rsp) : Code unit :=
  i <- iface a ;;
  Call (with_seqr i (λ s, match Sequencer.item_done r s with Done (s', ws) => Done (s', ws, tt) | Panic m => Panic m end)).
Definition put_response (a : nat) (id : TxnId) (r : Rsp) : Code unit :=
  i <- iface a ;;
  Call (with_seqr i (λ s, let '(s', ws) := Sequencer.put_response id r s in Done (s', ws, tt))).
Definition try_next_item (a : nat) : Code (option (@Sequencer.SeqItem Req)) :=
  i <- iface a ;; Call (with_seqr i Sequencer.try_next_item).

(** The sequence's side: [SeqCtx] with its sequencer, and the item it has open. *)
Record SeqCtx : Set := { seqr : option nat; seq_name : string; current : option TxnId; seq_seed : Z }.
Definition seq_ctx (i : option nat) (name : string) (seed : Z) : SeqCtx :=
  {| seqr := i; seq_name := name; current := None; seq_seed := seed |}.
Definition inner (c : SeqCtx) : Sequencer.SeqCtx :=
  {| Sequencer.has_seqr := match seqr c with Some _ => true | None => false end; Sequencer.seq_name := seq_name c;
     Sequencer.open_ := current c |}.
Definition set_current (i : option TxnId) (c : SeqCtx) : SeqCtx :=
  {| seqr := seqr c; seq_name := seq_name c; current := i; seq_seed := seq_seed c |}.
Definition seq_rng (c : SeqCtx) : Rng.Rng := Rng.new (seq_seed c).
Definition seq_log (c : SeqCtx) (l : Log.Level) (m : string) : Code unit := logger_at prec (Path.root (seq_name c)) l m.
Definition seq_info (c : SeqCtx) (m : string) : Code unit := seq_log c Log.Info m.

(** The sequencer a context works on; a virtual sequence has none, and the
    calls that need one fail before they touch it. *)
Definition on_seqr {A : Type} (c : SeqCtx) (f : Seqr → Exec (Seqr * list Waker * A)) (u : U) : Exec (U * list Waker * A) :=
  match seqr c with
  | Some i => with_seqr i f u
  | None => match f Sequencer.new_seqr with Done (_, ws, a) => Done (u, ws, a) | Panic m => Panic m end
  end.

Definition start_item (c : SeqCtx) : Code (SeqCtx * Result unit string) :=
  Await (λ '(c, f) cx (u : U), match on_seqr c (λ s, match Sequencer.poll_start_item s (inner c) f cx with
      | Done (s', c', f', ws, p) => Done (s', ws, (c', f', p)) | Panic m => Panic m end) u with
    | Done (u', ws, (c', f', p)) =>
        let c1 := set_current (Sequencer.open_ c') c in
        Done (u', ws, (c1, f'), match p with Ready r => Ready (c1, r) | Pending => Pending end)
    | Panic m => Panic m
    end) (λ _ u, (u, [])) (c, Sequencer.StartNew).
Definition finish_item (c : SeqCtx) (x : Req) : Code (SeqCtx * Result TxnId string) :=
  Await (λ '(c, f) cx (u : U), match on_seqr c (λ s, let '(s', c', f', ws, p) := Sequencer.poll_finish_item s (inner c) f cx in
      Done (s', ws, (c', f', p))) u with
    | Done (u', ws, (c', f', p)) =>
        let c1 := set_current (Sequencer.open_ c') c in
        Done (u', ws, (c1, f'), match p with Ready r => Ready (c1, r) | Pending => Pending end)
    | Panic m => Panic m
    end) (λ _ u, (u, [])) (c, Sequencer.FinishNew x).
(** [get_response]: of a ticket, or of any. *)
Definition get_response (c : SeqCtx) (t : option TxnId) : Code Rsp :=
  match seqr c with
  | None => Throw "get_response in a virtual sequence"
  | Some i =>
      Await (λ (_ : unit) cx (u : U), match with_seqr i (λ s,
          let '(q, p) := Responses.poll_get_response t (Sequencer.responses s) cx in
          Done (Sequencer.set_responses s q, [], p)) u with
        | Done (u', ws, p) => Done (u', ws, tt, p) | Panic m => Panic m end) (λ _ u, (u, [])) tt
  end.
Definition try_get_response (c : SeqCtx) (t : option TxnId) : Code (option Rsp) :=
  match seqr c with
  | None => Ret None
  | Some i => Call (with_seqr i (λ s, let '(q, r) := Responses.try_get_response t (Sequencer.responses s) in
      Done (Sequencer.set_responses s q, [], r)))
  end.

(** [?] on a [SeqError] that ends a body: the context is the body's own. *)
Definition seq_try {A B : Set} (c : Code (SeqCtx * Result A string)) (k : SeqCtx → A → Code (Result B string)) : Code (Result B string) :=
  r <- c ;; match r with (c', Ok a) => k c' a | (_, Err e) => Ret (Err e) end.
End TlmKit.
End TlmKit.
