(* ===== verification/TlmChapters.v ===== *)
(** * TlmChapters: the book's chapters on component communication
    (output/examples/ch31-component-communications and ch32-analysis-ports), run on
    the empty design playground.sv.

    The objects of the running test (port cells, FIFOs, hubs, subscribers' states)
    are in a store by address; [build] makes them anew for every test, so the
    types of the chapter keep their addresses. *)
From Stdlib Require Import Ascii String.
From stdpp Require Import pretty.
From S2P Require Import Prelude Words Values Queue Factory Tlm Signals Time PhaseHub Triggers Executor Path Log Config Objection Component Rng Runner Handles Errors Async Host Kit Bench Tree Chapters TlmKit.
Local Open Scope Z_scope.

Module TlmChapters.
Import Async Component Kit Bench Tree TlmKit.
Import Factory(mkNode, FPlain, FPort).
Import Port(OwnNode).
Local Open Scope string_scope.
Local Open Scope Z_scope.
Local Open Scope code_scope.

Inductive Any := AOverride (o : @Factory.Override unit).
#[export] Instance typed_override : Config.Typed Any (@Factory.Override unit) :=
  {| Config.type_id := 0; Config.type_name := "rustdv_methodology::factory::Override"; Config.debug := Factory.debug_override;
     Config.inject := AOverride; Config.downcast := λ a, match a with AOverride o => Some o end |}.

(** A concrete child: a FIFO or a bus is a component without children. *)
Definition fifo_child : Field := FPlain (leaf "TlmFifo").
Definition bus_child : Field := FPlain (leaf "AnalysisBus").
(** [{:?}] of a vector of numbers. *)
Definition debug_list (l : list Z) : string := "[" +:+ String.concat ", " (map pretty l) +:+ "]".
Implicit Types ctx : RustdvCtx.

(** ** Chapter 31: put, get and peek *)

Module Ch31.
Record Packet : Set := { n : Z; label : string }.
Definition packet_new (n : Z) : Packet := {| n := n; label := "pkt" +:+ pretty n |}.

(** Nobody subscribes here, and there are no sequencers. *)
Record Own := { nums : Objects Z unit unit unit; packets : Objects Packet unit unit unit }.
Definition own0 : Own := {| nums := no_objects; packets := no_objects |}.
Abbreviation U := (Env Any Own).
Abbreviation Code := (@Async.Code N Empty_set U Out).
Abbreviation V := (Code (Result unit TestError)).
Abbreviation Test := (@Kit.Test N Empty_set Any Own).
Abbreviation P := (@Phases Any Own).
Definition num : Lens U (Objects Z unit unit unit) := part nums (λ x o, {| nums := x; packets := packets o |}).
Definition pkt : Lens U (Objects Packet unit unit unit) := part packets (λ x o, {| nums := nums o; packets := x |}).
Definition no_write {T : Type} (k : nat) (x : T) (s : unit) : unit := s.
Definition no_wakes (s : unit) : unit * list Waker := (s, []).
Definition put : nat → Z → Code unit := port_put num no_write no_wakes.
Definition get : nat → Code Z := port_get num no_write no_wakes.
Definition peek : nat → Code Z := port_peek num no_wakes.
Definition try_put : nat → Packet → Code (Result unit Packet) := port_try_put pkt no_write no_wakes.
Definition try_get : nat → Code (option Packet) := port_try_get pkt no_write no_wakes.

Definition producer : Node := mkNode "Producer" tt [("put_port", FPort "put" 0)].
Definition Producer : P := with_run (λ ctx, with_objection "producing" (
  for_each [0; 1; 2] (λ n, put 0 n ;; info ctx ("put " +:+ pretty n)) ;; ok)) default_phases.
Definition consumer : Node := mkNode "Consumer" tt [("peek_port", FPort "peek" 1); ("get_port", FPort "get" 2)].
Definition Consumer : P := with_run (λ ctx, with_objection "consuming" (
  repeat_ 3 (
    seen <- peek 1 ;;
    info ctx ("peeked " +:+ pretty seen) ;;
    got <- get 2 ;;
    assert (seen =? got) "peek must not consume the item" ;;
    info ctx ("got " +:+ pretty got)) ;;
  ok)) default_phases.

Definition PutGetPeekTest : P :=
  with_build (λ n _,
    p <- new_with_ports num producer ;;
    c <- new_with_ports num consumer ;;
    fifo_new num 0 (Some 1%nat) ;;
    Ret (set_field "producer" p (set_field "consumer" c n)))
  (with_connect (λ n _,
    put_connect num 0 (child n "producer") "put_port" ;;
    peek_connect num 0 (child n "consumer") "peek_port" ;;
    get_connect num 0 (child n "consumer") "get_port") default_phases).

(** A FIFO that is full gives the packet back. *)
Definition nb_producer : Node := mkNode "NbProducer" tt [("put_port", FPort "put" 0)].
Definition NbProducer : P := with_run (λ ctx, with_objection "producing (nb)" (
  for_each [0; 1; 2] (λ n,
    Loop (λ packet, r <- try_put 0 packet ;;
      match r with
      | Ok _ => Ret (inr tt)
      | Err back => info ctx "FIFO full, retrying" ;; ns 1 ;; Ret (inl back)
      end) (packet_new n) ;;
    info ctx ("put " +:+ pretty n)) ;;
  ok)) default_phases.
Definition nb_consumer : Node := mkNode "NbConsumer" tt [("get_port", FPort "get" 1)].
Definition NbConsumer : P := with_run (λ ctx, with_objection "consuming (nb)" (
  Loop (λ seen : Z,
    if seen <? 3 then
      r <- try_get 1 ;;
      match r with
      | Some packet => info ctx ("got " +:+ label packet +:+ " (n=" +:+ pretty (n packet) +:+ ")") ;; Ret (inl (seen + 1))
      | None => ns 1 ;; Ret (inl seen)
      end
    else Ret (inr tt)) 0 ;;
  ok)) default_phases.
Definition NonBlockingTest : P :=
  with_build (λ n _,
    p <- new_with_ports pkt nb_producer ;;
    c <- new_with_ports pkt nb_consumer ;;
    fifo_new pkt 0 (Some 1%nat) ;;
    Ret (set_field "producer" p (set_field "consumer" c n)))
  (with_connect (λ n _,
    put_connect pkt 0 (child n "producer") "put_port" ;;
    get_connect pkt 0 (child n "consumer") "get_port") default_phases).

(** [a * b] on [u32], with overflow checks. *)
Definition mul (a b : Z) : Code Z := if a * b <? 2 ^ 32 then Ret (a * b) else Throw "attempt to multiply with overflow".
Definition square_it : Node := mkNode "SquareIt" tt [("input", FPort "get" 2); ("output", FPort "put" 3)].
Definition SquareIt : P := with_run (λ ctx,
  Loop (λ _, x <- get 2 ;; y <- mul x x ;; info ctx (pretty x +:+ "² = " +:+ pretty y) ;; put 3 y ;; Ret (inl tt)) tt) default_phases.
Definition times_two : Node := mkNode "TimesTwo" tt [("input", FPort "get" 4); ("output", FPort "put" 5)].
Definition TimesTwo : P := with_run (λ ctx,
  Loop (λ _, sq <- get 4 ;; y <- mul 2 sq ;; info ctx ("2 × " +:+ pretty sq +:+ " = " +:+ pretty y) ;; put 5 y ;; Ret (inl tt)) tt)
  default_phases.
Definition MathTest : P :=
  {| build := λ n _,
       s <- new_with_ports num square_it ;;
       t <- new_with_ports num times_two ;;
       fifo_new num 0 (Some 1%nat) ;; fifo_new num 1 (Some 1%nat) ;; fifo_new num 2 (Some 1%nat) ;;
       Ret (set_field "square_it" s (set_field "times_two" t n));
     connect := λ n _,
       put_connect num 0 (OwnNode n) "x_out" ;;
       get_connect num 0 (child n "square_it") "input" ;;
       put_connect num 1 (child n "square_it") "output" ;;
       get_connect num 1 (child n "times_two") "input" ;;
       put_connect num 2 (child n "times_two") "output" ;;
       get_connect num 2 (OwnNode n) "y_in";
     end_of_elaboration := λ _ _, Ret tt; start_of_simulation := λ _ _, Ret tt;
     run := λ ctx, with_objection "driving the pipeline" (
       try_each [1; 2; 3; 4] (λ x,
         put 0 x ;;
         y <- get 1 ;;
         t <- mul 2 x ;;
         expected <- mul t x ;;
         if y =? expected then info ctx ("PASSED: x=" +:+ pretty x +:+ ", y=" +:+ pretty y) ;; ok
         else Ret (Err (Errors.te_from_str ("FAILED: x=" +:+ pretty x +:+ ", y=" +:+ pretty y +:+ ", expected " +:+ pretty expected)))));
     extract := λ _ _, Ret tt; check := λ _ s, Ret s; report := λ _ _, Ret tt; final_phase := λ _ _, Ret tt |}.
Definition math_test : Node := mkNode "MathTest" tt
  [("square_it", slot); ("times_two", slot); ("x_fifo", fifo_child); ("sq_fifo", fifo_child); ("y_fifo", fifo_child);
   ("x_out", FPort "put" 0); ("y_in", FPort "get" 1)].

Definition UnconnectedTest : P :=
  with_build (λ n _,
    p <- new_with_ports num producer ;;
    fifo_new num 0 (Some 1%nat) ;;
    Ret (set_field "producer" p n)) default_phases.

Definition phases (ty : string) : P := by_type [
  ("Producer", Producer); ("Consumer", Consumer); ("PutGetPeekTest", PutGetPeekTest); ("NbProducer", NbProducer);
  ("NbConsumer", NbConsumer); ("NonBlockingTest", NonBlockingTest); ("SquareIt", SquareIt); ("TimesTwo", TimesTwo);
  ("MathTest", MathTest); ("UnconnectedTest", UnconnectedTest)] ty.
(** A test's ports are made with it. *)
Definition test (n : Node) (seed : Z) : V := new_ports num n ;; component_test phases (port_bound num) n seed.
Definition pair_test (ty : string) : Node := mkNode ty tt [("producer", slot); ("consumer", slot); ("fifo", fifo_child)].
Definition tests : list Test :=
  let reg := Chapters.registered "ch31-component-communications/src/ch31_component_communications.rs" in
  [(reg 124%nat "PutGetPeekTest", test (pair_test "PutGetPeekTest"));
   (reg 247%nat "NonBlockingTest", component_test phases (port_bound pkt) (pair_test "NonBlockingTest"));
   (reg 345%nat "MathTest", test math_test);
   (Chapters.expecting "tlm_unconnected_port" (reg 421%nat "UnconnectedTest"),
    test (mkNode "UnconnectedTest" tt [("producer", slot); ("fifo", fifo_child)]))].
End Ch31.
(** ** Chapter 32: analysis ports *)

Module Ch32.
Abbreviation FifoOf := (@Fifo.FifoInner (Queue.QInner Z)).
(** The subscribers' states.  An inbox remembers whom a delivery woke until the
    publisher's call returns. *)
Inductive State : Set :=
| ItemCount (count : Z)
| SeenList (items : list Z)
| Inbox (queue : FifoOf) (woken : list Waker)
| TapLog (items : list Z).
(** Their [Subscriber::write]; the tallies here stay far below [u32::MAX]. *)
Definition write (k : nat) (item : Z) (s : State) : State :=
  match s with
  | ItemCount count => ItemCount (count + 1)
  | SeenList items => SeenList (items ++ [item])
  | Inbox queue ws =>
      let '(w, _) := Fifo.try_put_tapped (S := unit) (λ _ _ s, s) item {| Fifo.fifo := queue; Fifo.shared := ∅; Fifo.woken := ws |} in
      Inbox (Fifo.fifo w) (Fifo.woken w)
  | TapLog items => TapLog (items ++ [item])
  end.
Definition take_wakes (s : State) : State * list Waker :=
  match s with Inbox queue ws => (Inbox queue [], ws) | _ => (s, []) end.

Abbreviation Objs := (Objects Z State unit unit).
Abbreviation U := (Env Any Objs).
Abbreviation Code := (@Async.Code N Empty_set U Out).
Abbreviation V := (Code (Result unit TestError)).
Abbreviation Test := (@Kit.Test N Empty_set Any Objs).
Abbreviation P := (@Phases Any Objs).
Definition objs : Lens U Objs := part id (λ x _, x).
Definition state (k : nat) : Code State := shared_get objs k (ItemCount 0).

(** A subscriber's state is made with it, and [build] subscribes a handle. *)
Definition counter : Node := mkNode "Counter" tt [("input", FPort "subscribe" 1)].
Definition Counter : P :=
  with_build (λ n _, subscribe objs 1 0 ;; Ret n)
  (with_report (λ _ ctx, s <- state 0 ;;
    match s with ItemCount c => info ctx ("counted " +:+ pretty c +:+ " items") | _ => Ret tt end) default_phases).
Definition collector : Node := mkNode "Collector" tt [("input", FPort "subscribe" 2)].
Definition Collector : P :=
  with_build (λ n _, subscribe objs 2 1 ;; Ret n)
  (with_report (λ _ ctx, s <- state 1 ;;
    match s with SeenList l => info ctx ("collected " +:+ debug_list l) | _ => Ret tt end) default_phases).
Definition number_gen : Node := mkNode "NumberGen" tt [("ap", FPort "publish" 0)].
Definition NumberGen : P := with_run (λ ctx, with_objection "generating" (
  for_each [0; 1; 2] (λ n, port_write objs write take_wakes 0 n ;; info ctx ("wrote " +:+ pretty n)) ;; ok)) default_phases.

Definition BroadcastTest : P :=
  with_build (λ n _,
    s <- new_with_ports objs number_gen ;;
    shared_new objs 0 (ItemCount 0) ;; c <- new_with_ports objs counter ;;
    shared_new objs 1 (SeenList []) ;; l <- new_with_ports objs collector ;;
    bus_new objs 0 ;;
    Ret (set_field "source" s (set_field "counter" c (set_field "collector" l n))))
  (with_connect (λ n _,
    pub_connect objs 0 (child n "source") "ap" ;;
    sub_connect objs 0 (child n "counter") "input" ;;
    sub_connect objs 0 (child n "collector") "input") default_phases).

Definition NoSubscribersTest : P :=
  with_build (λ n _, s <- new_with_ports objs number_gen ;; bus_new objs 0 ;; Ret (set_field "source" s n))
  (with_connect (λ n _, pub_connect objs 0 (child n "source") "ap") default_phases).

(** [my_queue.get().await] on a handle of the inbox's own FIFO. *)
Definition inbox_get (k : nat) : Code Z :=
  Await (λ (_ : unit) cx (u : U),
    match cells (view objs u) !! k with
    | Some (Inbox queue ws) =>
        let '(w, p) := Fifo.poll_get (S := unit) (λ _ _ s, s) cx {| Fifo.fifo := queue; Fifo.shared := ∅; Fifo.woken := ws |} in
        Done (update objs (set_cells (<[k := Inbox (Fifo.fifo w) []]> (cells (view objs u))) (view objs u)) u, Fifo.woken w, tt, p)
    | _ => Panic "no inbox"                             (* a handle keeps its FIFO alive *)
    end) (λ _ u, (u, [])) tt.
Definition slow_checker : Node := mkNode "SlowChecker" tt [("input", FPort "subscribe" 3)].
Definition SlowChecker : P :=
  with_build (λ n _, shared_new objs 2 (Inbox (Fifo.new Queue.new None) []) ;; subscribe objs 3 2 ;; Ret n)
  (with_run (λ ctx, with_objection "checking" (
    repeat_ 3 (n <- inbox_get 2 ;; ns 5 ;; info ctx ("checked " +:+ pretty n)) ;; ok)) default_phases).
Definition SlowSubscriberTest : P :=
  with_build (λ n _,
    s <- new_with_ports objs number_gen ;;
    c <- new_with_ports objs slow_checker ;;
    bus_new objs 0 ;;
    Ret (set_field "source" s (set_field "checker" c n)))
  (with_connect (λ n _,
    pub_connect objs 0 (child n "source") "ap" ;;
    sub_connect objs 0 (child n "checker") "input") default_phases).

(** Chapter 31's producer and consumer, with the consumer's first line gone. *)
Definition producer : Node := mkNode "Producer" tt [("put_port", FPort "put" 4)].
Definition Producer : P := with_run (λ ctx, with_objection "producing" (
  for_each [0; 1; 2] (λ n, port_put objs write take_wakes 4 n ;; info ctx ("put " +:+ pretty n)) ;; ok)) default_phases.
Definition consumer : Node := mkNode "Consumer" tt [("peek_port", FPort "peek" 5); ("get_port", FPort "get" 6)].
Definition Consumer : P := with_run (λ ctx, with_objection "consuming" (
  repeat_ 3 (
    seen <- port_peek objs take_wakes 5 ;;
    got <- port_get objs write take_wakes 6 ;;
    assert (seen =? got) "peek must not consume the item" ;;
    info ctx ("got " +:+ pretty got)) ;;
  ok)) default_phases.
Definition tap_watcher : Node := mkNode "TapWatcher" tt [("input", FPort "subscribe" 7)].
Definition TapWatcher : P :=
  with_build (λ n _, subscribe objs 7 3 ;; Ret n)
  (with_report (λ _ ctx, s <- state 3 ;;
    match s with TapLog l => info ctx ("tap saw " +:+ debug_list l) | _ => Ret tt end) default_phases).
Definition FifoTapTest : P :=
  with_build (λ n _,
    p <- new_with_ports objs producer ;;
    c <- new_with_ports objs consumer ;;
    shared_new objs 3 (TapLog []) ;; w <- new_with_ports objs tap_watcher ;;
    fifo_new objs 0 (Some 1%nat) ;;
    Ret (set_field "producer" p (set_field "consumer" c (set_field "watcher" w n))))
  (with_connect (λ n _,
    put_connect objs 0 (child n "producer") "put_port" ;;
    peek_connect objs 0 (child n "consumer") "peek_port" ;;
    get_connect objs 0 (child n "consumer") "get_port" ;;
    tap_connect objs true 0 (child n "watcher") "input") default_phases).

Definition phases (ty : string) : P := by_type [
  ("Counter", Counter); ("Collector", Collector); ("NumberGen", NumberGen); ("BroadcastTest", BroadcastTest);
  ("NoSubscribersTest", NoSubscribersTest); ("SlowChecker", SlowChecker); ("SlowSubscriberTest", SlowSubscriberTest);
  ("Producer", Producer); ("Consumer", Consumer); ("TapWatcher", TapWatcher); ("FifoTapTest", FifoTapTest)] ty.
Definition test (ty : string) (children : list string) (plumbing : string * Field) : Z → V :=
  component_test phases (port_bound objs) (mkNode ty tt (map (λ c, (c, slot)) children ++ [plumbing])).
Definition tests : list Test :=
  let reg := Chapters.registered "ch32-analysis-ports/src/ch32_analysis_ports.rs" in
  [(reg 193%nat "BroadcastTest", test "BroadcastTest" ["source"; "counter"; "collector"] ("bus", bus_child));
   (reg 231%nat "NoSubscribersTest", test "NoSubscribersTest" ["source"] ("bus", bus_child));
   (reg 325%nat "SlowSubscriberTest", test "SlowSubscriberTest" ["source"; "checker"] ("bus", bus_child));
   (reg 444%nat "FifoTapTest", test "FifoTapTest" ["producer"; "consumer"; "watcher"] ("fifo", fifo_child))].
End Ch32.

(** ** What the examples' READMEs print *)

Definition transcript31 : list string :=
  ["      0.00ns INFO     rustdv: found 4 test(s), RUSTDV_RANDOM_SEED=1";
   "      0.00ns INFO     running PutGetPeekTest (1/4)  [ch31-component-communications/src/ch31_component_communications.rs:124]";
   "      0.00ns INFO     [PutGetPeekTest.producer]: put 0";
   "      0.00ns INFO     [PutGetPeekTest.consumer]: peeked 0";
   "      0.00ns INFO     [PutGetPeekTest.consumer]: got 0";
   "      0.00ns INFO     [PutGetPeekTest.producer]: put 1";
   "      0.00ns INFO     [PutGetPeekTest.consumer]: peeked 1";
   "      0.00ns INFO     [PutGetPeekTest.consumer]: got 1";
   "      0.00ns INFO     [PutGetPeekTest.producer]: put 2";
   "      0.00ns INFO     [PutGetPeekTest.consumer]: peeked 2";
   "      0.00ns INFO     [PutGetPeekTest.consumer]: got 2";
   "      0.00ns INFO     PutGetPeekTest PASSED";
   "      0.00ns INFO     running NonBlockingTest (2/4)  [ch31-component-communications/src/ch31_component_communications.rs:247]";
   "      0.00ns INFO     [NonBlockingTest.producer]: put 0";
   "      0.00ns INFO     [NonBlockingTest.producer]: FIFO full, retrying";
   "      0.00ns INFO     [NonBlockingTest.consumer]: got pkt0 (n=0)";
   "      1.00ns INFO     [NonBlockingTest.producer]: put 1";
   "      1.00ns INFO     [NonBlockingTest.producer]: FIFO full, retrying";
   "      1.00ns INFO     [NonBlockingTest.consumer]: got pkt1 (n=1)";
   "      2.00ns INFO     [NonBlockingTest.producer]: put 2";
   "      2.00ns INFO     [NonBlockingTest.consumer]: got pkt2 (n=2)";
   "      2.00ns INFO     NonBlockingTest PASSED";
   "      2.00ns INFO     running MathTest (3/4)  [ch31-component-communications/src/ch31_component_communications.rs:345]";
   "      2.00ns INFO     [MathTest.square_it]: 1² = 1";
   "      2.00ns INFO     [MathTest.times_two]: 2 × 1 = 2";
   "      2.00ns INFO     [MathTest]: PASSED: x=1, y=2";
   "      2.00ns INFO     [MathTest.square_it]: 2² = 4";
   "      2.00ns INFO     [MathTest.times_two]: 2 × 4 = 8";
   "      2.00ns INFO     [MathTest]: PASSED: x=2, y=8";
   "      2.00ns INFO     [MathTest.square_it]: 3² = 9";
   "      2.00ns INFO     [MathTest.times_two]: 2 × 9 = 18";
   "      2.00ns INFO     [MathTest]: PASSED: x=3, y=18";
   "      2.00ns INFO     [MathTest.square_it]: 4² = 16";
   "      2.00ns INFO     [MathTest.times_two]: 2 × 16 = 32";
   "      2.00ns INFO     [MathTest]: PASSED: x=4, y=32";
   "      2.00ns INFO     MathTest PASSED";
   "      2.00ns INFO     running UnconnectedTest (4/4)  [ch31-component-communications/src/ch31_component_communications.rs:421]";
   "      2.00ns INFO     UnconnectedTest PASSED";
   "******************************************************************************";
   "** TEST                                       STATUS  SIM TIME (ns)      **";
   "******************************************************************************";
   "** PutGetPeekTest                               PASS           0.00      **";
   "** NonBlockingTest                              PASS           2.00      **";
   "** MathTest                                     PASS           0.00      **";
   "** UnconnectedTest                              PASS           0.00      **";
   "******************************************************************************";
   "REGRESSION: PASS"].
Definition transcript32 : list string :=
  ["      0.00ns INFO     rustdv: found 4 test(s), RUSTDV_RANDOM_SEED=1";
   "      0.00ns INFO     running BroadcastTest (1/4)  [ch32-analysis-ports/src/ch32_analysis_ports.rs:193]";
   "      0.00ns INFO     [BroadcastTest.source]: wrote 0";
   "      0.00ns INFO     [BroadcastTest.source]: wrote 1";
   "      0.00ns INFO     [BroadcastTest.source]: wrote 2";
   "      0.00ns INFO     [BroadcastTest.counter]: counted 3 items";
   "      0.00ns INFO     [BroadcastTest.collector]: collected [0, 1, 2]";
   "      0.00ns INFO     BroadcastTest PASSED";
   "      0.00ns INFO     running NoSubscribersTest (2/4)  [ch32-analysis-ports/src/ch32_analysis_ports.rs:231]";
   "      0.00ns INFO     [NoSubscribersTest.source]: wrote 0";
   "      0.00ns INFO     [NoSubscribersTest.source]: wrote 1";
   "      0.00ns INFO     [NoSubscribersTest.source]: wrote 2";
   "      0.00ns INFO     NoSubscribersTest PASSED";
   "      0.00ns INFO     running SlowSubscriberTest (3/4)  [ch32-analysis-ports/src/ch32_analysis_ports.rs:325]";
   "      0.00ns INFO     [SlowSubscriberTest.source]: wrote 0";
   "      0.00ns INFO     [SlowSubscriberTest.source]: wrote 1";
   "      0.00ns INFO     [SlowSubscriberTest.source]: wrote 2";
   "      5.00ns INFO     [SlowSubscriberTest.checker]: checked 0";
   "     10.00ns INFO     [SlowSubscriberTest.checker]: checked 1";
   "     15.00ns INFO     [SlowSubscriberTest.checker]: checked 2";
   "     15.00ns INFO     SlowSubscriberTest PASSED";
   "     15.00ns INFO     running FifoTapTest (4/4)  [ch32-analysis-ports/src/ch32_analysis_ports.rs:444]";
   "     15.00ns INFO     [FifoTapTest.producer]: put 0";
   "     15.00ns INFO     [FifoTapTest.consumer]: got 0";
   "     15.00ns INFO     [FifoTapTest.producer]: put 1";
   "     15.00ns INFO     [FifoTapTest.consumer]: got 1";
   "     15.00ns INFO     [FifoTapTest.producer]: put 2";
   "     15.00ns INFO     [FifoTapTest.consumer]: got 2";
   "     15.00ns INFO     [FifoTapTest.watcher]: tap saw [0, 1, 2]";
   "     15.00ns INFO     FifoTapTest PASSED";
   "******************************************************************************";
   "** TEST                                       STATUS  SIM TIME (ns)      **";
   "******************************************************************************";
   "** BroadcastTest                                PASS           0.00      **";
   "** NoSubscribersTest                            PASS           0.00      **";
   "** SlowSubscriberTest                           PASS          15.00      **";
   "** FifoTapTest                                  PASS           0.00      **";
   "******************************************************************************";
   "REGRESSION: PASS"].

(** The chapters on component communication run as printed.  With seed 1 the
    regressions of chapters 31 and 32 end without trouble, every test passes, and
    the console is exactly the README's transcript, whether value-change callbacks
    come oldest or newest first: a producer and a consumer
    alternate through a FIFO of depth one, a refused [try_put] gives the packet
    back to be retried a nanosecond later, a parent's run body feeds a pipeline of
    its children and gets 2x² back, a port left unconnected ends the test with
    tlm_unconnected_port before any run body starts; a write reaches every
    subscriber at once, or nobody, a subscriber that needs time works its own
    inbox off while the publisher does not wait, and a tap sees every item put. *)
Theorem book_tlm_transcripts : Forall (λ order,
  (∃ r, Bench.report _ (simulate Chapters.playground order 1000 Ch31.own0 Ch31.tests 1) = Some r ∧
    came_to Ch31.tests (λ _, Runner.Pass) r ∧ printed r = transcript31) ∧
  (∃ r, Bench.report _ (simulate Chapters.playground order 1000 no_objects Ch32.tests 1) = Some r ∧
    came_to Ch32.tests (λ _, Runner.Pass) r ∧ printed r = transcript32)) [oldest_first; newest_first].
Proof. repeat constructor; run_bench. Qed.

End TlmChapters.
