(* ===== verification/AluSeq.v ===== *)
(** * AluSeq: the TinyALU benches 6.0 to 8.0
    (output/examples/ch34-connections-testbench-6.0, ch36-sequence-testbench-7.0,
    ch38-fibonacci-testbench-7.2 and ch39-virtual-sequence-testbench-8.0): ports,
    FIFOs and analysis buses between the components, then sequences on a
    sequencer, answered, virtual and in parallel, run against the design on the
    host; and ch37-out-of-order-transaction-testbench-7.1, which needs no design. *)
From Stdlib Require Import Ascii String.
From stdpp Require Import pretty.
From S2P Require Import Prelude Words Values Queue Sync Factory Tlm Sequence Signals Time PhaseHub Triggers Executor Path Log Config Objection Component Rng Runner Handles Errors Async Host Kit Bench Tree Alu AluHost Chapters AluChapters TlmKit TlmChapters.
Local Open Scope Z_scope.

Module AluSeq.
Import Async Component Kit Bench Tree TlmKit Utils.
Import Alu(Ops, Add, And, Xor, Mul, ALL, from_u64, AluCommand, AluResult).
Import Factory(mkNode, FPlain, FPort).
Import TlmChapters(fifo_child, bus_child, debug_list).
Local Open Scope string_scope.
Local Open Scope Z_scope.
Local Open Scope code_scope.

(** ** State *)

(** What the database holds: the bus functional model, a sequencer's handle, a
    flag, and overrides. *)
Inductive Any := ABfm (b : TinyAluBfm) | ASeqr (i : nat) | ABool (b : bool) | AOverride (o : @Factory.Override unit).
#[export] Instance typed_bfm : Config.Typed Any TinyAluBfm :=
  {| Config.type_id := 0; Config.type_name := "alloc::rc::Rc<tinyalu_utils::TinyAluBfm>"; Config.debug := λ _, "TinyAluBfm";
     Config.inject := ABfm; Config.downcast := λ a, match a with ABfm b => Some b | _ => None end |}.
#[export] Instance typed_seqr : Config.Typed Any nat :=
  {| Config.type_id := 1; Config.type_name := "rustdv_methodology::sequence::Sequencer<AluCommand, AluResult>";
     Config.debug := λ _, "Sequencer"; Config.inject := ASeqr; Config.downcast := λ a, match a with ASeqr i => Some i | _ => None end |}.
#[export] Instance typed_bool : Config.Typed Any bool :=
  {| Config.type_id := 2; Config.type_name := "bool"; Config.debug := λ b : bool, if b then "true" else "false";
     Config.inject := ABool; Config.downcast := λ a, match a with ABool b => Some b | _ => None end |}.
#[export] Instance typed_override : Config.Typed Any (@Factory.Override unit) :=
  {| Config.type_id := 3; Config.type_name := "rustdv_methodology::factory::Override"; Config.debug := Factory.debug_override;
     Config.inject := AOverride; Config.downcast := λ a, match a with AOverride o => Some o | _ => None end |}.

Definition Command : Set := Z * Z * Ops.
(** The states behind the command bus' subscribers. *)
Inductive CmdSub : Set := CmdLog (cmds : list CmdTuple) | OpsSeen (ops : list Ops).
(** One store per transaction type; the overrides map a sequence type to the type
    made in its place. *)
Record Own := {
  queues : Queues;
  commands : Objects Command unit unit unit;
  cmds : Objects CmdTuple CmdSub unit unit;
  results : Objects Z (list Z) unit unit;
  items : Objects unit unit AluCommand AluResult;
  tester_rng : option Rng.Rng;
  seq_overrides : gmap string (string * string);
}.
Definition own0 : Own :=
  {| queues := fresh_queues; commands := no_objects; cmds := no_objects; results := no_objects; items := no_objects;
     tester_rng := None; seq_overrides := ∅ |}.
Definition set_queues x o : Own := {| queues := x; commands := commands o; cmds := cmds o; results := results o; items := items o; tester_rng := tester_rng o; seq_overrides := seq_overrides o |}.
Definition set_commands x o : Own := {| queues := queues o; commands := x; cmds := cmds o; results := results o; items := items o; tester_rng := tester_rng o; seq_overrides := seq_overrides o |}.
Definition set_cmds x o : Own := {| queues := queues o; commands := commands o; cmds := x; results := results o; items := items o; tester_rng := tester_rng o; seq_overrides := seq_overrides o |}.
Definition set_results x o : Own := {| queues := queues o; commands := commands o; cmds := cmds o; results := x; items := items o; tester_rng := tester_rng o; seq_overrides := seq_overrides o |}.
Definition set_items x o : Own := {| queues := queues o; commands := commands o; cmds := cmds o; results := results o; items := x; tester_rng := tester_rng o; seq_overrides := seq_overrides o |}.
Definition set_rng x o : Own := {| queues := queues o; commands := commands o; cmds := cmds o; results := results o; items := items o; tester_rng := x; seq_overrides := seq_overrides o |}.
Definition set_overrides x o : Own := {| queues := queues o; commands := commands o; cmds := cmds o; results := results o; items := items o; tester_rng := tester_rng o; seq_overrides := x |}.

Abbreviation U := (Env Any Own).
Abbreviation Code := (@Async.Code N Empty_set U Out).
Abbreviation V := (Code (Result unit TestError)).
Abbreviation Test := (@Kit.Test N Empty_set Any Own).
Abbreviation P := (@Phases Any Own).
Implicit Types ctx : RustdvCtx.

Definition command_l : Lens U (Objects Command unit unit unit) := part commands set_commands.
Definition cmd_l : Lens U (Objects CmdTuple CmdSub unit unit) := part cmds set_cmds.
Definition result_l : Lens U (Objects Z (list Z) unit unit) := part results set_results.
Definition item_l : Lens U (Objects unit unit AluCommand AluResult) := part items set_items.
Definition no_wakes {S : Set} (s : S) : S * list Waker := (s, []).

(** [Subscriber::write] of the logs. *)
Definition write_cmd (k : nat) (cmd : CmdTuple) (s : CmdSub) : CmdSub :=
  match s with
  | CmdLog l => CmdLog (l ++ [cmd])
  | OpsSeen ops => match from_u64 cmd.2 with Some op => OpsSeen (insert op ops) | None => s end
  end.
Definition write_result (k : nat) (r : Z) (l : list Z) : list Z := l ++ [r].

(** [T::new_comp()]: the ports of each transaction type get their cells. *)
Definition made (n : Node) : Code Field :=
  new_ports command_l n ;; new_ports cmd_l n ;; new_ports result_l n ;; new_ports item_l n ;; Ret (new_comp n).
Definition bound (u : U) (a : nat) : bool :=
  port_bound command_l u a || port_bound cmd_l u a || port_bound result_l u a || port_bound item_l u a.

Definition send_op : Z → Z → Ops → Code unit := Utils.send_op queues set_queues.
Definition get_cmd : Code CmdTuple := Utils.get_cmd queues set_queues.
Definition get_result : Code Z := Utils.get_result queues set_queues.
Definition start_tasks : TinyAluBfm → Code unit := Utils.start_tasks queues set_queues.
Definition get_bfm ctx : Code (Result TinyAluBfm TestError) := config_try (Some ctx) "" "BFM".
Definition expect_bfm ctx : Code TinyAluBfm := config_expect (Some ctx) "" "BFM" "the test sets BFM".
Definition file_bfm : Code unit :=
  r <- bfm_new set_queues ;;
  match r with Ok bfm => config_set None "*" "BFM" bfm | Err _ => Throw "TinyALU signals" end.
Definition start_env ctx : Code unit := bfm <- expect_bfm ctx ;; start_tasks bfm.
(** The flush: twenty clocks. *)
Definition flush ctx : V :=
  bfm <-? get_bfm ctx ;;
  repeat_ 20 (falling_edge (clk bfm)) ;;
  ok.

(** ** Observation: the monitors and the scoreboard of 6.0 *)

Definition cmd_monitor : Node := mkNode "CmdMonitor" tt [("ap", FPort "publish" 3)].
Definition CmdMonitor : P := with_run (λ ctx,
  bfm <-? get_bfm ctx ;;
  Loop (λ _, cmd <- get_cmd ;; port_write cmd_l write_cmd no_wakes 3 cmd ;; Ret (inl tt)) tt) default_phases.
Definition result_monitor : Node := mkNode "ResultMonitor" tt [("ap", FPort "publish" 4)].
Definition ResultMonitor : P := with_run (λ ctx,
  bfm <-? get_bfm ctx ;;
  Loop (λ _, r <- get_result ;; port_write result_l write_result no_wakes 4 r ;; Ret (inl tt)) tt) default_phases.

Definition scoreboard : Node := mkNode "Scoreboard" tt [("cmd_in", FPort "subscribe" 5); ("result_in", FPort "subscribe" 6)].
(** [Scoreboard::new_comp()]: its logs are made with it. *)
Definition made_scoreboard : Code Field := shared_new cmd_l 0 (CmdLog []) ;; shared_new result_l 0 [] ;; made scoreboard.
Definition Scoreboard_build (n : Node) ctx : Code Node := subscribe cmd_l 5 0 ;; subscribe result_l 6 0 ;; Ret n.
Definition cmd_log : Code (list CmdTuple) :=
  s <- shared_get cmd_l 0 (CmdLog []) ;; Ret (match s with CmdLog l => l | OpsSeen _ => [] end).
Fixpoint compare ctx (l : list (CmdTuple * Z)) (cvg : list Ops) (s : CheckSink) : Code (CheckSink * list Ops) :=
  match l with
  | [] => Ret (s, cvg)
  | ((aa, bb, op_int), r) :: rest =>
      match from_u64 op_int with
      | None => Throw "legal op"
      | Some op =>
          let actual := wrap 16 r in
          let prediction := alu_prediction (wrap 8 aa) (wrap 8 bb) op in
          s' <- (if actual =? prediction then info ctx (passed_line aa bb op actual) ;; Ret s
                 else sink_error (failed_line aa bb op actual prediction) s) ;;
          compare ctx rest (insert op cvg) s'
      end
  end.
Definition compare_logs ctx (s : CheckSink) : Code (CheckSink * list Ops) :=
  cs <- cmd_log ;;
  rs <- shared_get result_l 0 [] ;;
  compare ctx (zip cs rs) [] s.
Definition missed (cvg : list Ops) : bool := existsb (λ op, negb (contains cvg op)) ALL.
Definition Scoreboard_check ctx (s : CheckSink) : Code CheckSink :=
  r <- compare_logs ctx s ;;
  let '(s', cvg) := r in
  if missed cvg then sink_error "Functional coverage error: missed operations" s'
  else info ctx "Covered all operations" ;; Ret s'.
Definition Scoreboard : P := with_build Scoreboard_build (with_check Scoreboard_check default_phases).

Definition test (phases : string → P) (n : Node) (seed : Z) : V := component_test phases bound n seed.
Definition env_slot (name : string) : Node := mkNode name tt [("env", slot)].

(** ** Test bench 6.0: the connections *)

Module Ch34.
Definition tester : Node := mkNode "Tester" tt [("cmd_port", FPort "put" 0)].
Fixpoint put_ops (ops : list Ops) (r : Rng.Rng) : Code unit :=
  match ops with
  | [] => edit (set_rng (Some r))
  | op :: rest =>
      let '(r1, aa) := Rng.u8 r in let '(r2, bb) := Rng.u8 r1 in
      port_put command_l (λ _ _ s, s) no_wakes 0 (aa, bb, op) ;; put_ops rest r2
  end.
Definition Tester : P :=
  with_build (λ n ctx, edit (set_rng (Some (rng ctx))) ;; Ret n)
  (with_run (λ ctx, with_objection "stimulus" (
    r <- look tester_rng ;;
    match r with
    | None => Throw "build ran"
    | Some r => put_ops ALL r ;; flush ctx
    end)) default_phases).
Definition driver : Node := mkNode "Driver" tt [("cmd_port", FPort "get" 1)].
Definition Driver : P := with_run (λ ctx,
  bfm <-? get_bfm ctx ;;
  reset bfm ;;
  Loop (λ _, cmd <- port_get command_l (λ _ _ s, s) no_wakes 1 ;; let '(aa, bb, op) := (cmd : Command) in send_op aa bb op ;; Ret (inl tt)) tt)
  default_phases.
Definition coverage : Node := mkNode "Coverage" tt [("cmd_in", FPort "subscribe" 7)].
Definition Coverage : P :=
  with_build (λ n _, subscribe cmd_l 7 1 ;; Ret n)
  (with_report (λ _ ctx, s <- shared_get cmd_l 1 (OpsSeen []) ;;
    match s with
    | OpsSeen ops => info ctx ("coverage saw " +:+ pretty (length ops) +:+ " of " +:+ pretty (length ALL) +:+ " ops")
    | CmdLog _ => Ret tt
    end) default_phases).
Definition AluEnv : P :=
  with_build (λ n _,
    t <- made tester ;; d <- made driver ;; c <- made cmd_monitor ;; r <- made result_monitor ;; s <- made_scoreboard ;;
    shared_new cmd_l 1 (OpsSeen []) ;; v <- made coverage ;;
    fifo_new command_l 0 (Some 1%nat) ;; bus_new cmd_l 0 ;; bus_new result_l 0 ;;
    Ret (set_field "tester" t (set_field "driver" d (set_field "cmd_mon" c (set_field "result_mon" r
        (set_field "scoreboard" s (set_field "coverage" v n)))))))
  (with_connect (λ n _,
    put_connect command_l 0 (child n "tester") "cmd_port" ;;
    get_connect command_l 0 (child n "driver") "cmd_port" ;;
    pub_connect cmd_l 0 (child n "cmd_mon") "ap" ;;
    sub_connect cmd_l 0 (child n "scoreboard") "cmd_in" ;;
    sub_connect cmd_l 0 (child n "coverage") "cmd_in" ;;
    pub_connect result_l 0 (child n "result_mon") "ap" ;;
    sub_connect result_l 0 (child n "scoreboard") "result_in")
  (with_start (λ _ ctx, start_env ctx) default_phases)).
Definition env : Node := mkNode "AluEnv" tt
  (map (λ f, (f, slot)) ["tester"; "driver"; "cmd_mon"; "result_mon"; "scoreboard"; "coverage"]
   ++ [("cmd_fifo", fifo_child); ("cmd_bus", bus_child); ("result_bus", bus_child)]).
Definition AluTest : P := with_build (λ n _, file_bfm ;; Ret (set_field "env" (new_comp env) n)) default_phases.
Definition phases : string → P := by_type [
  ("Tester", Tester); ("Driver", Driver); ("CmdMonitor", CmdMonitor); ("ResultMonitor", ResultMonitor);
  ("Scoreboard", Scoreboard); ("Coverage", Coverage); ("AluEnv", AluEnv); ("AluTest", AluTest)].
Definition tests : list Test :=
  let reg := Chapters.registered "ch34-connections-testbench-6.0/src/ch34_connections_testbench_6_0.rs" in
  [(reg 346%nat "AluTest", test phases (env_slot "AluTest"))].
End Ch34.

(** ** Sequences *)

(** Nothing in the framework sets the seed of the sequences, so it keeps its
    initial value. *)
Definition current_seed : Z := 1.
Abbreviation SeqResult := (Result unit string).
Definition Body : Type := SeqCtx → Code SeqResult.
(** [Sequence::start] and [start_virtual] of a type whose [seq_name] is its own. *)
Definition start (name : string) (body : Body) (seqr : nat) : Code SeqResult := body (seq_ctx (Some seqr) name current_seed).
Definition start_virtual (name : string) (body : Body) : Code SeqResult := body (seq_ctx None name current_seed).
(** [?] in a run body. *)
Definition seq_run (c : Code SeqResult) : V := map_err (λ m, Errors.te_from_seq (Errors.seq_error m)) c.
(** [ConfigDb::get(None, "", "SEQR")?] in a sequence, [ConfigDb::get(Some(ctx), ..)?] in a component. *)
Definition seq_find_seqr : Code (Result nat string) := map_err Errors.config_display (config_get None "" "SEQR").
Definition find_seqr ctx : Code (Result nat TestError) := config_try (Some ctx) "" "SEQR".
(** [self.seqr = Sequencer::new()] and its handle filed. *)
Definition file_seqr : Code unit := seqr_new item_l 0 ;; config_set None "*" "SEQR" 0%nat.
Definition seqr_child : Field := FPlain (leaf "Sequencer").

(** The factory's second registry. *)
Definition set_seq_override (from to : string) : Code unit :=
  edit (λ o, set_overrides (Overrides.set_seq_override from to to (seq_overrides o)) o).
Definition create_seq (ty : string) : Code string :=
  r <- look (λ o, Overrides.get (Overrides.create_seq ty ty (seq_overrides o))) ;;
  match r with Ok name => Ret name | Err m => Throw m end.

(** [trait Operands] and [all_ops]. *)
Definition Operands : Type := Rng.Rng → AluCommand → Rng.Rng * AluCommand.
Fixpoint all_ops_from (set_operands : Operands) (ops : list Ops) (r : Rng.Rng) (c : SeqCtx) : Code SeqResult :=
  match ops with
  | [] => Ret (Ok tt)
  | op :: rest =>
      seq_try (start_item item_l c) (λ c _,
      let '(r', cmd) := set_operands r {| Alu.a := 0; Alu.b := 0; Alu.op := op |} in
      seq_try (finish_item item_l c cmd) (λ c _, all_ops_from set_operands rest r' c))
  end.
Definition all_ops (set_operands : Operands) : Body := λ c, all_ops_from set_operands ALL (seq_rng c) c.
Definition base_operands : Operands := λ r cmd, (r, cmd).
Definition random_operands : Operands := λ r cmd,
  let '(r1, x) := Rng.u8 r in let '(r2, y) := Rng.u8 r1 in (r2, {| Alu.a := x; Alu.b := y; Alu.op := Alu.op cmd |}).
Definition max_operands : Operands := λ r cmd, (r, {| Alu.a := 0xFF; Alu.b := 0xFF; Alu.op := Alu.op cmd |}).
Definition BaseSeq : Body := all_ops base_operands.
Definition RandomSeq : Body := all_ops random_operands.
Definition MaxSeq : Body := all_ops max_operands.

(** The driver's port, and its [get_next_item] and [item_done]. *)
Definition next_item : Code AluCommand := i <- get_next_item item_l 1 ;; Ret (Sequencer.item_payload i).
Definition item_done_ (r : option AluResult) : Code unit := item_done item_l 1 r.

(** ** Test bench 7.0: sequences *)

Module Ch36.
Definition driver : Node := mkNode "Driver" tt [("seq_item_port", FPort "seq_item" 1)].
Definition Driver : P := with_run (λ ctx,
  bfm <-? get_bfm ctx ;;
  reset bfm ;;
  Loop (λ _, cmd <- next_item ;; send_op (Alu.a cmd) (Alu.b cmd) (Alu.op cmd) ;; item_done_ None ;; Ret (inl tt)) tt) default_phases.
Definition AluEnv : P :=
  with_build (λ n _,
    file_seqr ;;
    d <- made driver ;; c <- made cmd_monitor ;; r <- made result_monitor ;; s <- made_scoreboard ;;
    bus_new cmd_l 0 ;; bus_new result_l 0 ;;
    Ret (set_field "driver" d (set_field "cmd_mon" c (set_field "result_mon" r (set_field "scoreboard" s n)))))
  (with_connect (λ n _,
    seq_item_connect item_l 0 (child n "driver") "seq_item_port" ;;
    pub_connect cmd_l 0 (child n "cmd_mon") "ap" ;;
    sub_connect cmd_l 0 (child n "scoreboard") "cmd_in" ;;
    pub_connect result_l 0 (child n "result_mon") "ap" ;;
    sub_connect result_l 0 (child n "scoreboard") "result_in")
  (with_start (λ _ ctx, start_env ctx) default_phases)).
Definition env : Node := mkNode "AluEnv" tt
  ([("seqr", seqr_child)] ++ map (λ f, (f, slot)) ["driver"; "cmd_mon"; "result_mon"; "scoreboard"]
   ++ [("cmd_bus", bus_child); ("result_bus", bus_child)]).

(** The bodies by sequence type. *)
Definition body_of (name : string) : Body :=
  if String.eqb name "RandomSeq" then RandomSeq else if String.eqb name "MaxSeq" then MaxSeq else BaseSeq.
Definition BaseTest : P :=
  with_build (λ n _, file_bfm ;; Ret (set_field "env" (new_comp env) n))
  (with_run (λ ctx, with_objection "running the sequence" (
    seqr <-? find_seqr ctx ;;
    name <- create_seq "BaseSeq" ;;
    _ <-? seq_run (start name (body_of name) seqr) ;;
    flush ctx)) default_phases).
(** The two tests around it. *)
Definition overriding (to : string) : P :=
  with_build (λ n _, set_seq_override "BaseSeq" to ;; Ret (set_field "inner" (new_comp (env_slot "BaseTest")) n)) default_phases.
Definition phases : string → P := by_type [
  ("Driver", Driver); ("CmdMonitor", CmdMonitor); ("ResultMonitor", ResultMonitor); ("Scoreboard", Scoreboard);
  ("AluEnv", AluEnv); ("BaseTest", BaseTest); ("RandomTest", overriding "RandomSeq"); ("MaxTest", overriding "MaxSeq")].
Definition tests : list Test :=
  let reg := Chapters.registered "ch36-sequence-testbench-7.0/src/ch36_sequence_testbench_7_0.rs" in
  let inner name := test phases (mkNode name tt [("inner", slot)]) in
  [(reg 385%nat "BaseTest", test phases (env_slot "BaseTest")); (reg 426%nat "RandomTest", inner "RandomTest");
   (reg 440%nat "MaxTest", inner "MaxTest")].
End Ch36.

(** ** Test bench 7.2: the driver answers *)

(** The driver of 7.2 and 8.0 waits for the result, publishes and returns it. *)
Definition answering_driver : Node := mkNode "Driver" tt [("seq_item_port", FPort "seq_item" 1); ("result_ap", FPort "publish" 2)].
Definition AnsweringDriver : P := with_run (λ ctx,
  bfm <-? get_bfm ctx ;;
  reset bfm ;;
  Loop (λ _,
    cmd <- next_item ;;
    send_op (Alu.a cmd) (Alu.b cmd) (Alu.op cmd) ;;
    r <- get_result ;;
    port_write result_l write_result no_wakes 2 r ;;
    item_done_ (Some {| Alu.result := wrap 16 r |}) ;;
    Ret (inl tt)) tt) default_phases.

Module Ch38.
(** The loop of [body]: [n] more sums. *)
Fixpoint fibonacci (n : nat) (prev cur : Z) (fib : list Z) (c : SeqCtx) : Code SeqResult :=
  match n with
  | O => seq_info c ("Fibonacci Sequence: " +:+ debug_list fib) ;; Ret (Ok tt)
  | S k =>
      seq_try (start_item item_l c) (λ c _,
      seq_try (finish_item item_l c {| Alu.a := prev; Alu.b := cur; Alu.op := Add |}) (λ c ticket,
      r <- get_response item_l c (Some ticket) ;;
      let sum := Alu.result r in
      fibonacci k cur (wrap 8 sum) (fib ++ [sum]) c))
  end.
Definition FibonacciSeq : Body := fibonacci 7 0 1 [0; 1].

Definition watcher : Node := mkNode "ResultWatcher" tt [("input", FPort "subscribe" 8)].
Definition ResultWatcher : P :=
  with_build (λ n _, subscribe result_l 8 0 ;; Ret n)
  (with_check (λ ctx s,
    seen <- shared_get result_l 0 [] ;;
    let expected := [1; 2; 3; 5; 8; 13; 21] in
    if bool_decide (seen = expected) then info ctx ("adder produced " +:+ debug_list seen) ;; Ret s
    else sink_error ("expected " +:+ debug_list expected +:+ ", saw " +:+ debug_list seen) s) default_phases).
Definition FibEnv : P :=
  with_build (λ n _,
    file_seqr ;;
    d <- made answering_driver ;;
    bus_new result_l 0 ;;
    shared_new result_l 0 [] ;; w <- made watcher ;;
    Ret (set_field "driver" d (set_field "watcher" w n)))
  (with_connect (λ n _,
    seq_item_connect item_l 0 (child n "driver") "seq_item_port" ;;
    pub_connect result_l 0 (child n "driver") "result_ap" ;;
    sub_connect result_l 0 (child n "watcher") "input")
  (with_start (λ _ ctx, start_env ctx) default_phases)).
Definition env : Node := mkNode "FibEnv" tt
  [("seqr", seqr_child); ("driver", slot); ("result_bus", bus_child); ("watcher", slot)].
Definition FibonacciTest : P :=
  with_build (λ n _, file_bfm ;; Ret (set_field "env" (new_comp env) n))
  (with_run (λ ctx, with_objection "computing Fibonacci" (
    seqr <-? find_seqr ctx ;;
    _ <-? seq_run (start "FibonacciSeq" FibonacciSeq seqr) ;;
    ok)) default_phases).
Definition phases : string → P := by_type [
  ("Driver", AnsweringDriver); ("ResultWatcher", ResultWatcher); ("FibEnv", FibEnv); ("FibonacciTest", FibonacciTest)].
Definition tests : list Test :=
  let reg := Chapters.registered "ch38-fibonacci-testbench-7.2/src/ch38_fibonacci_testbench_7_2.rs" in
  [(reg 228%nat "FibonacciTest", test phases (env_slot "FibonacciTest"))].
End Ch38.

(** ** Test bench 8.0: virtual sequences *)

Module Ch39.
Definition TestAllSeq : Body := λ c,
  seqr <-? seq_find_seqr ;;
  _ <-? start "RandomSeq" RandomSeq seqr ;;
  _ <-? start "MaxSeq" MaxSeq seqr ;;
  seq_info c "ran random, then max" ;;
  Ret (Ok tt).
Definition TestAllParallelSeq : Body := λ c,
  seqr <-? seq_find_seqr ;;
  ab <- Join2 (start "RandomSeq" RandomSeq seqr) (start "MaxSeq" MaxSeq seqr) ;;
  _ <-? Ret ab.1 ;;
  _ <-? Ret ab.2 ;;
  seq_info c "ran random and max together" ;;
  Ret (Ok tt).

(** The programming interface: [OpSeq]'s body stores the result, [do_op] takes it
    out. *)
Definition OpSeq (a b : Z) (op : Ops) (c : SeqCtx) : Code (Result (option Z) string) :=
  seq_try (start_item item_l c) (λ c _,
  seq_try (finish_item item_l c {| Alu.a := a; Alu.b := b; Alu.op := op |}) (λ c ticket,
  r <- get_response item_l c (Some ticket) ;;
  Ret (Ok (Some (Alu.result r))))).
Definition do_op (seqr : nat) (a b : Z) (op : Ops) : Code (Result Z string) :=
  result <-? OpSeq a b op (seq_ctx (Some seqr) "OpSeq" current_seed) ;;
  Ret (match result with Some r => Ok r | None => Err "the driver returned no result" end).
Definition do_add (seqr : nat) (a b : Z) : Code (Result Z string) := do_op seqr a b Add.

Fixpoint fibonacci (n : nat) (seqr : nat) (prev cur : Z) (fib : list Z) : Code (Result (list Z) string) :=
  match n with
  | O => Ret (Ok fib)
  | S k => sum <-? do_add seqr prev cur ;; fibonacci k seqr cur (wrap 8 sum) (fib ++ [sum])
  end.
Definition FibonacciProgramSeq : Body := λ c,
  seqr <-? seq_find_seqr ;;
  fib <-? fibonacci 7 seqr 0 1 [0; 1] ;;
  seq_info c ("Fibonacci Sequence: " +:+ debug_list fib) ;;
  Ret (Ok tt).

Definition Scoreboard_check ctx (s : CheckSink) : Code CheckSink :=
  r <- compare_logs ctx s ;;
  let '(s', cvg) := r in
  want_full <- unwrap_or true (config_get (Some ctx) "" "CHECK_COVERAGE") ;;
  if (want_full : bool) && missed cvg then sink_error "Functional coverage error: missed operations" s'
  else if want_full : bool then info ctx "Covered all operations" ;; Ret s'
  else info ctx ("saw " +:+ pretty (length cvg) +:+ " of " +:+ pretty (length ALL) +:+ " ops (coverage not required)") ;; Ret s'.
Definition Scoreboard : P := with_build Scoreboard_build (with_check Scoreboard_check default_phases).
Definition AluEnv : P :=
  with_build (λ n _,
    file_seqr ;;
    d <- made answering_driver ;; c <- made cmd_monitor ;; s <- made_scoreboard ;;
    bus_new cmd_l 0 ;; bus_new result_l 0 ;;
    Ret (set_field "driver" d (set_field "cmd_mon" c (set_field "scoreboard" s n))))
  (with_connect (λ n _,
    seq_item_connect item_l 0 (child n "driver") "seq_item_port" ;;
    pub_connect cmd_l 0 (child n "cmd_mon") "ap" ;;
    sub_connect cmd_l 0 (child n "scoreboard") "cmd_in" ;;
    pub_connect result_l 0 (child n "driver") "result_ap" ;;
    sub_connect result_l 0 (child n "scoreboard") "result_in")
  (with_start (λ _ ctx, start_env ctx) default_phases)).
Definition env : Node := mkNode "AluEnv" tt
  ([("seqr", seqr_child)] ++ map (λ f, (f, slot)) ["driver"; "cmd_mon"; "scoreboard"]
   ++ [("cmd_bus", bus_child); ("result_bus", bus_child)]).

(** The three tests: what each files before it makes the environment, and its run. *)
Definition virtual_test (files : Code unit) (objection : string) (run : V) : P :=
  with_build (λ n _, file_bfm ;; files ;; Ret (set_field "env" (new_comp env) n))
  (with_run (λ _, with_objection objection run) default_phases).
Definition body_of (name : string) : Body := TestAllSeq.       (* nothing overrides it here *)
Definition AluTest : P := virtual_test (Ret tt) "running the virtual sequence" (
  name <- create_seq "TestAllSeq" ;; _ <-? seq_run (start_virtual name (body_of name)) ;; ok).
Definition ParallelTest : P := virtual_test (Ret tt) "running two sequences at once" (
  _ <-? seq_run (start_virtual "TestAllParallelSeq" TestAllParallelSeq) ;; ok).
Definition FibonacciProgramTest : P := virtual_test (config_set None "*" "CHECK_COVERAGE" false) "running the Fibonacci program" (
  _ <-? seq_run (start_virtual "FibonacciProgramSeq" FibonacciProgramSeq) ;; ok).
Definition phases : string → P := by_type [
  ("Driver", AnsweringDriver); ("CmdMonitor", CmdMonitor); ("Scoreboard", Scoreboard); ("AluEnv", AluEnv);
  ("AluTest", AluTest); ("ParallelTest", ParallelTest); ("FibonacciProgramTest", FibonacciProgramTest)].
Definition tests : list Test :=
  let reg := Chapters.registered "ch39-virtual-sequence-testbench-8.0/src/ch39_virtual_sequence_testbench_8_0.rs" in
  [(reg 440%nat "AluTest", test phases (env_slot "AluTest")); (reg 461%nat "ParallelTest", test phases (env_slot "ParallelTest"));
   (reg 482%nat "FibonacciProgramTest", test phases (env_slot "FibonacciProgramTest"))].
End Ch39.

(** ** Test bench 7.1: answers out of order *)

Module Ch37.
(** [Req { delay }] and [Rsp { delay }]. *)
Record InFlight : Set := { ticket : nat; delay : Z; left : Z }.
Record Own37 := { objs : Objects unit unit Z Z; outstanding : list InFlight }.
Definition fresh : Own37 := {| objs := no_objects; outstanding := [] |}.
Abbreviation U := (Env Any Own37).
Abbreviation Code := (@Async.Code N Empty_set U Out).
Abbreviation V := (Code (Result unit TestError)).
Abbreviation Test := (@Kit.Test N Empty_set Any Own37).
Abbreviation P := (@Phases Any Own37).
Definition obj_l : Lens U (Objects unit unit Z Z) := part objs (λ x o, {| objs := x; outstanding := outstanding o |}).
Definition set_outstanding l o : Own37 := {| objs := objs o; outstanding := l |}.
Definition show (t : nat) : string := "#" +:+ pretty t.

(** The second half of a tick: age what is outstanding, answer what is due. *)
Fixpoint age ctx (jobs still_working : list InFlight) : Code (list InFlight) :=
  match jobs with
  | [] => Ret still_working
  | job :: rest =>
      if 1 <? left job then
        age ctx rest (still_working ++ [{| ticket := ticket job; delay := delay job; left := left job - 1 |}])
      else
        info ctx ("answering " +:+ show (ticket job)) ;;
        put_response obj_l 0 (ticket job) (delay job) ;;
        age ctx rest still_working
  end.
Definition accept ctx : Code unit :=
  i <- try_next_item obj_l 0 ;;
  match i with
  | None => Ret tt
  | Some i =>
      let t := Sequencer.txn_id i in
      let d := Sequencer.item_payload i in
      info ctx ("accepted " +:+ show t +:+ ", delay " +:+ pretty d) ;;
      item_done obj_l 0 None ;;
      edit (λ o, set_outstanding (outstanding o ++ [{| ticket := t; delay := d; left := d |}]) o)
  end.
Definition driver : Node := mkNode "Driver" tt [("seq_item_port", FPort "seq_item" 0)].
Definition Driver : P := with_run (λ ctx,
  Loop (λ _,
    ns 5 ;;
    accept ctx ;;
    ns 5 ;;
    jobs <- look outstanding ;;
    l <- age ctx jobs [] ;;
    edit (set_outstanding l) ;;
    Ret (inl tt)) tt) default_phases.

Fixpoint send (delays : list Z) (tickets : list nat) (c : SeqCtx) (k : SeqCtx → list nat → Code SeqResult) : Code SeqResult :=
  match delays with
  | [] => k c tickets
  | d :: rest =>
      seq_try (start_item obj_l c) (λ c _,
      seq_try (finish_item obj_l c d) (λ c t,
      seq_info c ("sent " +:+ show t +:+ ", delay " +:+ pretty d) ;;
      send rest (tickets ++ [t]) c k))
  end.
(** One round of polling. *)
Fixpoint poll_tickets (c : SeqCtx) (waiting still_waiting : list nat) : Code (list nat) :=
  match waiting with
  | [] => Ret still_waiting
  | t :: rest =>
      r <- try_get_response obj_l c (Some t) ;;
      match r with
      | Some rsp => seq_info c ("got " +:+ show t +:+ ", delay " +:+ pretty (rsp : Z)) ;; poll_tickets c rest still_waiting
      | None => poll_tickets c rest (still_waiting ++ [t])
      end
  end.
Definition Seq (c : SeqCtx) : Code SeqResult :=
  send [10; 7; 4; 1] [] c (λ c tickets,
  Loop (λ waiting,
    match waiting with
    | [] => Ret (inr tt)
    | _ => ns 10 ;; l <- poll_tickets c waiting [] ;; Ret (inl l)
    end) tickets ;;
  Ret (Ok tt)).

Definition Env_ : P :=
  with_build (λ n _,
    seqr_new obj_l 0 ;; config_set None "*" "SEQR" 0%nat ;;
    edit (set_outstanding []) ;; d <- new_with_ports obj_l driver ;;       (* Driver::new_comp() *)
    Ret (set_field "driver" d n))
  (with_connect (λ n _, seq_item_connect obj_l 0 (child n "driver") "seq_item_port") default_phases).
Definition env : Node := mkNode "Env" tt [("seqr", seqr_child); ("driver", slot)].
Definition ResponseTest : P :=
  with_build (λ n _, Ret (set_field "env" (new_comp env) n))
  (with_run (λ ctx, with_objection "requests outstanding" (
    seqr <-? config_try (T := nat) (Some ctx) "" "SEQR" ;;
    _ <-? map_err (λ m, Errors.te_from_seq (Errors.seq_error m)) (Seq (seq_ctx (Some seqr) "Seq" current_seed)) ;;
    ok)) default_phases).
Definition phases : string → P := by_type [("Driver", Driver); ("Env", Env_); ("ResponseTest", ResponseTest)].
Definition tests : list Test :=
  let reg := Chapters.registered "ch37-out-of-order-transaction-testbench-7.1/src/ch37_out_of_order_transaction_testbench_7_1.rs" in
  [(reg 231%nat "ResponseTest", component_test phases (port_bound obj_l) (env_slot "ResponseTest"))].
End Ch37.

(** ** What the examples' READMEs print *)

Definition transcript34 : list string :=
  ["      0.00ns INFO     rustdv: found 1 test(s), RUSTDV_RANDOM_SEED=1";
   "      0.00ns INFO     running AluTest (1/1)  [ch34-connections-testbench-6.0/src/ch34_connections_testbench_6_0.rs:346]";
   "    240.00ns INFO     [AluTest.env.scoreboard]: PASSED: c1 Add 67 = 0128";
   "    240.00ns INFO     [AluTest.env.scoreboard]: PASSED: 5e And 0b = 000a";
   "    240.00ns INFO     [AluTest.env.scoreboard]: PASSED: b9 Xor 80 = 0039";
   "    240.00ns INFO     [AluTest.env.scoreboard]: PASSED: a5 Mul 75 = 4b69";
   "    240.00ns INFO     [AluTest.env.scoreboard]: Covered all operations";
   "    240.00ns INFO     [AluTest.env.coverage]: coverage saw 4 of 4 ops";
   "    240.00ns INFO     AluTest PASSED";
   "******************************************************************************";
   "** TEST                                       STATUS  SIM TIME (ns)      **";
   "******************************************************************************";
   "** AluTest                                      PASS         240.00      **";
   "******************************************************************************";
   "REGRESSION: PASS"].
Definition transcript36 : list string :=
  ["      0.00ns INFO     rustdv: found 3 test(s), RUSTDV_RANDOM_SEED=1";
   "      0.00ns INFO     running BaseTest (1/3)  [ch36-sequence-testbench-7.0/src/ch36_sequence_testbench_7_0.rs:385]";
   "    280.00ns INFO     [BaseTest.env.scoreboard]: PASSED: 00 Add 00 = 0000";
   "    280.00ns INFO     [BaseTest.env.scoreboard]: PASSED: 00 And 00 = 0000";
   "    280.00ns INFO     [BaseTest.env.scoreboard]: PASSED: 00 Xor 00 = 0000";
   "    280.00ns INFO     [BaseTest.env.scoreboard]: PASSED: 00 Mul 00 = 0000";
   "    280.00ns INFO     [BaseTest.env.scoreboard]: Covered all operations";
   "    280.00ns INFO     BaseTest PASSED";
   "    280.00ns INFO     running RandomTest (2/3)  [ch36-sequence-testbench-7.0/src/ch36_sequence_testbench_7_0.rs:426]";
   "    560.00ns INFO     [RandomTest.inner.env.scoreboard]: PASSED: c1 Add 67 = 0128";
   "    560.00ns INFO     [RandomTest.inner.env.scoreboard]: PASSED: 5e And 0b = 000a";
   "    560.00ns INFO     [RandomTest.inner.env.scoreboard]: PASSED: b9 Xor 80 = 0039";
   "    560.00ns INFO     [RandomTest.inner.env.scoreboard]: PASSED: a5 Mul 75 = 4b69";
   "    560.00ns INFO     [RandomTest.inner.env.scoreboard]: Covered all operations";
   "    560.00ns INFO     RandomTest PASSED";
   "    560.00ns INFO     running MaxTest (3/3)  [ch36-sequence-testbench-7.0/src/ch36_sequence_testbench_7_0.rs:440]";
   "    840.00ns INFO     [MaxTest.inner.env.scoreboard]: PASSED: ff Add ff = 01fe";
   "    840.00ns INFO     [MaxTest.inner.env.scoreboard]: PASSED: ff And ff = 00ff";
   "    840.00ns INFO     [MaxTest.inner.env.scoreboard]: PASSED: ff Xor ff = 0000";
   "    840.00ns INFO     [MaxTest.inner.env.scoreboard]: PASSED: ff Mul ff = fe01";
   "    840.00ns INFO     [MaxTest.inner.env.scoreboard]: Covered all operations";
   "    840.00ns INFO     MaxTest PASSED";
   "******************************************************************************";
   "** TEST                                       STATUS  SIM TIME (ns)      **";
   "******************************************************************************";
   "** BaseTest                                     PASS         280.00      **";
   "** RandomTest                                   PASS         280.00      **";
   "** MaxTest                                      PASS         280.00      **";
   "******************************************************************************";
   "REGRESSION: PASS"].
Definition transcript37 : list string :=
  ["      0.00ns INFO     rustdv: found 1 test(s), RUSTDV_RANDOM_SEED=1";
   "      0.00ns INFO     running ResponseTest (1/1)  [ch37-out-of-order-transaction-testbench-7.1/src/ch37_out_of_order_transaction_testbench_7_1.rs:231]";
   "     15.00ns INFO     [ResponseTest.env.driver]: accepted #1, delay 10";
   "     15.00ns INFO     [Seq]: sent #1, delay 10";
   "     35.00ns INFO     [ResponseTest.env.driver]: accepted #2, delay 7";
   "     35.00ns INFO     [Seq]: sent #2, delay 7";
   "     55.00ns INFO     [ResponseTest.env.driver]: accepted #3, delay 4";
   "     55.00ns INFO     [Seq]: sent #3, delay 4";
   "     75.00ns INFO     [ResponseTest.env.driver]: accepted #4, delay 1";
   "     75.00ns INFO     [Seq]: sent #4, delay 1";
   "     80.00ns INFO     [ResponseTest.env.driver]: answering #4";
   "     85.00ns INFO     [Seq]: got #4, delay 1";
   "     90.00ns INFO     [ResponseTest.env.driver]: answering #3";
   "     95.00ns INFO     [Seq]: got #3, delay 4";
   "    100.00ns INFO     [ResponseTest.env.driver]: answering #2";
   "    105.00ns INFO     [Seq]: got #2, delay 7";
   "    110.00ns INFO     [ResponseTest.env.driver]: answering #1";
   "    115.00ns INFO     [Seq]: got #1, delay 10";
   "    115.00ns INFO     ResponseTest PASSED";
   "******************************************************************************";
   "** TEST                                       STATUS  SIM TIME (ns)      **";
   "******************************************************************************";
   "** ResponseTest                                 PASS         115.00      **";
   "******************************************************************************";
   "REGRESSION: PASS"].
Definition transcript38 : list string :=
  ["      0.00ns INFO     rustdv: found 1 test(s), RUSTDV_RANDOM_SEED=1";
   "      0.00ns INFO     running FibonacciTest (1/1)  [ch38-fibonacci-testbench-7.2/src/ch38_fibonacci_testbench_7_2.rs:228]";
   "    170.00ns INFO     [FibonacciSeq]: Fibonacci Sequence: [0, 1, 1, 2, 3, 5, 8, 13, 21]";
   "    170.00ns INFO     [FibonacciTest.env.watcher]: adder produced [1, 2, 3, 5, 8, 13, 21]";
   "    170.00ns INFO     FibonacciTest PASSED";
   "******************************************************************************";
   "** TEST                                       STATUS  SIM TIME (ns)      **";
   "******************************************************************************";
   "** FibonacciTest                                PASS         170.00      **";
   "******************************************************************************";
   "REGRESSION: PASS"].
Definition transcript39 : list string :=
  ["      0.00ns INFO     rustdv: found 3 test(s), RUSTDV_RANDOM_SEED=1";
   "      0.00ns INFO     running AluTest (1/3)  [ch39-virtual-sequence-testbench-8.0/src/ch39_virtual_sequence_testbench_8_0.rs:440]";
   "    250.00ns INFO     [TestAllSeq]: ran random, then max";
   "    250.00ns INFO     [AluTest.env.scoreboard]: PASSED: c1 Add 67 = 0128";
   "    250.00ns INFO     [AluTest.env.scoreboard]: PASSED: 5e And 0b = 000a";
   "    250.00ns INFO     [AluTest.env.scoreboard]: PASSED: b9 Xor 80 = 0039";
   "    250.00ns INFO     [AluTest.env.scoreboard]: PASSED: a5 Mul 75 = 4b69";
   "    250.00ns INFO     [AluTest.env.scoreboard]: PASSED: ff Add ff = 01fe";
   "    250.00ns INFO     [AluTest.env.scoreboard]: PASSED: ff And ff = 00ff";
   "    250.00ns INFO     [AluTest.env.scoreboard]: PASSED: ff Xor ff = 0000";
   "    250.00ns INFO     [AluTest.env.scoreboard]: PASSED: ff Mul ff = fe01";
   "    250.00ns INFO     [AluTest.env.scoreboard]: Covered all operations";
   "    250.00ns INFO     AluTest PASSED";
   "    250.00ns INFO     running ParallelTest (2/3)  [ch39-virtual-sequence-testbench-8.0/src/ch39_virtual_sequence_testbench_8_0.rs:461]";
   "    500.00ns INFO     [TestAllParallelSeq]: ran random and max together";
   "    500.00ns INFO     [ParallelTest.env.scoreboard]: PASSED: c1 Add 67 = 0128";
   "    500.00ns INFO     [ParallelTest.env.scoreboard]: PASSED: ff Add ff = 01fe";
   "    500.00ns INFO     [ParallelTest.env.scoreboard]: PASSED: 5e And 0b = 000a";
   "    500.00ns INFO     [ParallelTest.env.scoreboard]: PASSED: ff And ff = 00ff";
   "    500.00ns INFO     [ParallelTest.env.scoreboard]: PASSED: b9 Xor 80 = 0039";
   "    500.00ns INFO     [ParallelTest.env.scoreboard]: PASSED: ff Xor ff = 0000";
   "    500.00ns INFO     [ParallelTest.env.scoreboard]: PASSED: a5 Mul 75 = 4b69";
   "    500.00ns INFO     [ParallelTest.env.scoreboard]: PASSED: ff Mul ff = fe01";
   "    500.00ns INFO     [ParallelTest.env.scoreboard]: Covered all operations";
   "    500.00ns INFO     ParallelTest PASSED";
   "    500.00ns INFO     running FibonacciProgramTest (3/3)  [ch39-virtual-sequence-testbench-8.0/src/ch39_virtual_sequence_testbench_8_0.rs:482]";
   "    670.00ns INFO     [FibonacciProgramSeq]: Fibonacci Sequence: [0, 1, 1, 2, 3, 5, 8, 13, 21]";
   "    670.00ns INFO     [FibonacciProgramTest.env.scoreboard]: PASSED: 00 Add 01 = 0001";
   "    670.00ns INFO     [FibonacciProgramTest.env.scoreboard]: PASSED: 01 Add 01 = 0002";
   "    670.00ns INFO     [FibonacciProgramTest.env.scoreboard]: PASSED: 01 Add 02 = 0003";
   "    670.00ns INFO     [FibonacciProgramTest.env.scoreboard]: PASSED: 02 Add 03 = 0005";
   "    670.00ns INFO     [FibonacciProgramTest.env.scoreboard]: PASSED: 03 Add 05 = 0008";
   "    670.00ns INFO     [FibonacciProgramTest.env.scoreboard]: PASSED: 05 Add 08 = 000d";
   "    670.00ns INFO     [FibonacciProgramTest.env.scoreboard]: saw 1 of 4 ops (coverage not required)";
   "    670.00ns INFO     FibonacciProgramTest PASSED";
   "******************************************************************************";
   "** TEST                                       STATUS  SIM TIME (ns)      **";
   "******************************************************************************";
   "** AluTest                                      PASS         250.00      **";
   "** ParallelTest                                 PASS         250.00      **";
   "** FibonacciProgramTest                         PASS         170.00      **";
   "******************************************************************************";
   "REGRESSION: PASS"].

(** The last comparison of FibonacciProgramTest. *)
Definition last_sum : string := "PASSED: 08 Add 0d = 0015".
Definition mentions (part l : string) : bool := match String.index 0 part l with Some _ => true | None => false end.

(** The benches with sequences run as printed.  With seed 1, and the callbacks
    of an edge called newest first, the regressions of
    chapters 34, 36, 37, 38 and 39 (commands through a FIFO and broadcasts to two
    subscribers; three sequences on one sequencer, substituted by override; answers
    collected out of order by ticket; a sequence that computes Fibonacci numbers
    with the design's adder; virtual sequences one after the other, in parallel and
    as a programming interface) end without trouble, every test passes, and the
    console is exactly the README's transcript. *)
Theorem book_sequence_transcripts :
  let exactly {X} d (x : X) (tests : list (@Kit.Test N Empty_set Any X)) transcript :=
    ∃ r, Bench.report _ (simulate d newest_first 1000 x tests 1) = Some r ∧
    came_to tests (λ _, Runner.Pass) r ∧ printed r = transcript in
  exactly AluHost.tinyalu own0 Ch34.tests transcript34 ∧ exactly AluHost.tinyalu own0 Ch36.tests transcript36 ∧
  exactly Chapters.playground Ch37.fresh Ch37.tests transcript37 ∧
  exactly AluHost.tinyalu own0 Ch38.tests transcript38 ∧ exactly AluHost.tinyalu own0 Ch39.tests transcript39.
Proof. cbv zeta. split_and!; run_bench. Qed.

(** The same benches pass when the simulator calls the callbacks of a clock
    edge oldest first; but then chapter 39's scoreboard compares all seven sums of
    FibonacciProgramTest, where newest first, as in the printed transcript, the
    objection is dropped before the last command has reached its log: the seventh
    sum is never compared, and the test passes all the same. *)
Theorem scoreboard_misses_last_sum :
  let passes order (tests : list Test) (also : Report → Prop) :=
    ∃ r, Bench.report _ (simulate AluHost.tinyalu order 1000 own0 tests 1) = Some r ∧ came_to tests (λ _, Runner.Pass) r ∧ also r in
  passes oldest_first Ch39.tests (λ r, existsb (mentions last_sum) (printed r) = true) ∧
  passes newest_first Ch39.tests (λ r, existsb (mentions last_sum) (printed r) = false) ∧
  Forall (λ tests, passes oldest_first tests (λ _, True)) [Ch34.tests; Ch36.tests; Ch38.tests].
Proof. cbv zeta. split_and!; [run_bench|run_bench|]. repeat constructor; (eexists; split; [vm_compute; reflexivity|]; repeat split). Qed.
End AluSeq.
