(* ===== verification/TinyaluTb.v ===== *)
(** * TinyaluTb: the shipped test bench end to end
    (rustdv/tinyalu_tb/src/alu_bfm.rs, components.rs, env.rs, sequences.rs and
    tinyalu_tb.rs).

    Tinyalu.v and Env.v prove the bench's protocol and its wiring for every
    sequence and configuration; here the same code is [Code], composed with the
    regression runner, the phaser, the sequencer, the analysis buses and the bus
    functional model's tasks, and run against the design on the host. *)
From Stdlib Require Import Ascii String.
From stdpp Require Import pretty.
From S2P Require Import Prelude Words Values Queue Sync Factory Tlm Sequence Signals Time PhaseHub Triggers Executor Path Log Config Objection Component Rng Runner Handles Errors Async Host Kit Bench Tree Alu Env Probe AluHost Chapters AluChapters TlmKit TlmChapters.
Local Open Scope Z_scope.

Module TinyaluTb.
Import Async Component Kit Bench Tree TlmKit.
Import Alu(Ops, ALL, AluCommand, AluResult, predict, from_u64, as_u64, op_debug, cmd_debug, result_debug, set_operands, Operands).
Import Utils(TinyAluBfm, handles, clk, reset_n, start, done, a, b, op, result).
Import Env(Active, Active_, Passive).
Import Factory(mkNode, FPlain, FPort).
Import TlmChapters(bus_child).
Local Open Scope string_scope.
Local Open Scope Z_scope.
Local Open Scope code_scope.

(** ** State *)

Inductive Any :=
| ABfm (b : TinyAluBfm) | ASeqr (i : nat) | ABool (b : bool) | AActive (x : Active) | AOverride (o : @Factory.Override unit).
#[export] Instance typed_bfm : Config.Typed Any TinyAluBfm :=
  {| Config.type_id := 0; Config.type_name := "alloc::rc::Rc<tinyalu_tb::alu_bfm::TinyAluBfm>"; Config.debug := λ _, "TinyAluBfm";
     Config.inject := ABfm; Config.downcast := λ x, match x with ABfm b => Some b | _ => None end |}.
#[export] Instance typed_seqr : Config.Typed Any nat :=
  {| Config.type_id := 1; Config.type_name := "rustdv_methodology::sequence::Sequencer<AluCommand, AluResult>";
     Config.debug := λ _, "Sequencer"; Config.inject := ASeqr; Config.downcast := λ x, match x with ASeqr i => Some i | _ => None end |}.
#[export] Instance typed_bool : Config.Typed Any bool :=
  {| Config.type_id := 2; Config.type_name := "bool"; Config.debug := λ b : bool, if b then "true" else "false";
     Config.inject := ABool; Config.downcast := λ x, match x with ABool b => Some b | _ => None end |}.
#[export] Instance typed_active : Config.Typed Any Active :=
  {| Config.type_id := 3; Config.type_name := "rustdv_methodology::component::Active";
     Config.debug := λ x, match x with Active_ => "Active" | Passive => "Passive" end;
     Config.inject := AActive; Config.downcast := λ x, match x with AActive v => Some v | _ => None end |}.
#[export] Instance typed_override : Config.Typed Any (@Factory.Override unit) :=
  {| Config.type_id := 4; Config.type_name := "rustdv_methodology::factory::Override"; Config.debug := Factory.debug_override;
     Config.inject := AOverride; Config.downcast := λ x, match x with AOverride o => Some o | _ => None end |}.

(** The bus functional model's queues. *)
Record Queues := { driver_q : Queue.QInner AluCommand; cmd_q : Queue.QInner AluCommand; result_q : Queue.QInner AluResult }.
(** What the command bus' subscribers keep. *)
Inductive CmdSub : Set := CmdLog (cmds : list AluCommand) | CovCollector (seen : list (Ops * nat)).
(** The flags are [AluEnv]'s, the counters the scoreboard's. *)
Record Own := {
  queues : Queues;
  cmds : Objects AluCommand CmdSub unit unit;
  results : Objects AluResult (list AluResult) unit unit;
  items : Objects unit unit AluCommand AluResult;
  seq_overrides : gmap string (string * string);
  flags : bool * bool;                                  (* is_active, with_coverage *)
  counts : nat * nat;                                   (* compared, mismatches *)
}.
Definition fresh_queues : Queues := {| driver_q := Queue.unbounded; cmd_q := Queue.unbounded; result_q := Queue.unbounded |}.
Definition own0 : Own :=
  {| queues := fresh_queues; cmds := no_objects; results := no_objects; items := no_objects; seq_overrides := ∅;
     flags := (false, false); counts := (0, 0)%nat |}.
Definition set_queues x o : Own := {| queues := x; cmds := cmds o; results := results o; items := items o; seq_overrides := seq_overrides o; flags := flags o; counts := counts o |}.
Definition set_cmds x o : Own := {| queues := queues o; cmds := x; results := results o; items := items o; seq_overrides := seq_overrides o; flags := flags o; counts := counts o |}.
Definition set_results x o : Own := {| queues := queues o; cmds := cmds o; results := x; items := items o; seq_overrides := seq_overrides o; flags := flags o; counts := counts o |}.
Definition set_items x o : Own := {| queues := queues o; cmds := cmds o; results := results o; items := x; seq_overrides := seq_overrides o; flags := flags o; counts := counts o |}.
Definition set_overrides x o : Own := {| queues := queues o; cmds := cmds o; results := results o; items := items o; seq_overrides := x; flags := flags o; counts := counts o |}.
Definition set_flags x o : Own := {| queues := queues o; cmds := cmds o; results := results o; items := items o; seq_overrides := seq_overrides o; flags := x; counts := counts o |}.
Definition set_counts x o : Own := {| queues := queues o; cmds := cmds o; results := results o; items := items o; seq_overrides := seq_overrides o; flags := flags o; counts := x |}.

Abbreviation U := (Env Any Own).
Abbreviation Code := (@Async.Code N Empty_set U Out).
Abbreviation V := (Code (Result unit TestError)).
Abbreviation Test := (@Kit.Test N Empty_set Any Own).
Abbreviation P := (@Phases Any Own).
Implicit Types ctx : RustdvCtx.

Definition driver_l : Lens U (Queue.QInner AluCommand) := part (λ o, driver_q (queues o))
  (λ q o, set_queues {| driver_q := q; cmd_q := cmd_q (queues o); result_q := result_q (queues o) |} o).
Definition cmd_q_l : Lens U (Queue.QInner AluCommand) := part (λ o, cmd_q (queues o))
  (λ q o, set_queues {| driver_q := driver_q (queues o); cmd_q := q; result_q := result_q (queues o) |} o).
Definition result_q_l : Lens U (Queue.QInner AluResult) := part (λ o, result_q (queues o))
  (λ q o, set_queues {| driver_q := driver_q (queues o); cmd_q := cmd_q (queues o); result_q := q |} o).
Definition cmd_l : Lens U (Objects AluCommand CmdSub unit unit) := part cmds set_cmds.
Definition result_l : Lens U (Objects AluResult (list AluResult) unit unit) := part results set_results.
Definition item_l : Lens U (Objects unit unit AluCommand AluResult) := part items set_items.

(** ** The bus functional model *)

Definition bfm_new : Code (Result TinyAluBfm Gpi.HandleError) :=
  bfm <-? Ret handles ;;
  edit (set_queues fresh_queues) ;; Ret (Ok bfm).

(** [while q.try_get().is_some() {}]. *)
Definition drain {T : Set} (q : Lens U (Queue.QInner T)) : Code unit :=
  Loop (λ _, x <- queue_try_get q ;; Ret (match x with Some _ => inl tt | None => inr tt end)) tt.
Definition binstr (s : Triggers.Sig) (m : string) : Code string :=
  r <- get_binstr s ;; match r with Ok v => Ret v | Err _ => Throw m end.

Section Bfm.
Variable self : TinyAluBfm.
Definition reset : Code unit :=
  set_u64 (reset_n self) 0 ;;
  set_u64 (start self) 0 ;;
  set_u64 (a self) 0 ;;
  set_u64 (b self) 0 ;;
  set_u64 (op self) 0 ;;
  repeat_ 5 (falling_edge (clk self)) ;;
  set_u64 (reset_n self) 1 ;;
  falling_edge (clk self) ;;
  drain cmd_q_l ;;
  drain result_q_l.

Definition wait_idle : Code unit :=
  Loop (λ idle_edges : Z,
    if idle_edges <? 2 then
      falling_edge (clk self) ;;
      empty <- look (λ o, Queue.is_empty (driver_q (queues o))) ;;
      idle <- (if (empty : bool) then
                 st <- is_low (start self) ;;
                 if (st : bool) then is_low (done self) else Ret false
               else Ret false) ;;
      Ret (inl (if (idle : bool) then idle_edges + 1 else 0))
    else Ret (inr tt)) 0 ;;
  falling_edge (clk self).

Definition driver_task : Code unit :=
  Loop (λ _ : unit,
    falling_edge (clk self) ;;
    st <- binstr (start self) "start signal did not return a VPI vector value" ;;
    dn <- binstr (done self) "done signal did not return a VPI vector value" ;;
    if String.eqb st "0" && String.eqb dn "0" then
      cmd <- queue_try_get driver_l ;;
      match cmd with
      | Some cmd =>
          set_u64 (a self) (Alu.a cmd) ;;
          set_u64 (b self) (Alu.b cmd) ;;
          set_u64 (op self) (as_u64 (Alu.op cmd)) ;;
          set_u64 (start self) 1 ;;
          Ret (inl tt)
      | None => Ret (inl tt)
      end
    else if String.eqb st "1" && String.eqb dn "1" then set_u64 (start self) 0 ;; Ret (inl tt)
    else Ret (inl tt)) tt.

Definition cmd_mon_task : Code unit :=
  Loop (λ prev_start : bool,
    falling_edge (clk self) ;;
    st <- is_high (start self) ;;
    (if st && negb prev_start then
       av <- get_u64 (a self) ;;
       bv <- get_u64 (b self) ;;
       opv <- get_u64 (op self) ;;
       match av, bv, opv with
       | Ok av, Ok bv, Ok opv =>
           match from_u64 opv with
           | Some ops => queue_try_put cmd_q_l {| Alu.a := wrap 8 av; Alu.b := wrap 8 bv; Alu.op := ops |} ;; Ret tt
           | None => Ret tt
           end
       | _, _, _ => Ret tt
       end
     else Ret tt) ;;
    Ret (inl st)) false.

Definition result_mon_task : Code unit :=
  Loop (λ _ : unit,
    falling_edge (clk self) ;;
    st <- is_high (start self) ;;
    (if (st : bool) then
       dn <- is_high (done self) ;;
       if (dn : bool) then
         r <- get_u64 (result self) ;;
         match r with Ok r => queue_try_put result_q_l {| Alu.result := wrap 16 r |} ;; Ret tt | Err _ => Ret tt end
       else Ret tt
     else Ret tt) ;;
    Ret (inl tt)) tt.

Definition start_tasks : Code unit :=
  spawn driver_task (Some "bfm.driver") ;;
  spawn cmd_mon_task (Some "bfm.cmd_mon") ;;
  spawn result_mon_task (Some "bfm.result_mon") ;;
  Ret tt.
End Bfm.
Definition send_op (cmd : AluCommand) : Code unit := queue_put driver_l cmd.
Definition get_cmd : Code AluCommand := queue_get cmd_q_l.
Definition get_result : Code AluResult := queue_get result_q_l.
Definition get_bfm ctx : Code (Result TinyAluBfm TestError) := config_try (Some ctx) "" "BFM".

(** ** Components *)

Definition no_wakes {S : Set} (s : S) : S * list Waker := (s, []).
(** [*seen.entry(op).or_insert(0) += 1]. *)
Fixpoint bump (o : Ops) (seen : list (Ops * nat)) : list (Ops * nat) :=
  match seen with
  | [] => [(o, 1%nat)]
  | (x, n) :: r => if decide (x = o) then (x, S n) :: r else (x, n) :: bump o r
  end.
Definition count (o : Ops) (seen : list (Ops * nat)) : option nat :=
  snd <$> find (λ e, bool_decide (e.1 = o)) seen.
Definition write_cmd (k : nat) (cmd : AluCommand) (s : CmdSub) : CmdSub :=
  match s with CmdLog l => CmdLog (l ++ [cmd]) | CovCollector seen => CovCollector (bump (Alu.op cmd) seen) end.
Definition write_result (k : nat) (r : AluResult) (l : list AluResult) : list AluResult := l ++ [r].

Definition driver : Node := mkNode "Driver" tt [("seq_item_port", FPort "seq_item" 0)].
Definition Driver : P := with_run (λ ctx,
  bfm <-? get_bfm ctx ;;
  reset bfm ;;
  Loop (λ _, item <- get_next_item item_l 0 ;; send_op (Sequencer.item_payload item) ;; item_done item_l 0 None ;; Ret (inl tt)) tt)
  default_phases.
Definition cmd_monitor : Node := mkNode "CmdMonitor" tt [("ap", FPort "publish" 1)].
Definition CmdMonitor : P := with_run (λ ctx,
  bfm <-? get_bfm ctx ;;
  Loop (λ _, cmd <- get_cmd ;; info ctx ("cmd_monitor: " +:+ cmd_debug cmd) ;; port_write cmd_l write_cmd no_wakes 1 cmd ;; Ret (inl tt)) tt)
  default_phases.
Definition result_monitor : Node := mkNode "ResultMonitor" tt [("ap", FPort "publish" 2)].
Definition ResultMonitor : P := with_run (λ ctx,
  bfm <-? get_bfm ctx ;;
  Loop (λ _, r <- get_result ;; info ctx ("result_monitor: " +:+ result_debug r) ;; port_write result_l write_result no_wakes 2 r ;; Ret (inl tt)) tt)
  default_phases.

Definition scoreboard : Node := mkNode "Scoreboard" tt [("cmd_in", FPort "subscribe" 3); ("result_in", FPort "subscribe" 4)].
Definition in_out (cmd : AluCommand) (actual : AluResult) (check : string) : string :=
  "scoreboard: in=" +:+ cmd_debug cmd +:+ " out=" +:+ result_debug actual +:+ " expected=" +:+ result_debug (predict cmd)
  +:+ " check=" +:+ check.
Fixpoint compare ctx (l : list (AluCommand * AluResult)) (s : CheckSink) : Code CheckSink :=
  match l with
  | [] => Ret s
  | (cmd, actual) :: rest =>
      if decide (predict cmd = actual) then
        edit (λ o, set_counts (S (counts o).1, (counts o).2) o) ;;
        info ctx (in_out cmd actual "PASS") ;;
        compare ctx rest s
      else
        edit (λ o, set_counts (S (counts o).1, S (counts o).2) o) ;;
        info ctx (in_out cmd actual "FAIL") ;;
        s' <- sink_error (Alu.mismatch_error cmd actual) s ;;
        compare ctx rest s'
  end.
Definition logged_cmds : Code (list AluCommand) :=
  s <- shared_get cmd_l 0 (CmdLog []) ;; Ret (match s with CmdLog l => l | CovCollector _ => [] end).
Definition Scoreboard_check ctx (s : CheckSink) : Code CheckSink :=
  cs <- logged_cmds ;;
  rs <- shared_get result_l 0 [] ;;
  s1 <- compare ctx (zip cs rs) s ;;
  s2 <- (if Nat.eqb (length cs) (length rs) then Ret s1
         else sink_error ("scoreboard: saw " +:+ pretty (length cs) +:+ " commands and " +:+ pretty (length rs) +:+ " results") s1) ;;
  n <- look counts ;;
  if Nat.eqb n.1 0 then sink_error "scoreboard: nothing was compared" s2 else Ret s2.
Definition Scoreboard : P :=
  with_build (λ n _, subscribe cmd_l 3 0 ;; subscribe result_l 4 0 ;; Ret n)
  (with_check Scoreboard_check
  (with_report (λ _ ctx, n <- look counts ;;
    info ctx ("scoreboard: " +:+ pretty n.1 +:+ " compared, " +:+ pretty n.2 +:+ " mismatches")) default_phases)).

Definition coverage : Node := mkNode "Coverage" tt [("cmd_in", FPort "subscribe" 5)].
Definition seen_ops : Code (list (Ops * nat)) :=
  s <- shared_get cmd_l 1 (CovCollector []) ;; Ret (match s with CovCollector l => l | CmdLog _ => [] end).
Fixpoint check_ops (ops : list Ops) (seen : list (Ops * nat)) (s : CheckSink) : Code CheckSink :=
  match ops with
  | [] => Ret s
  | o :: rest =>
      s' <- match count o seen with
            | Some _ => Ret s
            | None => sink_error ("coverage: op " +:+ op_debug o +:+ " was never exercised") s
            end ;;
      check_ops rest seen s'
  end.
(** [parts.sort()] of the four names. *)
Definition sorted_ops : list Ops := [Alu.Add; Alu.And; Alu.Mul; Alu.Xor].
Definition Coverage : P :=
  with_build (λ n _, subscribe cmd_l 5 1 ;; Ret n)
  (with_check (λ _ s, seen <- seen_ops ;; check_ops ALL seen s)
  (with_report (λ _ ctx, seen <- seen_ops ;;
    info ctx ("coverage: " +:+ String.concat " " (map (λ o, op_debug o +:+ "=" +:+ pretty (default 0%nat (count o seen))) sorted_ops)))
  default_phases)).

(** ** The environment *)

(** [T::create_comp()] with its ports. *)
Definition made (n : Node) : Code Field :=
  new_ports cmd_l n ;; new_ports result_l n ;; new_ports item_l n ;; Ret (create_comp n).
Definition bound (u : U) (x : nat) : bool := port_bound cmd_l u x || port_bound result_l u x || port_bound item_l u x.
Definition AluEnv_build (n : Node) ctx : Code Node :=
  activity <- unwrap_or Active_ (config_get (Some ctx) "" "IS_ACTIVE") ;;
  let is_active := bool_decide (activity = Active_) in
  with_coverage <- unwrap_or true (config_get (Some ctx) "" "WITH_COVERAGE") ;;
  edit (set_flags (is_active, with_coverage)) ;;
  seqr_new item_l 0 ;;
  config_set None "*" "SEQR" 0%nat ;;
  n1 <- (if is_active then d <- made driver ;; Ret (set_field "driver" d n) else Ret n) ;;
  c <- made cmd_monitor ;;
  r <- made result_monitor ;;
  shared_new cmd_l 0 (CmdLog []) ;; shared_new result_l 0 [] ;; edit (set_counts (0, 0)%nat) ;; s <- made scoreboard ;;
  n2 <- (if (with_coverage : bool) then
           shared_new cmd_l 1 (CovCollector []) ;; v <- made coverage ;; Ret (set_field "coverage" v n1)
         else Ret n1) ;;
  bus_new cmd_l 0 ;;
  bus_new result_l 0 ;;
  Ret (set_field "cmd_mon" c (set_field "result_mon" r (set_field "scoreboard" s n2))).
Definition AluEnv_connect (n : Node) ctx : Code unit :=
  f <- look flags ;;
  (if (f.1 : bool) then seq_item_connect item_l 0 (child n "driver") "seq_item_port" else Ret tt) ;;
  pub_connect cmd_l 0 (child n "cmd_mon") "ap" ;;
  sub_connect cmd_l 0 (child n "scoreboard") "cmd_in" ;;
  (if (f.2 : bool) then sub_connect cmd_l 0 (child n "coverage") "cmd_in" else Ret tt) ;;
  pub_connect result_l 0 (child n "result_mon") "ap" ;;
  sub_connect result_l 0 (child n "scoreboard") "result_in".
Definition AluEnv : P :=
  with_build AluEnv_build
  (with_connect AluEnv_connect
  (with_start (λ _ ctx, bfm <- config_expect (Some ctx) "" "BFM" "the test sets BFM" ;; start_tasks bfm) default_phases)).
Definition env : Node := mkNode "AluEnv" tt
  ([("seqr", FPlain (leaf "Sequencer"))] ++ map (λ f, (f, slot)) ["driver"; "cmd_mon"; "result_mon"; "scoreboard"; "coverage"]
   ++ [("cmd_bus", bus_child); ("result_bus", bus_child)]).

(** ** Sequences *)

Section Sequences.
Context {S : Type} `{!Operands S}.
Variable seq : S.
Fixpoint over_ops (ops : list Ops) (r : Rng.Rng) (c : SeqCtx) : Code (Result unit string) :=
  match ops with
  | [] => Ret (Ok tt)
  | o :: rest =>
      seq_try (start_item item_l c) (λ c _,
      let '(r', cmd) := set_operands seq r {| Alu.a := 0; Alu.b := 0; Alu.op := o |} in
      seq_try (finish_item item_l c cmd) (λ c _, over_ops rest r' c))
  end.
Definition all_ops (n : nat) (c : SeqCtx) : Code (Result unit string) := over_ops (mjoin (replicate n ALL)) (seq_rng c) c.
End Sequences.
Definition body_of (name : string) : SeqCtx → Code (Result unit string) :=
  if String.eqb name "RandomSeq" then all_ops Alu.Random 5
  else if String.eqb name "MaxSeq" then all_ops Alu.Max 1 else all_ops Alu.Base 1.

(** ** The tests *)

Definition BaseTest : P :=
  with_build (λ n _,
    r <- bfm_new ;;
    match r with
    | Ok bfm => config_set None "*" "BFM" bfm ;; Ret (set_field "env" (new_comp env) n)
    | Err _ => Throw "TinyALU signals"
    end)
  (with_run (λ ctx, with_objection "stimulus" (
    seqr <-? config_try (T := nat) (Some ctx) "" "SEQR" ;;
    o <- look (λ o, Overrides.get (Overrides.create_seq "BaseSeq" "BaseSeq" (seq_overrides o))) ;;
    _ <-? map_err (λ m, Errors.te_from_seq (Errors.seq_error m))
            (match o with Ok name => body_of name (seq_ctx (Some seqr) name 1) | Err m => Ret (Err m) end) ;;
    bfm <-? get_bfm ctx ;;
    wait_idle bfm ;;
    info ctx "sequence complete" ;;
    ok)) default_phases).
(** RandomTest and MaxTest. *)
Definition overriding (to : string) : P :=
  with_build (λ n _,
    edit (λ o, set_overrides (Overrides.set_seq_override "BaseSeq" to to (seq_overrides o)) o) ;;
    Ret (set_field "inner" (new_comp (mkNode "BaseTest" tt [("env", slot)])) n)) default_phases.
Definition phases : string → P := by_type [
  ("Driver", Driver); ("CmdMonitor", CmdMonitor); ("ResultMonitor", ResultMonitor); ("Scoreboard", Scoreboard);
  ("Coverage", Coverage); ("AluEnv", AluEnv); ("BaseTest", BaseTest); ("RandomTest", overriding "RandomSeq");
  ("MaxTest", overriding "MaxSeq")].
(** Both tests have a timeout of 500 us. *)
Definition registered (line : nat) (name : string) : Runner.TestRegistration :=
  {| Runner.name := name; Runner.module_ := ""; Runner.file := "rustdv/tinyalu_tb/src/tinyalu_tb.rs"; Runner.line := line;
     Runner.timeout := Some (500, "us"); Runner.skip := false; Runner.expect_fail := false; Runner.expect_error := None |}.
Definition tests : list Test :=
  let test name := component_test phases bound (mkNode name tt [("inner", slot)]) in
  [(registered 77%nat "RandomTest", test "RandomTest"); (registered 92%nat "MaxTest", test "MaxTest")].

(** ** What the README prints, and what a faulty design does *)

(** The transcript after its first line. *)
Definition transcript : list string :=
  ["      0.00ns INFO     running RandomTest (1/2)  [rustdv/tinyalu_tb/src/tinyalu_tb.rs:77]";
   "     70.00ns INFO     [RandomTest.inner.env.result_mon]: result_monitor: AluResult { result: 296 }";
   "     70.00ns INFO     [RandomTest.inner.env.cmd_mon]: cmd_monitor: AluCommand { a: 193, b: 103, op: Add }";
   "     90.00ns INFO     [RandomTest.inner.env.result_mon]: result_monitor: AluResult { result: 10 }";
   "     90.00ns INFO     [RandomTest.inner.env.cmd_mon]: cmd_monitor: AluCommand { a: 94, b: 11, op: And }";
   "    110.00ns INFO     [RandomTest.inner.env.result_mon]: result_monitor: AluResult { result: 57 }";
   "    110.00ns INFO     [RandomTest.inner.env.cmd_mon]: cmd_monitor: AluCommand { a: 185, b: 128, op: Xor }";
   "    130.00ns INFO     [RandomTest.inner.env.cmd_mon]: cmd_monitor: AluCommand { a: 165, b: 117, op: Mul }";
   "    160.00ns INFO     [RandomTest.inner.env.result_mon]: result_monitor: AluResult { result: 19305 }";
   "    180.00ns INFO     [RandomTest.inner.env.cmd_mon]: cmd_monitor: AluCommand { a: 168, b: 150, op: Add }";
   "    180.00ns INFO     [RandomTest.inner.env.result_mon]: result_monitor: AluResult { result: 318 }";
   "    200.00ns INFO     [RandomTest.inner.env.cmd_mon]: cmd_monitor: AluCommand { a: 97, b: 254, op: And }";
   "    200.00ns INFO     [RandomTest.inner.env.result_mon]: result_monitor: AluResult { result: 96 }";
   "    220.00ns INFO     [RandomTest.inner.env.cmd_mon]: cmd_monitor: AluCommand { a: 192, b: 138, op: Xor }";
   "    220.00ns INFO     [RandomTest.inner.env.result_mon]: result_monitor: AluResult { result: 74 }";
   "    240.00ns INFO     [RandomTest.inner.env.cmd_mon]: cmd_monitor: AluCommand { a: 168, b: 59, op: Mul }";
   "    270.00ns INFO     [RandomTest.inner.env.result_mon]: result_monitor: AluResult { result: 9912 }";
   "    290.00ns INFO     [RandomTest.inner.env.result_mon]: result_monitor: AluResult { result: 340 }";
   "    290.00ns INFO     [RandomTest.inner.env.cmd_mon]: cmd_monitor: AluCommand { a: 99, b: 241, op: Add }";
   "    310.00ns INFO     [RandomTest.inner.env.result_mon]: result_monitor: AluResult { result: 8 }";
   "    310.00ns INFO     [RandomTest.inner.env.cmd_mon]: cmd_monitor: AluCommand { a: 238, b: 8, op: And }";
   "    330.00ns INFO     [RandomTest.inner.env.result_mon]: result_monitor: AluResult { result: 218 }";
   "    330.00ns INFO     [RandomTest.inner.env.cmd_mon]: cmd_monitor: AluCommand { a: 70, b: 156, op: Xor }";
   "    350.00ns INFO     [RandomTest.inner.env.cmd_mon]: cmd_monitor: AluCommand { a: 205, b: 172, op: Mul }";
   "    380.00ns INFO     [RandomTest.inner.env.result_mon]: result_monitor: AluResult { result: 35260 }";
   "    400.00ns INFO     [RandomTest.inner.env.cmd_mon]: cmd_monitor: AluCommand { a: 159, b: 247, op: Add }";
   "    400.00ns INFO     [RandomTest.inner.env.result_mon]: result_monitor: AluResult { result: 406 }";
   "    420.00ns INFO     [RandomTest.inner.env.cmd_mon]: cmd_monitor: AluCommand { a: 53, b: 171, op: And }";
   "    420.00ns INFO     [RandomTest.inner.env.result_mon]: result_monitor: AluResult { result: 33 }";
   "    440.00ns INFO     [RandomTest.inner.env.cmd_mon]: cmd_monitor: AluCommand { a: 39, b: 138, op: Xor }";
   "    440.00ns INFO     [RandomTest.inner.env.result_mon]: result_monitor: AluResult { result: 173 }";
   "    460.00ns INFO     [RandomTest.inner.env.cmd_mon]: cmd_monitor: AluCommand { a: 132, b: 186, op: Mul }";
   "    490.00ns INFO     [RandomTest.inner.env.result_mon]: result_monitor: AluResult { result: 24552 }";
   "    510.00ns INFO     [RandomTest.inner.env.result_mon]: result_monitor: AluResult { result: 137 }";
   "    510.00ns INFO     [RandomTest.inner.env.cmd_mon]: cmd_monitor: AluCommand { a: 109, b: 28, op: Add }";
   "    530.00ns INFO     [RandomTest.inner.env.result_mon]: result_monitor: AluResult { result: 4 }";
   "    530.00ns INFO     [RandomTest.inner.env.cmd_mon]: cmd_monitor: AluCommand { a: 23, b: 12, op: And }";
   "    550.00ns INFO     [RandomTest.inner.env.result_mon]: result_monitor: AluResult { result: 52 }";
   "    550.00ns INFO     [RandomTest.inner.env.cmd_mon]: cmd_monitor: AluCommand { a: 245, b: 193, op: Xor }";
   "    570.00ns INFO     [RandomTest.inner.env.cmd_mon]: cmd_monitor: AluCommand { a: 24, b: 60, op: Mul }";
   "    600.00ns INFO     [RandomTest.inner.env.result_mon]: result_monitor: AluResult { result: 1440 }";
   "    630.00ns INFO     [RandomTest.inner]: sequence complete";
   "    630.00ns INFO     [RandomTest.inner.env.scoreboard]: scoreboard: in=AluCommand { a: 193, b: 103, op: Add } out=AluResult { result: 296 } expected=AluResult { result: 296 } check=PASS";
   "    630.00ns INFO     [RandomTest.inner.env.scoreboard]: scoreboard: in=AluCommand { a: 94, b: 11, op: And } out=AluResult { result: 10 } expected=AluResult { result: 10 } check=PASS";
   "    630.00ns INFO     [RandomTest.inner.env.scoreboard]: scoreboard: in=AluCommand { a: 185, b: 128, op: Xor } out=AluResult { result: 57 } expected=AluResult { result: 57 } check=PASS";
   "    630.00ns INFO     [RandomTest.inner.env.scoreboard]: scoreboard: in=AluCommand { a: 165, b: 117, op: Mul } out=AluResult { result: 19305 } expected=AluResult { result: 19305 } check=PASS";
   "    630.00ns INFO     [RandomTest.inner.env.scoreboard]: scoreboard: in=AluCommand { a: 168, b: 150, op: Add } out=AluResult { result: 318 } expected=AluResult { result: 318 } check=PASS";
   "    630.00ns INFO     [RandomTest.inner.env.scoreboard]: scoreboard: in=AluCommand { a: 97, b: 254, op: And } out=AluResult { result: 96 } expected=AluResult { result: 96 } check=PASS";
   "    630.00ns INFO     [RandomTest.inner.env.scoreboard]: scoreboard: in=AluCommand { a: 192, b: 138, op: Xor } out=AluResult { result: 74 } expected=AluResult { result: 74 } check=PASS";
   "    630.00ns INFO     [RandomTest.inner.env.scoreboard]: scoreboard: in=AluCommand { a: 168, b: 59, op: Mul } out=AluResult { result: 9912 } expected=AluResult { result: 9912 } check=PASS";
   "    630.00ns INFO     [RandomTest.inner.env.scoreboard]: scoreboard: in=AluCommand { a: 99, b: 241, op: Add } out=AluResult { result: 340 } expected=AluResult { result: 340 } check=PASS";
   "    630.00ns INFO     [RandomTest.inner.env.scoreboard]: scoreboard: in=AluCommand { a: 238, b: 8, op: And } out=AluResult { result: 8 } expected=AluResult { result: 8 } check=PASS";
   "    630.00ns INFO     [RandomTest.inner.env.scoreboard]: scoreboard: in=AluCommand { a: 70, b: 156, op: Xor } out=AluResult { result: 218 } expected=AluResult { result: 218 } check=PASS";
   "    630.00ns INFO     [RandomTest.inner.env.scoreboard]: scoreboard: in=AluCommand { a: 205, b: 172, op: Mul } out=AluResult { result: 35260 } expected=AluResult { result: 35260 } check=PASS";
   "    630.00ns INFO     [RandomTest.inner.env.scoreboard]: scoreboard: in=AluCommand { a: 159, b: 247, op: Add } out=AluResult { result: 406 } expected=AluResult { result: 406 } check=PASS";
   "    630.00ns INFO     [RandomTest.inner.env.scoreboard]: scoreboard: in=AluCommand { a: 53, b: 171, op: And } out=AluResult { result: 33 } expected=AluResult { result: 33 } check=PASS";
   "    630.00ns INFO     [RandomTest.inner.env.scoreboard]: scoreboard: in=AluCommand { a: 39, b: 138, op: Xor } out=AluResult { result: 173 } expected=AluResult { result: 173 } check=PASS";
   "    630.00ns INFO     [RandomTest.inner.env.scoreboard]: scoreboard: in=AluCommand { a: 132, b: 186, op: Mul } out=AluResult { result: 24552 } expected=AluResult { result: 24552 } check=PASS";
   "    630.00ns INFO     [RandomTest.inner.env.scoreboard]: scoreboard: in=AluCommand { a: 109, b: 28, op: Add } out=AluResult { result: 137 } expected=AluResult { result: 137 } check=PASS";
   "    630.00ns INFO     [RandomTest.inner.env.scoreboard]: scoreboard: in=AluCommand { a: 23, b: 12, op: And } out=AluResult { result: 4 } expected=AluResult { result: 4 } check=PASS";
   "    630.00ns INFO     [RandomTest.inner.env.scoreboard]: scoreboard: in=AluCommand { a: 245, b: 193, op: Xor } out=AluResult { result: 52 } expected=AluResult { result: 52 } check=PASS";
   "    630.00ns INFO     [RandomTest.inner.env.scoreboard]: scoreboard: in=AluCommand { a: 24, b: 60, op: Mul } out=AluResult { result: 1440 } expected=AluResult { result: 1440 } check=PASS";
   "    630.00ns INFO     [RandomTest.inner.env.scoreboard]: scoreboard: 20 compared, 0 mismatches";
   "    630.00ns INFO     [RandomTest.inner.env.coverage]: coverage: Add=5 And=5 Mul=5 Xor=5";
   "    630.00ns INFO     RandomTest PASSED";
   "    630.00ns INFO     running MaxTest (2/2)  [rustdv/tinyalu_tb/src/tinyalu_tb.rs:92]";
   "    700.00ns INFO     [MaxTest.inner.env.result_mon]: result_monitor: AluResult { result: 510 }";
   "    700.00ns INFO     [MaxTest.inner.env.cmd_mon]: cmd_monitor: AluCommand { a: 255, b: 255, op: Add }";
   "    720.00ns INFO     [MaxTest.inner.env.result_mon]: result_monitor: AluResult { result: 255 }";
   "    720.00ns INFO     [MaxTest.inner.env.cmd_mon]: cmd_monitor: AluCommand { a: 255, b: 255, op: And }";
   "    740.00ns INFO     [MaxTest.inner.env.result_mon]: result_monitor: AluResult { result: 0 }";
   "    740.00ns INFO     [MaxTest.inner.env.cmd_mon]: cmd_monitor: AluCommand { a: 255, b: 255, op: Xor }";
   "    760.00ns INFO     [MaxTest.inner.env.cmd_mon]: cmd_monitor: AluCommand { a: 255, b: 255, op: Mul }";
   "    790.00ns INFO     [MaxTest.inner.env.result_mon]: result_monitor: AluResult { result: 65025 }";
   "    820.00ns INFO     [MaxTest.inner]: sequence complete";
   "    820.00ns INFO     [MaxTest.inner.env.scoreboard]: scoreboard: in=AluCommand { a: 255, b: 255, op: Add } out=AluResult { result: 510 } expected=AluResult { result: 510 } check=PASS";
   "    820.00ns INFO     [MaxTest.inner.env.scoreboard]: scoreboard: in=AluCommand { a: 255, b: 255, op: And } out=AluResult { result: 255 } expected=AluResult { result: 255 } check=PASS";
   "    820.00ns INFO     [MaxTest.inner.env.scoreboard]: scoreboard: in=AluCommand { a: 255, b: 255, op: Xor } out=AluResult { result: 0 } expected=AluResult { result: 0 } check=PASS";
   "    820.00ns INFO     [MaxTest.inner.env.scoreboard]: scoreboard: in=AluCommand { a: 255, b: 255, op: Mul } out=AluResult { result: 65025 } expected=AluResult { result: 65025 } check=PASS";
   "    820.00ns INFO     [MaxTest.inner.env.scoreboard]: scoreboard: 4 compared, 0 mismatches";
   "    820.00ns INFO     [MaxTest.inner.env.coverage]: coverage: Add=1 And=1 Mul=1 Xor=1";
   "    820.00ns INFO     MaxTest PASSED";
   "******************************************************************************";
   "** TEST                                       STATUS  SIM TIME (ns)      **";
   "******************************************************************************";
   "** RandomTest                                   PASS         630.00      **";
   "** MaxTest                                      PASS         190.00      **";
   "******************************************************************************";
   "REGRESSION: PASS"].
Definition found (seed : Z) : string := "      0.00ns INFO     rustdv: found 2 test(s), RUSTDV_RANDOM_SEED=" +:+ pretty seed.

(** The design with its result bus cut to eight bits. *)
Definition cut (v : Signals.VpiValue) : Signals.VpiValue := match AluHost.known v with Some z => Probe.number (wrap 8 z) | None => v end.
Definition narrow : Design :=
  {| Dut := Dut AluHost.tinyalu; top := top AluHost.tinyalu; names := names AluHost.tinyalu; signals := signals AluHost.tinyalu;
     initially := initially AluHost.tinyalu; power_up := power_up AluHost.tinyalu; due := due AluHost.tinyalu;
     eval := λ now d vals, let '(d', vals') := eval AluHost.tinyalu now d vals in
       (d', Probe.put AluHost.result (cut (Probe.at_ AluHost.result vals')) vals') |}.

(** *** Consoles that differ in the order of the monitors only *)

Definition time_stamp (line : string) : string := String.substring 0 13 line.
Definition severity (line : string) : string := String.substring 13 5 line.
(** The command monitor's and the result monitor's lines. *)
Definition spoken_by (monitor : string) (line : string) : bool :=
  match String.index 0 (monitor +:+ "itor: ") line with Some _ => true | None => false end.
Inductive monitors_swapped : list string → list string → Prop :=
| ms_nil : monitors_swapped [] []
| ms_keep x l l' : monitors_swapped l l' → monitors_swapped (x :: l) (x :: l')
| ms_swap x y l l' :
    time_stamp x = time_stamp y → spoken_by "cmd_mon" x = true → spoken_by "result_mon" y = true →
    monitors_swapped l l' → monitors_swapped (x :: y :: l) (y :: x :: l')
| ms_back x y l l' :
    time_stamp x = time_stamp y → spoken_by "result_mon" x = true → spoken_by "cmd_mon" y = true →
    monitors_swapped l l' → monitors_swapped (x :: y :: l) (y :: x :: l').


(** *** A fault in the design *)

(** The commands of the two tests, and those whose result needs more than eight
    bits. *)
Definition cmd (a b : Z) (op : Ops) : AluCommand := {| Alu.a := a; Alu.b := b; Alu.op := op |}.
Definition random_cmds : list AluCommand :=
  [cmd 193 103 Alu.Add; cmd 94 11 Alu.And; cmd 185 128 Alu.Xor; cmd 165 117 Alu.Mul; cmd 168 150 Alu.Add; cmd 97 254 Alu.And;
   cmd 192 138 Alu.Xor; cmd 168 59 Alu.Mul; cmd 99 241 Alu.Add; cmd 238 8 Alu.And; cmd 70 156 Alu.Xor; cmd 205 172 Alu.Mul;
   cmd 159 247 Alu.Add; cmd 53 171 Alu.And; cmd 39 138 Alu.Xor; cmd 132 186 Alu.Mul; cmd 109 28 Alu.Add; cmd 23 12 Alu.And;
   cmd 245 193 Alu.Xor; cmd 24 60 Alu.Mul].
Definition max_cmds : list AluCommand := map (cmd 255 255) ALL.
Definition wide (l : list AluCommand) : list AluCommand := filter (λ c, 255 < Alu.result (predict c)) l.
(** The scoreboard's complaint about a result cut to eight bits, the failure of
    a test for such commands, and the error lines the test then logs. *)
Definition complaint (c : AluCommand) : string :=
  Alu.mismatch_error c {| Alu.result := wrap 8 (Alu.result (predict c)) |}.
Definition failure (l : list AluCommand) : string :=
  pretty (length l) +:+ " check failure(s): " +:+ String.concat "; " (map complaint l).
Definition error_lines (time test : string) (l : list AluCommand) : list string :=
  map (λ m, time +:+ " ERROR    " +:+ m) (map complaint l ++ [test +:+ " FAILED: " +:+ failure l])%list.
Definition errors_of (r : Report) : list string := filter (λ line, severity line = "ERROR") (printed r).

End TinyaluTb.
