(* ===== verification/CycleVpi.v ===== *)
(** * CycleVpi: the cycle adapter and the stream benchmark on the framework
    (src/rustdv/src/cycle_vpi.rs and benchmarks/stream-vpi/src/lib.rs).

    Cycle.v has the adapter's loop over given samples and Stream.v the benchmark
    over given pins; here both are asynchronous code that starts its clock,
    awaits edges and phases, reads and writes the signals of the design, and the
    regression runs them under the event loop of the host.  The design is
    stream_bench.sv in the two-valued form of Stream.v.  Every delay of the bench
    is a whole number of nanoseconds: a step of the simulation is one, though the
    design asks for a thousandth.  The elapsed wall-clock time at the end of the
    benchmark's report line is left out. *)
From Stdlib Require Import Ascii.
From stdpp Require Import pretty.
From S2P Require Import Prelude Words Values Queue Signals Time PhaseHub Triggers Executor Log Config Objection Component Runner Handles Errors Cycle Stream Async Host Kit Bench Probe.
Local Open Scope Z_scope.

(** ** The adapter *)

Module CycleVpi.
Import Async Kit Bench.
Local Open Scope code_scope.

Section Adapter.
Context {Any X : Type} {M I O : Set}.
Abbreviation Code := (@Async.Code N Empty_set (Env Any X) Out).
Variable cm : Cycle.CycleModel M I O.
(** What a step writes to the console. *)
Variable prints : M → I → list string.

Definition caught {A : Set} (x : Cycle.Caught A) : Code A :=
  match x with Cycle.Returned a => Ret a | Cycle.Panicked p => Throw (Cycle.panic_message p) end.

Definition run_cycle_model_vpi (o0 : O) (name : string) (clock : Triggers.Sig) (period : Exec Time.SimDuration)
    (sample : Code (Result I string)) (drive : O → Code (Result unit string)) : Code (Result Cycle.CycleStatus string) :=
  let '(o, made) := Cycle.new cm o0 in
  m <-? caught made ;;
  _ <-? drive o ;;
  running_clock <- clock_start name clock period ;;
  r <- Loop (λ s : M * O,
      let '(m, o) := s in
      rising_edge clock ;;
      read_only ;;
      inputs <- sample ;;
      match inputs with
      | Err e => Ret (inr (m, Err e))
      | Ok i =>
          let '(m', o', stepped) := Cycle.step cm m i o in
          for_each (prints m i) println ;;
          status <- caught stepped ;;
          match status with
          | Err e => Ret (inr (m', Err e))
          | Ok Cycle.Continue =>
              next_time_step ;;
              d <- drive o' ;;
              Ret (match d with Err e => inr (m', Err e) | Ok _ => inl (m', o') end)
          | Ok status => Ret (inr (m', Ok status))
          end
      end) (m, o) ;;
  let '(m, result) := r in
  Cancel running_clock ;;
  finished <- caught (Cycle.finish cm m).2 ;;
  Ret (match result, finished with
       | Err error, _ => Err error
       | Ok _, Err error => Err error
       | Ok status, Ok _ => Ok status
       end).
End Adapter.
End CycleVpi.

(** ** The design *)

Module StreamHost.
Import Stream.

Definition clk := Probe.signal 0 1.
Definition reset_n := Probe.signal 1 1.
Definition s_valid := Probe.signal 2 1.
Definition s_ready := Probe.signal 3 1.
Definition s_data := Probe.signal 4 64.
Definition s_id := Probe.signal 5 16.
Definition s_last := Probe.signal 6 1.
Definition s_user := Probe.signal 7 8.
Definition m_valid := Probe.signal 8 1.
Definition m_ready := Probe.signal 9 1.
Definition m_data := Probe.signal 10 64.
Definition m_id := Probe.signal 11 16.
Definition m_last := Probe.signal 12 1.
Definition m_user := Probe.signal 13 8.
Definition inject_error := Probe.signal 14 1.
Definition accepted_count := Probe.signal 15 64.
Definition names : list (string * Triggers.Sig) :=
  [("clk", clk); ("reset_n", reset_n); ("s_valid", s_valid); ("s_ready", s_ready); ("s_data", s_data); ("s_id", s_id);
   ("s_last", s_last); ("s_user", s_user); ("m_valid", m_valid); ("m_ready", m_ready); ("m_data", m_data); ("m_id", m_id);
   ("m_last", m_last); ("m_user", m_user); ("inject_error", inject_error); ("accepted_count", accepted_count)].

(** The words of a vector, least significant first, and its number. *)
Definition words (s : Triggers.Sig) (z : Z) : Signals.VpiValue :=
  Some (map (λ i, {| Signals.aval := wrap 32 (Z.shiftr z (32 * Z.of_nat i)); Signals.bval := 0 |})
          (seq 0 (div_ceil (Signals.size (Triggers.shandle s)) 32))).
Definition number (v : Signals.VpiValue) : Z :=
  match v with Some ws => foldr (λ w z, Signals.aval w + Z.shiftl z 32) 0 ws | None => 0 end.

Definition driven (vals : nat → Signals.VpiValue) : BenchOutputs :=
  let at_ s := number (Probe.at_ s vals) in
  {| Stream.reset_n := at_ reset_n; Stream.s_valid := at_ s_valid; Stream.s_data := at_ s_data; Stream.s_id := at_ s_id;
     Stream.s_last := at_ s_last; Stream.s_user := at_ s_user; Stream.m_ready := at_ m_ready;
     Stream.inject_error := at_ inject_error |}.
Definition show (i : BenchInputs) (vals : nat → Signals.VpiValue) : nat → Signals.VpiValue :=
  foldl (λ vals e, Probe.put e.1 (words e.1 e.2) vals) vals
    [(s_ready, Stream.s_ready i); (m_valid, Stream.m_valid i); (m_data, Stream.m_data i); (m_id, Stream.m_id i);
     (m_last, Stream.m_last i); (m_user, Stream.m_user i); (accepted_count, Stream.accepted_count i)].

(** The same values, in a table. *)
Definition frozen (vals : nat → Signals.VpiValue) : nat → Signals.VpiValue :=
  let l := map vals (seq 0 16) in λ i, nth i l None.

Record Dut := { last_clk : Z; count : Z }.
Definition eval (now : Z) (d : Dut) (vals : nat → Signals.VpiValue) : Dut * (nat → Signals.VpiValue) :=
  let c := number (Probe.at_ clk vals) in
  let k := if (last_clk d =? 0) && (c =? 1) then Stream.Dut.posedge (driven vals) (count d) else count d in
  ({| last_clk := c; count := k |}, frozen (show (Stream.Dut.comb (driven vals) k) vals)).

Definition stream_bench : Design :=
  {| Bench.Dut := Dut; top := "stream_bench"; Bench.names := names; signals := 16;
     initially := λ i, match nth_error names i with Some (_, s) => words s 0 | None => None end;
     power_up := {| last_clk := 0; count := 0 |}; Bench.eval := eval; due := λ _, None |}.
End StreamHost.

(** ** stream-vpi *)

Module StreamVpi.
Import Async Kit Bench CycleVpi.
Import Stream(BenchInputs, BenchOutputs, BenchModel, StepStatus).
Local Open Scope code_scope.

(** [str::parse::<u64>]: each digit is looked at before the number overflows. *)
Definition digit (c : ascii) : option Z :=
  let n := Z.of_nat (nat_of_ascii c) in if (48 <=? n) && (n <=? 57) then Some (n - 48) else None.
Fixpoint parse_digits (l : list ascii) (acc : Z) : Result Z string :=
  match l with
  | [] => Ok acc
  | c :: r => match digit c with
      | None => Err "invalid digit found in string"
      | Some d => if 2 ^ 64 <=? acc * 10 + d then Err "number too large to fit in target type" else parse_digits r (acc * 10 + d)
      end
  end.
Definition parse_u64 (s : string) : Result Z string :=
  match list_of_string s with
  | [] => Err "cannot parse integer from empty string"
  | ["+"%char] | ["-"%char] => Err "invalid digit found in string"
  | "+"%char :: r => parse_digits r 0
  | l => parse_digits l 0
  end.

(** [driven] is the variable the drive closure keeps. *)
Record Own := { driven : option BenchOutputs }.
Abbreviation U := (Env unit Own).
Abbreviation Code := (@Async.Code N Empty_set U Out).
Abbreviation Sig := Triggers.Sig.
Abbreviation T := (Code (Result unit Component.TestError)).

Record Handles : Set := {
  clk : Sig; reset_n : Sig; s_valid : Sig; s_ready : Sig; s_data : Sig; s_id : Sig; s_last : Sig; s_user : Sig;
  m_valid : Sig; m_ready : Sig; m_data : Sig; m_id : Sig; m_last : Sig; m_user : Sig; inject_error : Sig; accepted_count : Sig;
}.
Definition Handles_new : Code (Result Handles Component.TestError) :=
  let signal := Bench.signal StreamHost.stream_bench in
  clk <-? signal "clk" ;; reset_n <-? signal "reset_n" ;; s_valid <-? signal "s_valid" ;; s_ready <-? signal "s_ready" ;;
  s_data <-? signal "s_data" ;; s_id <-? signal "s_id" ;; s_last <-? signal "s_last" ;; s_user <-? signal "s_user" ;;
  m_valid <-? signal "m_valid" ;; m_ready <-? signal "m_ready" ;; m_data <-? signal "m_data" ;; m_id <-? signal "m_id" ;;
  m_last <-? signal "m_last" ;; m_user <-? signal "m_user" ;; inject_error <-? signal "inject_error" ;;
  accepted_count <-? signal "accepted_count" ;;
  Ret (Ok {| clk := clk; reset_n := reset_n; s_valid := s_valid; s_ready := s_ready; s_data := s_data; s_id := s_id;
             s_last := s_last; s_user := s_user; m_valid := m_valid; m_ready := m_ready; m_data := m_data; m_id := m_id;
             m_last := m_last; m_user := m_user; inject_error := inject_error; accepted_count := accepted_count |}).

(** Each pin whose value differs from the last one driven, in order; the first
    time from its complement. *)
Definition drive (h : Handles) (v : BenchOutputs) : Code unit :=
  previous <- look driven ;;
  let pin (s : Sig) (w : Z) (f : BenchOutputs → Z) : Code unit :=
    let old := match previous with Some o => f o | None => StreamBackends.not_w w (f v) end in
    if negb (f v =? old) then set_u64_now s (f v) else Ret tt in
  pin (reset_n h) 8 Stream.reset_n ;; pin (s_valid h) 8 Stream.s_valid ;; pin (s_data h) 64 Stream.s_data ;;
  pin (s_id h) 16 Stream.s_id ;; pin (s_last h) 8 Stream.s_last ;; pin (s_user h) 8 Stream.s_user ;;
  pin (m_ready h) 8 Stream.m_ready ;; pin (inject_error h) 8 Stream.inject_error ;;
  edit (λ _, {| driven := Some v |}).

Definition sample (h : Handles) : Code (Result BenchInputs Component.TestError) :=
  let u64 (s : Sig) := map_err Errors.te_from_value (get_u64 s) in
  mv <-? u64 (m_valid h) ;;
  let m_valid := wrap 8 mv in
  let when_valid (w : Z) (s : Sig) : Code (Result Z Component.TestError) :=
    if negb (m_valid =? 0) then x <-? u64 s ;; Ret (Ok (wrap w x)) else Ret (Ok 0) in
  sr <-? u64 (s_ready h) ;; d <-? when_valid 64 (m_data h) ;; id <-? when_valid 16 (m_id h) ;;
  l <-? when_valid 8 (m_last h) ;; us <-? when_valid 8 (m_user h) ;; c <-? u64 (accepted_count h) ;;
  Ret (Ok {| Stream.s_ready := wrap 8 sr; Stream.m_valid := m_valid; Stream.m_data := d; Stream.m_id := id; Stream.m_last := l;
             Stream.m_user := us; Stream.accepted_count := c |}).

(** The lines of [StreamVpiModel::step], up to the elapsed time. *)
Definition pass_line (r : Stream.BenchReport) : string :=
  "BENCHMARK: PASS backend=rustdv-vpi transactions=" +:+ pretty (Stream.r_transactions r) +:+ " cycles=" +:+ pretty (Stream.r_cycles r)
  +:+ " digest=" +:+ Stream.hex 16 (Stream.r_digest r) +:+ " trace=" +:+ Stream.hex 16 (Stream.r_trace_digest r).
Definition fail_line (target : Z) (message : string) : string :=
  "BENCHMARK: FAIL backend=rustdv-vpi transactions=" +:+ pretty target +:+ " message=" +:+ message.
Definition step_prints (m : StreamBackends.StreamModel) (i : BenchInputs) : list string :=
  match (Stream.bench_step (StreamBackends.model m) i (StreamBackends.values m)).2 with
  | Stream.Continue => []
  | Stream.Pass r => [pass_line r]
  | Stream.Fail message => [fail_line (Stream.target (StreamBackends.model m)) message]
  end.

Definition default_outputs : BenchOutputs := Stream.zero_outputs false.
Definition stream_throughput (e : StreamBackends.Env) : T :=
  handles <-? Handles_new ;;
  status <-? map_err Component.te_new
    (run_cycle_model_vpi (StreamBackends.vpi_model parse_u64 e) step_prints default_outputs "stream_bench.clk" (clk handles)
       (Time.ns prec 2) (map_err Errors.te_display (sample handles)) (λ o, drive handles o ;; Ret (Ok tt))) ;;
  match status with
  | Cycle.Pass => ok
  | _ => Ret (Err (Component.te_new "cycle model returned failure"))
  end.
Definition suite (e : StreamBackends.Env) : list (@Kit.Test N Empty_set unit Own) :=
  [({| Runner.name := "stream_throughput"; Runner.module_ := "rustdv_stream_bench_vpi"; Runner.file := "src/lib.rs"; Runner.line := 193;
       Runner.timeout := Some (60, "s"); Runner.skip := false; Runner.expect_fail := false; Runner.expect_error := None |},
    λ _, stream_throughput e)].
Definition simulated (order : list nat → list nat) (e : StreamBackends.Env) : option Report :=
  report StreamHost.stream_bench (simulate StreamHost.stream_bench order 10000 {| driven := None |} (suite e) 1).
Definition env (target seed inject : string) : StreamBackends.Env :=
  {| StreamBackends.transactions_var := Some target; StreamBackends.seed_var := Some seed; StreamBackends.inject_var := Some inject |}.

(** What the checker of Stream.v comes to when it is clocked against the design
    with nothing between: outcome, time of the last edge and line printed. *)
Definition verdict (target seed : Z) (inject : bool) : option (Runner.Outcome * Z * string) :=
  let m := {| Stream.target := target; Stream.seed := seed; Stream.inject := inject; Stream.cycles := 0; Stream.transactions := 0;
              Stream.digest := 0; Stream.trace_digest := 0 |} in
  let '(m', _, st, _) := StreamRun.run 1000 m (Stream.zero_outputs inject) 0 in
  let last_edge := 2 * (Stream.cycles m' - 1) in
  match st with
  | Stream.Continue => None
  | Stream.Pass r => Some (Runner.Pass, last_edge, pass_line r)
  | Stream.Fail message => Some (Runner.fail message, last_edge, fail_line target message)
  end.

(** Of a run: the test alone, its outcome and time, and a line of the console. *)
Definition ends_with (order : list nat → list nat) (e : StreamBackends.Env) (o : Runner.Outcome) (t : Z) (line : list string) : Prop :=
  ∃ r, simulated order e = Some r ∧ ended r = true ∧ trouble r = None ∧
    outcomes r = [("stream_throughput", o, t)] ∧ shows line r.

#[local] Instance outcome_eq_dec : EqDecision Runner.Outcome.
Proof. solve_decision. Defined.
Definition ends_withb (order : list nat → list nat) (e : StreamBackends.Env) (o : Runner.Outcome) (t : Z) (line : list string) : bool :=
  match simulated order e with
  | Some r => ended r && match trouble r with None => true | Some _ => false end &&
      bool_decide (outcomes r = [("stream_throughput", o, t)]) && infixb line (printed r)
  | None => false
  end.
Lemma ends_with_by_run order e o t line : ends_withb order e o t line = true → ends_with order e o t line.
Proof.
  unfold ends_withb, ends_with. destruct (simulated order e) as [r|]; [|done]. intros H. exists r.
  apply andb_prop in H as [[[Hen Htr]%andb_prop Ho%bool_decide_eq_true]%andb_prop Hl]. split_and!; try done.
  - by destruct (trouble r).
  - by apply shows_by_search.
Qed.

(** A plan of a target, a seed and an injection, run as a verdict says. *)
Definition runs_as order (p : Z * Z * bool) (v : option (Runner.Outcome * Z * string)) : Prop :=
  let '(target, seed, inject) := p in
  ∃ o t line, v = Some (o, t, line) ∧ (o = Runner.Pass ↔ inject = false) ∧
    ends_with order (env (pretty target) (pretty seed) (if inject then "yes" else "0")) o t [line].
Definition runs_asb order (p : Z * Z * bool) (v : option (Runner.Outcome * Z * string)) : bool :=
  let '(target, seed, inject) := p in
  match v with
  | Some (o, t, line) => ends_withb order (env (pretty target) (pretty seed) (if inject then "yes" else "0")) o t [line] &&
      Bool.eqb (bool_decide (o = Runner.Pass)) (negb inject)
  | None => false
  end.
Lemma runs_as_by_run order p v : runs_asb order p v = true → runs_as order p v.
Proof.
  destruct p as [[n s] b]. unfold runs_asb, runs_as. destruct v as [[[o t] line]|]; [|by intros ?].
  intros [Hr%ends_with_by_run He%Bool.eqb_prop]%andb_prop. exists o, t, line. split; [reflexivity|]. split; [|exact Hr].
  rewrite <- (bool_decide_eq_true (o = Runner.Pass)), He. by destruct b.
Qed.
Definition planned (p : Z * Z * bool) : option (Runner.Outcome * Z * string) := verdict p.1.1 p.1.2 p.2.
Lemma all_run_as order l : forallb (λ p, runs_asb order p (planned p)) l = true → Forall (λ p, runs_as order p (planned p)) l.
Proof.
  induction l as [|p l IH]; intros H; constructor; apply andb_prop in H as [Hp Hl]; [exact (runs_as_by_run _ _ _ Hp)|exact (IH Hl)].
Qed.

Definition plans : list (Z * Z * bool) := [(1, 1, false); (25, 1, false); (12, 7, false); (127, 1, true)].
Definition malformed : Runner.Outcome :=
  Runner.fail ("invalid RUSTDV_BENCH_SEED=" +:+ StreamBackends.quoted "0x1" +:+ ": invalid digit found in string").
Definition no_target : Runner.Outcome :=
  Runner.fail "test task: task panicked: benchmark transaction count must be positive".

Lemma all_as_checked order : In order [oldest_first; newest_first] →
  forallb (λ p, runs_asb order p (planned p)) plans && ends_withb order (env "8" "0x1" "") malformed 0 [] &&
  ends_withb order (env "0" "1" "") no_target 0 [] = true.
Proof. intros [<-|[<-|[]]]; vm_compute; reflexivity. Qed.

(** On the plans listed the stream benchmark runs on the framework as it does
    against the design directly: with the clock a task, the samples taken in the settled read-only
    phase of each rising edge and the pins driven in the next time step, the
    regression comes to the verdict, transfers, cycles and digests of the checker
    stepped once per cycle on the design, and ends on the edge of the last cycle:
    no cycle is lost or seen twice, in whichever order the callbacks of an edge
    come.  It passes unless an error is injected.  A malformed variable fails the
    test before anything is driven, and a target of zero is a panic the runner
    reports. *)
Theorem stream_throughput_outcomes order :
  In order [oldest_first; newest_first] →
  Forall (λ p, runs_as order p (planned p)) plans ∧
  ends_with order (env "8" "0x1" "") malformed 0 [] ∧
  ends_with order (env "0" "1" "") no_target 0 [].
Proof.
  intros Ho%all_as_checked. apply andb_prop in Ho as [[Hp Hm]%andb_prop Ht].
  split; [exact (all_run_as _ _ Hp)|]. split; [exact (ends_with_by_run _ _ _ _ _ Hm)|exact (ends_with_by_run _ _ _ _ _ Ht)].
Qed.

Lemma stream_throughput_outcomes_witness :
  In oldest_first [oldest_first; newest_first] ∧ Forall (λ p, runs_as oldest_first p (planned p)) plans.
Proof. split; [by left|]. refine (proj1 (stream_throughput_outcomes oldest_first _)). by left. Defined.
End StreamVpi.
