(* ===== verification/VpiStubs.v ===== *)
(** * VpiStubs: the simulator double of the unit tests
    (rustdv-vpi-stubs/src/rustdv_vpi_stubs.rs).

    One signal, a list of top modules and the callbacks registered so far, kept
    per thread.  The entry points are functions on that state that may panic, as
    the double does outside what it supports.  [Instance] makes it a simulator of
    Handles.v; [Doubled] puts it under the callback cells of Callback.v and shows
    that what it counts is what the cells hold. *)
From Stdlib Require Import Ascii.
From S2P Require Import Prelude Words Values Signals PhaseHub Handles Callback.
Local Open Scope Z_scope.

Module VpiStubs.
Import Signals(t_vpi_vecval).

Definition TOP_HANDLE_BASE : nat := Nat.pow 2 12.                 (* 0x1000 *)
Definition vpiNoDelay : Z := 1.
Definition vpiBinStrVal : Z := 1.
Definition vpiVectorVal : Z := 9.

(** [data] is left out but for the cell it points to; a callback is known by its
    place in the list. *)
Record StubCallback := { user_data : nat; scheduled : bool; handle_live : bool }.
Record StubSignal := {
  object_type : Z; width : Z; words : list t_vpi_vecval; vector_value_available : bool; binstr : string;
  last_put : list t_vpi_vecval;
}.
Definition zeros (n : nat) : string := string_of_list (replicate n "0"%char).
Definition default_signal : StubSignal :=
  {| object_type := vpiNet; width := 37; words := replicate 2 Signals.default_vecval; vector_value_available := true;
     binstr := zeros 37; last_put := [] |}.

(** The thread-local state. *)
Record Stub := { CALLBACKS : list StubCallback; PROPERTY_GETS : list Z; SIGNAL : StubSignal; TOP_MODULES : list string }.
Definition initial : Stub := {| CALLBACKS := []; PROPERTY_GETS := []; SIGNAL := default_signal; TOP_MODULES := [] |}.
Implicit Types s : Stub.
Definition set_callbacks l s : Stub :=
  {| CALLBACKS := l; PROPERTY_GETS := PROPERTY_GETS s; SIGNAL := SIGNAL s; TOP_MODULES := TOP_MODULES s |}.
Definition set_gets l s : Stub :=
  {| CALLBACKS := CALLBACKS s; PROPERTY_GETS := l; SIGNAL := SIGNAL s; TOP_MODULES := TOP_MODULES s |}.
Definition set_signal x s : Stub :=
  {| CALLBACKS := CALLBACKS s; PROPERTY_GETS := PROPERTY_GETS s; SIGNAL := x; TOP_MODULES := TOP_MODULES s |}.
Definition set_tops l s : Stub :=
  {| CALLBACKS := CALLBACKS s; PROPERTY_GETS := PROPERTY_GETS s; SIGNAL := SIGNAL s; TOP_MODULES := l |}.

(** ** What tests configure and ask *)

Definition configure_top_modules (names : list string) s : Exec Stub :=
  if existsb has_nul names then Panic "stub top name contains NUL" else Done (set_tops names s).

Definition word_count (w : Z) : nat := div_ceil (Z.to_nat w) 32.
Definition configure_signal (w : Z) (ws : list t_vpi_vecval) (text : string) s : Exec Stub :=
  if negb (0 <? w) then Panic "stub signal width must be positive"
  else if Nat.ltb (length ws) (word_count w) then Panic "stub signal needs more vector words"
  else if has_nul text then Panic "stub binary string contains NUL"
  else Done (set_signal {| object_type := vpiNet; width := w; words := take (word_count w) ws; vector_value_available := true;
                           binstr := text; last_put := [] |} s).

Definition configure_signal_type (t : Z) s : Stub :=
  let x := SIGNAL s in
  set_signal {| object_type := t; width := width x; words := words x; vector_value_available := vector_value_available x;
                binstr := binstr x; last_put := last_put x |} s.
Definition make_vector_value_unavailable s : Stub :=
  let x := SIGNAL s in
  set_signal {| object_type := object_type x; width := width x; words := words x; vector_value_available := false;
                binstr := binstr x; last_put := last_put x |} s.
Definition last_put_vector s : list t_vpi_vecval := last_put (SIGNAL s).
Definition reset_property_gets s : Stub := set_gets [] s.
Definition property_get_count (property : Z) s : nat := length (filter (λ p, p = property) (PROPERTY_GETS s)).

Definition live_callback_handles s : nat := length (filter (λ c, handle_live c = true) (CALLBACKS s)).
Definition reset_callbacks s : Exec Stub :=
  if decide (live_callback_handles s = 0%nat) then Done (set_callbacks [] s)
  else Panic "cannot reset callback test state while handle(s) are live".

(** ** The entry points *)

Definition top_handle (index : nat) : vpiHandle := (TOP_HANDLE_BASE + index)%nat.
Definition top_index (h : vpiHandle) : option nat :=
  if decide (TOP_HANDLE_BASE ≤ h)%nat then Some (h - TOP_HANDLE_BASE)%nat else None.

Definition vpi_handle_by_name (name : string) (scope : vpiHandle) s : Exec vpiHandle :=
  if negb (Nat.eqb scope 0) then Panic "test stub only supports root lookup"
  else Done (match list_find (λ m, m = name) (TOP_MODULES s) with Some (i, _) => top_handle i | None => 0%nat end).

(** There is no iterator for no top; a finished one is freed. *)
Record StubTopIterator := { next : nat; len : nat }.
Definition vpi_iterate (type_ : Z) (object : vpiHandle) s : Exec (option StubTopIterator) :=
  if negb (type_ =? vpiModule) then Panic "test stub only supports module iteration"
  else if negb (Nat.eqb object 0) then Panic "test stub only supports root iteration"
  else Done (match TOP_MODULES s with [] => None | l => Some {| next := 0; len := length l |} end).
Definition vpi_scan (it : StubTopIterator) : vpiHandle * option StubTopIterator :=
  if Nat.eqb (next it) (len it) then (0%nat, None) else (top_handle (next it), Some {| next := S (next it); len := len it |}).
(** What scanning to the end gives. *)
Fixpoint scanned (fuel : nat) (it : StubTopIterator) : list vpiHandle :=
  match fuel with
  | O => []
  | S k => match vpi_scan it with (h, Some it') => h :: scanned k it' | (_, None) => [] end
  end.
Definition scan_all (it : StubTopIterator) : list vpiHandle := scanned (S (len it - next it)) it.

Definition vpi_get_str (property : Z) (h : vpiHandle) s : Exec string :=
  if negb ((property =? vpiName) || (property =? vpiFullName)) then Panic "test stub only supports name properties"
  else match top_index h with
    | None => Panic "vpi_get_str called with a non-top handle"
    | Some i => match TOP_MODULES s !! i with
      | Some n => Done n
      | None => Panic "vpi_get_str called with an unknown top handle"
      end
    end.

Definition vpi_get (property : Z) (h : vpiHandle) s : Stub * Exec Z :=
  (set_gets (PROPERTY_GETS s ++ [property]) s,
   if (property =? vpiType) && bool_decide (is_Some (top_index h)) then Done vpiModule
   else if property =? vpiType then Done (object_type (SIGNAL s))
   else if property =? vpiSize then Done (width (SIGNAL s))
   else Panic "unsupported vpi_get property in test stub").

(** [vpi_get_value] and [vpi_put_value], by format. *)
Definition vpi_get_vector (h : vpiHandle) s : option (list t_vpi_vecval) :=
  if vector_value_available (SIGNAL s) then Some (words (SIGNAL s)) else None.
Definition vpi_get_binstr (h : vpiHandle) s : string := binstr (SIGNAL s).
(** The caller hands over as many words as the signal has. *)
Definition vpi_put_vector (h : vpiHandle) (ws : list t_vpi_vecval) (flags : Z) s : Exec Stub :=
  if negb (flags =? vpiNoDelay) then Panic "test stub only supports immediate writes"
  else let x := SIGNAL s in
    Done (set_signal {| object_type := object_type x; width := width x; words := words x;
                        vector_value_available := vector_value_available x; binstr := binstr x;
                        last_put := take (word_count (width x)) ws |} s).

Definition vpi_put_binstr (h : vpiHandle) (text : string) (flags : Z) s : Exec Stub :=
  if negb (flags =? vpiNoDelay) then Panic "test stub only supports immediate writes"
  else let x := SIGNAL s in
    Done (set_signal {| object_type := object_type x; width := width x; words := words x;
                        vector_value_available := vector_value_available x; binstr := text;
                        last_put := last_put x |} s).

(** Registration, and removal by the handle: a dead handle is refused with 0. *)
Definition vpi_register_cb (data : nat) (l : list StubCallback) : list StubCallback * nat :=
  (l ++ [{| user_data := data; scheduled := true; handle_live := true |}], length l).
Definition vpi_remove_cb (handle : nat) (l : list StubCallback) : list StubCallback * Z :=
  match l !! handle with
  | Some c => if handle_live c then (<[handle := {| user_data := user_data c; scheduled := false; handle_live := false |}]> l, 1)
              else (l, 0)
  | None => (l, 0)
  end.
(** The first scheduled callback, taken off the schedule: whose cell to call. *)
Definition next_scheduled (l : list StubCallback) : option (nat * nat) :=
  match list_find (λ c, scheduled c = true) l with Some (i, c) => Some (i, user_data c) | None => None end.
Definition unschedule (i : nat) (l : list StubCallback) : list StubCallback :=
  alter (λ c, {| user_data := user_data c; scheduled := false; handle_live := handle_live c |}) i l.

(** ** A simulator for the handles *)

(** Where the double panics there is no answer; the calls of the tests stay
    clear of that ([stub_supports]). *)
Definition answer {A} (d : A) (e : Exec A) : A := match e with Done a => a | Panic _ => d end.
#[export] Instance Instance_ : Vpi Stub unit := {
  Handles.vpi_handle_by_name n h s := answer 0%nat (vpi_handle_by_name n h s);
  Handles.vpi_get p h s := answer 0 (vpi_get p h s).2;
  Handles.vpi_get_str p h s := match vpi_get_str p h s with Done t => Some t | Panic _ => None end;
  Handles.vpi_iterate t h s := scan_all <$> answer None (vpi_iterate t h s);
  Handles.vpi_get_vector h s := vpi_get_vector h s;
  Handles.vpi_put_vector h ws s := answer s (vpi_put_vector h ws vpiNoDelay s);
  Handles.vpi_get_real _ _ := None;
  Handles.vpi_put_real _ _ s := s;
  Handles.vpi_get_string _ _ := None;
  Handles.vpi_put_string _ _ s := s;
}.

(** A scan meets the tops in order and then ends: the fuel is enough. *)
Lemma scan_all_tops i n : scan_all {| next := i; len := i + n |} = map top_handle (seq i n).
Proof.
  unfold scan_all. simpl len. simpl next. replace (i + n - i)%nat with n by lia.
  revert i. induction n as [|n IH]; intros i; cbn [scanned]; unfold vpi_scan; simpl len; simpl next.
  - by rewrite Nat.add_0_r, Nat.eqb_refl.
  - rewrite (proj2 (Nat.eqb_neq _ _)) by lia. replace (i + S n)%nat with (S i + n)%nat by lia.
    change (seq i (S n)) with (i :: seq (S i) n). cbn [map]. by rewrite <- IH.
Qed.

Lemma stub_supports s h ws i n :
  (∃ t, (vpi_get vpiType h s).2 = Done t) ∧ (∃ w, (vpi_get vpiSize h s).2 = Done w) ∧
  (∃ s', vpi_put_vector h ws vpiNoDelay s = Done s') ∧
  (∃ o, vpi_handle_by_name n 0 s = Done o) ∧
  (∃ l, vpi_iterate vpiModule 0 s = Done l ∧ scan_all <$> l = if decide (TOP_MODULES s = []) then None else
     Some (map top_handle (seq 0 (length (TOP_MODULES s))))) ∧
  (TOP_MODULES s !! i = Some n → vpi_get_str vpiName (top_handle i) s = Done n).
Proof.
  split_and!; try (by eexists).
  - unfold vpi_get. destruct (top_index h); by eexists.
  - eexists. split; [done|]. destruct (TOP_MODULES s) as [|m l]; [done|]. rewrite decide_False by done. simpl option_map.
    by rewrite <- (scan_all_tops 0 (length (m :: l))).
  - intros Hi. unfold vpi_get_str, top_index, top_handle. generalize TOP_HANDLE_BASE as b. intros b. simpl.
    rewrite decide_True by lia. replace (b + i - b)%nat with i by lia. by rewrite Hi.
Qed.

(** ** Under the callback cells *)

Import Callback.

(** The double's callbacks and rustdv-gpi's cells. *)
Record Sys := { cbs : list StubCallback; cells : gmap nat CbShared }.
Definition init : Sys := {| cbs := []; cells := ∅ |}.

(** [vpi_remove_cb(shared.vpi_h.get())] of the cell [id]: the handle is the place
    of the registration that carries the cell. *)
Definition vpi_h (id : nat) (l : list StubCallback) : option nat := fst <$> list_find (λ c, user_data c = id) l.
Definition remove (id : nat) (l : list StubCallback) : list StubCallback :=
  match vpi_h id l with Some i => (vpi_remove_cb i l).1 | None => l end.

(** A function on a cell that may call [vpi_remove_cb]; [None] is undefined
    behaviour. *)
Definition on (id : nat) (f : CbShared → option CbShared) (removes : bool) (s : Sys) : option Sys :=
  match on_cell id f (cells s) with
  | Fine m => Some {| cbs := if removes then remove id (cbs s) else cbs s; cells := m |}
  | _ => None
  end.

(** What a closure may do while the double fires it: registering would find the
    list of callbacks borrowed. *)
Inductive Act := ADrop (id : nat) | AForget (id : nat).
Definition act (a : Act) (s : Sys) : option Sys :=
  match a with
  | ADrop id =>
      match cells s !! id with
      | Some c => if handle c then on id drop_handle (negb (released c)) s else Some s
      | None => Some s
      end
  | AForget id =>
      match cells s !! id with
      | Some c => if handle c then on id forget false s else Some s
      | None => Some s
      end
  end.
Fixpoint acts (l : list Act) (s : Sys) : option Sys := match l with [] => Some s | a :: r => s' ← act a s; acts r s' end.

Definition trampoline (id : nat) (closure : list Act) (s : Sys) : option Sys :=
  c ← cells s !! id;
  match kind c with
  | OneShot =>
      s1 ← on id fire_once (negb (released c)) s;
      s2 ← (if released c then Some s1 else acts closure s1);
      on id exit false s2
  | Recurring => s1 ← on id fire_repeat false s; s2 ← acts closure s1; on id exit_repeat false s2
  end.

(** A test registers, acts on its handles, and has the double fire the next
    callback; with none scheduled the double panics before it changes anything. *)
Inductive TOp := TRegister (k : CbKind) | TAct (a : Act) | TFire (closure : list Act).
Definition exec (o : TOp) (s : Sys) : option Sys :=
  match o with
  | TRegister k =>
      Some {| cbs := (vpi_register_cb (fresh (dom (cells s))) (cbs s)).1; cells := register k (cells s) |}
  | TAct a => act a s
  | TFire closure =>
      match next_scheduled (cbs s) with
      | Some (i, id) => trampoline id closure {| cbs := unschedule i (cbs s); cells := cells s |}
      | None => Some s
      end
  end.
Fixpoint exec_all (l : list TOp) (s : Sys) : option Sys := match l with [] => Some s | o :: r => s' ← exec o s; exec_all r s' end.

(** The same as operations of Callback.v. *)
Definition as_op (a : Act) : Op := match a with ADrop id => ODrop id | AForget id => OForget id end.
Definition as_ops (o : TOp) (s : Sys) : list Op :=
  match o with
  | TRegister k => [ORegister k]
  | TAct a => [as_op a]
  | TFire closure => match next_scheduled (cbs s) with Some (_, id) => [OFire id (map as_op closure)] | None => [] end
  end.
Fixpoint all_ops (l : list TOp) (s : Sys) : list Op :=
  match l with
  | [] => []
  | o :: r => as_ops o s ++ match exec o s with Some s' => all_ops r s' | None => [] end
  end.

(** *** The link *)

(** Every registration has its cell and every cell its registration; the double
    keeps a handle alive exactly as long as the cell is registered. *)
Record linked (l : list StubCallback) (m : gmap nat CbShared) : Prop := {
  l_nodup : NoDup (user_data <$> l);
  l_cell i cb : l !! i = Some cb → ∃ c, m !! user_data cb = Some c ∧ handle_live cb = registered c;
  l_cb id c : m !! id = Some c → id ∈ user_data <$> l;
  l_scheduled i cb : l !! i = Some cb → scheduled cb = true → handle_live cb = true;
}.

Lemma vpi_h_spec id l i : vpi_h id l = Some i → ∃ cb, l !! i = Some cb ∧ user_data cb = id.
Proof.
  unfold vpi_h. destruct (list_find _ l) as [[j cb]|] eqn:E; [|done]. intros [= <-].
  apply list_find_Some in E as (? & ? & _). eauto.
Qed.

Lemma vpi_h_found id l : id ∈ user_data <$> l → ∃ i, vpi_h id l = Some i.
Proof.
  intros (cb & -> & Hin)%list_elem_of_fmap. unfold vpi_h.
  destruct (list_find (λ c, user_data c = user_data cb) l) as [[j x]|] eqn:E; [by eexists|].
  apply list_find_None in E. by eapply Forall_forall in E.
Qed.

(** A cell whose registration does not change. *)
Lemma linked_keep l m id c c' : linked l m → m !! id = Some c → registered c' = registered c → linked l (<[id := c']> m).
Proof.
  intros [Hn Hc Hb Hs] Hm Hr. constructor; [done| | |done].
  - intros i cb Hi. destruct (Hc i cb Hi) as (c0 & Hc0 & Hl). destruct (decide (user_data cb = id)) as [Heq|Hne].
    + rewrite Heq in *. rewrite lookup_insert_eq. simplify_eq. exists c'. split; [done|congruence].
    + rewrite lookup_insert_ne by done. eauto.
  - intros id' c0. destruct (decide (id' = id)) as [->|Hne]; [intros _; eauto|]. rewrite lookup_insert_ne by done. eauto.
Qed.

(** Removing the registration of a cell. *)
Lemma linked_remove l m id c c' : linked l m → m !! id = Some c → registered c' = false → linked (remove id l) (<[id := c']> m).
Proof.
  intros Hlk Hm Hr. destruct (vpi_h_found id l (l_cb _ _ Hlk _ _ Hm)) as [j Hj].
  destruct (vpi_h_spec _ _ _ Hj) as (cb & Hcb & Hid). unfold remove, vpi_remove_cb. rewrite Hj, Hcb.
  destruct (handle_live cb) eqn:Hl; simpl.
  2:{ eapply linked_keep; [done..|]. destruct (l_cell _ _ Hlk _ _ Hcb) as (c0 & Hc0 & ?). rewrite Hid in Hc0. congruence. }
  set (cb' := {| user_data := user_data cb; scheduled := false; handle_live := false |}).
  assert (user_data <$> <[j := cb']> l = user_data <$> l) as Hud.
  { rewrite list_fmap_insert. apply list_insert_id. rewrite list_lookup_fmap, Hcb. done. }
  destruct Hlk as [Hn Hc Hb Hs]. constructor; rewrite ?Hud; [done| | |].
  - intros i x Hi. destruct (decide (i = j)) as [->|Hne].
    + rewrite list_lookup_insert_eq in Hi by (by eapply lookup_lt_Some). simplify_eq. simpl.
      rewrite lookup_insert_eq. eexists. split; [done|]. by rewrite Hr.
    + rewrite list_lookup_insert_ne in Hi by done. destruct (Hc i x Hi) as (c0 & Hc0 & Hl0).
      rewrite lookup_insert_ne; [eauto|]. intros Heq. apply Hne.
      apply (NoDup_lookup _ i j (user_data x) Hn); rewrite list_lookup_fmap; [by rewrite Hi|]. rewrite Hcb. simpl. congruence.
  - intros id' c0. destruct (decide (id' = id)) as [->|Hne]; [intros _; eauto|]. rewrite lookup_insert_ne by done. eauto.
  - intros i x Hi. destruct (decide (i = j)) as [->|Hne].
    + rewrite list_lookup_insert_eq in Hi by (by eapply lookup_lt_Some). by simplify_eq.
    + rewrite list_lookup_insert_ne in Hi by done. eauto.
Qed.

Lemma linked_register l m k :
  linked l m → linked (vpi_register_cb (fresh (dom m)) l).1 (register k m).
Proof.
  intros [Hn Hc Hb Hs]. pose proof (is_fresh (dom m)) as Hf. set (id := fresh (dom m)) in *.
  assert (m !! id = None) as Hid by (by apply not_elem_of_dom).
  unfold register, vpi_register_cb. fold id. simpl. constructor.
  - rewrite fmap_app. simpl. apply NoDup_app. split_and!; [done| |apply NoDup_singleton].
    intros x (cb & -> & Hin)%list_elem_of_fmap Hx. apply list_elem_of_singleton in Hx.
    apply list_elem_of_lookup in Hin as [i Hi]. destruct (Hc i cb Hi) as (c & Hm & _). by rewrite Hx, Hid in Hm.
  - intros i cb [Hi|[Hge Hi]]%lookup_app_Some.
    + destruct (Hc i cb Hi) as (c & Hm & ?). exists c. rewrite lookup_insert_ne; [done|]. intros Heq. by rewrite <- Heq, Hid in Hm.
    + apply list_lookup_singleton_Some in Hi as [_ <-]. simpl. rewrite lookup_insert_eq. eauto.
  - intros id' c. rewrite fmap_app, elem_of_app. destruct (decide (id' = id)) as [->|Hne]; [right; by left|].
    rewrite lookup_insert_ne by done. intros Hm. left. eauto.
  - intros i cb [Hi|[Hge Hi]]%lookup_app_Some; [eauto|]. by apply list_lookup_singleton_Some in Hi as [_ <-].
Qed.

Lemma linked_unschedule l m i : linked l m → linked (unschedule i l) m.
Proof.
  intros [Hn Hc Hb Hs]. unfold unschedule.
  assert (∀ f : StubCallback → StubCallback, (∀ c, user_data (f c) = user_data c) → user_data <$> alter f i l = user_data <$> l) as Hud.
  { intros f Hf. clear -Hf. revert i.
    induction l as [|x l IH]; intros [|i]; simpl; [done|done|by rewrite Hf|].
    f_equal. apply IH. }
  constructor; rewrite ?Hud by done; [done| |done|].
  - intros j cb Hj. destruct (decide (i = j)) as [<-|Hne].
    + rewrite list_lookup_alter, decide_True in Hj by done. destruct (l !! i) as [x|] eqn:E; simplify_eq/=. apply (Hc i x E).
    + rewrite list_lookup_alter_ne in Hj by done. eauto.
  - intros j cb Hj. destruct (decide (i = j)) as [<-|Hne].
    + rewrite list_lookup_alter, decide_True in Hj by done. by destruct (l !! i) as [x|]; simplify_eq/=.
    + rewrite list_lookup_alter_ne in Hj by done. eauto.
Qed.

(** *** The cells' own operations *)

Lemma live_keeps f c c' : live_cell f c = Some c' → f c = Some c'.
Proof. unfold live_cell. by destruct (freed c). Qed.

Lemma decr_keeps c c' : decr c = Some c' → registered c' = registered c.
Proof. unfold decr, set_strong. destruct (strong c); intros; by simplify_eq. Qed.

Lemma forget_keeps c c' : forget c = Some c' → registered c' = registered c.
Proof.
  unfold forget, then_. destruct (live_cell decr c) as [c1|] eqn:E; [|done]. simpl. intros [= <-].
  by apply live_keeps, decr_keeps in E.
Qed.

Lemma exit_keeps c c' : exit c = Some c' → registered c' = registered c.
Proof.
  unfold exit, then_. destruct (live_cell leave c) as [c1|] eqn:E; [|done]. simpl. intros H%decr_keeps.
  apply live_keeps in E. by injection E as <-.
Qed.

Lemma exit_repeat_keeps c c' : exit_repeat c = Some c' → registered c' = registered c.
Proof.
  unfold exit_repeat, then_. destruct (live_cell (set_borrowed false) c) as [c1|] eqn:E; [|done]. simpl. intros H%exit_keeps.
  apply live_keeps in E. by injection E as <-.
Qed.

Lemma fire_repeat_keeps c c' : fire_repeat c = Some c' → registered c' = registered c.
Proof.
  unfold fire_repeat, then_. destruct (live_cell incr c) as [c1|] eqn:E; [|done]. simpl. intros [= <-].
  apply live_keeps in E. by injection E as <-.
Qed.

(** Dropping and firing let go of the registration, once. *)
Lemma drop_handle_registered c c' : drop_handle c = Some c' →
  registered c' = if released c then registered c else false.
Proof.
  unfold drop_handle, then_, live_cell, set_released, remove_cb, decr, drop_owner, set_strong. destruct c as [k reg rel on_ bo st fr ha de ac ru].
  simpl. destruct fr, rel, reg, st as [|[|st]]; simpl; intros; by simplify_eq/=.
Qed.

Lemma fire_once_registered c c' : fire_once c = Some c' →
  registered c' = if released c then registered c else false.
Proof.
  unfold fire_once, then_, live_cell, set_released, take_once, enter, incr, remove_cb, decr, set_strong.
  destruct c as [k reg rel on_ bo st fr ha de ac ru]. simpl. destruct fr, rel, reg; simpl; intros; by simplify_eq/=.
Qed.

(** *** The double drives the cells as a simulator does *)

Definition agrees (r : option Sys) (o : Out) : Prop :=
  match o with Fine m => ∃ s : Sys, r = Some s ∧ cells s = m ∧ linked (cbs s) m | UB => r = None | Abort => True end.

Lemma on_agrees id (f : CbShared → option CbShared) (removes : bool) (s : Sys) :
  linked (cbs s) (cells s) →
  (∀ c c', cells s !! id = Some c → f c = Some c' → registered c' = if removes then false else registered c) →
  agrees (on id f removes s) (on_cell id f (cells s)).
Proof.
  intros Hl Hf. unfold on, on_cell. destruct (cells s !! id) as [c|] eqn:Ec; [|done].
  destruct (f c) as [c'|] eqn:Ef; [|done]. specialize (Hf c c' eq_refl Ef). simpl. eexists. split_and!; [done|done|]. simpl.
  destruct removes; [by eapply linked_remove|by eapply linked_keep].
Qed.

Lemma act_agrees a (s : Sys) : linked (cbs s) (cells s) → agrees (act a s) (Callback.exec (as_op a) (cells s)).
Proof.
  intros Hl. destruct a as [id|id]; simpl; (destruct (cells s !! id) as [c|] eqn:Ec; [|by exists s]);
    (destruct (handle c) eqn:Eh; [|by exists s]); apply on_agrees; try done; intros c1 c' Hc1 Hf; simplify_eq.
  - rewrite (drop_handle_registered _ _ Hf). by destruct (released _).
  - by apply forget_keeps.
Qed.

Lemma acts_agree l : ∀ s : Sys, linked (cbs s) (cells s) → agrees (acts l s) (Callback.run (map as_op l) (cells s)).
Proof.
  induction l as [|a l IH]; intros s Hl; simpl; [by exists s|].
  pose proof (act_agrees a s Hl) as H. destruct (Callback.exec (as_op a) (cells s)) as [m| |]; simpl in *; [|by rewrite H|done].
  destruct H as (s' & -> & <- & Hl'). by apply IH.
Qed.

Lemma agrees_bind r o (k : Sys → option Sys) (k' : gmap nat CbShared → Out) :
  agrees r o → (∀ s : Sys, r = Some s → linked (cbs s) (cells s) → agrees (k s) (k' (cells s))) → agrees (r ≫= k) (bind_out o k').
Proof.
  intros H Hk. destruct o as [m| |]; simpl in *; [|by rewrite H|done]. destruct H as (s & -> & <- & Hl). by apply Hk.
Qed.

Lemma trampoline_agrees id c closure (s : Sys) :
  linked (cbs s) (cells s) → cells s !! id = Some c → registered c = true → (kind c = Recurring → borrowed c = false) → freed c = false →
  agrees (trampoline id closure s) (Callback.exec (OFire id (map as_op closure)) (cells s)).
Proof.
  intros Hl Hc Hr Hb Hfr. unfold trampoline. rewrite Hc. cbn [mbind option_bind]. simpl. rewrite Hc, Hr, Hfr. simpl.
  destruct (kind c) eqn:Hk.
  - apply agrees_bind; [|intros s1 _ Hl1; apply agrees_bind].
    + apply on_agrees; [done|]. intros c1 c' Hc1 Hf. simplify_eq. rewrite (fire_once_registered _ _ Hf).
      by destruct (released _).
    + destruct (released c); [by exists s1|]. by apply acts_agree.
    + intros s2 _ Hl2. apply on_agrees; [done|]. intros c1 c' _. apply exit_keeps.
  - rewrite Hb by done. apply agrees_bind; [|intros s1 _ Hl1; apply agrees_bind].
    + apply on_agrees; [done|]. intros c1 c' _. apply fire_repeat_keeps.
    + by apply acts_agree.
    + intros s2 _ Hl2. apply on_agrees; [done|]. intros c1 c' _. apply exit_repeat_keeps.
Qed.

(** Between the double's calls no closure runs. *)
Record inv (s : Sys) : Prop := { i_linked : linked (cbs s) (cells s); i_ok : ok (cells s); i_idle : within [] (cells s) }.

Lemma stub_init_inv : inv init.
Proof.
  constructor; simpl; [|apply map_Forall_empty|intros id c Hc; by rewrite lookup_empty in Hc].
  constructor; [apply NoDup_nil_2|..]; intros i x Hx; by rewrite ?lookup_nil, ?lookup_empty in Hx.
Qed.

Lemma acts_safe path closure : forallb (no_reentry path) (map as_op closure) = true.
Proof. induction closure as [|[]]; simpl; done. Qed.

(** The cells' side of an operation is fine and leaves them in order. *)
Lemma cells_go (o : Op) m : ok m → within [] m → no_reentry [] o = true →
  ∃ m', Callback.exec o m = Fine m' ∧ ok m' ∧ within [] m'.
Proof.
  intros Hm Hw Hn. pose proof (exec_good o [] m Hm Hw) as H. rewrite Hn in H.
  destruct (Callback.exec o m) as [m'| |]; simpl in H; [|done|done]. destruct H as [? Hf]. exists m'. split_and!; [done..|].
  by eapply within_frames.
Qed.

Lemma agreed_step (s : Sys) (r : option Sys) (o : Op) :
  ok (cells s) → within [] (cells s) → no_reentry [] o = true → agrees r (Callback.exec o (cells s)) →
  ∃ s' : Sys, r = Some s' ∧ Callback.run [o] (cells s) = Fine (cells s') ∧ inv s'.
Proof.
  intros Hm Hw Hn Ha. destruct (cells_go o _ Hm Hw Hn) as (m' & He & Hm' & Hw'). cbn [Callback.run].
  rewrite He in *. destruct Ha as (s' & -> & <- & Hl). by exists s'.
Qed.

Lemma stub_exec_step o (s : Sys) : inv s → ∃ s' : Sys, exec o s = Some s' ∧ Callback.run (as_ops o s) (cells s) = Fine (cells s') ∧ inv s'.
Proof.
  intros [Hl Hm Hw]. destruct o as [k|a|closure]; cbn [exec as_ops].
  - apply agreed_step; try done. eexists. split_and!; [done|done|]. by apply linked_register.
  - apply agreed_step; [done..|by destruct a|by apply act_agrees].
  - unfold next_scheduled. destruct (list_find _ (cbs s)) as [[i cb]|] eqn:E; [|by exists s].
    apply list_find_Some in E as (Hi & Hsc & _). pose proof (l_scheduled _ _ Hl i cb Hi Hsc) as Hlive.
    destruct (l_cell _ _ Hl i cb Hi) as (c & Hc & Hreg). pose proof (Hm _ _ Hc) as Hok.
    assert (active c = 0%nat) as Hact.
    { destruct (decide (active c = 0%nat)) as [|Ha]; [done|]. by apply (Hw _ _ Hc), not_elem_of_nil in Ha. }
    assert (registered c = true) as Hr by congruence.
    apply (agreed_step s _ (OFire (user_data cb) (map as_op closure))); [done..| |].
    + simpl. by rewrite acts_safe.
    + eapply (trampoline_agrees _ c closure {| cbs := unschedule i (cbs s); cells := cells s |}); [|done|done|..].
      * by apply linked_unschedule.
      * intros Hk. by rewrite (ok_borrow _ Hok Hk), Hact.
      * rewrite (ok_freed _ Hok), (ok_count _ Hok). rewrite (ok_reg _ Hok) in Hr. rewrite Hr. apply bool_decide_eq_false_2. simpl. lia.
Qed.

Lemma run_app l1 l2 m : Callback.run (l1 ++ l2) m = bind_out (Callback.run l1 m) (Callback.run l2).
Proof. revert m. induction l1 as [|o l1 IH]; intros m; simpl; [done|]. destruct (Callback.exec o m); simpl; [apply IH|done..]. Qed.

Lemma exec_all_inv l : ∀ s : Sys, inv s →
  ∃ s' : Sys, exec_all l s = Some s' ∧ Callback.run (all_ops l s) (cells s) = Fine (cells s') ∧ inv s'.
Proof.
  induction l as [|o l IH]; intros s Hs; simpl; [by exists s|].
  destruct (stub_exec_step o s Hs) as (s1 & -> & Hr & H1). destruct (IH s1 H1) as (s2 & He & Hr2 & H2).
  exists s2. split_and!; [done| |done]. rewrite run_app, Hr. done.
Qed.

(** Handles alive in the double are cells still registered. *)
Lemma linked_count l m : linked l m →
  length (filter (λ c, handle_live c = true) l) = size (filter (λ kc : nat * CbShared, registered kc.2 = true) m).
Proof.
  intros [Hn Hc Hb _].
  assert (dom (filter (λ kc : nat * CbShared, registered kc.2 = true) m) =
          list_to_set (user_data <$> filter (λ c, handle_live c = true) l) :> gset nat) as Hd.
  { apply set_eq. intros id. rewrite elem_of_dom, elem_of_list_to_set, list_elem_of_fmap. split.
    - intros [c [Hm Hr]%map_lookup_filter_Some]. destruct (proj1 (list_elem_of_fmap _ _ _) (Hb id c Hm)) as (cb & -> & Hin).
      exists cb. split; [done|]. apply list_elem_of_filter. split; [|done].
      apply list_elem_of_lookup in Hin as [i Hi]. destruct (Hc i cb Hi) as (c0 & Hm0 & ->). simpl in Hr. congruence.
    - intros (cb & -> & [Hl Hin]%list_elem_of_filter). apply list_elem_of_lookup in Hin as [i Hi].
      destruct (Hc i cb Hi) as (c0 & Hm0 & Hr). exists c0. apply map_lookup_filter_Some. split; [done|]. simpl. congruence. }
  rewrite <- size_dom, Hd, size_list_to_set, length_fmap; [done|].
  apply (sublist_NoDup _ _ Hn), fmap_sublist, sublist_filter.
Qed.

(** C11: Whatever a test registers, drops, forgets and has the double fire, the
    closures dropping and forgetting handles of their own accord, nothing is
    undefined and the callback cells go through exactly the operations of a
    simulator.  The double counts as live precisely the registrations the cells
    still hold; a one-shot that has run is not among them; and its state can be
    reset exactly when every cell has let go of its registration. *)
Theorem double_counts_registrations ops :
  ∃ s : Sys, exec_all ops init = Some s ∧ Callback.run (all_ops ops init) ∅ = Fine (cells s) ∧
    ∀ st : Stub, CALLBACKS st = cbs s →
      live_callback_handles st = size (filter (λ kc : nat * CbShared, registered kc.2 = true) (cells s)) ∧
      (∀ id c, cells s !! id = Some c → kind c = OneShot → runs c ≠ 0%nat → registered c = false) ∧
      ((∃ st', reset_callbacks st = Done st') ↔ ∀ id c, cells s !! id = Some c → registered c = false).
Proof.
  destruct (exec_all_inv ops init stub_init_inv) as (s & He & Hr & [Hl Hm Hw]). exists s. split_and!; [done|done|].
  intros st Hst. assert (live_callback_handles st = size (filter (λ kc : nat * CbShared, registered kc.2 = true) (cells s))) as Hn.
  { unfold live_callback_handles. rewrite Hst. by apply linked_count. }
  split_and!; [done| |].
  - intros id c Hc Hk Hru. rewrite (ok_reg _ (Hm _ _ Hc)). destruct (released c) eqn:E; [done|].
    by destruct (ok_once _ (Hm _ _ Hc) Hk) as [_ [_ ?]].
  - unfold reset_callbacks. case_decide as Hd; rewrite Hn, map_size_empty_iff, map_empty_filter in Hd.
    + split; [intros _ id c Hc|by eexists]. specialize (Hd id c Hc). simpl in Hd. by destruct (registered c).
    + split; [by intros [st' ?]|]. intros H. destruct Hd. intros id c Hc. simpl. by rewrite (H id c Hc).
Qed.
End VpiStubs.
