(* ===== verification/UnitKit.v ===== *)
(** * UnitKit: running a unit test of the crates on the model.

    A [#[test]] function comes to an outcome: it returns, or it panics.  Most
    drive asynchronous code with [block_on] or [assert_pending] of testing.rs, on
    a bare executor with no simulator: here those of Testing.v, with the code of
    Async.v as the future. *)
From stdpp Require Import pretty.
From S2P Require Import Prelude Words Values Queue Sync Signals Time PhaseHub Triggers Executor Combinators Objection Runner Testing Async Kit Bench.
Local Open Scope Z_scope.

(** [should_panic] is the [expected] text of the attribute; [runs] is [None] for
    a test that does not come to an end. *)
Record UnitTest := { test_name : string; should_panic : option string; runs : option (Exec unit) }.

#[global] Instance result_eq_dec {A E : Type} `{EqDecision A, EqDecision E} : EqDecision (Result A E).
Proof. solve_decision. Defined.

Module UnitKit.
Import Async Kit Bench.
Local Open Scope code_scope.

Definition mentions (text part : string) : bool := Runner.contains (list_of_string text) (list_of_string part).
Definition passes (t : UnitTest) : bool :=
  match runs t, should_panic t with
  | Some (Done _), None => true
  | Some (Panic m), Some expected => mentions m expected
  | _, _ => false
  end.
Definition test (name : string) (r : option (Exec unit)) : UnitTest := {| test_name := name; should_panic := None; runs := r |}.
Definition panicking (name expected : string) (r : option (Exec unit)) : UnitTest :=
  {| test_name := name; should_panic := Some expected; runs := r |}.

(** A test of plain calls: its assertions, in order. *)
Definition asserts (l : list bool) : option (Exec unit) :=
  Some (if forallb id l then Done tt else Panic "assertion failed").

(** [assert_eq!] and [assert!] in plain code that may panic. *)
Definition ensure (b : bool) : Exec unit := if b then Done tt else Panic "assertion failed".

Section Drive.
Context {Any X : Type}.
Abbreviation U := (Env Any X).
Abbreviation Code := (@Async.Code N Empty_set U Out).

(** No simulator: time stands still and no object has a value. *)
Definition bare (x : X) : @Sim N Empty_set U :=
  {| tw := {| Triggers.now := 0; Triggers.vals := λ _, None; Triggers.trigs := ∅; Triggers.regs := ∅; Triggers.next := 0;
              Triggers.woken := [] |};
     hub := PhaseHub.init_hub; reals := λ _, None; texts := λ _, None; eval_needed := false; finished := false;
     user := fresh_env x |}.
Definition unit_poll := @Async.poll N _ Empty_set U Out (λ _, EmptyString) 64.
Definition main_future (c : Code unit) : @Fut N Empty_set U Out Out := FStart (c ;; Ret ODone).

Definition block_on (x : X) (c : Code unit) : option (Exec unit) :=
  match Testing.block_on unit_poll Async.drop by_id 1000 (main_future c) (bare x) with
  | Some (Done _) => Some (Done tt)
  | Some (Panic m) => Some (Panic m)
  | None => None
  end.
Definition assert_pending (x : X) (c : Code unit) : option (Exec unit) :=
  Testing.assert_pending unit_poll Async.drop by_id 1000 (main_future c) (bare x).

(** [assert!] and [assert_eq!]. *)
Definition holds (b : bool) : Code unit := assert b "assertion failed".
Definition equal {A : Type} `{EqDecision A} (x y : A) : Code unit := holds (bool_decide (x = y)).
(** [spawn(async move { .. })], the handle let go. *)
Definition go (c : Code unit) : Code unit := spawn c None ;; Ret tt.
(** A call that returns a new state and wakers. *)
Definition wakes_call {Y : Type} {A : Set} (l : Lens U Y) (f : Y → Y * list Waker * A) : Code A :=
  Call (λ u, let '(y, ws, a) := f (view l u) in Done (update l y u, ws, a)).
Definition peek_at {Y : Type} {A : Set} (l : Lens U Y) (f : Y → A) : Code A := ask (λ u, f (view l u)).
(** [r.unwrap()]. *)
Definition unwrap {A E : Set} (c : Code (Result A E)) : Code A :=
  r <- c ;; match r with Ok a => Ret a | Err _ => Throw "called `Result::unwrap()` on an `Err` value" end.
End Drive.
End UnitKit.
