(* ===== verification/UnitSim.v ===== *)
(** * UnitSim: the unit tests of rustdv-sim, of objection.rs and of the crates
    of plain functions, run on the model.

    One module per source file, one definition per test. *)
From stdpp Require Import pretty.
From S2P Require Import Prelude Words Values Queue Sync Path Rng Signals Time PhaseHub Triggers Executor Combinators Trace Objection Runner Alu Stream Cycle Testing Async Kit Bench UnitKit.
Local Open Scope Z_scope.

Module UnitSim.
Import Async Kit Bench UnitKit.
Import Combinators(Either, First, Second).
Local Open Scope code_scope.

(** ** rustdv-sim/src/queue.rs *)

Module QueueTests.
Section QueueTests.
(** The one queue of a test. *)
Context {T : Set}.
Abbreviation Code := (@Async.Code N Empty_set (Env unit (Queue.QInner T)) Out).
Definition q : Lens (Env unit (Queue.QInner T)) (Queue.QInner T) := part (λ x, x) (λ y _, y).
Definition put (x : T) : Code unit := queue_put q x.
Definition get : Code T := queue_get q.
Definition try_put (x : T) : Code (Result unit T) := queue_try_put q x.
Definition try_get : Code (option T) := queue_try_get q.
Definition peek : Code T :=
  Await (λ (_ : unit) cx u, let '(q', ws, r) := Queue.poll_peek (view q u) cx in Done (update q q' u, ws, tt, r)) (λ _ u, (u, [])) tt.
Definition wait_for_space : Code unit :=
  Await (λ (_ : unit) cx u, let '(q', ws, r) := Queue.poll_space (view q u) cx in Done (update q q' u, ws, tt, r)) (λ _ u, (u, [])) tt.
Definition try_peek : Code (option T) := peek_at q Queue.try_peek.
Definition has_space : Code bool := peek_at q Queue.has_space.
Definition len : Code nat := peek_at q Queue.len.
Definition is_empty : Code bool := peek_at q Queue.is_empty.
(** [assert_eq!(call.await, x)]. *)
Definition gives {A : Set} `{EqDecision A} (c : Code A) (x : A) : Code unit := r <- c ;; equal r x.
End QueueTests.

Definition put_get_round_trips_in_order : UnitTest := test "put_get_round_trips_in_order" (block_on Queue.unbounded (
  for_each (seq 0 5) put ;;
  for_each (seq 0 5) (λ n, gives get n))).

Definition try_put_on_a_full_queue_returns_the_item : UnitTest :=
  test "try_put_on_a_full_queue_returns_the_item" (block_on (Queue.new (Some 1%nat)) (
    gives (try_put "first") (Ok tt) ;;
    r <- try_put "second" ;;
    match r with Err back => equal back "second" | Ok _ => Throw "a depth-1 queue accepted a second item" end)).

Definition try_get_on_an_empty_queue_is_none : UnitTest :=
  test "try_get_on_an_empty_queue_is_none" (block_on Queue.unbounded (
    gives try_get None ;; put 1 ;; gives try_get (Some 1) ;; gives try_get None)).

Definition a_blocked_get_wakes_on_a_put : UnitTest :=
  test "a_blocked_get_wakes_on_a_put" (block_on Queue.unbounded (go (put 42) ;; gives get 42)).

Definition a_blocked_put_wakes_when_space_appears : UnitTest :=
  test "a_blocked_put_wakes_when_space_appears" (block_on (Queue.new (Some 1%nat)) (
    put 1 ;; go (get ;; Ret tt) ;; put 2 ;; gives len 1%nat)).

Definition a_get_on_an_empty_queue_waits : UnitTest :=
  test "a_get_on_an_empty_queue_waits" (assert_pending (Queue.unbounded : Queue.QInner Z) (get ;; Ret tt)).

Definition peek_does_not_consume : UnitTest :=
  test "peek_does_not_consume" (block_on Queue.unbounded (put 9 ;; gives peek 9 ;; gives len 1%nat ;; gives get 9)).

Definition try_peek_is_none_when_empty : UnitTest :=
  test "try_peek_is_none_when_empty" (block_on Queue.unbounded (
    gives try_peek None ;; put 3 ;; gives try_peek (Some 3) ;; gives len 1%nat)).

Definition has_space_agrees_with_len : UnitTest :=
  test "has_space_agrees_with_len" (block_on (Queue.new (Some 2%nat)) (
    gives has_space true ;; put 1 ;; gives has_space true ;; put 2 ;; gives has_space false ;; gives len 2%nat)).

Definition wait_for_space_returns_when_drained : UnitTest :=
  test "wait_for_space_returns_when_drained" (block_on (Queue.new (Some 1%nat)) (
    put 1 ;; go (get ;; Ret tt) ;; wait_for_space ;; gives has_space true)).

Definition unbounded_never_blocks_a_put : UnitTest :=
  test "unbounded_never_blocks_a_put" (block_on Queue.unbounded (
    for_each (seq 0 1000) (λ n, gives (try_put n) (Ok tt)) ;; gives len 1000%nat)).

Definition is_empty_tracks_contents : UnitTest :=
  test "is_empty_tracks_contents" (block_on Queue.unbounded (
    gives is_empty true ;; put 1 ;; gives is_empty false ;; get ;; gives is_empty true)).

(** The future is made and dropped without a poll: nothing happens. *)
Definition a_dropped_get_consumes_nothing : UnitTest :=
  test "a_dropped_get_consumes_nothing" (block_on Queue.unbounded (let pending := get (T := Z) in put 5 ;; gives get 5)).

Definition all : list UnitTest :=
  [put_get_round_trips_in_order; try_put_on_a_full_queue_returns_the_item; try_get_on_an_empty_queue_is_none;
   a_blocked_get_wakes_on_a_put; a_blocked_put_wakes_when_space_appears; a_get_on_an_empty_queue_waits;
   peek_does_not_consume; try_peek_is_none_when_empty; has_space_agrees_with_len; wait_for_space_returns_when_drained;
   unbounded_never_blocks_a_put; is_empty_tracks_contents; a_dropped_get_consumes_nothing].
End QueueTests.

(** ** rustdv-sim/src/sync.rs and combinators.rs *)

(** What the tests share: an event, a lock, a counter, an order. *)
Record Shared := { ev : Event.Event; lock : Lock.LockInner; woken : Z; order : list Z }.
Definition fresh : Shared := {| ev := Event.new; lock := Lock.new; woken := 0; order := [] |}.
Abbreviation SharedU := (Env unit Shared).
Abbreviation SharedCode := (@Async.Code N Empty_set SharedU Out).
Definition the_event : Lens SharedU Event.Event := part ev (λ e x, {| ev := e; lock := lock x; woken := woken x; order := order x |}).
Definition the_lock : Lens SharedU Lock.LockInner := part lock (λ l x, {| ev := ev x; lock := l; woken := woken x; order := order x |}).
Definition wait : SharedCode unit := event_wait the_event.
Definition set : SharedCode unit := event_set the_event.
Definition count_one : SharedCode unit := edit (λ x, {| ev := ev x; lock := lock x; woken := woken x + 1; order := order x |}).
Definition push (n : Z) : SharedCode unit := edit (λ x, {| ev := ev x; lock := lock x; woken := woken x; order := order x ++ [n] |}).
(** [lock.acquire().await]; the guard's drop is [release]. *)
Definition acquire : SharedCode unit :=
  Await (λ a cx u, let '(l, a', r) := Lock.poll_acquire (view the_lock u) a cx in Done (update the_lock l u, [], a', r))
    (λ a u, let '(l, ws) := Lock.drop_acquire (view the_lock u) a in (update the_lock l u, ws)) Lock.acquire.
Definition release (u : SharedU) : SharedU * list Waker :=
  let '(l, ws) := Lock.drop_guard (view the_lock u) in (update the_lock l u, ws).

Definition drive : SharedCode unit → option (Exec unit) := block_on fresh.

Module SyncTests.
Definition wait_before_set_wakes : UnitTest := test "wait_before_set_wakes" (drive (go set ;; wait)).

Definition set_latches_until_cleared : UnitTest :=
  test "set_latches_until_cleared" (drive (set ;; wait ;; b <- peek_at the_event Event.is_set ;; holds b)).

Definition cleared : Event.Event := Event.clear (fst (Event.set Event.new)).
Definition clear_makes_a_later_wait_block_again : UnitTest :=
  test "clear_makes_a_later_wait_block_again"
    (if Event.is_set cleared then Some (Panic "assertion failed")
     else assert_pending {| ev := cleared; lock := Lock.new; woken := 0; order := [] |} wait).

Definition one_set_wakes_every_waiter : UnitTest :=
  test "one_set_wakes_every_waiter" (drive (
    repeat_ 3 (go (wait ;; count_one)) ;;
    RunIdle ;; set ;; RunIdle ;;
    n <- look woken ;; equal n 3)).

Definition lock_is_fifo_fair : UnitTest :=
  test "lock_is_fifo_fair" (drive (
    acquire ;;
    for_each [1; 2; 3] (λ who, go (acquire ;; Scoped release (push who)) ;; RunIdle) ;;
    Call (λ u, let '(u', ws) := release u in Done (u', ws, tt)) ;;        (* drop(held) *)
    RunIdle ;;
    o <- look order ;; equal o [1; 2; 3])).

Definition all : list UnitTest :=
  [wait_before_set_wakes; set_latches_until_cleared; clear_makes_a_later_wait_block_again; one_set_wakes_every_waiter;
   lock_is_fifo_fair].
End SyncTests.

Module CombinatorTests.
Definition join2_yields_both : UnitTest :=
  test "join2_yields_both" (drive (r <- Join2 (Ret 1) (Ret "two") ;; equal r (1, "two"))).
Definition join_all_preserves_input_order : UnitTest :=
  test "join_all_preserves_input_order" (drive (r <- JoinAll [Ret 1; Ret 2; Ret 3] ;; equal r [1; 2; 3])).
Definition first2_returns_the_winner : UnitTest :=
  test "first2_returns_the_winner" (drive (
    go set ;;
    r <- First2 (Ret 7) wait ;;
    match r with First v => equal v 7 | Second _ => Throw "the ready future should have won" end)).
Definition joined_futures_may_borrow : UnitTest :=
  test "joined_futures_may_borrow" (drive (
    let owned := [1; 2; 3] in
    r <- Join2 (Ret (length owned)) (Ret (nth 0 owned 0)) ;; equal r (3%nat, 1))).
Definition all : list UnitTest :=
  [join2_yields_both; join_all_preserves_input_order; first2_returns_the_winner; joined_futures_may_borrow].
End CombinatorTests.

(** ** rustdv-methodology/src/objection.rs *)

Module ObjectionTests.
(** The registry is that of the environment. *)
Abbreviation OCode := (@Async.Code N Empty_set (Env unit unit) Out).
Definition reg : Lens (Env unit unit) Objection.ObjInner := {| view := objections; update := set_objections |}.
Definition raise (d : string) : OCode unit := modify (λ u, set_objections (Objection.raise d (objections u)).1 u).
Definition drop_guard (d : string) : OCode unit := wakes_call reg (λ o, let '(o', ws) := Objection.drop_guard d o in (o', ws, tt)).
Definition count_is (n : nat) (o : Objection.ObjInner) : bool := Nat.eqb (Objection.count o) n.

Definition a_guard_raises_and_dropping_it_drops : UnitTest :=
  test "a_guard_raises_and_dropping_it_drops"
    (let r0 := Objection.new in let '(r1, g) := Objection.raise "stimulus" r0 in let '(r2, _) := Objection.drop_guard g r1 in
     asserts [count_is 0 r0; count_is 1 r1; count_is 0 r2]).
Definition nested_objections_end_only_at_the_last_drop : UnitTest :=
  test "nested_objections_end_only_at_the_last_drop"
    (let '(r1, a) := Objection.raise "a" Objection.new in let '(r2, b) := Objection.raise "b" r1 in
     let '(r3, _) := Objection.drop_guard a r2 in let '(r4, _) := Objection.drop_guard b r3 in
     asserts [count_is 2 r2; count_is 1 r3; count_is 0 r4]).
Definition drained_fires_when_a_raised_count_returns_to_zero : UnitTest :=
  test "drained_fires_when_a_raised_count_returns_to_zero" (block_on tt (
    raise "work" ;; go wait_drained_event ;; drop_guard "work" ;; wait_drained_event)).
Definition never_objecting_never_fires_the_drained_event : UnitTest :=
  test "never_objecting_never_fires_the_drained_event"
    (if count_is 0 Objection.new then assert_pending (Any := unit) tt wait_drained_event else Some (Panic "assertion failed")).
Definition all : list UnitTest :=
  [a_guard_raises_and_dropping_it_drops; nested_objections_end_only_at_the_last_drop;
   drained_fires_when_a_raised_count_returns_to_zero; never_objecting_never_fires_the_drained_event].
End ObjectionTests.

(** ** rustdv-sim/src/path.rs, rng.rs and simulator_trace.rs *)

Module PathTests.
Import Path.
Definition child_extends_and_renders : UnitTest :=
  test "child_extends_and_renders"
    (let root := root "RandomTest" in let env := child root "env" in let sb := child env "scoreboard" in
     asserts [bool_decide (as_str sb = "RandomTest.env.scoreboard"); Nat.eqb (depth sb) 3;
              bool_decide (segments sb = ["RandomTest"; "env"; "scoreboard"])]).
Definition under_is_segment_wise : UnitTest :=
  test "under_is_segment_wise"
    (let a := root "a" in let ab := child a "b" in
     asserts [is_under ab a; is_under a a; negb (is_under a ab); negb (is_under (root "ab") a)]).
Definition str_under_matches_on_segments : UnitTest :=
  test "str_under_matches_on_segments"
    (asserts [str_is_under "a.b" "a"; str_is_under "a" "a"; negb (str_is_under "ab" "a"); negb (str_is_under "a" "a.b");
              str_is_under "anything" ""]).
Definition empty_path_has_no_segments : UnitTest :=
  test "empty_path_has_no_segments"
    (let e := empty in
     asserts [is_empty e; Nat.eqb (depth e) 0; bool_decide (as_str e = ""); bool_decide (as_str (child e "top") = "top")]).
Definition all : list UnitTest :=
  [child_extends_and_renders; under_is_segment_wise; str_under_matches_on_segments; empty_path_has_no_segments].
End PathTests.

Module RngTests.
(** Two generators drawn from in step. *)
Fixpoint in_step (n : nat) (a b : Rng.Rng) : bool :=
  match n with
  | O => true
  | S k => let '(a', x) := Rng.next_u64 a in let '(b', y) := Rng.next_u64 b in (x =? y) && in_step k a' b'
  end.
Definition deterministic : UnitTest := test "deterministic" (asserts [in_step 100 (Rng.new 42) (Rng.new 42)]).
Fixpoint stay_below (n : nat) (bound : Z) (r : Rng.Rng) : Exec unit :=
  match n with
  | O => Done tt
  | S k => match Rng.below r bound with
    | Done (r', x) => if x <? bound then stay_below k bound r' else Panic "assertion failed"
    | Panic m => Panic m
    end
  end.
Definition below_in_range : UnitTest := test "below_in_range" (Some (stay_below 1000 5 (Rng.new 7))).
Definition all : list UnitTest := [deterministic; below_in_range].
End RngTests.

Module TraceTests.
(** The lookup of the test: a function here, so the names it is asked for are
    those of [resolve_control] and not recorded. *)
Definition legacy_control : nat := 1.
Definition legacy (name : string) : option nat :=
  if decide (name = "rustdv_verilator_trace_control") then Some legacy_control else None.
Definition legacy_verilator_host_symbol_remains_supported : UnitTest :=
  test "legacy_verilator_host_symbol_remains_supported"
    (asserts [bool_decide (Trace.resolve_control legacy = Some legacy_control);
              bool_decide (legacy "rustdv_simulator_trace_control" = None)]).
(** A process without a trace host. *)
Definition no_symbol (_ : string) : option nat := None.
Definition no_call (f : nat) (command : Z) (path : option string) (s : unit) (raw : Trace.RawTraceStatus) (b : list Ascii.ascii) :
  unit * Z * Trace.RawTraceStatus * list Ascii.ascii := (s, 0, raw, b).
Definition ordinary_rust_test_reports_missing_trace_host : UnitTest :=
  test "ordinary_rust_test_reports_missing_trace_host"
    (asserts [negb (Trace.host_present no_symbol); match Trace.host_format no_symbol (λ _, 0) with None => true | Some _ => false end;
              match (Trace.status (A := unit) (N := unit) (F := unit) no_symbol no_call None {| Trace.host := tt; Trace.calls := [] |}).2 with
              | Err (Trace.Unavailable _) => true | _ => false end]).
Definition all : list UnitTest := [legacy_verilator_host_symbol_remains_supported; ordinary_rust_test_reports_missing_trace_host].
End TraceTests.

(** ** tinyalu_tb/src/alu_item.rs *)

Module AluItemTests.
Import Alu.
Definition predicts (x y : Z) (o : Ops) (z : Z) : bool := result (predict {| a := x; b := y; op := o |}) =? z.
Definition predict_add_carries_into_bit8 : UnitTest :=
  test "predict_add_carries_into_bit8" (asserts [predicts 0xFF 0xFF Add 0x01FE]).
Definition predict_all_ops : UnitTest :=
  test "predict_all_ops"
    (asserts [predicts 2 3 Add 5; predicts 0xF0 0x3C And 0x0030; predicts 0xF0 0x3C Xor 0x00CC; predicts 4 5 Mul 20]).
Definition transaction_derives_do_the_uvm_object_jobs : UnitTest :=
  test "transaction_derives_do_the_uvm_object_jobs"
    (let t := {| a := 1; b := 2; op := Xor |} in
     let copy := t in
     asserts [bool_decide (t = copy); mentions (cmd_debug t) "Xor"]).
Definition ops_roundtrip : UnitTest :=
  test "ops_roundtrip"
    (asserts (map (λ o, bool_decide (from_u64 (as_u64 o) = Some o)) ALL ++ [bool_decide (from_u64 0 = None)])).
Definition all : list UnitTest :=
  [predict_add_carries_into_bit8; predict_all_ops; transaction_derives_do_the_uvm_object_jobs; ops_roundtrip].
End AluItemTests.

(** ** benchmarks/stream-model/src/lib.rs *)

Module StreamTests.
Import Stream.
Definition no_inputs : BenchInputs :=
  {| s_ready := 0; m_valid := 0; m_data := 0; m_id := 0; m_last := 0; m_user := 0; accepted_count := 0 |}.
Definition deterministic_vectors_are_stable : UnitTest :=
  test "deterministic_vectors_are_stable"
    (asserts [payload 1 0 =? 0x910a2dec89025cc1; payload 1 1 =? 0xe99ff867dbf682c9;
              transform_data 0x0123456789abcdef 0x1234 =? 0x1d215858584403a5; user_value 1 0 =? 0x1a;
              trace_digest_update 0 1 no_inputs (zero_outputs false) =? 0x5e41ab087439611e]).
Definition continues (s : StepStatus) : bool := match s with Continue => true | _ => false end.
(** Cycles with the same inputs, all to go on. *)
Fixpoint step_on (n : nat) (i : BenchInputs) (m : BenchModel) (o : BenchOutputs) : Exec (BenchModel * BenchOutputs) :=
  match n with
  | O => Done (m, o)
  | S k => let '(m', o', s) := bench_step m i o in if continues s then step_on k i m' o' else Panic "assertion failed"
  end.
Definition not_ready (o : BenchOutputs) : BenchOutputs :=
  {| reset_n := reset_n o; s_valid := s_valid o; s_data := s_data o; s_id := s_id o; s_last := s_last o; s_user := s_user o;
     m_ready := 0; inject_error := inject_error o |}.
Definition stalled_source_payload_is_retained : UnitTest :=
  test "stalled_source_payload_is_retained" (Some (
    match bench_new 2 1 false with
    | Panic m => Panic m
    | Done (model, outputs) =>
        match step_on (Z.to_nat RESET_CYCLES) no_inputs model outputs with
        | Panic m => Panic m
        | Done (model, outputs) =>
            let before := not_ready outputs in
            let inputs := {| s_ready := 0; m_valid := 1; m_data := transform_data (s_data before) 0; m_id := 0; m_last := 0;
                             m_user := user_value 1 0; accepted_count := 0 |} in
            let '(_, after, st) := bench_step model inputs before in
            ensure (continues st && (s_valid after =? s_valid before) && (s_data after =? s_data before))
        end
    end)).
Definition all : list UnitTest := [deterministic_vectors_are_stable; stalled_source_payload_is_retained].
End StreamTests.

(** ** rustdv-cycle/src/rustdv_cycle.rs *)

Module CycleTests.
Import CycleAbi.
(** A model without state whose output accumulates its input. *)
Definition Model : Cycle.CycleModel unit Z Z := {|
  Cycle.new _ := (1, Cycle.Returned (Ok tt));
  Cycle.step m i o := (m, wrap 64 (o + i), Cycle.Returned (Ok (if 4 <=? wrap 64 (o + i) then Cycle.Pass else Cycle.Continue)));
  Cycle.finish m := (m, Cycle.Returned (Ok tt));
|}.
Definition passed (raw : Z) : bool := match Cycle.from_raw raw with Some Cycle.Pass => true | _ => false end.
Definition erased_context_runs_the_pure_contract : UnitTest :=
  test "erased_context_runs_the_pure_contract"
    (match Cycle.create_context Model (Some 0) ∅ with
     | (h, Some outputs, Some context) =>
         match Cycle.step_context Model (Some context) (Some 3) (Some outputs) h with
         | Some (h', Some outputs', status) =>
             match Cycle.destroy_context (Some context) h' with
             | Some _ => asserts [outputs =? 1; passed status; outputs' =? 4]
             | None => None
             end
         | _ => None
         end
     | _ => Some (Panic "assertion failed: !context.is_null()")
     end).
(** [Inputs] and [Outputs] of the test are structs of one [u64]. *)
Definition Inputs : Layout := repr_c [u64].
Definition Outputs : Layout := repr_c [u64].
Definition abi_info_describes_actual_layout : UnitTest :=
  test "abi_info_describes_actual_layout"
    (let info := for_types Inputs Outputs 0x1234 in
     asserts [abi_version info =? CYCLE_ABI_VERSION; input_size info =? size_of Inputs; output_align info =? align_of Outputs;
              schema_hash info =? 0x1234]).
Definition abi_header_is_a_fixed_prefix : UnitTest :=
  test "abi_header_is_a_fixed_prefix"
    (asserts [size_of (repr_c header_fields) =? 8; bool_decide (offsets info_fields !! 0%nat = Some 0);
              bool_decide (offsets info_fields !! 1%nat = Some 4)]).
Definition all : list UnitTest :=
  [erased_context_runs_the_pure_contract; abi_info_describes_actual_layout; abi_header_is_a_fixed_prefix].
End CycleTests.

Definition suite : list UnitTest :=
  QueueTests.all ++ SyncTests.all ++ CombinatorTests.all ++ ObjectionTests.all ++
  PathTests.all ++ RngTests.all ++ TraceTests.all ++ AluItemTests.all ++ StreamTests.all ++ CycleTests.all.

Lemma sim_suite_passes : forallb passes suite = true.
Proof. vm_compute. reflexivity. Qed.
End UnitSim.
