(* ===== verification/UnitTlm.v ===== *)
(** * UnitTlm: the unit tests of fifo.rs, analysis.rs and sequence.rs of
    rustdv-methodology, run on the model.

    Ports, FIFOs, buses, subscribers' states and sequencers are in the store of
    TlmKit.v; a component with hand-written ports is the node its derive would
    give.  The analysis tests are plain calls: they run as code that never
    suspends. *)
From Stdlib Require Import Ascii.
From S2P Require Import Prelude Words Values Queue Sync Factory Tlm Sequence Signals Executor Objection Component Runner Testing Async Kit Bench Tree TlmKit UnitKit.
Local Open Scope Z_scope.

Module UnitTlm.
Import Async Component Kit Bench Tree TlmKit UnitKit.
Import Factory(mkNode, FPort).
Import Port(OwnNode).
Local Open Scope code_scope.

(** The tests of sequence.rs: commands, and answers of one byte. *)
Record Cmd : Set := { a : Z; tag : string }.
#[global] Instance cmd_eq_dec : EqDecision Cmd.
Proof. solve_decision. Defined.
Definition cmd_default : Cmd := {| a := 0; tag := "" |}.

(** [got] and [tags] are the cells tests share with the drivers they spawn. *)
Record Bed := { objects : Objects Z (list Z) Cmd Z; got : option Cmd; tags : list string }.
Definition bed : Bed := {| objects := no_objects; got := None; tags := [] |}.
Abbreviation U := (Env unit Bed).
Abbreviation Code := (@Async.Code N Empty_set U Out).
Definition objs : Lens U (Objects Z (list Z) Cmd Z) := part objects (λ o x, {| objects := o; got := got x; tags := tags x |}).
(** [Subscriber::write] of [Log] and [Tally]: the item is appended. *)
Definition write (_ : nat) (x : Z) (seen : list Z) : list Z := seen ++ [x].
Definition no_wakes (s : list Z) : list Z * list Waker := (s, []).
Definition drive : Code unit → option (Exec unit) := block_on bed.
Definition gives {A : Set} `{EqDecision A} (c : Code A) (x : A) : Code unit := r <- c ;; equal r x.
Definition seen (k : nat) : Code (list Z) := shared_get objs k [].

(** ** fifo.rs *)

Module FifoTests.
(** The ports of [Holder] have the addresses 0 to 3. *)
Definition holder : @Factory.Node unit :=
  mkNode "Holder" tt [("put", FPort "put" 0); ("get", FPort "get" 1); ("peek", FPort "peek" 2); ("sub", FPort "subscribe" 3)].
Definition Holder : Code unit := new_ports objs holder.
Definition H : @Port.PortOwner unit := OwnNode holder.
Definition new (size : option nat) : Code unit := fifo_new objs 0 size.
Definition PUT : Code unit := put_connect objs 0 H "put".
Definition GET : Code unit := get_connect objs 0 H "get".
Definition PEEK : Code unit := peek_connect objs 0 H "peek".
(** Through the ports. *)
Definition h_put (x : Z) : Code unit := port_put objs write no_wakes 0 x.
Definition h_get : Code Z := port_get objs write no_wakes 1.
Definition h_peek : Code Z := port_peek objs no_wakes 2.
Definition h_try_put (x : Z) : Code (Result unit Z) := port_try_put objs write no_wakes 0 x.
(** On the FIFO itself. *)
Definition put (x : Z) : Code unit := fifo_put objs write no_wakes 0 x.
Definition get : Code Z := fifo_get objs write no_wakes 0.
Definition try_put (x : Z) : Code (Result unit Z) := fifo_try_put objs write no_wakes 0 x.
Definition flush : Code unit := fifo_call objs no_wakes 0 (λ w, (Fifo.flush w, tt)).
Definition look_at {A : Set} (f : @Fifo.FifoInner (Queue.QInner Z) → A) : Code A :=
  fifo_call objs no_wakes 0 (λ w, (w, f (Fifo.fifo w))).
Definition used : Code nat := look_at (λ f, Queue.len (Fifo.q f)).
Definition is_empty : Code bool := look_at (λ f, Queue.is_empty (Fifo.q f)).
Definition is_full : Code bool := look_at Fifo.is_full.
Definition size : Code (option nat) := look_at Fifo.size.
Definition bound (p : nat) : Code bool := ask (λ u, port_bound objs u p).

Definition a_port_is_unbound_until_connected : UnitTest :=
  test "a_port_is_unbound_until_connected" (drive (
    Holder ;; gives (bound 0) false ;; new (Some 1%nat) ;; PUT ;; gives (bound 0) true)).
Definition put_and_get_through_a_fifo : UnitTest :=
  test "put_and_get_through_a_fifo" (drive (
    Holder ;; new (Some 2%nat) ;; PUT ;; GET ;; h_put 1 ;; h_put 2 ;; gives h_get 1 ;; gives h_get 2)).
Definition peek_leaves_the_item_for_get : UnitTest :=
  test "peek_leaves_the_item_for_get" (drive (
    Holder ;; new (Some 1%nat) ;; PUT ;; PEEK ;; GET ;; h_put 9 ;; gives h_peek 9 ;; gives h_get 9)).
Definition try_put_hands_a_refused_item_back : UnitTest :=
  test "try_put_hands_a_refused_item_back" (drive (
    Holder ;; new (Some 1%nat) ;; PUT ;; gives (h_try_put 1) (Ok tt) ;; gives (h_try_put 2) (Err 2))).
Definition can_put_and_can_get_track_the_fifo : UnitTest :=
  test "can_put_and_can_get_track_the_fifo" (drive (
    let can_put := iface objs 0 ;; look_at Fifo.can_put in
    let can_get := iface objs 1 ;; look_at Fifo.can_get in
    Holder ;; new (Some 1%nat) ;; PUT ;; GET ;; gives can_put true ;; gives can_get false ;;
    h_put 1 ;; gives can_put false ;; gives can_get true)).
Definition a_bad_port_name_is_a_named_error : UnitTest :=
  test "a_bad_port_name_is_a_named_error" (drive (
    Holder ;; new (Some 1%nat) ;;
    r <- ask (λ u, match Port.bind H (port_name "no_such_port" "put") 0 (slots (view objs u)) with
                   | Err (Port.NoSuchPort owner name) => Some (owner, name) | _ => None end) ;;
    equal r (Some ("Holder", "no_such_port")))).
Definition fifo_size_used_and_flush : UnitTest :=
  test "fifo_size_used_and_flush" (drive (
    new (Some 3%nat) ;; gives size (Some 3%nat) ;; gives is_empty true ;; put 1 ;; put 2 ;; gives used 2%nat ;;
    flush ;; gives is_empty true)).
Definition unbounded_is_never_full : UnitTest :=
  test "unbounded_is_never_full" (drive (
    new None ;; gives size None ;; for_each (seqZ 0 100) (λ n, gives (try_put n) (Ok tt)) ;; gives is_full false)).
Definition the_put_tap_sees_every_item_and_consumes_none : UnitTest :=
  test "the_put_tap_sees_every_item_and_consumes_none" (drive (
    Holder ;; shared_new objs 7 [] ;; subscribe objs 3 7 ;; new None ;; tap_connect objs true 0 H "sub" ;;
    for_each [1; 2; 3] put ;; gives (seen 7) [1; 2; 3] ;; gives used 3%nat)).
Definition the_get_tap_fires_as_items_leave : UnitTest :=
  test "the_get_tap_fires_as_items_leave" (drive (
    Holder ;; shared_new objs 7 [] ;; subscribe objs 3 7 ;; new None ;; tap_connect objs false 0 H "sub" ;;
    put 7 ;; gives (seen 7) [] ;; get ;; gives (seen 7) [7])).
(** A handle is the FIFO's address. *)
Definition a_handle_is_the_same_fifo : UnitTest :=
  test "a_handle_is_the_same_fifo" (drive (new None ;; put 1 ;; gives used 1%nat)).

Definition all : list UnitTest :=
  [a_port_is_unbound_until_connected; put_and_get_through_a_fifo; peek_leaves_the_item_for_get;
   try_put_hands_a_refused_item_back; can_put_and_can_get_track_the_fifo; a_bad_port_name_is_a_named_error;
   fifo_size_used_and_flush; unbounded_is_never_full; the_put_tap_sees_every_item_and_consumes_none;
   the_get_tap_fires_as_items_leave; a_handle_is_the_same_fifo].
End FifoTests.

(** ** analysis.rs *)

Module AnalysisTests.
(** [Source] publishes through port 0; a [Listener] has a subscribe port and a
    tally at the same address. *)
Definition source : @Factory.Node unit := mkNode "Source" tt [("ap", FPort "publish" 0)].
Definition listener (k : nat) : @Factory.Node unit := mkNode "Listener" tt [("input", FPort "subscribe" k)].
Definition Source : Code unit := new_ports objs source.
Definition Listener (k : nat) : Code unit := new_ports objs (listener k) ;; shared_new objs k [] ;; subscribe objs k k.
Definition bus : Code unit := bus_new objs 0.
Definition AP : Code unit := pub_connect objs 0 (OwnNode source) "ap".
Definition INPUT (k : nat) : Code unit := sub_connect objs 0 (OwnNode (listener k)) "input".
Definition ap_write (x : Z) : Code unit := port_write objs write no_wakes 0 x.
Definition bus_write (x : Z) : Code unit := analysis objs (λ w, Done (Analysis.broadcast write 0 x w)).
Definition subscriber_count : Code nat := ask (λ u, length (default [] (hubs (view objs u) !! 0%nat))).

Definition one_write_reaches_every_subscriber : UnitTest :=
  test "one_write_reaches_every_subscriber" (drive (
    bus ;; Source ;; Listener 1 ;; Listener 2 ;; AP ;; INPUT 1 ;; INPUT 2 ;; gives subscriber_count 2%nat ;;
    ap_write 7 ;; gives (seen 1) [7] ;; gives (seen 2) [7])).
Definition subscribers_are_called_in_connection_order : UnitTest :=
  test "subscribers_are_called_in_connection_order" (drive (
    bus ;; Source ;; Listener 1 ;; Listener 2 ;; AP ;; INPUT 1 ;; INPUT 2 ;;
    for_each [1; 2; 3] ap_write ;; gives (seen 1) [1; 2; 3] ;; gives (seen 2) [1; 2; 3])).
Definition the_bus_stores_nothing : UnitTest :=
  test "the_bus_stores_nothing" (drive (
    bus ;; Source ;; AP ;; ap_write 1 ;; ap_write 2 ;;
    Listener 1 ;; INPUT 1 ;; gives (seen 1) [] ;; ap_write 3 ;; gives (seen 1) [3])).
Definition writing_with_no_subscribers_is_legal : UnitTest :=
  test "writing_with_no_subscribers_is_legal" (drive (
    bus ;; Source ;; AP ;; gives subscriber_count 0%nat ;; ap_write 1)).
Definition an_unconnected_publish_port_does_not_panic : UnitTest :=
  test "an_unconnected_publish_port_does_not_panic" (drive (
    Source ;; gives (ask (λ u, port_bound objs u 0)) false ;; ap_write 1)).
Definition delivery_happens_before_write_returns : UnitTest :=
  test "delivery_happens_before_write_returns" (drive (
    bus ;; Source ;; Listener 1 ;; AP ;; INPUT 1 ;; ap_write 5 ;; gives (seen 1) [5])).
Definition connecting_a_subscriber_with_no_sink_is_a_named_error : UnitTest :=
  panicking "connecting_a_subscriber_with_no_sink_is_a_named_error" "has no subscriber" (drive (
    bus ;; new_ports objs (listener 1) ;; shared_new objs 1 [] ;; INPUT 1)).
(** A clone is the bus's address. *)
Definition a_clone_is_the_same_bus : UnitTest :=
  test "a_clone_is_the_same_bus" (drive (
    bus ;; Listener 1 ;; INPUT 1 ;; gives subscriber_count 1%nat ;; bus_write 4 ;; gives (seen 1) [4])).

Definition all : list UnitTest :=
  [one_write_reaches_every_subscriber; subscribers_are_called_in_connection_order; the_bus_stores_nothing;
   writing_with_no_subscribers_is_legal; an_unconnected_publish_port_does_not_panic; delivery_happens_before_write_returns;
   connecting_a_subscriber_with_no_sink_is_a_named_error; a_clone_is_the_same_bus].
End AnalysisTests.

(** ** sequence.rs *)

Module SequenceTests.
(** One sequencer, number 0; contexts on it, and those of virtual sequences. *)
Definition new : Code unit := seqr_new objs 0.
Definition on_it (name : string) : SeqCtx := seq_ctx (Some 0%nat) name 1.
Definition get_next_item : Code (@Sequencer.SeqItem Cmd) := seqr_get_next_item objs 0.
Definition item_done (r : option Z) : Code unit :=
  Call (with_seqr objs 0 (λ s, match Sequencer.item_done r s with Done (s', ws) => Done (s', ws, tt) | Panic m => Panic m end)).
Definition put_response (id : TxnId) (r : Z) : Code unit :=
  Call (with_seqr objs 0 (λ s, let '(s', ws) := Sequencer.put_response id r s in Done (s', ws, tt))).
Definition try_next_item : Code (option (@Sequencer.SeqItem Cmd)) := Call (with_seqr objs 0 Sequencer.try_next_item).
(** [inner.responses.push(id, r)]. *)
Definition push (id : TxnId) (r : Z) : Code unit :=
  Call (with_seqr objs 0 (λ s, let '(q, ws) := Responses.push id r (Sequencer.responses s) in Done (Sequencer.set_responses s q, ws, tt))).
(** [ctx.start_item(..).await.unwrap()] and [ctx.finish_item(cmd).await.unwrap()]:
    the context goes on with what the call made of it. *)
Definition unwrapped {A : Set} (c : Code (SeqCtx * Result A string)) : Code (SeqCtx * A) :=
  r <- c ;; match r with (c', Ok a) => Ret (c', a) | (_, Err _) => Throw "called `Result::unwrap()` on an `Err` value" end.
Definition started (c : SeqCtx) : Code SeqCtx := r <- unwrapped (start_item objs c) ;; Ret r.1.
Definition finished (c : SeqCtx) (x : Cmd) : Code (SeqCtx * TxnId) := unwrapped (finish_item objs c x).
Definition ended (c : SeqCtx) (x : Cmd) : Code unit := finished c x ;; Ret tt.
Definition cmd (x : Z) : Cmd := {| a := x; tag := "" |}.

Definition spawn_one_shot_driver (answer : Z) : Code unit :=
  go (item <- get_next_item ;; item_done (Some (wrap 8 (a (Sequencer.item_payload item) + answer)))).

Definition start_item_blocks_until_the_driver_asks : UnitTest :=
  test "start_item_blocks_until_the_driver_asks" (assert_pending bed (new ;; started (on_it "T") ;; Ret tt)).
Definition the_driver_sees_what_was_written_after_the_grant : UnitTest :=
  test "the_driver_sees_what_was_written_after_the_grant" (drive (
    new ;;
    go (item <- get_next_item ;;
        edit (λ x, {| objects := objects x; got := Some (Sequencer.item_payload item); tags := tags x |}) ;;
        item_done None) ;;
    c <- started (on_it "T") ;;
    ended c {| a := 42; tag := "after the grant" |} ;;
    r <- look got ;;
    match r with
    | Some x => holds ((a x =? 42) && bool_decide (tag x = "after the grant"))
    | None => Throw "the driver got an item"
    end)).
Definition finish_item_returns_the_ticket_and_waits_for_item_done : UnitTest :=
  test "finish_item_returns_the_ticket_and_waits_for_item_done" (drive (
    new ;; spawn_one_shot_driver 1 ;;
    c <- started (on_it "T") ;; r <- finished c {| a := 10; tag := "x" |} ;; equal r.2 1%nat)).
Definition tickets_are_unique_and_ascending : UnitTest :=
  test "tickets_are_unique_and_ascending" (drive (
    new ;;
    go (repeat_ 3 (get_next_item ;; item_done None)) ;;
    c1 <- started (on_it "T") ;; r1 <- finished c1 (cmd 0) ;;
    c2 <- started r1.1 ;; r2 <- finished c2 (cmd 1) ;;
    c3 <- started r2.1 ;; r3 <- finished c3 (cmd 2) ;;
    equal [r1.2; r2.2; r3.2] [1; 2; 3]%nat)).
Definition two_get_next_items_without_item_done_is_a_bug : UnitTest :=
  panicking "two_get_next_items_without_item_done_is_a_bug" "get_next_item called twice without item_done" (drive (
    new ;;
    go (c <- started (on_it "T") ;; ended c cmd_default) ;;
    get_next_item ;; get_next_item ;; Ret tt)).
Definition start_item_twice_without_finish_is_an_error : UnitTest :=
  test "start_item_twice_without_finish_is_an_error" (drive (
    new ;;
    go (get_next_item ;; Ret tt) ;;
    c <- started (on_it "T") ;;
    r <- start_item objs c ;;
    holds (match r.2 with Err _ => true | Ok _ => false end))).
Definition try_next_item_is_none_on_an_empty_sequencer : UnitTest :=
  test "try_next_item_is_none_on_an_empty_sequencer" (drive (
    new ;; r <- try_next_item ;; holds (match r with None => true | Some _ => false end))).
Definition try_next_item_takes_a_waiting_item : UnitTest :=
  test "try_next_item_takes_a_waiting_item" (drive (
    new ;;
    go (c <- started (on_it "T") ;; ended c (cmd 5)) ;;
    got <- Loop (λ n : nat,
      if Nat.eqb n 8 then Ret (inr None)
      else RunIdle ;;
           r <- try_next_item ;;
           match r with
           | Some item => item_done None ;; Ret (inr (Some (a (Sequencer.item_payload item))))
           | None => Ret (inl (S n))
           end) O ;;
    equal got (Some 5))).
Definition item_done_with_a_response_reaches_get_response : UnitTest :=
  test "item_done_with_a_response_reaches_get_response" (drive (
    new ;; spawn_one_shot_driver 100 ;;
    c <- started (on_it "T") ;; r <- finished c (cmd 1) ;; gives (get_response objs r.1 (Some r.2)) 101)).
Definition put_response_answers_after_item_done : UnitTest :=
  test "put_response_answers_after_item_done" (drive (
    new ;;
    go (item <- get_next_item ;; item_done None ;; put_response (Sequencer.txn_id item) 77) ;;
    c <- started (on_it "T") ;; r <- finished c cmd_default ;; gives (get_response objs r.1 (Some r.2)) 77)).
Definition get_response_picks_its_ticket_out_of_order : UnitTest :=
  test "get_response_picks_its_ticket_out_of_order" (drive (
    new ;; push 2 22 ;; push 1 11 ;;
    gives (get_response objs (on_it "T") (Some 1%nat)) 11 ;; gives (get_response objs (on_it "T") (Some 2%nat)) 22)).
Definition get_response_none_takes_the_oldest : UnitTest :=
  test "get_response_none_takes_the_oldest" (drive (
    new ;; push 5 50 ;; push 6 60 ;;
    gives (get_response objs (on_it "T") None) 50 ;; gives (get_response objs (on_it "T") None) 60)).
Definition try_get_response_does_not_wait : UnitTest :=
  test "try_get_response_does_not_wait" (drive (
    let try_1 := try_get_response objs (on_it "T") (Some 1%nat) in
    new ;; gives try_1 None ;; push 1 9 ;; gives try_1 (Some 9) ;; gives try_1 None)).
Definition a_response_that_never_comes_waits_forever : UnitTest :=
  test "a_response_that_never_comes_waits_forever"
    (assert_pending bed (new ;; get_response objs (on_it "T") (Some 1043%nat) ;; Ret tt)).
Definition start_item_in_a_virtual_sequence_is_an_error : UnitTest :=
  test "start_item_in_a_virtual_sequence_is_an_error" (drive (
    r <- start_item objs (seq_ctx None "MyVirtualSeq" 1) ;;
    match r.2 with
    | Err msg => holds (mentions msg "virtual" && mentions msg "MyVirtualSeq")
    | Ok _ => Throw "start_item should fail without a sequencer"
    end)).
Definition two_sequences_interleave_one_item_each : UnitTest :=
  test "two_sequences_interleave_one_item_each" (drive (
    new ;;
    for_each ["A"; "B"] (λ t,
      go (c <- started (on_it t) ;; r <- finished c {| a := 0; tag := t |} ;;
          c' <- started r.1 ;; ended c' {| a := 1; tag := t |})) ;;
    go (repeat_ 4 (
      item <- get_next_item ;;
      edit (λ x, {| objects := objects x; got := got x; tags := tags x ++ [tag (Sequencer.item_payload item)] |}) ;;
      item_done None)) ;;
    repeat_ 64 RunIdle ;;
    l <- look tags ;;
    equal l ["A"; "B"; "A"; "B"])).
(** [seq_name]: the last part of the type's full name. *)
Fixpoint last_part (cur rest : list Ascii.ascii) : list Ascii.ascii :=
  match rest with
  | [] => cur
  | c :: r =>
      match r with
      | d :: r' => if Ascii.eqb c ":" && Ascii.eqb d ":" then last_part [] r' else last_part (cur ++ [c]) r
      | [] => cur ++ [c]
      end
  end.
Definition seq_name (full : string) : string := string_of_list (last_part [] (list_of_string full)).
Definition a_sequence_name_defaults_to_its_type : UnitTest :=
  test "a_sequence_name_defaults_to_its_type"
    (asserts [bool_decide (seq_name "rustdv_methodology::sequence::tests::a_sequence_name_defaults_to_its_type::MyFancySeq" = "MyFancySeq")]).
(** The body of [VSeq] sets its flag; a virtual sequence has no sequencer. *)
Definition a_virtual_sequence_runs_its_body : UnitTest :=
  test "a_virtual_sequence_runs_its_body" (drive (
    let body (_ : SeqCtx) : Code (Result unit string) :=
      edit (λ x, {| objects := objects x; got := got x; tags := ["ran"] |}) ;; Ret (Ok tt) in
    r <- body (seq_ctx None "VSeq" 1) ;;
    equal r (Ok tt) ;;
    gives (look tags) ["ran"])).

Definition all : list UnitTest :=
  [start_item_blocks_until_the_driver_asks; the_driver_sees_what_was_written_after_the_grant;
   finish_item_returns_the_ticket_and_waits_for_item_done; tickets_are_unique_and_ascending;
   two_get_next_items_without_item_done_is_a_bug; start_item_twice_without_finish_is_an_error;
   try_next_item_is_none_on_an_empty_sequencer; try_next_item_takes_a_waiting_item;
   item_done_with_a_response_reaches_get_response; put_response_answers_after_item_done;
   get_response_picks_its_ticket_out_of_order; get_response_none_takes_the_oldest; try_get_response_does_not_wait;
   a_response_that_never_comes_waits_forever; start_item_in_a_virtual_sequence_is_an_error;
   two_sequences_interleave_one_item_each; a_sequence_name_defaults_to_its_type; a_virtual_sequence_runs_its_body].
End SequenceTests.

Definition suite : list UnitTest :=
  FifoTests.all ++ AnalysisTests.all ++ SequenceTests.all.

Lemma tlm_suite_passes : forallb passes suite = true.
Proof. vm_compute. reflexivity. Qed.
End UnitTlm.
