(* ===== verification/UnitNodes.v ===== *)
(** * UnitNodes: the unit tests of config.rs, factory.rs and component.rs of
    rustdv-methodology, run on the model.

    Tests of plain calls thread the database; the walks run on the
    asynchronous tree of Tree.v, the phase methods of a type found by its name. *)
From stdpp Require Import pretty.
From S2P Require Import Prelude Words Values Queue Sync Path Log Config Factory Tlm Sequence Signals Executor Objection Component Runner Testing Async Kit Bench Tree UnitKit.
Local Open Scope Z_scope.

Module UnitNodes.
Import Async Kit Bench UnitKit.
Local Open Scope code_scope.

(** ** config.rs *)

(** The types the tests store: [u32], [String], and [Rc<Bfm>], a shared handle by
    its address. *)
Inductive Any := AU32 (n : Z) | AString (s : string) | ABfm (p : nat) | AOverride (o : @Factory.Override unit).
Record Bfm := { bfm_ptr : nat }.
#[export] Instance typed_u32 : Config.Typed Any Z :=
  {| Config.type_id := 0; Config.type_name := "u32"; Config.debug := pretty; Config.inject := AU32;
     Config.downcast := λ a, match a with AU32 n => Some n | _ => None end |}.
#[export] Instance typed_string : Config.Typed Any string :=
  {| Config.type_id := 1; Config.type_name := "alloc::string::String"; Config.debug := λ s, Config.quote +:+ s +:+ Config.quote;
     Config.inject := AString; Config.downcast := λ a, match a with AString s => Some s | _ => None end |}.
(** The one [Bfm] of the test holds 7. *)
Definition bfm_value (_ : nat) : Z := 7.
#[export] Instance typed_bfm : Config.Typed Any Bfm :=
  {| Config.type_id := 2; Config.type_name := "alloc::rc::Rc<rustdv_methodology::config::tests::it_holds_a_shared_handle::Bfm>";
     Config.debug := λ b, "Bfm(" +:+ pretty (bfm_value (bfm_ptr b)) +:+ ")"; Config.inject := λ b, ABfm (bfm_ptr b);
     Config.downcast := λ a, match a with ABfm p => Some {| bfm_ptr := p |} | _ => None end |}.
#[export] Instance typed_override : Config.Typed Any (@Factory.Override unit) :=
  {| Config.type_id := 3; Config.type_name := "rustdv_methodology::factory::Override"; Config.debug := Factory.debug_override;
     Config.inject := AOverride; Config.downcast := λ a, match a with AOverride o => Some o | _ => None end |}.

Module ConfigTests.
Abbreviation Db := (Config.ConfigDb Any).
Definition fresh : Db := Config.clear Config.initial.
(** [ConfigDb::set(None, offset, field, v)]. *)
Definition set {T} `{Config.Typed Any T} (offset field : string) (v : T) (d : Db) : Db := (Config.set None offset field v d).1.
(** [ConfigDb::get::<T>(ctx, offset, field)], the context being that of [for_test]. *)
Definition get (T : Type) `{Config.Typed Any T} (ctx : option string) (offset field : string) (d : Db) : option (Result T Config.ConfigError) :=
  match Config.get ctx offset field d with Done (r, _) => Some r | Panic _ => None end.
Definition found {T} `{Config.Typed Any T, EqDecision T} (r : option (Result T Config.ConfigError)) (v : T) : bool :=
  match r with Some (Ok x) => bool_decide (x = v) | _ => false end.
Definition missed {T} (r : option (Result T Config.ConfigError)) : bool := match r with Some (Err _) => true | _ => false end.

Definition set_and_get_round_trip : UnitTest :=
  test "set_and_get_round_trip"
    (let d := set "env.tester" "COUNT" 7 fresh in asserts [found (get Z (Some "env.tester") "" "COUNT" d) 7]).
Definition a_miss_is_an_error_not_a_default : UnitTest :=
  test "a_miss_is_an_error_not_a_default"
    (asserts [match get Z (Some "env") "" "NOPE" fresh with
              | Some (Err (Config.NotFound _ field)) => bool_decide (field = "NOPE") | _ => false end]).
Definition a_wrong_type_names_both_types : UnitTest :=
  test "a_wrong_type_names_both_types"
    (let d := set "env" "N" 1 fresh in
     asserts [match get string (Some "env") "" "N" d with
              | Some (Err (Config.TypeMismatch _ _ stored requested)) => mentions stored "u32" && mentions requested "String"
              | _ => false end]).
Definition a_wildcard_reaches_every_component_below : UnitTest :=
  test "a_wildcard_reaches_every_component_below"
    (let d := set "*" "BFM" 99 fresh in
     asserts (map (λ p, found (get Z (Some p) "" "BFM" d) 99) ["env"; "env.tester"; "env.agent.driver"])).
Definition a_more_specific_path_wins_over_a_wildcard : UnitTest :=
  test "a_more_specific_path_wins_over_a_wildcard"
    (let d := set "env.loga" "MSG" "just me" (set "*" "MSG" "everyone" fresh) in
     asserts [found (get string (Some "env.loga") "" "MSG" d) "just me"; found (get string (Some "env.logb") "" "MSG" d) "everyone"]).
Definition a_prefix_glob_does_not_match_a_longer_sibling : UnitTest :=
  test "a_prefix_glob_does_not_match_a_longer_sibling"
    (let d := set "env.t*" "MSG" "t-things" fresh in
     asserts [found (get string (Some "env.tester") "" "MSG" d) "t-things"; missed (get string (Some "env.logger") "" "MSG" d)]).
Definition the_most_recent_write_wins_at_equal_precedence : UnitTest :=
  test "the_most_recent_write_wins_at_equal_precedence"
    (let d := set "env" "N" 2 (set "env" "N" 1 fresh) in asserts [found (get Z (Some "env") "" "N" d) 2]).
Definition an_offset_resolves_against_the_context : UnitTest :=
  test "an_offset_resolves_against_the_context"
    (let d := set "env.loga" "MSG" "hello" fresh in asserts [found (get string (Some "env") "loga" "MSG" d) "hello"]).
Definition a_null_context_addresses_from_the_top : UnitTest :=
  test "a_null_context_addresses_from_the_top"
    (let d := set "env.loga" "MSG" "hello" fresh in asserts [found (get string None "env.loga" "MSG" d) "hello"]).
Definition clear_empties_it : UnitTest :=
  test "clear_empties_it"
    (let d := Config.clear (set "env" "N" 1 fresh) in asserts [missed (get Z (Some "env") "" "N" d)]).
Definition it_holds_a_shared_handle : UnitTest :=
  test "it_holds_a_shared_handle"
    (let bfm := {| bfm_ptr := 5 |} in
     let d := set "*" "BFM" bfm fresh in
     asserts [match get Bfm (Some "env.driver") "" "BFM" d with
              | Some (Ok b) => (bfm_value (bfm_ptr b) =? 7) && Nat.eqb (bfm_ptr b) (bfm_ptr bfm) | _ => false end]).
Definition dump_renders_every_entry : UnitTest :=
  test "dump_renders_every_entry"
    (let dumped := Config.dump (set "env.x" "B" "two" (set "env" "A" 1 fresh)) in
     asserts [mentions dumped "env"; mentions dumped "A" && mentions dumped "B"]).

Definition all : list UnitTest :=
  [set_and_get_round_trip; a_miss_is_an_error_not_a_default; a_wrong_type_names_both_types;
   a_wildcard_reaches_every_component_below; a_more_specific_path_wins_over_a_wildcard;
   a_prefix_glob_does_not_match_a_longer_sibling; the_most_recent_write_wins_at_equal_precedence;
   an_offset_resolves_against_the_context; a_null_context_addresses_from_the_top; clear_empties_it; it_holds_a_shared_handle;
   dump_renders_every_entry].
End ConfigTests.

(** ** factory.rs *)

Module FactoryTests.
Import Factory.
Definition Base : @Node unit := mkNode "Base" tt [].
Definition Derived : @Node unit := mkNode "Derived" tt [].
Definition fresh : Config.ConfigDb Any := Config.clear Config.initial.
(** [Factory::set_type_override::<A, B>()] and its instance form at "env". *)
Definition type_override (from to : @Node unit) (d : Config.ConfigDb Any) : Config.ConfigDb Any :=
  set_type_override (node_name from) (node_name to) to d.
Definition inst_override (path : string) (from to : @Node unit) (d : Config.ConfigDb Any) : Config.ConfigDb Any :=
  set_inst_override "env" path (node_name from) (node_name to) to d.
Definition resolved (name : string) (d : Config.ConfigDb Any) (s : RustdvComp) : RustdvComp := resolve "env" name d s.
(** [slot.as_node().unwrap().node_name()]. *)
Definition named (s : @RustdvComp unit) (ty : string) : bool :=
  match inner s with Some n => bool_decide (node_name n = ty) | None => false end.
Definition asked : @RustdvComp unit := overridable Base "Base".

Definition a_fixed_slot_holds_what_it_was_given : UnitTest :=
  test "a_fixed_slot_holds_what_it_was_given" (asserts [named (fixed Base) "Base"]).
Definition an_empty_slot_reports_itself_by_name : UnitTest :=
  test "an_empty_slot_reports_itself_by_name"
    (let slot := empty_slot (U := unit) in
     asserts [match inner slot with None => true | Some _ => false end; bool_decide (owner_label slot = "an unbuilt child slot")]).
Definition a_type_override_swaps_a_create_slot_and_not_a_new_slot : UnitTest :=
  test "a_type_override_swaps_a_create_slot_and_not_a_new_slot"
    (let d := type_override Base Derived fresh in
     asserts [named (resolved "tester" d asked) "Derived"; named (resolved "scoreboard" d (fixed Base)) "Base"]).
Definition no_override_leaves_the_requested_type : UnitTest :=
  test "no_override_leaves_the_requested_type" (asserts [named (resolved "tester" fresh asked) "Base"]).
Definition an_instance_override_beats_a_type_override : UnitTest :=
  test "an_instance_override_beats_a_type_override"
    (let d := inst_override "tester" Base Derived (type_override Base Base fresh) in
     asserts [named (resolved "tester" d asked) "Derived"]).
Definition an_instance_override_applies_only_at_its_path : UnitTest :=
  test "an_instance_override_applies_only_at_its_path"
    (let d := inst_override "tester" Base Derived fresh in
     asserts [named (resolved "tester" d asked) "Derived"; named (resolved "other" d asked) "Base"]).
(** Resolving calls no phase method: it has no access to any. *)
Definition the_discarded_default_never_built : UnitTest :=
  test "the_discarded_default_never_built"
    (asserts [named (resolved "tester" (type_override Base Derived fresh) asked) "Derived"]).
Definition a_slot_resolves_once : UnitTest :=
  test "a_slot_resolves_once"
    (let slot := resolved "tester" fresh asked in
     asserts [named (resolved "tester" (type_override Base Derived fresh) slot) "Base"]).
Definition take_and_put_move_the_box_out_and_back : UnitTest :=
  test "take_and_put_move_the_box_out_and_back"
    (match take_node (fixed Base) with
     | (slot, Some node) => asserts [match inner slot with None => true | Some _ => false end; named (put_node node slot) "Base"]
     | (_, None) => Some (Panic "something to take")
     end).

(** Sequences by name: the maker of a type stands for what it makes. *)
Definition seq_named (s : @Overrides.RustdvSeq string) (n : string) : bool :=
  match Overrides.inner s with Some x => bool_decide (x = n) | None => false end.
Definition create_seq (ty : string) (o : gmap string (string * string)) : @Overrides.RustdvSeq string := Overrides.create_seq ty ty o.
Definition none : gmap string (string * string) := Overrides.clear_seq_overrides ∅.
Definition base_to_random : gmap string (string * string) := Overrides.set_seq_override "BaseSeq" "RandomSeq" "RandomSeq" none.
Definition create_seq_builds_the_requested_type_by_default : UnitTest :=
  test "create_seq_builds_the_requested_type_by_default" (asserts [seq_named (create_seq "BaseSeq" none) "BaseSeq"]).
Definition a_sequence_override_swaps_the_type : UnitTest :=
  test "a_sequence_override_swaps_the_type" (asserts [seq_named (create_seq "BaseSeq" base_to_random) "RandomSeq"]).
Definition clearing_sequence_overrides_restores_the_default : UnitTest :=
  test "clearing_sequence_overrides_restores_the_default"
    (asserts [seq_named (create_seq "BaseSeq" (Overrides.clear_seq_overrides base_to_random)) "BaseSeq"]).
Definition an_override_on_one_sequence_leaves_others_alone : UnitTest :=
  test "an_override_on_one_sequence_leaves_others_alone" (asserts [seq_named (create_seq "RandomSeq" base_to_random) "RandomSeq"]).

Definition all : list UnitTest :=
  [a_fixed_slot_holds_what_it_was_given; an_empty_slot_reports_itself_by_name;
   a_type_override_swaps_a_create_slot_and_not_a_new_slot; no_override_leaves_the_requested_type;
   an_instance_override_beats_a_type_override; an_instance_override_applies_only_at_its_path;
   the_discarded_default_never_built; a_slot_resolves_once; take_and_put_move_the_box_out_and_back;
   create_seq_builds_the_requested_type_by_default; a_sequence_override_swaps_the_type;
   clearing_sequence_overrides_restores_the_default; an_override_on_one_sequence_leaves_others_alone].
End FactoryTests.

(** ** component.rs *)

Module ComponentTests.
Import Component Tree.
Import Factory(mkNode, FOption, FComp, children_mut, take_children, restore_children).
(** The test's state is [TRACE]. *)
Abbreviation Code := (@Async.Code N Empty_set (Env Any (list string)) Out).
Abbreviation P := (@Phases Any (list string)).
Definition note (s : string) : Code unit := edit (λ t, t ++ [s]).
Definition trace : Code (list string) := look (λ t, t).
Definition reset : Code unit := edit (λ _, []).
Definition for_test (path : string) : RustdvCtx := ctx_new path 1.
Definition drive : Code unit → option (Exec unit) := block_on [].
Definition at_ (what : string) (ctx : RustdvCtx) : Code unit := note (what +:+ " " +:+ ctx_path ctx).

Definition leaf : Node := mkNode "Leaf" tt [].
Definition Leaf : P :=
  with_build (λ n ctx, at_ "build" ctx ;; Ret n) (with_connect (λ _ ctx, at_ "connect" ctx)
    (with_check (λ ctx s, at_ "check" ctx ;; Ret s) (with_run (λ ctx, at_ "run" ctx ;; Ret (Ok tt)) default_phases))).
Definition parent : Node := mkNode "Parent" tt [("first", FOption None); ("second", FOption None)].
Definition Parent : P :=
  with_build (λ n ctx, at_ "build" ctx ;;
      Ret (set_field "second" (FOption (Some leaf)) (set_field "first" (FOption (Some leaf)) n)))
    (with_connect (λ _ ctx, at_ "connect" ctx) default_phases).
Definition Failing : P := with_run (λ _, Ret (Err (te_new "deliberate"))) default_phases.
Definition phases : string → P := by_type [("Leaf", Leaf); ("Parent", Parent); ("Failing", Failing)].
Definition fuel : nat := 3.
Definition build (n : Node) (ctx : RustdvCtx) : Code Node := build_all phases fuel n ctx.
Definition trace_is (l : list string) : Code unit := t <- trace ;; equal t l.
Definition traced (s : string) : Code unit := t <- trace ;; holds (bool_decide (s ∈ t)).

Definition build_is_top_down_and_descends_into_what_it_created : UnitTest :=
  test "build_is_top_down_and_descends_into_what_it_created" (drive (
    reset ;; build parent (for_test "top") ;; trace_is ["build top"; "build top.first"; "build top.second"])).
Definition connect_is_bottom_up : UnitTest :=
  test "connect_is_bottom_up" (drive (
    reset ;; root <- build parent (for_test "top") ;; reset ;; connect_all phases fuel root (for_test "top") ;;
    trace_is ["connect top.first"; "connect top.second"; "connect top"])).
Definition paths_are_derived_from_field_names : UnitTest :=
  test "paths_are_derived_from_field_names" (drive (
    reset ;; build parent (for_test "alu_test") ;; traced "build alu_test.first" ;; traced "build alu_test.second")).
Definition an_option_child_appears_only_once_some : UnitTest :=
  test "an_option_child_appears_only_once_some" (drive (
    equal (length (children_mut parent)) 0%nat ;;
    root <- build parent (for_test "top") ;; equal (length (children_mut root)) 2%nat)).
Definition every_component_runs : UnitTest :=
  test "every_component_runs" (drive (
    reset ;; root <- build parent (for_test "top") ;; reset ;;
    unwrap (run_all phases fuel root (for_test "top")) ;;
    traced "run top.first" ;; traced "run top.second")).
Definition check_visits_the_whole_tree : UnitTest :=
  test "check_visits_the_whole_tree" (drive (
    reset ;; root <- build parent (for_test "top") ;; reset ;;
    sink <- check_all phases fuel root (for_test "top") sink_new ;;
    t <- trace ;; equal (length t) 2%nat ;; holds (sink_is_ok sink))).

(** [FactoryParent]: its one child is in a slot that can be emptied. *)
Definition factory_parent (child : Node) : Node := mkNode "FactoryParent" tt [("child", FComp (Some child) false None)].
Definition take_children_empties_the_slot_and_restore_refills_it : UnitTest :=
  test "take_children_empties_the_slot_and_restore_refills_it"
    (let '(p, taken) := take_children (factory_parent leaf) in
     asserts [Nat.eqb (length taken) 1; Nat.eqb (length (children_mut p)) 0;
              Nat.eqb (length (children_mut (restore_children p taken))) 1]).
(** The walk of Component.v, which gives the tree back: the failing child's body
    comes to its error. *)
Definition run_one (ty : string) (u : unit) (_ : RustdvCtx) : unit * Result unit TestError :=
  (u, if String.eqb ty "Failing" then Err (te_new "deliberate") else Ok tt).
Definition children_are_restored_even_when_a_run_fails : UnitTest :=
  test "children_are_restored_even_when_a_run_fails"
    (match Component.run_all run_one fuel (factory_parent (mkNode "Failing" tt [])) (for_test "top") with
     | Some (p, outcome, _) =>
         asserts [match outcome with Err _ => true | Ok _ => false end; Nat.eqb (length (children_mut p)) 1]
     | None => None
     end).
Definition a_component_with_no_children_walks_cleanly : UnitTest :=
  test "a_component_with_no_children_walks_cleanly" (drive (
    reset ;; n <- build leaf (for_test "solo") ;; connect_all phases fuel n (for_test "solo") ;;
    trace_is ["build solo"; "connect solo"])).

Definition all : list UnitTest :=
  [build_is_top_down_and_descends_into_what_it_created; connect_is_bottom_up; paths_are_derived_from_field_names;
   an_option_child_appears_only_once_some; every_component_runs; check_visits_the_whole_tree;
   take_children_empties_the_slot_and_restore_refills_it; children_are_restored_even_when_a_run_fails;
   a_component_with_no_children_walks_cleanly].
End ComponentTests.

Definition suite : list UnitTest :=
  ConfigTests.all ++ FactoryTests.all ++ ComponentTests.all.

Lemma nodes_suite_passes : forallb passes suite = true.
Proof. vm_compute. reflexivity. Qed.
End UnitNodes.
