(* ===== verification/UnitGpi.v ===== *)
(** * UnitGpi: the unit tests of rustdv-gpi (value.rs and rustdv_gpi.rs), run on
    the model with the simulator double of VpiStubs.v; big integers are natural
    numbers. *)
From S2P Require Import Prelude Words Values Signals PhaseHub Handles Callback VpiStubs Triggers Testing Async Kit Bench UnitKit.
Local Open Scope Z_scope.

Module UnitGpi.
Import UnitKit.

#[local] Instance logic_eq_dec : EqDecision Logic.Logic.
Proof. solve_decision. Defined.

Definition ok {A} `{EqDecision A} (r : Result A ValueError) (x : A) : bool := match r with Ok y => bool_decide (y = x) | Err _ => false end.
Definition err {A} (r : Result A ValueError) : bool := match r with Err _ => true | Ok _ => false end.

(** ** value.rs *)

Module ValueTests.
Import LogicArray.
Abbreviation LA := (LogicArray N).
Definition text (v : LA) (s : string) : bool := bool_decide (to_binstr v = s).
Definition from_slice : list Z → N := bu_from_slice.
(** A construction that must not panic. *)
Definition built (e : Exec LA) (f : LA → list bool) : list bool := match e with Done v => f v | Panic _ => [false] end.
Definition bit (v : LA) (i : nat) (l : option Logic.Logic) : bool := bool_decide (index v i = l).

Definition roundtrip_u64 : UnitTest :=
  test "roundtrip_u64" (let v := from_u64 0xA5 8 in asserts [text v "10100101"; ok (try_u64 v) 0xA5]).
Definition constructs_from_two_state_primitive_types : UnitTest :=
  test "constructs_from_two_state_primitive_types"
    (let value := 0x0123456789abcdeffedcba9876543210 in
     asserts [text (from_bool true 1) "1"; ok (try_u8 (from_u8 (B := N) 0xa5 8)) 0xa5; ok (try_u16 (from_u16 (B := N) 0xa5b6 16)) 0xa5b6;
              ok (try_u32 (from_u32 (B := N) 0xa5b6c7d8 32)) 0xa5b6c7d8;
              ok (try_u64 (from_u64 (B := N) 0x0123456789abcdef 64)) 0x0123456789abcdef;
              ok (try_u128 (from_u128 (B := N) value 128)) value; text (from_u8 0xa5 4) "0101"]).
Definition bigint_conversion_preserves_arbitrary_width_values : UnitTest :=
  test "bigint_conversion_preserves_arbitrary_width_values"
    (let value := from_slice [0x76543210; 0xfedcba98; 0x89abcdef; 0x01234567; 0xa5a55a5a] in
     let v := from_bigint value 160 in
     asserts [Nat.eqb (len v) 160; ok (try_bigint v) value; ok (try_bigint (from_bigint 0xff%N 4)) 0x0f%N]).
Definition converts_to_two_state_primitive_types : UnitTest :=
  test "converts_to_two_state_primitive_types"
    (asserts (ok (try_bool (from_binstr (B := N) "0")) false ::
       built (from_vpi_words [(0x76543210, 0); (0xfedcba98, 0); (0x89abcdef, 0); (0x01234567, 0)] 128) (λ v,
         [ok (try_bool v) true; ok (try_u8 v) 0x10; ok (try_u16 v) 0x3210; ok (try_u32 v) 0x76543210;
          ok (try_u64 v) 0xfedcba9876543210; ok (try_u128 v) 0x0123456789abcdeffedcba9876543210]))).
Definition four_state_rejected : UnitTest :=
  test "four_state_rejected"
    (let v := from_binstr (B := N) "1x0z" in
     asserts [err (try_bool v); err (try_u8 v); err (try_u16 v); err (try_u32 v); err (try_u64 v); err (try_u128 v);
              err (try_bigint v); negb (is_resolvable v)]).
Definition vpi_encoding_and_lsb_first_bit_access : UnitTest :=
  test "vpi_encoding_and_lsb_first_bit_access"
    (let v := from_binstr (B := N) "01xz" in
     asserts [bool_decide (a_val v = 6%N); bool_decide (b_val v = 3%N); bit v 0 (Some Logic.Z); bit v 1 (Some Logic.X);
              bit v 2 (Some Logic.One); bit v 3 (Some Logic.Zero); bit v 4 None; text v "01xz"]).
Definition constructs_from_vpi_words_and_masks_unused_bits : UnitTest :=
  test "constructs_from_vpi_words_and_masks_unused_bits"
    (asserts (built (from_vpi_words [(6, 3)] 4) (λ v, [text v "01xz"; bool_decide (to_vpi_words v = [(6, 3)])]) ++
              built (from_vpi_words [(0xfffffff5, 0xfffffff8)] 3) (λ v,
                [text v "101"; is_resolvable v; bool_decide (to_vpi_words v = [(5, 0)])]))).
Definition width_is_preserved_independently_of_biguint_magnitude : UnitTest :=
  test "width_is_preserved_independently_of_biguint_magnitude"
    (let zeros := from_binstr (B := N) "00000" in
     let wide := from_u64 (B := N) 1 65 in
     let empty := from_binstr (B := N) "" in
     asserts [Nat.eqb (len zeros) 5; text zeros "00000"; Nat.eqb (len wide) 65; bit wide 0 (Some Logic.One);
              bit wide 64 (Some Logic.Zero); ok (try_u64 wide) 1; is_empty empty; text empty ""]).
Definition all : list UnitTest :=
  [roundtrip_u64; constructs_from_two_state_primitive_types; bigint_conversion_preserves_arbitrary_width_values;
   converts_to_two_state_primitive_types; four_state_rejected; vpi_encoding_and_lsb_first_bit_access;
   constructs_from_vpi_words_and_masks_unused_bits; width_is_preserved_independently_of_biguint_magnitude].
End ValueTests.

(** ** rustdv_gpi.rs *)

Import Signals(t_vpi_vecval, aval, bval, word).
Definition avals (ws : list t_vpi_vecval) (l : list Z) : bool := bool_decide (map aval ws = l).
Definition two_state (ws : list t_vpi_vecval) : bool := forallb (λ w, bval w =? 0) ws.
Definition vec (a b : Z) : t_vpi_vecval := {| aval := a; bval := b |}.

Module VpiWordTests.
Import Signals.
Definition assert_single_word (ws : list t_vpi_vecval) (expected : Z) : bool :=
  match ws with w :: _ => (aval w =? expected) && (bval w =? 0) | [] => false end.
Definition scalar_values_convert_to_one_vpi_word : UnitTest :=
  test "scalar_values_convert_to_one_vpi_word"
    (asserts [assert_single_word (bool_to_vpi_words false) 0; assert_single_word (bool_to_vpi_words true) 1;
              assert_single_word (u8_to_vpi_words 0xa5) 0xa5; assert_single_word (u16_to_vpi_words 0xa5b6) 0xa5b6;
              assert_single_word (u32_to_vpi_words 0xa5b6c7d8) 0xa5b6c7d8]).
Definition wide_values_convert_in_least_significant_word_first_order : UnitTest :=
  test "wide_values_convert_in_least_significant_word_first_order"
    (let w64 := u64_to_vpi_words 0x0123456789abcdef in
     let w128 := u128_to_vpi_words 0x0123456789abcdeffedcba9876543210 in
     asserts [avals w64 [0x89abcdef; 0x01234567]; two_state w64;
              avals w128 [0x76543210; 0xfedcba98; 0x89abcdef; 0x01234567]; two_state w128]).
Definition all : list UnitTest :=
  [scalar_values_convert_to_one_vpi_word; wide_values_convert_in_least_significant_word_first_order].
End VpiWordTests.

Module CallbackTests.
Import Callback VpiStubs.
Definition with_cbs (l : list StubCallback) : Stub := set_callbacks l initial.
Definition live (s : Sys) : nat := live_callback_handles (with_cbs (cbs s)).
Definition resets (s : Sys) : bool := match reset_callbacks (with_cbs (cbs s)) with Done _ => true | Panic _ => false end.
(** The cell of the one registration of a test. *)
Definition cell (s : Sys) : option CbShared := cells s !! 0%nat.
(** A test in two parts: what holds after the first and after the second. *)
Definition stages (l1 : list TOp) (f : Sys → list bool) (l2 : list TOp) (g : Sys → list bool) : option (Exec unit) :=
  s1 ← exec_all l1 init; s2 ← exec_all l2 s1; asserts (f s1 ++ g s2).

Definition fired_one_shot_releases_its_vpi_handle : UnitTest :=
  test "fired_one_shot_releases_its_vpi_handle"
    (stages [TRegister OneShot] (λ s, [Nat.eqb (live s) 1])
       [TFire []; TAct (ADrop 0)] (λ s, [bool_decide (runs <$> cell s = Some 1%nat); Nat.eqb (live s) 0; resets s])).
Definition detached_one_shot_releases_shared_state_after_firing : UnitTest :=
  test "detached_one_shot_releases_shared_state_after_firing"
    (stages [TRegister OneShot; TAct (AForget 0)] (λ s, [bool_decide (freed <$> cell s = Some false)])
       [TFire []] (λ s, [Nat.eqb (live s) 0; bool_decide (freed <$> cell s = Some true); resets s])).
Definition callback_stub_refuses_to_reset_a_live_handle : UnitTest :=
  test "callback_stub_refuses_to_reset_a_live_handle"
    (stages [TRegister OneShot] (λ s, [negb (resets s)]) [TAct (ADrop 0)] (λ s, [resets s])).
Definition all : list UnitTest :=
  [fired_one_shot_releases_its_vpi_handle; detached_one_shot_releases_shared_state_after_firing;
   callback_stub_refuses_to_reset_a_live_handle].
End CallbackTests.

Module HandleTests.
Import VpiStubs.
(** Object 1 of the double; what a test configures must not panic. *)
Definition object : Gpi.ObjHandle := Gpi.Obj 1.
Definition make_signal (w : Z) (ws : list t_vpi_vecval) (text : string) (f : Stub → Gpi.LogicHandle → list bool) : list bool :=
  match configure_signal w ws text initial with
  | Panic _ => [false]
  | Done s => match Gpi.classify object s with Gpi.Logic h => f s h | _ => [false] end
  end.
Definition zero_words (n : nat) : list t_vpi_vecval := replicate n Signals.default_vecval.
(** A read of the handle, a write and the words the double got. *)
Definition reads {A} `{EqDecision A} (get : Signals.LogicHandle → Signals.VpiValue → Exec (Result A ValueError))
    (s : Stub) (h : Gpi.LogicHandle) (r : Result A ValueError) : bool :=
  match get (Gpi.sig h) (Gpi.value h s) with Done x => bool_decide (x = r) | Panic _ => false end.
Definition get_u64 := reads (Signals.get_u64 (B := N)).
Definition get_bool := reads (Signals.get_bool (B := N)).
Definition get_bigint := reads (Signals.get_bigint (B := N)).
Definition puts (w : Exec Stub) (f : list t_vpi_vecval → list bool) : list bool :=
  match w with Done s => f (last_put_vector s) | Panic _ => [false] end.
Definition put_is (w : Exec Stub) (l : list Z) : list bool := puts w (λ ws, [avals ws l; two_state ws]).

Definition sv_integral_variables_support_vector_access : UnitTest :=
  test "sv_integral_variables_support_vector_access"
    (asserts (concat (map (λ t,
       match configure_signal 64 [vec 0x89abcdef 0; vec 0x12345678 0] "0" initial with
       | Panic _ => [false]
       | Done s0 =>
           let s := configure_signal_type t s0 in
           match Gpi.as_logic (Gpi.classify object s) s with
           | Err _ => [false]
           | Ok h => [Nat.eqb (Gpi.width h) 64; get_u64 s h (Ok 0x1234567889abcdef)] ++
                     put_is (Gpi.set_u64_now h 0xfedcba9876543210 s) [0x76543210; 0xfedcba98]
           end
       end) [vpiLongIntVar; vpiShortIntVar; vpiIntVar; vpiByteVar; vpiEnumVar; vpiBitVar]))).
Definition non_logic_variables_have_typed_handles : UnitTest :=
  test "non_logic_variables_have_typed_handles"
    (asserts (map (λ t, match Gpi.classify object (configure_signal_type t initial) with
       | Gpi.Real _ | Gpi.String_ _ | Gpi.Struct_ _ | Gpi.Union_ _ => true | _ => false end)
       [vpiRealVar; vpiStringVar; vpiStructVar; vpiUnionVar])).
Definition top_selection_prefers_explicit_name_and_otherwise_uses_first_root : UnitTest :=
  test "top_selection_prefers_explicit_name_and_otherwise_uses_first_root"
    (let named (s : Stub) (n : option string) (want : string) :=
       match Gpi.select_top_module n s with Done (Ok h) => bool_decide (Gpi.hier_name h s = want) | _ => false end in
     match configure_top_modules ["first"; "dut"] initial, configure_top_modules [] initial with
     | Done s, Done e =>
         asserts [named s (Some "dut") "dut"; named s None "first";
                  match Gpi.select_top_module (Some "missing") s with Done (Err (Gpi.NotFound _ _)) => true | _ => false end;
                  match Gpi.select_top_module None e with Done (Err Gpi.NoTopModule) => true | _ => false end]
     | _, _ => Some (Panic "configure_top_modules")
     end).
Definition vector_read_uses_vpi_word_order_and_masks_unused_bits : UnitTest :=
  test "vector_read_uses_vpi_word_order_and_masks_unused_bits"
    (asserts (make_signal 37 [vec 0x89abcdef 0; vec 0xfffffff5 0xffffffe0] "101011001101010111100110111101111"
       (λ s h, [get_u64 s h (Ok 0x1589abcdef)]))).
Definition vector_read_reports_xz_in_used_bits : UnitTest :=
  test "vector_read_reports_xz_in_used_bits"
    (asserts (make_signal 8 [vec 0x5e 0x04] "01011x10" (λ s h, [get_u64 s h (Err (FourState "01011x10"))]))).
Definition logic_array_read_uses_vpi_vector_words : UnitTest :=
  test "logic_array_read_uses_vpi_vector_words"
    (asserts (make_signal 4 [vec 6 3] "0000" (λ s h,
       [match Signals.get_logic (B := N) (Gpi.sig h) (Gpi.value h s) with
        | Done (Ok v) => bool_decide (LogicArray.to_binstr v = "01xz") | _ => false end]))).
Definition vector_read_returns_numeric_zero_from_a_vector_word : UnitTest :=
  test "vector_read_returns_numeric_zero_from_a_vector_word"
    (asserts (make_signal 8 (zero_words 1) "00000000" (λ s h, [get_u64 s h (Ok 0)]))).
Definition bool_read_converts_single_bit_values : UnitTest :=
  test "bool_read_converts_single_bit_values"
    (asserts (make_signal 1 [vec 0 0] "0" (λ s h, [get_bool s h (Ok false)]) ++
              make_signal 1 [vec 1 0] "1" (λ s h, [get_bool s h (Ok true)]))).
Definition bool_read_rejects_wide_and_four_state_values : UnitTest :=
  test "bool_read_rejects_wide_and_four_state_values"
    (asserts (make_signal 2 [vec 1 0] "01" (λ s h, [get_bool s h (Err (Width 1 2))]) ++
              make_signal 1 [vec 1 1] "x" (λ s h, [get_bool s h (Err (FourState "x"))]))).
Definition vector_read_reports_an_unavailable_vpi_result : UnitTest :=
  test "vector_read_reports_an_unavailable_vpi_result"
    (asserts (make_signal 8 (zero_words 1) "00000000" (λ s0 h,
       let s := make_vector_value_unavailable s0 in
       [get_u64 s h (Err Unavailable); get_bigint s h (Err Unavailable);
        match Signals.get_logic (B := N) (Gpi.sig h) (Gpi.value h s) with Done (Err Unavailable) => true | _ => false end]))).
Definition bigint_read_supports_values_wider_than_u64 : UnitTest :=
  test "bigint_read_supports_values_wider_than_u64"
    (asserts (make_signal 70 [vec 0x89abcdef 0; vec 0x01234567 0; vec 0xffffffea 0xffffffc0]
       "1010100000000100100011010001010110011110001001101010111100110111101111"
       (λ s h, [get_bigint s h (Ok 0x2a0123456789abcdef%N)]))).
Definition bigint_read_reports_xz_in_used_bits : UnitTest :=
  test "bigint_read_reports_xz_in_used_bits"
    (let text := "x" +:+ zeros 64 in
     asserts (make_signal 65 [vec 0 0; vec 0 0; vec 1 1] text (λ s h, [get_bigint s h (Err (FourState text))]))).
Definition vector_write_truncates_and_zero_extends_to_signal_width : UnitTest :=
  test "vector_write_truncates_and_zero_extends_to_signal_width"
    (asserts (make_signal 8 (zero_words 1) "00000000" (λ s h, put_is (Gpi.set_u64_now h 0xffffffffffffffa5 s) [0xa5]) ++
              make_signal 37 (zero_words 2) (zeros 37) (λ s h, put_is (Gpi.set_u64_now h 0xfffffff589abcdef s) [0x89abcdef; 0x15]) ++
              make_signal 70 (zero_words 3) (zeros 70) (λ s h, put_is (Gpi.set_u64_now h 0x0123456789abcdef s) [0x89abcdef; 0x01234567; 0]))).
Definition typed_integer_setters_write_vpi_words : UnitTest :=
  test "typed_integer_setters_write_vpi_words"
    (asserts (make_signal 1 (zero_words 1) "0" (λ s h, put_is (Gpi.set_bool_now h true s) [1]) ++
              make_signal 8 (zero_words 1) "00000000" (λ s h, put_is (Gpi.set_u8_now h 0xa5 s) [0xa5]) ++
              make_signal 16 (zero_words 1) (zeros 16) (λ s h, put_is (Gpi.set_u16_now h 0xa5b6 s) [0xa5b6]) ++
              make_signal 32 (zero_words 1) (zeros 32) (λ s h, put_is (Gpi.set_u32_now h 0xa5b6c7d8 s) [0xa5b6c7d8]) ++
              make_signal 128 (zero_words 4) (zeros 128) (λ s h,
                put_is (Gpi.set_u128_now h 0x0123456789abcdeffedcba9876543210 s) [0x76543210; 0xfedcba98; 0x89abcdef; 0x01234567]))).
Definition bigint_setter_writes_and_zero_extends_vpi_words : UnitTest :=
  test "bigint_setter_writes_and_zero_extends_vpi_words"
    (let value : N := bu_from_slice [0x76543210; 0xfedcba98; 0x89abcdef; 0x01234567; 0xa5a55a5a] in
     asserts (make_signal 192 (zero_words 6) (zeros 192) (λ s h,
       put_is (Gpi.set_bigint_now h value s) [0x76543210; 0xfedcba98; 0x89abcdef; 0x01234567; 0xa5a55a5a; 0]))).
Definition vector_word_mask_clears_unused_aval_and_bval_bits : UnitTest :=
  test "vector_word_mask_clears_unused_aval_and_bval_bits"
    (asserts (make_signal 37 (zero_words 2) (zeros 37) (λ s h,
       match Signals.mask_vector_words (Gpi.sig h) [vec u32_max u32_max; vec u32_max u32_max] with
       | Done ws => [bool_decide (ws = [vec u32_max u32_max; vec 0x1f 0x1f])] | Panic _ => [false] end))).
Definition logic_array_write_uses_vpi_vector_words : UnitTest :=
  test "logic_array_write_uses_vpi_vector_words"
    (asserts (make_signal 4 (zero_words 1) "binary-string path must not be used" (λ s h,
       puts (Gpi.set_logic_now h (LogicArray.from_binstr (B := N) "01xz") s) (λ ws, [bool_decide (ws = [vec 6 3])])))).

(** [make_signal] with the double's record of what is asked of it:
    [classify] asks for the type, and for the size of what is a signal. *)
Definition ask_both (h : Gpi.ObjHandle) (s : Stub) : Stub * Gpi.AnyHandle :=
  let '(s1, t) := vpi_get vpiType (Gpi.ptr h) s in
  (if bool_decide (answer 0 t ∈ Handles.logic_types) then (vpi_get vpiSize (Gpi.ptr h) s1).1 else s1, Gpi.classify h s).
Definition signal_width_is_cached_when_the_handle_is_classified : UnitTest :=
  test "signal_width_is_cached_when_the_handle_is_classified"
    (asserts (match configure_signal 37 (zero_words 2) (zeros 37) (reset_property_gets initial) with
       | Panic _ => [false]
       | Done s => match ask_both object s with
         | (s', Gpi.Logic h) =>
             [Nat.eqb (Gpi.width h) 37; Nat.eqb (Gpi.width h) 37;
              Nat.eqb (property_get_count vpiType s') 1; Nat.eqb (property_get_count vpiSize s') 1]
         | _ => [false]
         end
       end)).

Definition all : list UnitTest :=
  [signal_width_is_cached_when_the_handle_is_classified; sv_integral_variables_support_vector_access; non_logic_variables_have_typed_handles;
   top_selection_prefers_explicit_name_and_otherwise_uses_first_root; vector_read_uses_vpi_word_order_and_masks_unused_bits;
   vector_read_reports_xz_in_used_bits; logic_array_read_uses_vpi_vector_words;
   vector_read_returns_numeric_zero_from_a_vector_word; bool_read_converts_single_bit_values;
   bool_read_rejects_wide_and_four_state_values; vector_read_reports_an_unavailable_vpi_result;
   bigint_read_supports_values_wider_than_u64; bigint_read_reports_xz_in_used_bits;
   vector_write_truncates_and_zero_extends_to_signal_width; typed_integer_setters_write_vpi_words;
   bigint_setter_writes_and_zero_extends_vpi_words; vector_word_mask_clears_unused_aval_and_bval_bits;
   logic_array_write_uses_vpi_vector_words].
End HandleTests.

Definition suite : list UnitTest :=
  ValueTests.all ++ VpiWordTests.all ++ CallbackTests.all ++ HandleTests.all.

Lemma gpi_suite_passes : forallb passes suite = true.
Proof. vm_compute. reflexivity. Qed.
End UnitGpi.
