(* ===== verification/UnitTests.v ===== *)
(** * UnitTests: the unit tests of the crates together.

    Every [#[test]] function modelled in UnitSim.v, UnitTlm.v, UnitNodes.v and
    UnitGpi.v, in one suite. *)
From S2P Require Import Prelude Runner UnitKit UnitSim UnitTlm UnitNodes UnitGpi.

Module UnitTests.
Import UnitKit.

Definition suite : list UnitTest := UnitSim.suite ++ UnitTlm.suite ++ UnitNodes.suite ++ UnitGpi.suite.

(** Every unit test modelled comes to an end on the model of the code it
    tests: those marked [should_panic] panic with the text the attribute names,
    and every other one returns, each of its assertions holding.  They are 145
    tests, run on the same definitions as the theorems of the components. *)
Theorem unit_suite_passes :
  length suite = 145%nat ∧
  Forall (λ t, match should_panic t with
               | None => runs t = Some (Done tt)
               | Some expected => ∃ m, runs t = Some (Panic m) ∧ mentions m expected = true
               end) suite.
Proof.
  split; [vm_compute; reflexivity|].
  assert (forallb passes suite = true) as H.
  { unfold suite. by rewrite !forallb_app, UnitSim.sim_suite_passes, UnitTlm.tlm_suite_passes, UnitNodes.nodes_suite_passes, UnitGpi.gpi_suite_passes. }
  apply Forall_forall. intros t Ht. rewrite forallb_forall in H. specialize (H t (proj1 (list_elem_of_In _ _) Ht)).
  unfold passes in H. destruct (runs t) as [[[]|m]|], (should_panic t) as [e|]; try done. by exists m.
Qed.
End UnitTests.
